(* ===== verification/_CoqProject ===== *)
-Q . S2P
Prelude.v
GoStrings.v
GoRegexp.v
GoSort.v
GoFloat.v
GoPath.v
KubeApi.v
Builder.v
NdmConfig.v
Client.v
Event.v
NodeAffinity.v
VolumeBuilder.v
ContainerBuilder.v
PodList.v
PodBuilder.v
PodTemplate.v
Deployment.v
PersistentVolume.v
PersistentVolumeClaim.v
CachedClient.v
PodClient.v
EventClient.v
PvcClient.v
PvClient.v
ClassClient.v
DeploymentClient.v
Clients.v
Maya.v
Cluster.v
VolumeConfig.v
HelperHostpath.v
HelperPods.v
Quota.v
StorageClass.v
ClassLimits.v
ClassConfig.v
ClassVolume.v
ConfigParser.v
HelperBlockdevice.v
Provisioner.v
Startup.v
Process.v
Hostpath.v
HostpathDelete.v
HelperTrace.v
ProvisionerSpec.v
BlockdeviceSpec.v
Session.v
PodTyping.v
Interleaving.v
Progress.v
Reference.v
Witnesses.v
