(* ===== verification/Prelude.v ===== *)
(** * OpenEBS dynamic Local PV provisioner: a verification development

    The program (src/cmd/provisioner-localpv and src/pkg) is an out-of-tree volume provisioner for
    Kubernetes.  Its controller, a library, calls [Provision] for a claim and [Delete] for a
    volume; for volumes on host directories the provisioner runs short-lived helper pods on the
    node, which create the directory, set a quota on it or remove it, and for volumes on block
    devices it claims a device from the node disk manager (NDM).  Around this core there are the
    builders of API objects, the options of StorageClasses, and a client per kind of object.

    ** Parts and files

    Ground.  This file: Go's maps, slices and errors, the state-and-error monad [M], record
    update, map iteration in an arbitrary order ([MapOrder]), tactics.  [GoStrings], [GoRegexp],
    [GoSort], [GoFloat] and [GoPath] are the parts of Go's standard library that the source calls
    (package strings and strconv; regexp by derivatives; sort.Stable; float64 parsing and
    multiplication by rounding to 53 bits; path/filepath).  [KubeApi] has the API objects with the
    fields that are read or written; quantities, probes and other types that are passed through
    are fields of the class [ApiTypes].  [Maya] is the interface of the packages of
    github.com/openebs/maya (YAML of the configuration, paths below the root, environment), with
    the documented behaviour that proofs rely on in the class [MayaLaws].  [Cluster] is the API
    server, NDM, the clock and the alert log: the code runs over a [World] that records every call
    with its answer, and [emits] is the logic of what a program adds to that trace.

    Builders, one file per package of src/pkg/kubernetes/api/core/v1 and apps/v1: [VolumeBuilder],
    [ContainerBuilder], [PodBuilder], [PodTemplate], [Deployment] (deployment.go,
    rollout_status.go), [PersistentVolume] and [NodeAffinity], [PersistentVolumeClaim]; [Builder]
    has what they share: a builder is an object with the errors found so far, and the class of
    builder laws from which each refinement theorem follows.  [PodList] and [Event] are the lists
    of pods and events; lists that share objects or are changed in place live in a store.

    Provisioner (src/cmd/provisioner-localpv/app): [VolumeConfig] (config.go, types.go),
    [HelperHostpath] (helper_hostpath.go), [HelperBlockdevice] (helper_blockdevice.go),
    [Provisioner] (provisioner.go, provisioner_hostpath.go, provisioner_blockdevice.go, env.go)
    [Startup] (start.go, backward_compatability.go) and [Process] (main.go, the command of
    start.go, pkg/logger) hold the code.  What it does is proved in [HelperPods] (the life and
    contents of helper pods), [Quota] (limits), [Hostpath] and [HostpathDelete] (the traces of the
    two calls), [HelperTrace] (what both do to helper pods, in one relation), [ProvisionerSpec]
    (what follows for a caller), [BlockdeviceSpec] (devices), [Startup], [Process], [Session] (calls
    in any order, interleaved with any change of the cluster), [PodTyping] (the objects are well
    formed), [Interleaving] (workers that run at once) and [Progress] (calls that complete on a
    cluster that answers).

    StorageClasses (src/pkg/kubernetes/api/storage/v1/storageclass): [StorageClass] is the code;
    [ClassLimits], [ClassConfig] and [ClassVolume] prove what a class built by the options holds
    and that the provisioner reads it back.  [ConfigParser] is a parser of the annotation's text,
    used only to show that the hypotheses about the YAML package can be met.

    Clients: [Client] (src/pkg/kubernetes/client), [CachedClient] (the design that all the
    kubernetes.go files repeat, with the contract [Package]), [PodClient], [EventClient],
    [PvcClient], [PvClient], [ClassClient] and [DeploymentClient] (the six packages) and [Clients]
    (the contract for all).  [NdmConfig] is src/pkg/kubernetes/ndmconfig.

    [Reference] instantiates the parameters with concrete functions, and [Witnesses] applies each
    theorem that has hypotheses to one run.

    ** Correspondence

    A definition has the name of the Go function it models.  A method of a builder takes the
    builder last.  An error is kept as the call that made it ([Errorf], [Wrapf]).  A nil
    dereference, a write to a nil map or an index out of range is [Panic].  Pointers that the code
    compares with nil are options; nil and empty maps and slices are kept apart where the code
    tells them apart.  [defer] is [deferred], which runs its call also when the body panics,
    and panics when its call does.

    ** What the theorems show

    Of [Provision] and [Delete]: the volume that is returned, field by field; which claims are
    refused and in what state; that deleting removes exactly the directory that provisioning
    created, on the same nodes, and which directory a cleanup pod removes, strictly below the
    parent that is mounted when the path is absolute and clean; that helper
    pods do not outlive the calls and no other pod is deleted; where a panic can come from;
    that the pods submitted and the volumes returned are well formed; that workers on disjoint sets
    of volumes, whose calls are interleaved in any way, never meet on a pod; and that on a live
    cluster a request in order gets its volume and a volume that can be removed is removed.  Of the
    process: the controller starts last, logging is set up before the provisioner starts, the exit
    code, and when the logs are flushed.  Of
    quotas: the limits that reach the script, their bounds and monotonicity with the rounding of
    float64, and that limits a class accepts are convertible.  Of devices: bounded waiting, the
    device or the claim is given back, finalizers before deletion.  Of the configuration: entries
    of the class over defaults, and that a class built by the options configures the volume as
    asked.  Of builders: the object of the chain of calls or all its errors.  Of lists: filters,
    stable sorting, sharing.  Of clients: which configuration is chosen, and one clientset per
    client whatever is done with it.

    ** Bounds and fuel

    Loops over data are structural.  Polling loops have the counts of the code as fuel:
    [CmdTimeoutCounts] is 120 and [WaitForBDTimeoutCounts] is never assigned, so 0; reaching 0 is
    the exit of the code's loop, not a failure of the model.  The progress theorems ask that helper
    pods succeed within [d] seconds with [d] below [CmdTimeoutCounts], since the code polls once per
    second; [Reference.slow] is a cluster where [d] is 3.  The printing of numbers uses the
    size of the number in bits as fuel, which [dec_fuel_enough] shows to be enough.  32-bit counts
    of a deployment wrap where the code subtracts; quantities are 64-bit integers that the code
    only compares and converts, and [GoFloat] has the conversion's rounding; the bounds of
    converted limits are proved for requests of up to 64 TiB, where it does not show.

    ** Not modelled

    Code outside the repository: the controller library, client-go, maya, NDM, YAML and JSON; they
    are parameters, and so are the packages flag, pflag, klog and cobra in [Process].  doc.go, which
    holds comments only, and the integration tests under tests/, which drive a live cluster.
    Contexts are not modelled: the code only passes them on.  Time is the number of seconds slept.
    Goroutines are recorded as calls when they are started: the one that sends the ping events and
    the one that flushes the logs run code of other packages.  Two calls of the provisioner that run
    at once share no state of the program; what they do to each other through the cluster is covered
    by the theorems' arbitrary cluster, whose state may change at every request, and by
    [Interleaving]. *)

From stdpp Require Export base gmap strings list sorting.

Declare Scope go_scope.
Delimit Scope go_scope with go.
#[global] Open Scope go_scope.

(** ** Go values that need care: nil maps, nil slices, error values *)

(** A Go map; [None] is the nil map, on which lookups succeed and writes panic. *)
Abbreviation gomap V := (option (gmap string V)) (only parsing).

(** A Go slice where the code tells nil from empty; elsewhere a plain list is used. *)
Abbreviation slice A := (option (list A)) (only parsing).

Definition mget {V} (m : gomap V) (k : string) : option V := m ≫= (.!! k).

Definition mlen {V} (m : gomap V) : nat := match m with Some m => size m | None => 0 end.

(** [m[k]] for a map of strings: the zero value when the key is absent. *)
Definition mget_str (m : gomap string) (k : string) : string := default ""%string (mget m k).

Definition slice_list {A} (s : slice A) : list A := default [] s.

Definition slice_len {A} (s : slice A) : nat := length (slice_list s).

(** [append(s, xs...)]. *)
Definition slice_append {A} (s : slice A) (xs : list A) : slice A :=
  match s, xs with
  | None, [] => None
  | _, _ => Some (slice_list s ++ xs)
  end.

(** An [error] is kept as the call that built it: the format, its arguments and, for
    [errors.Wrap]/[Wrapf], the cause.  [External] is an error value returned by code outside
    the repository. *)
Inductive error : Type :=
| Errorf (fmt : string) (args : list arg)
| Wrapf (cause : error) (fmt : string) (args : list arg)
| External (what : string)
with arg : Type :=
| AStr (s : string)
| AInt (z : Z)
| AMap (m : gmap string string)
| AErr (e : error)
| AErrs (es : list error)
| AOther.

Definition ErrNew (msg : string) : error := Errorf msg [].

(** ** Outcomes and the state monad

    [Ret] is a return with a nil error, [Fail] a return with a non-nil one, [Panic] a run-time
    panic (nil dereference, index out of range). *)
Inductive outcome (E A : Type) : Type :=
| Ret (a : A)
| Fail (e : E)
| Panic.
Arguments Ret {E A} a.
Arguments Fail {E A} e.
Arguments Panic {E A}.

#[global] Instance outcome_ret E : MRet (outcome E) := fun A a => Ret a.

#[global] Instance outcome_bind E : MBind (outcome E) := fun A B f m =>
  match m with
  | Ret a => f a
  | Fail e => Fail e
  | Panic => Panic
  end.

Definition is_Ret {E A} (o : outcome E A) : bool :=
  match o with Ret _ => true | _ => false end.

(** Stateful code: [S] is the state of the world the code talks to. *)
Definition M (S E A : Type) : Type := S -> S * outcome E A.

#[global] Instance M_ret S E : MRet (M S E) := fun A a s => (s, Ret a).

#[global] Instance M_bind S E : MBind (M S E) := fun A B f m s =>
  match m s with
  | (s', Ret a) => f a s'
  | (s', Fail e) => (s', Fail e)
  | (s', Panic) => (s', Panic)
  end.

Definition throw {S E A} (e : E) : M S E A := fun s => (s, Fail e).

Definition panic {S E A} : M S E A := fun s => (s, Panic).

Definition lift {S E A} (o : outcome E A) : M S E A := fun s => (s, o).

(** [if err != nil { ... }] on the result of a call: the handler decides what is returned. *)
Definition on_err {S E F A} (m : M S E A) (h : E -> M S F A) : M S F A := fun s =>
  match m s with
  | (s', Ret a) => (s', Ret a)
  | (s', Fail e) => h e s'
  | (s', Panic) => (s', Panic)
  end.

(** A call whose error is inspected by the caller: the result is a value or an error. *)
Definition attempt {S E F A} (m : M S E A) : M S F (A + E) := fun s =>
  match m s with
  | (s', Ret a) => (s', Ret (inl a))
  | (s', Fail e) => (s', Ret (inr e))
  | (s', Panic) => (s', Panic)
  end.

(** Dereference of a pointer. *)
Definition deref {E A} (p : option A) : outcome E A :=
  match p with Some a => Ret a | None => Panic end.

(** ** Record update

    [r <| f := v |>] is the record [r] with field [f] set to [v], for the record types that have
    an [Eta] instance (the record rebuilt from its fields). *)
Class Eta (R : Type) := eta : R -> R.
Class Setter {R T : Type} (proj : R -> T) := set : (T -> T) -> R -> R.
Arguments set {R T} proj {_} f r / : simpl nomatch.

Ltac derive_setter proj :=
  match type of proj with
  | ?R -> ?T =>
    let e := constr:(_ : Eta R) in
    let e := eval hnf in e in
    match eval pattern proj in e with
    | ?s _ => let t := eval cbv beta in (fun f : T -> T => s (fun r => f (proj r))) in exact t
    end
  end.

#[export] Hint Extern 1 (Setter ?proj) => derive_setter proj : typeclass_instances.

Notation "r <| f := v |>" := (set f (fun _ => v) r)
  (at level 1, left associativity, f at level 1, v at level 99) : go_scope.
Notation "r <| f ::= g |>" := (set f g r)
  (at level 1, left associativity, f at level 1, g at level 99) : go_scope.

(** ** Iteration over a map

    The order of [range] over a Go map is unspecified, so it is a parameter: any function that
    lists the bindings of the map, each once. *)
Class MapOrder := {
  map_range : forall {V : Type}, gmap string V -> list (string * V);
  map_range_perm : forall V (m : gmap string V), map_range m ≡ₚ map_to_list m }.

(** One order among the possible ones; used to evaluate the model on concrete inputs. *)
Definition sorted_order : MapOrder :=
  {| map_range := fun V m => map_to_list m; map_range_perm := fun V m => reflexivity _ |}.

(** [for k, v := range m { dst[k] = v }]. *)
Definition copy_into {O : MapOrder} (m dst : gmap string string) : gmap string string :=
  foldl (fun acc kv => <[kv.1 := kv.2]> acc) dst (map_range m).

(** ** Shared lemmas *)

Lemma Ret_inj {E A} (a b : A) : Ret (E := E) a = Ret b -> a = b.
Proof. congruence. Qed.

Lemma mget_Some {V} (m : gmap string V) k : mget (Some m) k = m !! k.
Proof. done. Qed.

Lemma mlen_zero {V} (m : gomap V) : mlen m = 0 <-> m = None \/ m = Some ∅.
Proof.
  destruct m as [m|]; simpl; [|intuition congruence].
  rewrite map_size_empty_iff. intuition congruence.
Qed.

(** [len(m) == 0]. *)
Definition no_entries {V} (m : gomap V) : bool := bool_decide (default ∅ m = ∅).

Lemma mlen_empty {V} (m : gomap V) : (mlen m =? 0)%nat = no_entries m.
Proof.
  apply eq_true_iff_eq. unfold no_entries. rewrite Nat.eqb_eq, bool_decide_eq_true, mlen_zero.
  destruct m; cbn; intuition congruence.
Qed.

Lemma no_entries_true {V} (m : gomap V) : no_entries m = true <-> default ∅ m = ∅.
Proof. apply bool_decide_eq_true. Qed.

Lemma map_range_elem {O : MapOrder} {V} (m : gmap string V) k v :
  (k, v) ∈ map_range m <-> m !! k = Some v.
Proof. rewrite (map_range_perm V m). apply elem_of_map_to_list. Qed.

Lemma map_range_NoDup {O : MapOrder} {V} (m : gmap string V) : NoDup (map_range m).*1.
Proof. rewrite (map_range_perm V m). apply NoDup_fst_map_to_list. Qed.

Lemma map_range_nil {O : MapOrder} {V} (m : gmap string V) : map_range m = [] <-> m = ∅.
Proof.
  split.
  - intros Hnil. apply map_to_list_empty_iff, Permutation_nil_r.
    by rewrite <- (map_range_perm V m), Hnil.
  - intros ->. apply Permutation_nil_r. rewrite (map_range_perm V ∅).
    by rewrite map_to_list_empty.
Qed.

Lemma foldl_insert_lookup {V} (l : list (string * V)) (dst : gmap string V) k :
  NoDup l.*1 ->
  foldl (fun acc kv => <[kv.1 := kv.2]> acc) dst l !! k
  = match (list_to_map l : gmap string V) !! k with Some v => Some v | None => dst !! k end.
Proof.
  revert dst. induction l as [|[k' v'] l IH]; intros dst Hnd; simpl.
  { by rewrite lookup_empty. }
  apply NoDup_cons in Hnd as [Hnin Hnd]. rewrite (IH _ Hnd). simpl.
  destruct (decide (k' = k)) as [->|Hne].
  - rewrite lookup_insert_eq. apply not_elem_of_list_to_map in Hnin. simpl in Hnin.
    by rewrite Hnin, lookup_insert_eq.
  - by rewrite !lookup_insert_ne.
Qed.

(** Whatever the order, the copy is the left-biased union of the two maps. *)
Lemma copy_into_union {O : MapOrder} (m dst : gmap string string) : copy_into m dst = m ∪ dst.
Proof.
  apply map_eq. intros k. unfold copy_into.
  rewrite foldl_insert_lookup by apply map_range_NoDup.
  rewrite lookup_union. unfold union_with, option_union_with.
  assert ((list_to_map (map_range m) : gmap string string) = m) as ->.
  { rewrite <- (list_to_map_to_list m) at 2.
    apply list_to_map_proper; [apply map_range_NoDup | apply map_range_perm]. }
  by destruct (m !! k), (dst !! k).
Qed.

Lemma forallb_Forall_true {A} (f : A -> bool) l : forallb f l = true <-> Forall (fun x => f x = true) l.
Proof.
  rewrite forallb_forall, Forall_forall.
  split; intros H x Hx; apply H; by apply list_elem_of_In.
Qed.

Lemma filter_none {X} (P : X -> Prop) `{!forall x, Decision (P x)} (l : list X) :
  Forall (fun x => ~ P x) l -> filter P l = [].
Proof. induction 1 as [|x l Hx _ IH]; [done|]. by rewrite filter_cons, decide_False. Qed.

Lemma filter_all {X} (P : X -> Prop) `{!forall x, Decision (P x)} (l : list X) :
  Forall P l -> filter P l = l.
Proof. induction 1 as [|x l Hx _ IH]; [done|]. by rewrite filter_cons, decide_True, IH. Qed.

(** ** Automation *)

Create HintDb go discriminated.
Create Rewrite HintDb go.
#[export] Hint Rewrite @app_nil_r @app_nil_l @copy_into_union : go.

(** Case analysis on every [match]/[if] scrutinee of the goal. *)
Ltac split_goal :=
  repeat match goal with
  | |- context [match ?x with _ => _ end] =>
    lazymatch x with
    | context [match _ with _ => _ end] => fail
    | _ => let H := fresh "Heq" in destruct x eqn:H
    end
  end.

(** Case analysis on the scrutinees of a hypothesis, closing the impossible branches. *)
Ltac split_in H :=
  repeat match type of H with
  | context [match ?x with _ => _ end] =>
    lazymatch x with
    | context [match _ with _ => _ end] => fail
    | _ => let E := fresh "Heq" in destruct x eqn:E; try discriminate H
    end
  end.

(** Turns boolean tests on strings and numbers into propositions. *)
Ltac bool_to_prop :=
  repeat match goal with
  | H : _ && _ = true |- _ => apply andb_true_iff in H as [? ?]
  | H : _ || _ = false |- _ => apply orb_false_iff in H as [? ?]
  | H : negb _ = true |- _ => apply negb_true_iff in H
  | H : negb _ = false |- _ => apply negb_false_iff in H
  | H : String.eqb _ _ = true |- _ => apply String.eqb_eq in H
  | H : String.eqb _ _ = false |- _ => apply String.eqb_neq in H
  | H : bool_decide _ = true |- _ => apply bool_decide_eq_true in H
  | H : bool_decide _ = false |- _ => apply bool_decide_eq_false in H
  | H : Nat.eqb _ _ = true |- _ => apply Nat.eqb_eq in H
  | H : Nat.eqb _ _ = false |- _ => apply Nat.eqb_neq in H
  end.
