(* ===== verification/GoStrings.v ===== *)
(** * The string functions of Go's standard library that the source calls

    A Go string is a sequence of bytes, here Stdlib's [string].  [len] counts bytes.  The
    functions are those of the packages [strings] and [strconv]: TrimSpace, TrimSuffix,
    HasPrefix, Contains, Split, ReplaceAll, ToUpper, ToLower, ParseBool, the order [<] on
    strings and the decimal rendering of integers, with the facts about them that the
    components use. *)

From Stdlib Require Export Ascii.
From S2P Require Import Prelude.
Open Scope string_scope.

Abbreviation len := String.length (only parsing).
#[global] Arguments String.append : simpl nomatch.

(** ** Characters *)

(** The double quote, which is not written inside string literals here. *)
Definition dq : string := String (ascii_of_nat 34) "".
(** The newline. *)
Definition nl : string := String (ascii_of_nat 10) "".

Definition code (a : ascii) : N := N_of_ascii a.

Definition is_digit (a : ascii) : bool := (48 <=? code a)%N && (code a <=? 57)%N.

(** ** strings.TrimSpace

    White space is that of [unicode.IsSpace]: six one-byte characters, and the two- and
    three-byte UTF-8 encodings of U+0085, U+00A0, U+1680, U+2000..U+200A, U+2028, U+2029,
    U+202F, U+205F and U+3000. *)

Definition is_space1 (a : ascii) : bool :=
  bool_decide (code a ∈ [9; 10; 11; 12; 13; 32]%N).

Definition is_space2 (a b : ascii) : bool :=
  bool_decide ((code a, code b) ∈ [(194, 133); (194, 160)]%N).

Definition is_space3 (a b c : ascii) : bool :=
  let a := code a in let b := code b in let c := code c in
  ((a =? 225) && (b =? 154) && (c =? 128)
   || (a =? 226) && (b =? 128) && ((128 <=? c) && (c <=? 138) || (c =? 168) || (c =? 169) || (c =? 175))
   || (a =? 226) && (b =? 129) && (c =? 159)
   || (a =? 227) && (b =? 128) && (c =? 128))%N%bool.

(** Drops the leading white space; [sp2] and [sp3] recognise the encodings of several bytes in
    the order in which they are met. *)
Fixpoint trim_with (sp2 : ascii -> ascii -> bool) (sp3 : ascii -> ascii -> ascii -> bool)
    (s : string) : string :=
  match s with
  | "" => ""
  | String a s1 =>
    if is_space1 a then trim_with sp2 sp3 s1 else
    match s1 with
    | "" => s
    | String b s2 =>
      if sp2 a b then trim_with sp2 sp3 s2 else
      match s2 with
      | "" => s
      | String c s3 => if sp3 a b c then trim_with sp2 sp3 s3 else s
      end
    end
  end.

Definition srev (s : string) : string := String.string_of_list_ascii (rev (String.list_ascii_of_string s)).

Definition TrimLeft (s : string) : string := trim_with is_space2 is_space3 s.

Definition TrimRight (s : string) : string :=
  srev (trim_with (fun b a => is_space2 a b) (fun c b a => is_space3 a b c) (srev s)).

Definition TrimSpace (s : string) : string := TrimRight (TrimLeft s).

(** ** Prefixes, suffixes, substrings *)

Fixpoint HasPrefix (s p : string) : bool :=
  match p, s with
  | "", _ => true
  | String b p', String a s' => Ascii.eqb a b && HasPrefix s' p'
  | String _ _, "" => false
  end.

Fixpoint sdrop (n : nat) (s : string) : string :=
  match n, s with
  | 0, _ => s
  | S n', String _ s' => sdrop n' s'
  | S _, "" => ""
  end.

Definition TrimPrefix (s p : string) : string := if HasPrefix s p then sdrop (len p) s else s.

(** [strings.TrimSuffix]. *)
Definition TrimSuffix (s p : string) : string := srev (TrimPrefix (srev s) (srev p)).

(** [strings.Contains]. *)
Fixpoint Contains (s sub : string) : bool :=
  HasPrefix s sub || match s with "" => false | String _ s' => Contains s' sub end.

(** [strings.Split] for a one-character separator. *)
Fixpoint SplitChar (sep : ascii) (s : string) : list string :=
  match s with
  | "" => [""]
  | String a s' =>
    if Ascii.eqb a sep then "" :: SplitChar sep s'
    else match SplitChar sep s' with
         | w :: ws => String a w :: ws
         | [] => [String a ""]
         end
  end.

(** [strings.ReplaceAll(s, old, "")]: the occurrences of [old], from the left and without
    overlap, are removed; an empty [old] matches between characters and changes nothing. *)
Fixpoint remove_all_from (skip : nat) (s old : string) : string :=
  match s with
  | "" => ""
  | String a s' =>
    match skip with
    | S n => remove_all_from n s' old
    | 0 => if HasPrefix s old then remove_all_from (len old - 1) s' old
           else String a (remove_all_from 0 s' old)
    end
  end.

Definition ReplaceAllEmpty (s old : string) : string :=
  match old with "" => s | _ => remove_all_from 0 s old end.

(** ** Case; the source applies these to ASCII text *)

Definition upper_char (a : ascii) : ascii :=
  if ((97 <=? code a) && (code a <=? 122))%N then ascii_of_N (code a - 32) else a.

Definition lower_char (a : ascii) : ascii :=
  if ((65 <=? code a) && (code a <=? 90))%N then ascii_of_N (code a + 32) else a.

Fixpoint smap (f : ascii -> ascii) (s : string) : string :=
  match s with "" => "" | String a s' => String (f a) (smap f s') end.

Definition ToUpper (s : string) : string := smap upper_char s.
Definition ToLower (s : string) : string := smap lower_char s.

(** [strconv.ParseBool]; [None] is the error. *)
Definition ParseBool (s : string) : option bool :=
  if bool_decide (s ∈ ["1"; "t"; "T"; "true"; "TRUE"; "True"]) then Some true
  else if bool_decide (s ∈ ["0"; "f"; "F"; "false"; "FALSE"; "False"]) then Some false
  else None.

(** ** The order on strings: byte by byte, a proper prefix first *)
Fixpoint str_ltb (s t : string) : bool :=
  match s, t with
  | _, "" => false
  | "", String _ _ => true
  | String a s', String b t' =>
    if (code a <? code b)%N then true
    else if (code b <? code a)%N then false else str_ltb s' t'
  end.

(** ** Decimal rendering of a natural number *)

Definition digit_char (d : N) : ascii := ascii_of_N (48 + d).

(** Least significant digit first; the fuel is a bound on the number of digits. *)
Fixpoint dec_digits (fuel : nat) (n : N) : list N :=
  match fuel with
  | 0 => []
  | S f => if (n <? 10)%N then [n] else (n mod 10)%N :: dec_digits f (n / 10)%N
  end.

Definition digits (n : N) : list N := rev (dec_digits (S (N.to_nat (N.size n))) n).

Definition chars (ds : list N) : string := String.string_of_list_ascii (map digit_char ds).

Definition dec (n : N) : string := chars (digits n).

Definition decZ (z : Z) : string :=
  match z with
  | Zneg p => "-" +:+ dec (Npos p)
  | _ => dec (Z.to_N z)
  end.

(** ** Facts about strings *)

Lemma sapp_assoc (a b c : string) : a +:+ b +:+ c = (a +:+ b) +:+ c.
Proof. induction a as [|x a IH]; simpl; [done|by rewrite IH]. Qed.

Lemma sapp_nil_r (a : string) : a +:+ "" = a.
Proof. induction a as [|x a IH]; simpl; [done|by rewrite IH]. Qed.

Lemma len_app (a b : string) : len (a +:+ b) = len a + len b.
Proof. induction a as [|x a IH]; simpl; [done|by rewrite IH]. Qed.

Lemma len_zero (s : string) : len s = 0 <-> s = "".
Proof. by destruct s. Qed.

Lemma sapp_inj_l (p a b : string) : p +:+ a = p +:+ b -> a = b.
Proof. induction p as [|x p IH]; simpl; [done|]. intros [= H]. by apply IH. Qed.

Lemma sapp_inj_r (a b p : string) : a +:+ p = b +:+ p -> a = b.
Proof.
  revert b. induction a as [|x a IH]; intros [|y b]; simpl; intros H.
  - done.
  - apply (f_equal String.length) in H. simpl in H. rewrite len_app in H. lia.
  - apply (f_equal String.length) in H. simpl in H. rewrite len_app in H. lia.
  - injection H as -> H. f_equal. by apply IH.
Qed.

Lemma la_app (a b : string) :
  String.list_ascii_of_string (a +:+ b)
  = (String.list_ascii_of_string a ++ String.list_ascii_of_string b)%list.
Proof. induction a as [|x a IH]; simpl; [done|by rewrite IH]. Qed.

Lemma sa_app (a b : list ascii) :
  String.string_of_list_ascii (a ++ b)
  = String.string_of_list_ascii a +:+ String.string_of_list_ascii b.
Proof. induction a as [|x a IH]; simpl; [done|by rewrite IH]. Qed.

Lemma len_la (s : string) : length (String.list_ascii_of_string s) = len s.
Proof. induction s as [|x s IH]; simpl; [done|by rewrite IH]. Qed.

Lemma len_sa (l : list ascii) : len (String.string_of_list_ascii l) = length l.
Proof. induction l as [|x l IH]; simpl; [done|by rewrite IH]. Qed.

Lemma srev_app (a b : string) : srev (a +:+ b) = srev b +:+ srev a.
Proof. unfold srev. by rewrite la_app, rev_app_distr, sa_app. Qed.

Lemma srev_srev (s : string) : srev (srev s) = s.
Proof.
  unfold srev. rewrite String.list_ascii_of_string_of_list_ascii, rev_involutive.
  apply String.string_of_list_ascii_of_string.
Qed.

Lemma HasPrefix_spec (s p : string) : HasPrefix s p = true <-> exists t, s = p +:+ t.
Proof.
  revert s. induction p as [|b p IH]; intros s; simpl.
  - split; [by exists s|by destruct s].
  - destruct s as [|a s]; simpl.
    + split; [done|by intros [t H]].
    + rewrite andb_true_iff, Ascii.eqb_eq, IH. split.
      * intros [-> [t ->]]. by exists t.
      * intros [t [= -> ->]]. split; [done|by exists t].
Qed.

Lemma HasPrefix_app (p t : string) : HasPrefix (p +:+ t) p = true.
Proof. apply HasPrefix_spec. by exists t. Qed.

Lemma sdrop_app (p t : string) : sdrop (len p) (p +:+ t) = t.
Proof. induction p as [|a p IH]; simpl; [by destruct t|done]. Qed.

Lemma TrimPrefix_app (p t : string) : TrimPrefix (p +:+ t) p = t.
Proof. unfold TrimPrefix. by rewrite HasPrefix_app, sdrop_app. Qed.

(** [TrimSuffix] removes the suffix once, and leaves a string that lacks it. *)
Lemma TrimSuffix_app (s p : string) : TrimSuffix (s +:+ p) p = s.
Proof. unfold TrimSuffix. by rewrite srev_app, TrimPrefix_app, srev_srev. Qed.

Lemma TrimSuffix_id (s p : string) : (forall t, s <> t +:+ p) -> TrimSuffix s p = s.
Proof.
  intros H. unfold TrimSuffix, TrimPrefix.
  destruct (HasPrefix (srev s) (srev p)) eqn:E; [|apply srev_srev].
  apply HasPrefix_spec in E as [t Ht]. exfalso. apply (H (srev t)).
  rewrite <- (srev_srev s), Ht, srev_app. by rewrite srev_srev.
Qed.

Lemma Contains_spec (s sub : string) :
  Contains s sub = true <-> exists a b, s = a +:+ sub +:+ b.
Proof.
  induction s as [|c s IH]; cbn [Contains]; rewrite orb_true_iff, HasPrefix_spec.
  - split.
    + intros [[t H]|H]; [|done]. exists "", t. done.
    + intros ([|] & b & H); [left; by exists b|done].
  - rewrite IH. split.
    + intros [[t H]|(a & b & ->)]; [by exists "", t|by exists (String c a), b].
    + intros ([|x a] & b & H); [left; by exists b|].
      right. simplify_eq/=. by exists a, b.
Qed.

(** The pieces of [SplitChar], joined by the separator, give the string back. *)
Fixpoint join (sep : ascii) (ws : list string) : string :=
  match ws with
  | [] => ""
  | [w] => w
  | w :: ws' => w +:+ String sep (join sep ws')
  end.

Lemma TrimSuffix_cases (s p : string) :
  s = TrimSuffix s p +:+ p \/ TrimSuffix s p = s.
Proof.
  unfold TrimSuffix, TrimPrefix. destruct (HasPrefix (srev s) (srev p)) eqn:E.
  - apply HasPrefix_spec in E as [t Ht]. left. rewrite Ht, sdrop_app.
    by rewrite <- (srev_srev s), Ht, srev_app, srev_srev at 1.
  - right. apply srev_srev.
Qed.

Lemma SplitChar_nonnil sep s : SplitChar sep s <> [].
Proof.
  destruct s as [|a s]; simpl; [done|].
  destruct (Ascii.eqb a sep); [done|]. by destruct (SplitChar sep s).
Qed.

Lemma SplitChar_join sep s : join sep (SplitChar sep s) = s.
Proof.
  induction s as [|a s IH]; simpl; [done|].
  destruct (Ascii.eqb a sep) eqn:E.
  - apply Ascii.eqb_eq in E as ->.
    destruct (SplitChar sep s) eqn:F; [by apply SplitChar_nonnil in F|].
    simpl in *. by rewrite IH.
  - destruct (SplitChar sep s) as [|w [|w' ws]] eqn:F; [by apply SplitChar_nonnil in F| |];
      simpl in *; by rewrite IH.
Qed.

#[export] Hint Rewrite sapp_nil_r TrimSuffix_app TrimPrefix_app srev_srev len_app : go.

(** ** Text without white space *)

(** ASCII characters that are not white space. *)
Definition graphic (a : ascii) : bool := (33 <=? code a)%N && (code a <=? 126)%N.

Fixpoint all_graphic (s : string) : bool :=
  match s with "" => true | String a s => graphic a && all_graphic s end.

Lemma graphic_not_space1 a : graphic a = true -> is_space1 a = false.
Proof.
  unfold graphic, is_space1. rewrite andb_true_iff, !N.leb_le. intros [H1 H2].
  apply bool_decide_eq_false_2. rewrite !elem_of_cons, elem_of_nil. lia.
Qed.

Lemma graphic_not_space2 a b : graphic a = true \/ graphic b = true -> is_space2 a b = false.
Proof.
  unfold graphic, is_space2. rewrite !andb_true_iff, !N.leb_le. intros H.
  apply bool_decide_eq_false_2. rewrite !elem_of_cons, elem_of_nil.
  intros [[= ? ?]|[[= ? ?]|[]]]; lia.
Qed.

Lemma graphic_not_space3 a b c : graphic a = true \/ graphic c = true -> is_space3 a b c = false.
Proof.
  unfold graphic, is_space3. rewrite !andb_true_iff, !N.leb_le. intros H.
  set (x := code a) in *. set (y := code b). set (z := code c) in *. clearbody x y z.
  assert (x < 225 \/ z < 128)%N as Hxz by lia. clear H.
  destruct (N.eqb_spec x 225), (N.eqb_spec x 226), (N.eqb_spec x 227), (N.eqb_spec y 154),
    (N.eqb_spec y 128), (N.eqb_spec y 129), (N.eqb_spec z 128), (N.leb_spec 128 z),
    (N.leb_spec z 138), (N.eqb_spec z 168), (N.eqb_spec z 169), (N.eqb_spec z 175),
    (N.eqb_spec z 159); cbn; (done || lia).
Qed.

(** Trimming stops at once at a graphic character. *)
Lemma trim_with_graphic sp2 sp3 a s :
  graphic a = true -> (forall b, sp2 a b = false) -> (forall b c, sp3 a b c = false) ->
  trim_with sp2 sp3 (String a s) = String a s.
Proof.
  intros Ha H2 H3. cbn [trim_with]. rewrite graphic_not_space1 by done.
  destruct s as [|b [|c s]]; [done|by rewrite H2|by rewrite H2, H3].
Qed.

Definition head_graphic (s : string) : bool :=
  match s with "" => true | String a _ => graphic a end.

Lemma TrimSpace_graphic s :
  head_graphic s = true -> head_graphic (srev s) = true -> TrimSpace s = s.
Proof.
  intros H1 H2. unfold TrimSpace, TrimRight, TrimLeft.
  assert (trim_with is_space2 is_space3 s = s) as ->.
  { destruct s as [|a s]; [done|]. apply trim_with_graphic; [done|..]; intros.
    - apply graphic_not_space2. by left.
    - apply graphic_not_space3. by left. }
  rewrite <- (srev_srev s) at 2. f_equal. destruct (srev s) as [|a r]; [done|].
  apply trim_with_graphic; [done|..]; intros.
  - apply graphic_not_space2. by right.
  - apply graphic_not_space3. by right.
Qed.

(** A last character that is graphic is never trimmed from the left. *)
Lemma trim_with_keeps sp2 sp3 a r :
  graphic a = true -> (forall b, sp2 b a = false) -> (forall b c, sp3 b c a = false) ->
  trim_with sp2 sp3 (r +:+ String a "") <> "".
Proof.
  intros Ha H2 H3. remember (len r) as n eqn:Hn. revert r Hn.
  induction n as [n IH] using lt_wf_ind. intros [|x [|y [|z r]]] Hn; cbn [String.append].
  - cbn. by rewrite graphic_not_space1.
  - cbn [trim_with]. rewrite (graphic_not_space1 a) by done. rewrite H2. by destruct (is_space1 x).
  - cbn [trim_with]. rewrite (graphic_not_space1 a) by done. rewrite H2, H3.
    by destruct (is_space1 x), (is_space1 y), (sp2 x y).
  - change (trim_with sp2 sp3 (String x (String y (String z (r +:+ String a "")))))
      with (if is_space1 x then trim_with sp2 sp3 (String y (String z r) +:+ String a "")
            else if sp2 x y then trim_with sp2 sp3 (String z r +:+ String a "")
            else if sp3 x y z then trim_with sp2 sp3 (r +:+ String a "")
            else String x (String y (String z (r +:+ String a "")))).
    cbn in Hn. destruct (is_space1 x), (sp2 x y), (sp3 x y z); try done;
      (eapply IH; [|reflexivity]); cbn; lia.
Qed.

Lemma TrimSpace_not_blank a s : graphic a = true -> TrimSpace (String a s) <> "".
Proof.
  intros Ha. unfold TrimSpace, TrimLeft. rewrite trim_with_graphic; [|done|..].
  - unfold TrimRight. change (String a s) with (String a "" +:+ s). rewrite srev_app.
    intros H. apply (f_equal srev) in H. rewrite srev_srev in H. revert H.
    apply trim_with_keeps; [done|..]; intros.
    + apply graphic_not_space2. by left.
    + apply graphic_not_space3. by left.
  - intros. apply graphic_not_space2. by left.
  - intros. apply graphic_not_space3. by left.
Qed.

Lemma all_graphic_app s t : all_graphic (s +:+ t) = all_graphic s && all_graphic t.
Proof.
  induction s as [|a s IH]; [done|]. cbn [String.append all_graphic]. by rewrite IH, andb_assoc.
Qed.

Lemma all_graphic_rev s : all_graphic (srev s) = all_graphic s.
Proof.
  induction s as [|a s IH]; [done|]. change (String a s) with (String a "" +:+ s).
  rewrite srev_app, !all_graphic_app, IH. cbn. by rewrite andb_true_r, andb_comm.
Qed.

Lemma all_graphic_head s : all_graphic s = true -> head_graphic s = true.
Proof. destruct s; [done|]. cbn. by intros [? _]%andb_true_iff. Qed.

(** Text without white space is left alone. *)
Lemma TrimSpace_id s : all_graphic s = true -> TrimSpace s = s.
Proof.
  intros H. apply TrimSpace_graphic; apply all_graphic_head; [done|by rewrite all_graphic_rev].
Qed.

(** ** Decimal numerals *)

Definition val_from (acc : N) (ds : list N) : N := foldl (fun a d => a * 10 + d)%N acc ds.
Definition val (ds : list N) : N := val_from 0 ds.

Lemma val_snoc ds d : val (ds ++ [d]) = (val ds * 10 + d)%N.
Proof. unfold val, val_from. by rewrite foldl_app. Qed.

Lemma dec_digits_val f n : (n < 10 ^ N.of_nat f)%N -> val (rev (dec_digits f n)) = n.
Proof.
  revert n. induction f as [|f IH]; intros n Hn; simpl.
  - change (n < 1)%N in Hn. unfold val. simpl. lia.
  - destruct (N.ltb_spec n 10); [done|]. simpl. rewrite val_snoc, IH.
    + pose proof (N.div_mod n 10). lia.
    + apply N.Div0.div_lt_upper_bound. replace (N.of_nat (S f)) with (N.succ (N.of_nat f)) in Hn by lia.
      rewrite N.pow_succ_r' in Hn. lia.
Qed.

Lemma dec_fuel_enough n : (n < 10 ^ N.of_nat (S (N.to_nat (N.size n))))%N.
Proof.
  assert (n < 2 ^ N.size n)%N as H by apply N.size_gt.
  eapply N.lt_le_trans; [apply H|].
  etransitivity; [apply (N.pow_le_mono_l 2 10); lia|]. apply N.pow_le_mono_r; lia.
Qed.

Lemma digits_val n : val (digits n) = n.
Proof. unfold digits. apply dec_digits_val, dec_fuel_enough. Qed.

Lemma digits_lt10 n : Forall (fun d => d < 10)%N (digits n).
Proof.
  unfold digits. apply Forall_rev. generalize (S (N.to_nat (N.size n))) as f. intros f.
  revert n. induction f as [|f IH]; intros n; simpl; [constructor|].
  destruct (N.ltb_spec n 10); [by repeat constructor|].
  constructor; [|done]. apply N.mod_lt. lia.
Qed.

(** A numeral has no superfluous leading zero: its length gives its magnitude. *)
Lemma dec_digits_length f n :
  (n < 10 ^ N.of_nat f)%N -> n <> 0%N ->
  exists k, length (dec_digits f n) = S k
    /\ (10 ^ N.of_nat k <= n)%N /\ (n < 10 ^ N.of_nat (S k))%N.
Proof.
  revert n. induction f as [|f IH]; intros n Hf Hn; simpl.
  { change (n < 1)%N in Hf. lia. }
  destruct (N.ltb_spec n 10).
  { exists 0. split; [done|]. change (10 ^ N.of_nat 0)%N with 1%N.
    change (10 ^ N.of_nat 1)%N with 10%N. lia. }
  rewrite Nat2N.inj_succ, N.pow_succ_r' in Hf.
  pose proof (N.Div0.div_mod n 10) as Hdm. pose proof (N.mod_lt n 10 ltac:(done)) as Hlt.
  destruct (IH (n / 10)%N) as (k & Hlen & Hlo & Hhi).
  { apply N.Div0.div_lt_upper_bound. lia. }
  { lia. }
  rewrite Nat2N.inj_succ, N.pow_succ_r' in Hhi.
  exists (S k). simpl. rewrite Hlen.
  rewrite !Nat2N.inj_succ, !N.pow_succ_r'. split; [done|].
  generalize dependent (10 ^ N.of_nat k)%N. intros p Hlo Hhi. clear IH Hf Hlen.
  generalize dependent (n `mod` 10)%N. generalize dependent (n `div` 10)%N. nia.
Qed.

Lemma digits_length n : n <> 0%N ->
  exists k, length (digits n) = S k /\ (10 ^ N.of_nat k <= n)%N /\ (n < 10 ^ N.of_nat (S k))%N.
Proof.
  intros Hn. unfold digits. rewrite length_rev. apply dec_digits_length; [|done].
  apply dec_fuel_enough.
Qed.

Lemma len_dec n : len (dec n) = length (digits n).
Proof. unfold dec, chars. by rewrite len_sa, length_map. Qed.

(** A longer numeral is a larger number. *)
Lemma dec_longer a b : len (dec b) < len (dec a) -> (b < a)%N.
Proof.
  rewrite !len_dec. intros H.
  destruct (decide (a = 0)%N) as [->|Ha].
  { exfalso. change (digits 0) with [0%N] in H. simpl in H.
    destruct (decide (b = 0)%N) as [->|Hb]; [by compute in H; lia|].
    destruct (digits_length b Hb) as (k & Hk & _). lia. }
  destruct (decide (b = 0)%N) as [->|Hb]; [lia|].
  destruct (digits_length a Ha) as (ka & Hka & Hlo & _).
  destruct (digits_length b Hb) as (kb & Hkb & _ & Hhi).
  eapply N.lt_le_trans; [apply Hhi|]. etransitivity; [|apply Hlo].
  apply N.pow_le_mono_r; lia.
Qed.

Lemma code_digit_char d : (d < 10)%N -> code (digit_char d) = (48 + d)%N.
Proof. intros H. unfold code, digit_char. apply N_ascii_embedding. lia. Qed.

Lemma val_from_bounds acc ds : Forall (fun d => d < 10)%N ds ->
  (acc * 10 ^ N.of_nat (length ds) <= val_from acc ds
   < (acc + 1) * 10 ^ N.of_nat (length ds))%N.
Proof.
  intros H. revert acc. induction H as [|d ds Hd _ IH]; intros acc; simpl.
  { unfold val_from. simpl. lia. }
  specialize (IH (acc * 10 + d)%N). unfold val_from in *. simpl.
  rewrite Nat2N.inj_succ, N.pow_succ_r'. nia.
Qed.

(** Among numerals of the same length, the byte order is the numeric order. *)
Lemma str_ltb_chars acc a b :
  length a = length b -> Forall (fun d => d < 10)%N a -> Forall (fun d => d < 10)%N b ->
  str_ltb (chars a) (chars b) = (val_from acc a <? val_from acc b)%N.
Proof.
  intros Hlen Ha. revert acc b Hlen. induction Ha as [|x a Hx Ha IH];
    intros acc [|y b] Hlen Hb; try discriminate Hlen.
  { simpl. symmetry. apply N.ltb_irrefl. }
  apply Forall_cons in Hb as [Hy Hb]. injection Hlen as Hlen.
  simpl. rewrite !code_digit_char by done.
  pose proof (val_from_bounds (acc * 10 + x) a Ha) as Ba.
  pose proof (val_from_bounds (acc * 10 + y) b Hb) as Bb.
  rewrite Hlen in Ba. unfold val_from in *. simpl.
  assert (0 < 10 ^ N.of_nat (length b))%N as Hpos by (apply N.neq_0_lt_0, N.pow_nonzero; lia).
  destruct (N.ltb_spec (48 + x) (48 + y)).
  { symmetry. apply N.ltb_lt. nia. }
  destruct (N.ltb_spec (48 + y) (48 + x)).
  { symmetry. apply N.ltb_ge. nia. }
  assert (x = y) as -> by lia. apply (IH (acc * 10 + y)%N); done.
Qed.

Lemma str_ltb_dec a b : len (dec a) = len (dec b) -> str_ltb (dec a) (dec b) = (a <? b)%N.
Proof.
  rewrite !len_dec. intros H. unfold dec.
  rewrite (str_ltb_chars 0) by (done || apply digits_lt10).
  change (val_from 0) with val. by rewrite !digits_val.
Qed.

Lemma str_ltb_app s t u : len s = len t -> str_ltb (s +:+ u) (t +:+ u) = str_ltb s t.
Proof.
  revert t. induction s as [|a s IH]; intros [|b t] H; try discriminate H; simpl.
  - induction u as [|c u IH]; simpl; [done|]. by rewrite N.ltb_irrefl.
  - injection H as H. by rewrite IH.
Qed.

(** Comparing two numerals with a common suffix first by length and then byte by byte decides
    the order of the numbers. *)
Lemma lenlex_dec a b u :
  ((len (dec b +:+ u) <? len (dec a +:+ u))%nat
   || ((len (dec a +:+ u) =? len (dec b +:+ u))%nat && str_ltb (dec b +:+ u) (dec a +:+ u)))
  = (b <? a)%N.
Proof.
  rewrite !len_app.
  destruct (Nat.ltb_spec (len (dec b) + len u) (len (dec a) + len u)); simpl.
  { symmetry. apply N.ltb_lt, dec_longer. lia. }
  destruct (Nat.eqb_spec (len (dec a) + len u) (len (dec b) + len u)); simpl.
  { rewrite str_ltb_app by lia. apply str_ltb_dec. lia. }
  symmetry. apply N.ltb_ge, N.lt_le_incl, dec_longer. lia.
Qed.

Lemma dec_inj a b : dec a = dec b -> a = b.
Proof.
  intros H. pose proof (str_ltb_dec a b) as H1. pose proof (str_ltb_dec b a) as H2.
  rewrite H in H1, H2. specialize (H1 eq_refl). specialize (H2 eq_refl).
  rewrite H1 in H2. destruct (N.ltb_spec a b), (N.ltb_spec b a); (lia || done).
Qed.

Lemma dec_nonempty n : dec n <> "".
Proof.
  intros H. apply (f_equal String.length) in H. rewrite len_dec in H. simpl in H.
  destruct (decide (n = 0)%N) as [->|Hn]; [by compute in H|].
  destruct (digits_length n Hn) as (k & Hk & _). lia.
Qed.
