(* ===== verification/GoRegexp.v ===== *)
(** * Regular expressions

    The expressions of Go's [regexp] that the source uses, with a matcher by derivatives that can
    be run and the language of an expression as its reference; [MatchString_lang] proves that the
    two agree. *)

From S2P Require Import Prelude GoStrings.
Open Scope string_scope. Open Scope list_scope.

Inductive re :=
| Empty
| Eps
| Chars (p : ascii -> bool)
| Cat (r s : re)
| Alt (r s : re)
| Star (r : re).

Definition Lit (a : ascii) : re := Chars (Ascii.eqb a).
Definition Plus (r : re) : re := Cat r (Star r).
Definition Opt (r : re) : re := Alt Eps r.
(** [r{1,3}] *)
Definition UpTo3 (r : re) : re := Cat r (Opt (Cat r (Opt r))).

Fixpoint nullable (r : re) : bool :=
  match r with
  | Empty | Chars _ => false
  | Eps | Star _ => true
  | Cat r s => nullable r && nullable s
  | Alt r s => nullable r || nullable s
  end.

Fixpoint deriv (a : ascii) (r : re) : re :=
  match r with
  | Empty | Eps => Empty
  | Chars p => if p a then Eps else Empty
  | Cat r s =>
    if nullable r then Alt (Cat (deriv a r) s) (deriv a s) else Cat (deriv a r) s
  | Alt r s => Alt (deriv a r) (deriv a s)
  | Star r => Cat (deriv a r) (Star r)
  end.

(** [regexp.MustCompile("^(...)$").MatchString(s)]: the whole string. *)
Fixpoint MatchString (r : re) (s : string) : bool :=
  match s with
  | "" => nullable r
  | String a s => MatchString (deriv a r) s
  end.

(** ** The language of an expression *)

Inductive lang : re -> string -> Prop :=
| lang_Eps : lang Eps ""
| lang_Chars p a : p a = true -> lang (Chars p) (String a "")
| lang_Cat r s u v : lang r u -> lang s v -> lang (Cat r s) (u +:+ v)
| lang_Alt_l r s u : lang r u -> lang (Alt r s) u
| lang_Alt_r r s u : lang s u -> lang (Alt r s) u
| lang_Star_nil r : lang (Star r) ""
| lang_Star_app r u v : lang r u -> lang (Star r) v -> lang (Star r) (u +:+ v).

#[local] Hint Constructors lang : core.

Lemma lang_Cat_inv r s w : lang (Cat r s) w -> exists u v, w = u +:+ v /\ lang r u /\ lang s v.
Proof. inversion 1; subst; eauto. Qed.

Lemma lang_Alt_iff r s w : lang (Alt r s) w <-> lang r w \/ lang s w.
Proof. split; [inversion 1; subst; auto|intros [?|?]; auto]. Qed.

Lemma nullable_lang r : nullable r = true <-> lang r "".
Proof.
  induction r as [| |p|r IHr s IHs|r IHr s IHs|r IHr]; cbn.
  - split; [done|inversion 1].
  - split; auto.
  - split; [done|inversion 1].
  - rewrite andb_true_iff, IHr, IHs. split.
    + intros [Hr Hs]. by apply (lang_Cat _ _ "" "").
    + intros (u & v & Huv & Hu & Hv)%lang_Cat_inv. by destruct u, v.
  - by rewrite orb_true_iff, IHr, IHs, lang_Alt_iff.
  - split; auto.
Qed.

(** A word of a star that is not empty starts with a word of the body that is not empty. *)
Lemma lang_Star_cons r a w :
  lang (Star r) (String a w) -> exists u v, w = u +:+ v /\ lang r (String a u) /\ lang (Star r) v.
Proof.
  remember (Star r) as q eqn:Hq. remember (String a w) as t eqn:Ht. intros H.
  revert w Ht. induction H as [| | | | | |r' u v Hu IHu Hv IHv]; intros w Ht; try discriminate.
  injection Hq as ->. destruct u as [|b u]; [by apply IHv|].
  cbn [String.append] in Ht. injection Ht as -> <-. eauto.
Qed.

Lemma deriv_lang a r w : lang (deriv a r) w <-> lang r (String a w).
Proof.
  revert w. induction r as [| |p|r IHr s IHs|r IHr s IHs|r IHr]; intros w; cbn [deriv].
  - split; inversion 1.
  - split; inversion 1.
  - destruct (p a) eqn:Hp; split; inversion 1; subst; auto. congruence.
  - assert (forall w, lang (Cat (deriv a r) s) w <->
      exists u v, w = u +:+ v /\ lang r (String a u) /\ lang s v) as Hc.
    { intros w'. split.
      - intros (u & v & -> & Hu & Hv)%lang_Cat_inv. exists u, v. by rewrite <- IHr.
      - intros (u & v & -> & Hu & Hv). constructor; [by apply IHr|done]. }
    assert (lang (Cat r s) (String a w) <->
      lang (Cat (deriv a r) s) w \/ lang r "" /\ lang (deriv a s) w) as ->.
    { rewrite Hc, IHs. split.
      - intros (u & v & Huv & Hu & Hv)%lang_Cat_inv. destruct u as [|b u].
        + right. cbn in Huv. by subst v.
        + cbn [String.append] in Huv. injection Huv as <- ->. left. eauto.
      - intros [(u & v & -> & Hu & Hv)|[Hr Hs]].
        + by apply (lang_Cat _ _ (String a u)).
        + by apply (lang_Cat _ _ ""). }
    rewrite <- nullable_lang. destruct (nullable r); [rewrite lang_Alt_iff|]; intuition congruence.
  - rewrite !lang_Alt_iff. by rewrite IHr, IHs.
  - split.
    + intros (u & v & -> & Hu & Hv)%lang_Cat_inv. apply IHr in Hu.
      by apply (lang_Star_app _ (String a u)).
    + intros (u & v & -> & Hu & Hv)%lang_Star_cons. constructor; [by apply IHr|done].
Qed.

Lemma MatchString_lang r s : MatchString r s = true <-> lang r s.
Proof.
  revert r. induction s as [|a s IH]; intros r; cbn [MatchString].
  - apply nullable_lang.
  - rewrite IH. apply deriv_lang.
Qed.
