(* ===== verification/GoSort.v ===== *)
(** * Stable sorting: [sort.Stable] and [sort.Reverse]

    [Stable less l] is the list that [sort.Stable] leaves in place of [l]: sorted by [less], with
    the elements that [less] does not tell apart in their original order.  It is computed by
    insertion from the back, as Go sorts its blocks; [Stable_unique] shows that no other list has
    the two properties that the package documents, so the way in which Go merges the blocks
    does not matter. *)

From S2P Require Import Prelude.

(** The sorted prefix is held in reverse: its last element comes first. *)
Fixpoint insert_back {A} (less : A -> A -> bool) (x : A) (rp : list A) : list A :=
  match rp with
  | [] => [x]
  | y :: rp' => if less x y then y :: insert_back less x rp' else x :: rp
  end.

Definition Stable {A} (less : A -> A -> bool) (l : list A) : list A :=
  rev (foldl (fun rp x => insert_back less x rp) [] l).

(** [sort.Reverse] exchanges the arguments of [Less]. *)
Definition Reverse {A} (less : A -> A -> bool) : A -> A -> bool := fun x y => less y x.

(** What is asked of [less]: a strict weak order. *)
Class StrictWeak {A} (less : A -> A -> bool) := {
  less_asym : forall x y, less x y = true -> less y x = false;
  less_negtrans : forall x y z, less x y = false -> less y z = false -> less x z = false }.

#[global] Instance Reverse_weak {A} (less : A -> A -> bool) : StrictWeak less -> StrictWeak (Reverse less).
Proof.
  intros H. split; unfold Reverse.
  - intros x y. apply less_asym.
  - intros x y z Hxy Hyz. by apply (less_negtrans z y x).
Qed.

#[global] Instance by_key_weak {A} (key : A -> Z) : StrictWeak (fun x y => (key x <? key y)%Z).
Proof. split; intros x y; [lia | intros z; lia]. Qed.

Section Stable.
Context {A : Type} (less : A -> A -> bool) `{!StrictWeak less}.

(** An element may be followed by the elements that are not less than it. *)
Definition before (x y : A) : Prop := less y x = false.

(** The elements that [less] does not tell apart from [t]. *)
Definition tie (t x : A) : Prop := less t x = false /\ less x t = false.

#[global] Instance tie_dec t x : Decision (tie t x).
Proof. unfold tie. apply _. Qed.

Lemma less_irrefl x : less x x = false.
Proof. destruct (less x x) eqn:E; [|done]. by rewrite (less_asym x x E) in E. Qed.

Lemma insert_back_perm x rp : insert_back less x rp ≡ₚ x :: rp.
Proof.
  induction rp as [|y rp IH]; cbn; [done|]. destruct (less x y); [|done].
  rewrite IH. constructor.
Qed.

Lemma insert_back_ties t x rp :
  filter (tie t) (insert_back less x rp) = filter (tie t) (x :: rp).
Proof.
  induction rp as [|y rp IH]; cbn [insert_back]; [done|]. destruct (less x y) eqn:E; [|done].
  rewrite !(filter_cons (tie t)), IH, (filter_cons (tie t)).
  destruct (decide (tie t x)) as [[_ Hx]|]; [|done].
  destruct (decide (tie t y)) as [[Hy _]|]; [|done].
  pose proof (less_negtrans x t y Hx Hy). congruence.
Qed.

Lemma insert_back_sorted x rp :
  StronglySorted (flip before) rp -> StronglySorted (flip before) (insert_back less x rp).
Proof.
  induction 1 as [|y rp Hs IH Hy]; cbn [insert_back].
  { repeat constructor. }
  destruct (less x y) eqn:E.
  - constructor; [done|]. rewrite insert_back_perm. constructor; [|done].
    unfold flip, before. by apply less_asym.
  - repeat constructor; [done|done|done|]. eapply Forall_impl; [exact Hy|]. intros z Hz.
    unfold flip, before in *. by apply (less_negtrans x y z).
Qed.

Lemma fold_insert l rp :
  let r := foldl (fun rp x => insert_back less x rp) rp l in
  r ≡ₚ rev l ++ rp
  /\ (forall t, filter (tie t) r = filter (tie t) (rev l ++ rp))
  /\ (StronglySorted (flip before) rp -> StronglySorted (flip before) r).
Proof.
  revert rp. induction l as [|x l IH]; intros rp; cbn [foldl rev]; [done|].
  destruct (IH (insert_back less x rp)) as (Hp & Ht & Hs).
  rewrite <- app_assoc. cbn. split; [|split].
  - by rewrite Hp, insert_back_perm.
  - intros t. by rewrite Ht, !filter_app, insert_back_ties.
  - intros H. apply Hs. by apply insert_back_sorted.
Qed.

Lemma Stable_perm l : Stable less l ≡ₚ l.
Proof.
  unfold Stable. destruct (fold_insert l []) as (Hp & _). rewrite Hp, app_nil_r.
  by rewrite <- !Permutation_rev.
Qed.

Lemma StronglySorted_snoc (R : A -> A -> Prop) l x :
  StronglySorted R l -> Forall (fun y => R y x) l -> StronglySorted R (l ++ [x]).
Proof.
  induction 1 as [|y l Hs IH Hy]; cbn; intros Hf; [repeat constructor|].
  inversion Hf; subst. constructor; [by apply IH|]. apply Forall_app. auto.
Qed.

Lemma StronglySorted_rev (R : A -> A -> Prop) l :
  StronglySorted (flip R) l -> StronglySorted R (rev l).
Proof.
  induction 1 as [|x l Hs IH Hx]; cbn; [constructor|]. apply StronglySorted_snoc; [done|].
  rewrite <- Permutation_rev. exact Hx.
Qed.

Lemma Stable_sorted l : StronglySorted before (Stable less l).
Proof.
  unfold Stable. destruct (fold_insert l []) as (_ & _ & Hs). apply StronglySorted_rev, Hs.
  constructor.
Qed.

Lemma filter_rev (P : A -> Prop) `{!forall x, Decision (P x)} l : filter P (rev l) = rev (filter P l).
Proof.
  induction l as [|x l IH]; cbn [rev]; [done|]. rewrite filter_app, IH, !filter_cons.
  destruct (decide (P x)); cbn; by rewrite ?app_nil_r.
Qed.

Lemma Stable_ties l t : filter (tie t) (Stable less l) = filter (tie t) l.
Proof.
  unfold Stable. destruct (fold_insert l []) as (_ & Ht & _).
  by rewrite filter_rev, Ht, app_nil_r, filter_rev, rev_involutive.
Qed.

Lemma tie_refl t : tie t t.
Proof. split; apply less_irrefl. Qed.

(** Two sorted lists with the same elements of every tie, in the same order, are equal. *)
Lemma sorted_ties_eq l1 l2 :
  StronglySorted before l1 -> StronglySorted before l2 ->
  (forall t, filter (tie t) l1 = filter (tie t) l2) -> l1 = l2.
Proof.
  revert l2. induction l1 as [|a l1 IH]; intros l2 H1 H2 Hf.
  - destruct l2 as [|b l2]; [done|]. specialize (Hf b). rewrite (filter_cons (tie b)) in Hf.
    by rewrite decide_True in Hf by apply tie_refl.
  - destruct l2 as [|b l2].
    { specialize (Hf a). rewrite (filter_cons (tie a)), decide_True in Hf by apply tie_refl. done. }
    apply StronglySorted_inv in H1 as [H1 Ha], H2 as [H2 Hb].
    assert (forall x y l m, Forall (before y) m -> filter (tie x) (x :: l) = filter (tie x) (y :: m)
            -> less x y = false) as Hle.
    { intros x y l m Hy Hxy. assert (x ∈ filter (tie x) (y :: m)) as Hin.
      { rewrite <- Hxy. apply list_elem_of_filter. split; [apply tie_refl|left]. }
      apply list_elem_of_filter in Hin as [_ Hin]. apply elem_of_cons in Hin as [->|Hin].
      - apply less_irrefl.
      - rewrite Forall_forall in Hy. by apply Hy. }
    assert (less a b = false) as Hab by (eapply Hle; [exact Hb|apply Hf]).
    assert (less b a = false) as Hba by (eapply Hle; [exact Ha|symmetry; apply Hf]).
    assert (a = b) as ->.
    { pose proof (Hf a) as H. rewrite !(filter_cons (tie a)) in H.
      rewrite !decide_True in H by (done || apply tie_refl). by injection H. }
    f_equal. apply IH; [done|done|]. intros t. specialize (Hf t).
    rewrite !(filter_cons (tie t)) in Hf. destruct (decide (tie t b)); [by injection Hf|done].
Qed.

(** A stable sort has one possible result. *)
Lemma Stable_unique l l' :
  StronglySorted before l' -> (forall t, filter (tie t) l' = filter (tie t) l) -> l' = Stable less l.
Proof.
  intros Hs Ht. apply sorted_ties_eq; [done|apply Stable_sorted|]. intros t.
  by rewrite Ht, Stable_ties.
Qed.

End Stable.
