(* ===== verification/GoFloat.v ===== *)
(** * float64: IEEE 754 binary64 on finite values

    A finite float64 is kept as its exact value, a rational.  Every operation of the source
    (conversion from int64, [*], [/], [+], ParseFloat) returns the exact result rounded to the
    nearest binary64 number, ties to even, subnormals included.  Overflow to an infinity is
    reported by ParseFloat as an error; the arithmetic of the source stays far below it (its
    operands are at most 100 and at most [2^63] in magnitude).  The sign of a zero is observable
    only in the rendering of a negative value that is rounded up to zero, and is kept there.

    Shown: rounding is monotone, exact on the numbers that fit in 53 bits, and hence so are the
    operations. *)

From Stdlib Require Import ZArith QArith Qround Qpower Lqa.
From S2P Require Import Prelude GoStrings.
Open Scope Q_scope.

(** Powers of two with an integer exponent. *)
Definition pow2 (e : Z) : Q := Qpower 2 e.

(** Round to nearest integer, ties to even. *)
Definition rhe (x : Q) : Z :=
  let f := Qfloor x in
  match Qcompare (x - inject_Z f) (1 # 2) with
  | Lt => f
  | Gt => (f + 1)%Z
  | Eq => if Z.even f then f else (f + 1)%Z
  end.

(** Exponent of the leading bit of a positive rational. *)
Definition ilog2 (x : Q) : Z :=
  let k := (Z.log2 (Qnum x) - Z.log2 (QDen x))%Z in
  if Qle_bool (pow2 k) x then k else (k - 1)%Z.

(** Exponent of the last bit of the binary64 number nearest to a positive rational: 53
    significant bits, and none below [2^-1074]. *)
Definition ulp_exp (x : Q) : Z := Z.max (ilog2 x - 52) (-1074).

Definition rnd_pos (x : Q) : Q :=
  let e := ulp_exp x in Qred (inject_Z (rhe (x / pow2 e)) * pow2 e).

Definition rnd (x : Q) : Q :=
  match Qcompare x 0 with
  | Eq => 0
  | Gt => rnd_pos x
  | Lt => - rnd_pos (- x)
  end.

Definition float64 : Type := Q.

(** [float64(z)] for an integer. *)
Definition of_int (z : Z) : float64 := rnd (inject_Z z).
Definition fmul (x y : float64) : float64 := rnd (x * y).
Definition fdiv (x y : float64) : float64 := rnd (x / y).
Definition fadd (x y : float64) : float64 := rnd (x + y).

(** The largest finite binary64 number is below this bound. *)
Definition overflow_bound : Q := pow2 1024.

(** ** [strconv.ParseFloat] on strings of decimal digits with at most one point, the only ones
    the source gives it: a numeral needs a digit, and a value out of range is an error. *)

Fixpoint take_digits (s : string) : string * string :=
  match s with
  | String a s' =>
    if is_digit a then let '(d, r) := take_digits s' in (String a d, r) else (EmptyString, s)
  | EmptyString => (EmptyString, EmptyString)
  end.

Definition take_dot (s : string) : string * string :=
  match s with
  | String a s' => if Ascii.eqb a (Ascii.ascii_of_nat 46) then (String a EmptyString, s') else (EmptyString, s)
  | EmptyString => (EmptyString, EmptyString)
  end.

Fixpoint digits_value (acc : N) (s : string) : N :=
  match s with
  | EmptyString => acc
  | String a s' => digits_value (acc * 10 + (code a - 48))%N s'
  end.

Definition pow10 (n : nat) : positive := Nat.iter n (Pos.mul 10) 1%positive.

Definition decimal_value (ip fp : string) : Q :=
  Z.of_N (digits_value 0 (ip +:+ fp)) # pow10 (String.length fp).

Definition ParseFloat (s : string) : option float64 :=
  let '(ip, r1) := take_digits s in
  let '(_, r2) := take_dot r1 in
  let '(fp, r3) := take_digits r2 in
  match r3 with
  | String _ _ => None
  | EmptyString =>
    if (String.length ip + String.length fp =? 0)%nat then None
    else let v := rnd (decimal_value ip fp) in
         if Qle_bool overflow_bound v then None else Some v
  end.

(** [FormatFloat(Ceil(x), 'f', -1, 64)].  For an integral value of magnitude at most [2^54] the
    shortest decimal that reads back as the value is its integer numeral; [Ceil] of a number in
    [(-1, 0)] is the negative zero. *)
Definition FormatCeil (x : float64) : string :=
  let c := Qceiling x in
  if (c =? 0)%Z && negb (Qle_bool 0 x) then "-0"%string else decZ c.

(** ** Powers of two *)

Lemma pow2_pos e : 0 < pow2 e.
Proof. apply Qpower_0_lt. reflexivity. Qed.

Lemma pow2_add a b : pow2 (a + b) == pow2 a * pow2 b.
Proof. apply Qpower_plus. discriminate. Qed.

Lemma pow2_Z n : (0 <= n)%Z -> pow2 n == inject_Z (2 ^ n).
Proof. intros H. symmetry. by apply Zpower_Qpower. Qed.

Lemma pow2_succ e : pow2 (e + 1) == 2 * pow2 e.
Proof. rewrite pow2_add. change (pow2 1) with (2:Q). ring. Qed.

Lemma pow2_le_compat a b : (a <= b)%Z -> pow2 a <= pow2 b.
Proof.
  intros H. replace b with (a + (b - a))%Z by lia. rewrite pow2_add, (pow2_Z (b - a)) by lia.
  assert (1 <= inject_Z (2 ^ (b - a))) as H1.
  { change 1 with (inject_Z 1). rewrite <- Zle_Qle.
    pose proof (Z.pow_pos_nonneg 2 (b - a)). lia. }
  pose proof (pow2_pos a). nra.
Qed.

Lemma pow2_lt_inv a b : pow2 a < pow2 b -> (a < b)%Z.
Proof.
  intros H. destruct (Z.lt_ge_cases a b) as [|Hge]; [done|].
  apply pow2_le_compat in Hge. lra.
Qed.

(** ** Rounding to an integer *)

Lemma rhe_near x : rhe x = Qfloor x \/ rhe x = (Qfloor x + 1)%Z.
Proof. unfold rhe. destruct (Qcompare _ _); [destruct (Z.even _)|..]; auto. Qed.

Lemma rhe_Z z x : x == inject_Z z -> rhe x = z.
Proof.
  intros H. unfold rhe. assert (Qfloor x = z) as -> by (rewrite H; apply Qfloor_Z).
  assert ((x - inject_Z z ?= 1 # 2) = Lt) as ->; [|done].
  rewrite <- Qlt_alt. lra.
Qed.

Lemma rhe_mono x y : x <= y -> (rhe x <= rhe y)%Z.
Proof.
  intros H. pose proof (Qfloor_resp_le _ _ H) as Hf.
  destruct (Z.eq_dec (Qfloor x) (Qfloor y)) as [E|E].
  - unfold rhe. rewrite <- E. set (f := Qfloor x).
    destruct (Qcompare (x - inject_Z f) (1 # 2)) eqn:Cx;
      destruct (Qcompare (y - inject_Z f) (1 # 2)) eqn:Cy;
      try (destruct (Z.even f)); try lia;
      rewrite <- ?Qeq_alt, <- ?Qlt_alt, <- ?Qgt_alt in *; lra.
  - destruct (rhe_near x), (rhe_near y); lia.
Qed.

Lemma rhe_nonneg x : 0 <= x -> (0 <= rhe x)%Z.
Proof. intros H. rewrite <- (rhe_Z 0 0) by reflexivity. by apply rhe_mono. Qed.

(** ** The exponent *)

Lemma log2_bounds (n : Z) : (0 < n)%Z ->
  pow2 (Z.log2 n) <= inject_Z n < 2 * pow2 (Z.log2 n).
Proof.
  intros H. pose proof (Z.log2_spec n H) as [H1 H2]. pose proof (Z.log2_nonneg n).
  rewrite <- pow2_succ, !pow2_Z by lia. rewrite <- Zle_Qle, <- Zlt_Qlt.
  replace (Z.log2 n + 1)%Z with (Z.succ (Z.log2 n)) by lia. done.
Qed.

Lemma ilog2_spec x : 0 < x -> pow2 (ilog2 x) <= x < 2 * pow2 (ilog2 x).
Proof.
  intros Hx. destruct x as [n d]. unfold ilog2. cbn [Qnum Qden].
  assert (0 < n)%Z as Hn by (unfold Qlt in Hx; simpl in Hx; lia).
  pose proof (log2_bounds n Hn) as [N1 N2].
  pose proof (log2_bounds (Zpos d) ltac:(lia)) as [D1 D2].
  set (a := Z.log2 n) in *. set (b := Z.log2 (Zpos d)) in *.
  assert (pow2 (a - b) * pow2 b == pow2 a) as Hab.
  { rewrite <- pow2_add. by replace (a - b + b)%Z with a by lia. }
  assert ((n # d) * inject_Z (Zpos d) == inject_Z n) as Hnd.
  { unfold Qeq, Qmult, inject_Z; simpl. lia. }
  pose proof (pow2_pos (a - b)). pose proof (pow2_pos b).
  destruct (Qle_bool (pow2 (a - b)) (n # d)) eqn:E.
  - apply Qle_bool_iff in E. split; [done|].
    apply (Qmult_lt_r _ _ (inject_Z (Zpos d))); [lra|]. rewrite Hnd. nra.
  - assert (n # d < pow2 (a - b)) as Hlt.
    { apply Qnot_le_lt. intros C. apply Qle_bool_iff in C. congruence. }
    assert (2 * pow2 (a - b - 1) == pow2 (a - b)) as Hs.
    { rewrite <- pow2_succ. by replace (a - b - 1 + 1)%Z with (a - b)%Z by lia. }
    split; [|lra].
    apply (Qmult_le_r _ _ (inject_Z (Zpos d))); [lra|]. rewrite Hnd. nra.
Qed.

Lemma ilog2_mono x y : 0 < x -> x <= y -> (ilog2 x <= ilog2 y)%Z.
Proof.
  intros Hx H. pose proof (ilog2_spec x Hx) as [X1 _].
  pose proof (ilog2_spec y ltac:(lra)) as [_ Y2].
  rewrite <- pow2_succ in Y2. apply Z.lt_succ_r. rewrite <- Z.add_1_r.
  apply pow2_lt_inv. lra.
Qed.

Lemma ulp_exp_mono x y : 0 < x -> x <= y -> (ulp_exp x <= ulp_exp y)%Z.
Proof. intros Hx H. pose proof (ilog2_mono x y Hx H). unfold ulp_exp. lia. Qed.

(** ** Rounding to binary64 *)

Lemma scaled_le x y e : x / pow2 e <= y / pow2 e <-> x <= y.
Proof.
  unfold Qdiv. split; intros H.
  - apply Qmult_le_r in H; [done|]. apply Qinv_lt_0_compat, pow2_pos.
  - apply Qmult_le_compat_r; [done|]. apply Qlt_le_weak, Qinv_lt_0_compat, pow2_pos.
Qed.

Lemma scaled_pow2 a e : pow2 a / pow2 e == pow2 (a - e).
Proof.
  pose proof (pow2_pos e). rewrite <- (Qmult_inj_r _ _ (pow2 e)) by lra.
  rewrite <- pow2_add. replace (a - e + e)%Z with a by lia. field. lra.
Qed.

Lemma unscale x e : x / pow2 e * pow2 e == x.
Proof. pose proof (pow2_pos e). field. lra. Qed.

(** The rounded significand, in units of the last bit. *)
Lemma rnd_pos_eq x : rnd_pos x == inject_Z (rhe (x / pow2 (ulp_exp x))) * pow2 (ulp_exp x).
Proof. apply Qred_correct. Qed.

Lemma rnd_pos_nonneg x : 0 <= x -> 0 <= rnd_pos x.
Proof.
  intros H. rewrite rnd_pos_eq. pose proof (pow2_pos (ulp_exp x)).
  apply Qmult_le_0_compat; [|lra]. change 0 with (inject_Z 0). rewrite <- Zle_Qle.
  apply rhe_nonneg. apply Qle_shift_div_l; [done|lra].
Qed.

(** When the exponent grows, the value grows: [2^53] units of the smaller exponent are at most
    [2^52] units of the larger one. *)
Lemma rnd_pos_step x y : 0 < x -> 0 < y -> (ulp_exp x < ulp_exp y)%Z -> rnd_pos x <= rnd_pos y.
Proof.
  intros Hx Hy He. rewrite !rnd_pos_eq.
  set (a := ulp_exp x) in *. set (b := ulp_exp y) in *.
  pose proof (ilog2_spec x Hx) as [_ X2]. pose proof (ilog2_spec y Hy) as [Y1 _].
  assert (ilog2 x - 52 <= a)%Z as Ha by (unfold a, ulp_exp; lia).
  assert (b = ilog2 y - 52)%Z as Hb by (unfold b, a, ulp_exp in *; lia).
  assert (rhe (x / pow2 a) <= 2 ^ 53)%Z as R1.
  { rewrite <- (rhe_Z (2 ^ 53) (pow2 53)) by (by rewrite pow2_Z). apply rhe_mono.
    replace 53%Z with (a + 53 - a)%Z by lia. rewrite <- scaled_pow2. apply scaled_le.
    rewrite <- pow2_succ in X2. pose proof (pow2_le_compat (ilog2 x + 1) (a + 53) ltac:(lia)). lra. }
  assert (2 ^ 52 <= rhe (y / pow2 b))%Z as R2.
  { rewrite <- (rhe_Z (2 ^ 52) (pow2 52)) by (by rewrite pow2_Z). apply rhe_mono.
    replace 52%Z with (ilog2 y - b)%Z by lia. rewrite <- scaled_pow2. by apply scaled_le. }
  rewrite Zle_Qle in R1, R2. rewrite <- pow2_Z in R1, R2 by lia.
  pose proof (pow2_pos a). pose proof (pow2_pos b).
  apply (Qle_trans _ (pow2 53 * pow2 a)); [nra|].
  apply (Qle_trans _ (pow2 52 * pow2 b)); [|nra].
  rewrite <- !pow2_add. apply pow2_le_compat. lia.
Qed.

Lemma rnd_pos_mono x y : 0 < x -> x <= y -> rnd_pos x <= rnd_pos y.
Proof.
  intros Hx H. pose proof (ulp_exp_mono x y Hx H) as He.
  destruct (Z.eq_dec (ulp_exp x) (ulp_exp y)) as [E|E].
  - rewrite !rnd_pos_eq, E. pose proof (pow2_pos (ulp_exp y)).
    apply Qmult_le_compat_r; [|lra]. rewrite <- Zle_Qle. apply rhe_mono. by apply scaled_le.
  - apply rnd_pos_step; [done|lra|lia].
Qed.

(** Rounding preserves the order of the exact results. *)
Lemma rnd_mono x y : x <= y -> rnd x <= rnd y.
Proof.
  intros H. unfold rnd.
  destruct (Qcompare x 0) eqn:Cx; destruct (Qcompare y 0) eqn:Cy;
    rewrite <- ?Qeq_alt, <- ?Qlt_alt, <- ?Qgt_alt in *; try lra.
  - apply rnd_pos_nonneg. lra.
  - pose proof (rnd_pos_nonneg (- x)). lra.
  - pose proof (rnd_pos_mono (- y) (- x)). lra.
  - pose proof (rnd_pos_nonneg (- x)). pose proof (rnd_pos_nonneg y). lra.
  - apply rnd_pos_mono; lra.
Qed.

#[export] Instance rnd_proper : Proper (Qeq ==> Qeq) rnd.
Proof. intros x y H. apply Qle_antisym; apply rnd_mono; lra. Qed.

Lemma rnd_nonneg x : 0 <= x -> 0 <= rnd x.
Proof. intros H. change 0 with (rnd 0) at 1. by apply rnd_mono. Qed.

Lemma ilog2_lt x e : 0 < x -> x < pow2 e -> (ilog2 x < e)%Z.
Proof. intros Hx H. apply pow2_lt_inv. pose proof (ilog2_spec x Hx). lra. Qed.

Lemma rnd_pos_exact m e : (0 < m < 2 ^ 53)%Z -> (-1074 <= e)%Z ->
  rnd_pos (inject_Z m * pow2 e) == inject_Z m * pow2 e.
Proof.
  intros Hm He. set (x := inject_Z m * pow2 e).
  pose proof (pow2_pos e) as Pe.
  assert (0 < inject_Z m) as Pm by (change 0 with (inject_Z 0); rewrite <- Zlt_Qlt; lia).
  assert (0 < x) as Px by (unfold x; nra).
  assert (ulp_exp x <= e)%Z as Hu.
  { unfold ulp_exp. assert (ilog2 x < 53 + e)%Z; [|lia].
    apply ilog2_lt; [done|]. rewrite pow2_add, pow2_Z by lia. unfold x.
    apply Qmult_lt_r; [done|]. rewrite <- Zlt_Qlt. lia. }
  rewrite rnd_pos_eq. set (u := ulp_exp x) in *.
  assert (x / pow2 u == inject_Z (m * 2 ^ (e - u))) as Hx.
  { rewrite inject_Z_mult, <- pow2_Z, <- scaled_pow2 by lia. unfold x, Qdiv. ring. }
  rewrite (rhe_Z _ _ Hx), <- Hx. apply unscale.
Qed.

(** Numbers of 53 significant bits are left unchanged. *)
Lemma rnd_exact m e : (Z.abs m < 2 ^ 53)%Z -> (-1074 <= e)%Z ->
  rnd (inject_Z m * pow2 e) == inject_Z m * pow2 e.
Proof.
  intros Hm He. pose proof (pow2_pos e). unfold rnd.
  destruct (Qcompare (inject_Z m * pow2 e) 0) eqn:C;
    rewrite <- ?Qeq_alt, <- ?Qlt_alt, <- ?Qgt_alt in C.
  - lra.
  - assert (inject_Z m < inject_Z 0) as Hn by (change (inject_Z 0) with 0; nra).
    rewrite <- Zlt_Qlt in Hn.
    assert (- (inject_Z m * pow2 e) == inject_Z (- m) * pow2 e) as Eq
      by (rewrite inject_Z_opp; ring).
    pose proof (rnd_pos_exact (- m) e ltac:(lia) He) as R.
    pose proof (rnd_pos_mono (- (inject_Z m * pow2 e)) (inject_Z (- m) * pow2 e)).
    pose proof (rnd_pos_mono (inject_Z (- m) * pow2 e) (- (inject_Z m * pow2 e))). lra.
  - assert (inject_Z 0 < inject_Z m) as Hn by (change (inject_Z 0) with 0; nra).
    rewrite <- Zlt_Qlt in Hn. apply rnd_pos_exact; lia.
Qed.

Lemma rnd_int z : (Z.abs z < 2 ^ 53)%Z -> rnd (inject_Z z) == inject_Z z.
Proof.
  intros H. assert (inject_Z z == inject_Z z * pow2 0) as E by (change (pow2 0) with 1; ring).
  rewrite E. apply rnd_exact; lia.
Qed.

Lemma of_int_exact z : (Z.abs z < 2 ^ 53)%Z -> of_int z == inject_Z z.
Proof. apply rnd_int. Qed.

#[export] Hint Resolve rnd_mono rnd_nonneg : go.
