(* ===== verification/GoPath.v ===== *)
(** * The functions of Go's [path/filepath] that the source calls, on Unix

    [Clean] processes the path one element at a time: an empty element and [.] are dropped, [..]
    removes the element before it, and at the root or at the start of a relative path it is
    dropped or kept.  [Join] cleans the elements joined by slashes.  [Split] cuts after the last
    slash. *)

From S2P Require Import Prelude GoStrings.
Open Scope string_scope.

Definition slash : ascii := "/"%char.

(** The cleaned elements, last one first. *)
Fixpoint clean_elems (rooted : bool) (es out : list string) : list string :=
  match es with
  | [] => out
  | e :: es' =>
    if String.eqb e "" || String.eqb e "." then clean_elems rooted es' out
    else if String.eqb e ".." then
      match out with
      | [] => clean_elems rooted es' (if rooted then [] else [".."])
      | d :: out' =>
        clean_elems rooted es' (if String.eqb d ".." then ".." :: out else out')
      end
    else clean_elems rooted es' (e :: out)
  end.

Definition Clean (p : string) : string :=
  let rooted := HasPrefix p "/" in
  let body := join slash (rev (clean_elems rooted (SplitChar slash p) [])) in
  if rooted then "/" +:+ body else if String.eqb body "" then "." else body.

(** [filepath.Join(a, b)] for a nonempty [a]. *)
Definition Join2 (a b : string) : string :=
  if String.eqb a "" then (if String.eqb b "" then "" else Clean b)
  else Clean (a +:+ "/" +:+ b).

Definition IsAbs (p : string) : bool := HasPrefix p "/".

(** [filepath.Split]: the text up to and including the last slash, and the rest. *)
Fixpoint Split (p : string) : string * string :=
  match p with
  | "" => ("", "")
  | String a p' =>
    let '(d, f) := Split p' in
    if String.eqb d "" then
      if Ascii.eqb a slash then ("/", f) else ("", String a f)
    else (String a d, f)
  end.

(** A name that is one element of a path. *)
Definition has_slash (s : string) : bool := Contains s "/".

Definition plain_name (s : string) : bool :=
  negb (has_slash s) && negb (String.eqb s "") && negb (String.eqb s ".")
  && negb (String.eqb s "..").

(** ** Facts *)

Lemma has_slash_cons a s : has_slash (String a s) = Ascii.eqb a slash || has_slash s.
Proof.
  unfold has_slash. simpl Contains at 1. cbn [Contains HasPrefix].
  change "/"%char with slash. destruct (Ascii.eqb a slash); [by destruct s|done].
Qed.

Lemma Split_app p : let '(d, f) := Split p in p = d +:+ f /\ has_slash f = false.
Proof.
  induction p as [|a p IH]; simpl; [done|].
  destruct (Split p) as [d f] eqn:E. destruct IH as [-> Hf].
  destruct (String.eqb d "") eqn:Ed; simpl.
  - apply String.eqb_eq in Ed as ->. destruct (Ascii.eqb a slash) eqn:Ea; simpl.
    + apply Ascii.eqb_eq in Ea as ->. done.
    + rewrite has_slash_cons, Ea. done.
  - done.
Qed.

(** The directory part ends with the slash. *)
Lemma Split_dir_slash p : (Split p).1 = "" \/ exists d, (Split p).1 = d +:+ "/".
Proof.
  induction p as [|a p IH]; [by left|]. cbn [Split]. destruct (Split p) as [d f].
  cbn [fst] in IH. destruct (String.eqb_spec d "") as [->|Hd].
  - destruct (Ascii.eqb a slash); [right; by exists ""|by left].
  - right. destruct IH as [|[d' ->]]; [done|]. by exists (String a d').
Qed.

Lemma Split_noslash f : has_slash f = false -> Split f = ("", f).
Proof.
  induction f as [|a f IH]; simpl; [done|]. rewrite has_slash_cons.
  intros [Ha Hf]%orb_false_iff. rewrite IH by done. simpl. by rewrite Ha.
Qed.

Lemma Split_dir d f : has_slash f = false -> Split (d +:+ "/" +:+ f) = (d +:+ "/", f).
Proof.
  intros Hf. induction d as [|a d IH]; simpl.
  - by rewrite Split_noslash.
  - simpl in IH. rewrite IH. by destruct d.
Qed.

Lemma SplitChar_noslash s : has_slash s = false -> SplitChar slash s = [s].
Proof.
  induction s as [|a s IH]; simpl; [done|]. rewrite has_slash_cons.
  intros [Ha Hs]%orb_false_iff. rewrite Ha, IH by done. done.
Qed.

Lemma SplitChar_app a b : SplitChar slash (a +:+ String slash b)
  = (SplitChar slash a ++ SplitChar slash b)%list.
Proof.
  induction a as [|c a IH]; [done|].
  change (String c a +:+ String slash b) with (String c (a +:+ String slash b)).
  cbn [SplitChar]. rewrite IH. destruct (Ascii.eqb c slash); [done|].
  destruct (SplitChar slash a) eqn:E; [by apply SplitChar_nonnil in E|done].
Qed.

Lemma plain_name_clean s rooted out :
  plain_name s = true -> clean_elems rooted [s] out = s :: out.
Proof.
  unfold plain_name. intros H. bool_to_prop. simpl.
  repeat match goal with
  | H : s <> _ |- _ => rewrite (proj2 (String.eqb_neq _ _) H); clear H
  end. done.
Qed.

Lemma plain_name_noslash s : plain_name s = true -> has_slash s = false.
Proof. unfold plain_name. intros H. by bool_to_prop. Qed.

(** The helper pod addresses the volume directory inside its mount point. *)
Lemma Join2_data v : plain_name v = true -> Join2 "/data/" v = "/data/" +:+ v.
Proof.
  intros H. unfold Join2, Clean. simpl String.eqb. cbv iota.
  change ("/data/" +:+ "/" +:+ v) with (String slash ("data" +:+ String slash ("" +:+ String slash v))).
  rewrite (SplitChar_app "" _ : SplitChar slash (String slash _) = _).
  rewrite !SplitChar_app, (SplitChar_noslash v) by by apply plain_name_noslash.
  change (clean_elems _ _ _) with (clean_elems true [v] ["data"]).
  by rewrite plain_name_clean.
Qed.

(** ** Clean absolute paths *)

Lemma SplitChar_elems s e : e ∈ SplitChar slash s -> has_slash e = false.
Proof.
  revert e. induction s as [|a s IH]; intros e; cbn [SplitChar].
  - by intros ->%list_elem_of_singleton.
  - destruct (Ascii.eqb a slash) eqn:Ha.
    + intros [->|H]%elem_of_cons; [done|by apply IH].
    + destruct (SplitChar slash s) as [|w ws] eqn:E; [by apply SplitChar_nonnil in E|].
      intros [->|H]%elem_of_cons.
      * rewrite has_slash_cons, Ha. apply IH. by left.
      * apply IH. by right.
Qed.

(** From the root, what remains are plain names. *)
Lemma clean_elems_plain es out :
  Forall (fun e => has_slash e = false) es -> Forall (fun e => plain_name e = true) out ->
  Forall (fun e => plain_name e = true) (clean_elems true es out).
Proof.
  revert out. induction es as [|e es IH]; intros out Hes Hout; [done|].
  inversion Hes as [|? ? He Hes']; subst. cbn [clean_elems].
  destruct (String.eqb e "" || String.eqb e ".") eqn:E1; [by apply IH|].
  destruct (String.eqb e "..") eqn:E2.
  - destruct out as [|d out]; [by apply IH|]. inversion Hout as [|? ? Hd Hout']; subst.
    destruct (String.eqb_spec d "..") as [->|_]; [done|by apply IH].
  - apply IH; [done|]. constructor; [|done]. unfold plain_name. rewrite He, E2.
    apply orb_false_iff in E1 as [-> ->]. done.
Qed.

(** Splitting a joined list of names without slashes gives the names. *)
Lemma join_SplitChar es :
  es <> [] -> Forall (fun e => has_slash e = false) es -> SplitChar slash (join slash es) = es.
Proof.
  induction es as [|e es IH]; [done|]. intros _ Hes. inversion Hes as [|? ? He Hes']; subst.
  destruct es as [|e' es]; [by apply SplitChar_noslash|].
  change (join slash (e :: e' :: es)) with (e +:+ String slash (join slash (e' :: es))).
  rewrite SplitChar_app, SplitChar_noslash, IH by done. done.
Qed.

Lemma Clean_rooted p :
  HasPrefix p "/" = true ->
  exists es, Forall (fun e => plain_name e = true) es /\ Clean p = "/" +:+ join slash es.
Proof.
  intros H. unfold Clean. rewrite H. eexists. split; [|reflexivity].
  apply Forall_rev, clean_elems_plain; [|done]. apply Forall_forall. apply SplitChar_elems.
Qed.

(** The last element of a cleaned absolute path is a plain name. *)
Lemma Clean_last p d v :
  HasPrefix p "/" = true -> v <> "" -> has_slash v = false ->
  Clean p = d +:+ "/" +:+ v \/ Clean p = d +:+ "/" +:+ v +:+ "/" ->
  plain_name v = true /\ Clean p = d +:+ "/" +:+ v.
Proof.
  intros Hp Hv Hs H. destruct (Clean_rooted p Hp) as (es & Hes & Hc).
  assert (es <> []) as Hne.
  { intros ->. rewrite Hc in H. cbn in H. destruct H as [H|H].
    - destruct d as [|a d]; [by injection H as <-|]. cbn in H. injection H as -> H.
      apply (f_equal String.length) in H. rewrite len_app in H. cbn in H. lia.
    - apply (f_equal String.length) in H. rewrite !len_app in H. cbn in H.
      rewrite len_app in H. destruct v; [done|]. cbn in H. lia. }
  assert (Forall (fun e => has_slash e = false) es) as Hns.
  { eapply Forall_impl; [exact Hes|]. cbn. apply plain_name_noslash. }
  assert (SplitChar slash (Clean p) = "" :: es) as Hsp.
  { rewrite Hc. change ("/" +:+ join slash es) with ("" +:+ String slash (join slash es)).
    by rewrite SplitChar_app, join_SplitChar. }
  destruct H as [H|H].
  - split; [|done]. rewrite H in Hsp.
    change (d +:+ "/" +:+ v) with (d +:+ String slash v) in Hsp.
    rewrite SplitChar_app, (SplitChar_noslash v) in Hsp by done.
    assert (last ("" :: es) = Some v) as Hl by (rewrite <- Hsp; apply last_snoc).
    rewrite last_cons in Hl. destruct (last es) as [w|] eqn:El; [|by injection Hl as <-].
    injection Hl as ->. apply last_Some_elem_of in El. rewrite Forall_forall in Hes. by apply Hes.
  - exfalso. rewrite H in Hsp.
    change (d +:+ "/" +:+ v +:+ "/") with (d +:+ String slash (v +:+ String slash "")) in Hsp.
    rewrite !SplitChar_app in Hsp. change (SplitChar slash "") with [""] in Hsp.
    assert (last ("" :: es) = Some "") as Hl
      by (rewrite <- Hsp, app_assoc; apply last_snoc).
    rewrite last_cons in Hl. destruct (last es) as [w|] eqn:El.
    + injection Hl as ->. apply last_Some_elem_of in El. rewrite Forall_forall in Hes.
      by apply Hes in El.
    + by apply last_None in El.
Qed.

Lemma Join2_rooted base rel : HasPrefix base "/" = true ->
  exists p, HasPrefix p "/" = true /\ Join2 base rel = Clean p.
Proof.
  intros H. unfold Join2. destruct base as [|a base]; [done|]. cbn [String.eqb].
  exists (String a base +:+ "/" +:+ rel). split; [|done]. by destruct base.
Qed.

Lemma clean_elems_names rooted es out :
  Forall (fun e => has_slash e = false) es ->
  Forall (fun e => e <> "" /\ has_slash e = false) out ->
  Forall (fun e => e <> "" /\ has_slash e = false) (clean_elems rooted es out).
Proof.
  revert out. induction es as [|e es IH]; intros out Hes Hout; [done|].
  inversion Hes as [|? ? He Hes']; subst. cbn [clean_elems].
  destruct (String.eqb_spec e "") as [_|He1]; [by apply IH|]. cbn [orb].
  destruct (String.eqb e "."); [by apply IH|].
  destruct (String.eqb e "..").
  - destruct out as [|d out].
    + destruct rooted; apply IH; try done. by repeat constructor.
    + apply IH; [done|]. destruct (String.eqb d ".."); [by constructor|by inversion Hout].
  - apply IH; [done|]. by constructor.
Qed.

(** Cleaning makes no path absolute. *)
Lemma Clean_rooted_inv p : HasPrefix (Clean p) "/" = true -> HasPrefix p "/" = true.
Proof.
  unfold Clean. destruct (HasPrefix p "/") eqn:H; [done|].
  assert (Forall (fun e => e <> "" /\ has_slash e = false)
    (rev (clean_elems false (SplitChar slash p) []))) as Hes.
  { apply Forall_rev, clean_elems_names; [|done]. apply Forall_forall, SplitChar_elems. }
  destruct (rev _) as [|e es]; [done|]. inversion Hes as [|? ? [He Hs] _]; subst.
  destruct e as [|a e]; [done|]. rewrite has_slash_cons in Hs. apply orb_false_iff in Hs as [Ha _].
  unfold slash in Ha. destruct es as [|e' es]; cbn; by rewrite Ha.
Qed.
