(* ===== verification/KubeApi.v ===== *)
(** * The Kubernetes API objects the provisioner handles

    The types of [k8s.io/api] with the fields the source reads or writes.  Types whose contents
    the source never inspects (quantities, probes, ports, ...) are parameters, gathered in the
    class [ApiTypes] with the operations of [k8s.io/apimachinery] that the source applies to
    quantities.  Enumerations of the API are strings, as in Go.  An optional pointer field is an
    [option], a map a [gomap]. *)

From S2P Require Import Prelude GoStrings.
Open Scope string_scope. Open Scope list_scope.

(** Types passed through unexamined, and [resource.Quantity]. *)
Class ApiTypes := {
  Quantity : Type;
  Quantity_zero : Quantity;
  ParseQuantity : string -> outcome error Quantity;
  Quantity_String : Quantity -> string;
  Quantity_Value : Quantity -> Z;
  ResourceRequirements : Type;
  ResourceRequirements_zero : ResourceRequirements;
  ContainerPort : Type;
  EnvVar : Type;
  EnvFromSource : Type;
  Probe : Type;
  Lifecycle : Type;
  VolumeDevice : Type;
  OwnerReference : Type;
  EmptyDirVolumeSource : Type }.

(** ** Constants of the API *)
Definition RestartPolicyNever := "Never".
Definition PodSucceeded := "Succeeded".
Definition ReadWriteOnce := "ReadWriteOnce".
Definition PersistentVolumeBlock := "Block".
Definition PersistentVolumeFilesystem := "Filesystem".
Definition PersistentVolumeReclaimRetain := "Retain".
Definition NodeSelectorOpIn := "In".
Definition TolerationOpExists := "Exists".
Definition TolerationOpEqual := "Equal".
Definition ClaimBound := "Bound".
Definition ResourceStorage := "storage".
Definition DeploymentProgressing := "Progressing".

(** Keys of the OpenEBS annotations and labels, and of a configuration entry. *)
Definition CASConfigKey := "cas.openebs.io/config".
Definition CASTypeKey := "openebs.io/cas-type".
Definition ValuePTP := "value".
Definition EnabledPTP := "enabled".

Section Types.
Context {A : ApiTypes}.

Record ObjectMeta := {
  Name : string;
  GenerateName : string;
  Namespace : string;
  Labels : gomap string;
  Annotations : gomap string;
  OwnerReferences : list OwnerReference;
  Generation : Z }.
#[global] Instance Eta_ObjectMeta : Eta ObjectMeta := fun r =>
  {| Name := Name r; GenerateName := GenerateName r; Namespace := Namespace r;
     Labels := Labels r; Annotations := Annotations r; OwnerReferences := OwnerReferences r;
     Generation := Generation r |}.

Definition ObjectMeta_zero : ObjectMeta :=
  {| Name := ""; GenerateName := ""; Namespace := ""; Labels := None; Annotations := None;
     OwnerReferences := []; Generation := 0 |}.

Definition meta_Name (f : string -> string) (m : ObjectMeta) : ObjectMeta :=
  {| Name := f (Name m); GenerateName := GenerateName m; Namespace := Namespace m;
     Labels := Labels m; Annotations := Annotations m; OwnerReferences := OwnerReferences m;
     Generation := Generation m |}.
Definition meta_GenerateName (f : string -> string) (m : ObjectMeta) : ObjectMeta :=
  {| Name := Name m; GenerateName := f (GenerateName m); Namespace := Namespace m;
     Labels := Labels m; Annotations := Annotations m; OwnerReferences := OwnerReferences m;
     Generation := Generation m |}.
Definition meta_Namespace (f : string -> string) (m : ObjectMeta) : ObjectMeta :=
  {| Name := Name m; GenerateName := GenerateName m; Namespace := f (Namespace m);
     Labels := Labels m; Annotations := Annotations m; OwnerReferences := OwnerReferences m;
     Generation := Generation m |}.
Definition meta_Labels (f : gomap string -> gomap string) (m : ObjectMeta) : ObjectMeta :=
  {| Name := Name m; GenerateName := GenerateName m; Namespace := Namespace m;
     Labels := f (Labels m); Annotations := Annotations m; OwnerReferences := OwnerReferences m;
     Generation := Generation m |}.
Definition meta_Annotations (f : gomap string -> gomap string) (m : ObjectMeta) : ObjectMeta :=
  {| Name := Name m; GenerateName := GenerateName m; Namespace := Namespace m;
     Labels := Labels m; Annotations := f (Annotations m); OwnerReferences := OwnerReferences m;
     Generation := Generation m |}.
Definition meta_OwnerReferences (f : list OwnerReference -> list OwnerReference)
    (m : ObjectMeta) : ObjectMeta :=
  {| Name := Name m; GenerateName := GenerateName m; Namespace := Namespace m;
     Labels := Labels m; Annotations := Annotations m;
     OwnerReferences := f (OwnerReferences m); Generation := Generation m |}.

(** ** Node affinity *)

Record NodeSelectorRequirement := {
  nsr_Key : string;
  nsr_Operator : string;
  nsr_Values : list string }.
#[global] Instance Eta_NodeSelectorRequirement : Eta NodeSelectorRequirement := fun r =>
  {| nsr_Key := nsr_Key r; nsr_Operator := nsr_Operator r; nsr_Values := nsr_Values r |}.

Record NodeSelectorTerm := { MatchExpressions : list NodeSelectorRequirement }.

Record NodeSelector := { NodeSelectorTerms : list NodeSelectorTerm }.

(** [VolumeNodeAffinity.Required] and the pod's
    [NodeAffinity.RequiredDuringSchedulingIgnoredDuringExecution]. *)
Record VolumeNodeAffinity := { Required : option NodeSelector }.
Record Affinity := { RequiredDuringScheduling : option NodeSelector }.

(** ** Persistent volumes and claims *)

Record LocalVolumeSource := { local_Path : string; local_FSType : option string }.
#[global] Instance Eta_LocalVolumeSource : Eta LocalVolumeSource := fun r =>
  {| local_Path := local_Path r; local_FSType := local_FSType r |}.
Record HostPathVolumeSource := { hp_Path : string; hp_Type : option string }.
#[global] Instance Eta_HostPathVolumeSource : Eta HostPathVolumeSource := fun r =>
  {| hp_Path := hp_Path r; hp_Type := hp_Type r |}.
Record NFSVolumeSource := { nfs_Server : string; nfs_Path : string; nfs_ReadOnly : bool }.
#[global] Instance Eta_NFSVolumeSource : Eta NFSVolumeSource := fun r =>
  {| nfs_Server := nfs_Server r; nfs_Path := nfs_Path r; nfs_ReadOnly := nfs_ReadOnly r |}.

Record PersistentVolumeSource := {
  src_Local : option LocalVolumeSource;
  src_HostPath : option HostPathVolumeSource;
  src_NFS : option NFSVolumeSource }.
#[global] Instance Eta_PersistentVolumeSource : Eta PersistentVolumeSource := fun r =>
  {| src_Local := src_Local r; src_HostPath := src_HostPath r; src_NFS := src_NFS r |}.

Record PersistentVolume := {
  pv_Meta : ObjectMeta;
  pv_Capacity : gomap Quantity;
  pv_Source : PersistentVolumeSource;
  pv_AccessModes : list string;
  pv_ReclaimPolicy : string;
  pv_VolumeMode : option string;
  pv_NodeAffinity : option VolumeNodeAffinity;
  pv_ClaimRef : option string }.
#[global] Instance Eta_PersistentVolume : Eta PersistentVolume := fun r =>
  {| pv_Meta := pv_Meta r; pv_Capacity := pv_Capacity r; pv_Source := pv_Source r;
     pv_AccessModes := pv_AccessModes r; pv_ReclaimPolicy := pv_ReclaimPolicy r;
     pv_VolumeMode := pv_VolumeMode r; pv_NodeAffinity := pv_NodeAffinity r;
     pv_ClaimRef := pv_ClaimRef r |}.

Definition PersistentVolumeSource_zero : PersistentVolumeSource :=
  {| src_Local := None; src_HostPath := None; src_NFS := None |}.

Definition PersistentVolume_zero : PersistentVolume :=
  {| pv_Meta := ObjectMeta_zero; pv_Capacity := None; pv_Source := PersistentVolumeSource_zero;
     pv_AccessModes := []; pv_ReclaimPolicy := ""; pv_VolumeMode := None;
     pv_NodeAffinity := None; pv_ClaimRef := None |}.

Record TypedLocalObjectReference := {
  ds_APIGroup : option string;
  ds_Kind : string;
  ds_Name : string }.
#[global] Instance Eta_TypedLocalObjectReference : Eta TypedLocalObjectReference := fun r =>
  {| ds_APIGroup := ds_APIGroup r; ds_Kind := ds_Kind r; ds_Name := ds_Name r |}.

Record PersistentVolumeClaim := {
  pvc_Meta : ObjectMeta;
  pvc_AccessModes : list string;
  pvc_Selector : option (gomap string);
  pvc_Requests : gomap Quantity;
  pvc_StorageClassName : option string;
  pvc_VolumeMode : option string;
  pvc_DataSource : option TypedLocalObjectReference;
  pvc_Phase : string }.
#[global] Instance Eta_PersistentVolumeClaim : Eta PersistentVolumeClaim := fun r =>
  {| pvc_Meta := pvc_Meta r; pvc_AccessModes := pvc_AccessModes r;
     pvc_Selector := pvc_Selector r; pvc_Requests := pvc_Requests r;
     pvc_StorageClassName := pvc_StorageClassName r; pvc_VolumeMode := pvc_VolumeMode r;
     pvc_DataSource := pvc_DataSource r; pvc_Phase := pvc_Phase r |}.

Definition PersistentVolumeClaim_zero : PersistentVolumeClaim :=
  {| pvc_Meta := ObjectMeta_zero; pvc_AccessModes := []; pvc_Selector := None;
     pvc_Requests := None; pvc_StorageClassName := None; pvc_VolumeMode := None;
     pvc_DataSource := None; pvc_Phase := "" |}.

(** ** Containers, volumes, pods *)

Record VolumeMount := { vm_Name : string; vm_ReadOnly : bool; vm_MountPath : string }.
#[global] Instance Eta_VolumeMount : Eta VolumeMount := fun r =>
  {| vm_Name := vm_Name r; vm_ReadOnly := vm_ReadOnly r; vm_MountPath := vm_MountPath r |}.

Record SecurityContext := { Privileged : option bool }.

Record Container := {
  c_Name : string;
  c_Image : string;
  c_Command : slice string;
  c_Args : slice string;
  c_WorkingDir : string;
  c_Ports : slice ContainerPort;
  c_EnvFrom : slice EnvFromSource;
  c_Env : slice EnvVar;
  c_Resources : ResourceRequirements;
  c_VolumeMounts : slice VolumeMount;
  c_VolumeDevices : slice VolumeDevice;
  c_LivenessProbe : option Probe;
  c_ReadinessProbe : option Probe;
  c_Lifecycle : option Lifecycle;
  c_TerminationMessagePath : string;
  c_TerminationMessagePolicy : string;
  c_ImagePullPolicy : string;
  c_SecurityContext : option SecurityContext;
  c_Stdin : bool;
  c_StdinOnce : bool;
  c_TTY : bool }.
#[global] Instance Eta_Container : Eta Container := fun r =>
  {| c_Name := c_Name r; c_Image := c_Image r; c_Command := c_Command r; c_Args := c_Args r;
     c_WorkingDir := c_WorkingDir r; c_Ports := c_Ports r; c_EnvFrom := c_EnvFrom r;
     c_Env := c_Env r; c_Resources := c_Resources r; c_VolumeMounts := c_VolumeMounts r;
     c_VolumeDevices := c_VolumeDevices r; c_LivenessProbe := c_LivenessProbe r;
     c_ReadinessProbe := c_ReadinessProbe r; c_Lifecycle := c_Lifecycle r;
     c_TerminationMessagePath := c_TerminationMessagePath r;
     c_TerminationMessagePolicy := c_TerminationMessagePolicy r;
     c_ImagePullPolicy := c_ImagePullPolicy r; c_SecurityContext := c_SecurityContext r;
     c_Stdin := c_Stdin r; c_StdinOnce := c_StdinOnce r; c_TTY := c_TTY r |}.

Definition Container_zero : Container :=
  {| c_Name := ""; c_Image := ""; c_Command := None; c_Args := None; c_WorkingDir := "";
     c_Ports := None; c_EnvFrom := None; c_Env := None;
     c_Resources := ResourceRequirements_zero; c_VolumeMounts := None; c_VolumeDevices := None;
     c_LivenessProbe := None; c_ReadinessProbe := None; c_Lifecycle := None;
     c_TerminationMessagePath := ""; c_TerminationMessagePolicy := ""; c_ImagePullPolicy := "";
     c_SecurityContext := None; c_Stdin := false; c_StdinOnce := false; c_TTY := false |}.

Record SecretVolumeSource := { sec_DefaultMode : option Z; sec_SecretName : string }.
#[global] Instance Eta_SecretVolumeSource : Eta SecretVolumeSource := fun r =>
  {| sec_DefaultMode := sec_DefaultMode r; sec_SecretName := sec_SecretName r |}.
Record ConfigMapVolumeSource := { cm_DefaultMode : option Z; cm_Name : string }.
#[global] Instance Eta_ConfigMapVolumeSource : Eta ConfigMapVolumeSource := fun r =>
  {| cm_DefaultMode := cm_DefaultMode r; cm_Name := cm_Name r |}.

Record VolumeSource := {
  vs_HostPath : option HostPathVolumeSource;
  vs_EmptyDir : option EmptyDirVolumeSource;
  vs_Secret : option SecretVolumeSource;
  vs_ConfigMap : option ConfigMapVolumeSource;
  vs_PVC : option string }.
#[global] Instance Eta_VolumeSource : Eta VolumeSource := fun r =>
  {| vs_HostPath := vs_HostPath r; vs_EmptyDir := vs_EmptyDir r; vs_Secret := vs_Secret r;
     vs_ConfigMap := vs_ConfigMap r; vs_PVC := vs_PVC r |}.

Definition VolumeSource_zero : VolumeSource :=
  {| vs_HostPath := None; vs_EmptyDir := None; vs_Secret := None; vs_ConfigMap := None;
     vs_PVC := None |}.

Record Volume := { vol_Name : string; vol_Source : VolumeSource }.
#[global] Instance Eta_Volume : Eta Volume := fun r =>
  {| vol_Name := vol_Name r; vol_Source := vol_Source r |}.

Definition Volume_zero : Volume := {| vol_Name := ""; vol_Source := VolumeSource_zero |}.

Record Taint := { taint_Key : string; taint_Value : string; taint_Effect : string }.
#[global] Instance Eta_Taint : Eta Taint := fun r =>
  {| taint_Key := taint_Key r; taint_Value := taint_Value r; taint_Effect := taint_Effect r |}.

Record Toleration := {
  tol_Key : string;
  tol_Operator : string;
  tol_Value : string;
  tol_Effect : string }.
#[global] Instance Eta_Toleration : Eta Toleration := fun r =>
  {| tol_Key := tol_Key r; tol_Operator := tol_Operator r; tol_Value := tol_Value r;
     tol_Effect := tol_Effect r |}.

Record LocalObjectReference := { lor_Name : string }.

Record PodSpec := {
  ps_Tolerations : list Toleration;
  ps_Containers : list Container;
  ps_Volumes : list Volume;
  ps_RestartPolicy : string;
  ps_NodeName : string;
  ps_NodeSelector : gomap string;
  ps_Affinity : option Affinity;
  ps_ImagePullSecrets : list LocalObjectReference;
  ps_ServiceAccountName : string;
  ps_PriorityClassName : string }.
#[global] Instance Eta_PodSpec : Eta PodSpec := fun r =>
  {| ps_Tolerations := ps_Tolerations r; ps_Containers := ps_Containers r;
     ps_Volumes := ps_Volumes r; ps_RestartPolicy := ps_RestartPolicy r;
     ps_NodeName := ps_NodeName r; ps_NodeSelector := ps_NodeSelector r;
     ps_Affinity := ps_Affinity r; ps_ImagePullSecrets := ps_ImagePullSecrets r;
     ps_ServiceAccountName := ps_ServiceAccountName r;
     ps_PriorityClassName := ps_PriorityClassName r |}.

Definition PodSpec_zero : PodSpec :=
  {| ps_Tolerations := []; ps_Containers := []; ps_Volumes := []; ps_RestartPolicy := "";
     ps_NodeName := ""; ps_NodeSelector := None; ps_Affinity := None;
     ps_ImagePullSecrets := []; ps_ServiceAccountName := ""; ps_PriorityClassName := "" |}.

Record Pod := { pod_Meta : ObjectMeta; pod_Spec : PodSpec; pod_Phase : string }.
#[global] Instance Eta_Pod : Eta Pod := fun r =>
  {| pod_Meta := pod_Meta r; pod_Spec := pod_Spec r; pod_Phase := pod_Phase r |}.

Definition Pod_zero : Pod :=
  {| pod_Meta := ObjectMeta_zero; pod_Spec := PodSpec_zero; pod_Phase := "" |}.

Record PodTemplateSpec := { pt_Meta : ObjectMeta; pt_Spec : PodSpec }.
#[global] Instance Eta_PodTemplateSpec : Eta PodTemplateSpec := fun r =>
  {| pt_Meta := pt_Meta r; pt_Spec := pt_Spec r |}.

Definition PodTemplateSpec_zero : PodTemplateSpec :=
  {| pt_Meta := ObjectMeta_zero; pt_Spec := PodSpec_zero |}.

(** ** Nodes and storage classes *)

Record Node := { node_Meta : ObjectMeta; node_Taints : list Taint }.
#[global] Instance Eta_Node : Eta Node := fun r =>
  {| node_Meta := node_Meta r; node_Taints := node_Taints r |}.

Record TopologySelectorLabelRequirement := { tslr_Key : string; tslr_Values : list string }.
#[global] Instance Eta_TopologySelectorLabelRequirement : Eta TopologySelectorLabelRequirement := fun r =>
  {| tslr_Key := tslr_Key r; tslr_Values := tslr_Values r |}.

Record TopologySelectorTerm := {
  MatchLabelExpressions : list TopologySelectorLabelRequirement }.

Record StorageClass := {
  sc_Meta : ObjectMeta;
  sc_Provisioner : string;
  sc_Parameters : gomap string;
  sc_ReclaimPolicy : option string;
  sc_VolumeBindingMode : option string;
  sc_AllowedTopologies : list TopologySelectorTerm }.
#[global] Instance Eta_StorageClass : Eta StorageClass := fun r =>
  {| sc_Meta := sc_Meta r; sc_Provisioner := sc_Provisioner r; sc_Parameters := sc_Parameters r;
     sc_ReclaimPolicy := sc_ReclaimPolicy r; sc_VolumeBindingMode := sc_VolumeBindingMode r;
     sc_AllowedTopologies := sc_AllowedTopologies r |}.

Definition StorageClass_zero : StorageClass :=
  {| sc_Meta := ObjectMeta_zero; sc_Provisioner := ""; sc_Parameters := None;
     sc_ReclaimPolicy := None; sc_VolumeBindingMode := None; sc_AllowedTopologies := [] |}.

End Types.
