(* ===== verification/Builder.v ===== *)
(** * Builders that accumulate errors

    The builder types of the packages [persistentvolume], [persistentvolumeclaim], [pod],
    [volume], [container], [podtemplatespec] and [deployment] share one design: a [Builder]
    holds the object under construction and the errors met so far, each [With...] method updates
    the object or appends errors and returns the builder, and [Build] returns the object when no
    error was recorded.  This file has the record, the interface [BuilderSpec] that states what
    the methods of such a builder promise, and the consequences for a chain of calls of any
    length, proved once against the interface. *)

From S2P Require Import Prelude.

Record builder (O : Type) := MkBuilder { b_obj : O; b_errs : list error }.
Arguments MkBuilder {O} b_obj b_errs.
Arguments b_obj {O} b.
Arguments b_errs {O} b.

(** [b.errs = append(b.errs, e)]. *)
Definition add_err {O} (e : error) (b : builder O) : builder O :=
  MkBuilder (b_obj b) (b_errs b ++ [e]).

(** An assignment to fields of the object. *)
Definition upd {O} (f : O -> O) (b : builder O) : builder O :=
  MkBuilder (f (b_obj b)) (b_errs b).

(** ** What a builder's methods promise

    [Op] names a call with its arguments.  A call appends errors that depend on its arguments
    only, changes the object as [op_upd] says, and never removes an error. *)
Class BuilderSpec {O Op : Type} (apply : Op -> builder O -> builder O) := {
  op_errs : Op -> list error;
  op_upd : Op -> O -> O;
  op_spec : forall op b,
    apply op b = MkBuilder (op_upd op (b_obj b)) (b_errs b ++ op_errs op) }.

(** A chain of calls, first one first. *)
Definition run {O Op} (apply : Op -> builder O -> builder O) (ops : list Op) (b : builder O) :
    builder O :=
  foldl (fun b op => apply op b) b ops.

Section Chains.
Context {O Op : Type} {apply : Op -> builder O -> builder O} {S : BuilderSpec apply}.

(** The object and the errors a chain should give. *)
Definition chain_obj (ops : list Op) (o : O) : O := foldl (fun o op => op_upd op o) o ops.
Definition chain_errs (ops : list Op) : list error := ops ≫= op_errs.
Definition valid (op : Op) : bool := match op_errs op with [] => true | _ => false end.

Lemma run_spec ops b :
  run apply ops b = MkBuilder (chain_obj ops (b_obj b)) (b_errs b ++ chain_errs ops).
Proof.
  revert b. induction ops as [|op ops IH]; intros b; simpl.
  - unfold chain_errs. simpl. rewrite app_nil_r. by destruct b.
  - rewrite IH, op_spec. simpl. by rewrite <- app_assoc.
Qed.

Lemma chain_errs_nil ops : chain_errs ops = [] <-> forallb valid ops = true.
Proof.
  unfold chain_errs. induction ops as [|op ops IH]; simpl; [done|].
  rewrite andb_true_iff, <- IH. unfold valid. destruct (op_errs op); simpl; [tauto|].
  split; [done|by intros [? ?]].
Qed.

(** Every call accepted: no error was recorded. *)
Lemma run_valid ops b :
  forallb valid ops = true -> run apply ops b = MkBuilder (chain_obj ops (b_obj b)) (b_errs b).
Proof. intros H. rewrite run_spec. apply chain_errs_nil in H. by rewrite H, app_nil_r. Qed.

(** A call rejected somewhere in the chain leaves an error, whatever follows. *)
Lemma run_invalid ops b : forallb valid ops = false -> b_errs (run apply ops b) <> [].
Proof.
  intros H. rewrite run_spec. simpl. intros [_ Hc]%app_eq_nil.
  apply chain_errs_nil in Hc. congruence.
Qed.

(** Errors are never lost: those already recorded stay, in front. *)
Lemma run_errs_prefix ops b : b_errs b `prefix_of` b_errs (run apply ops b).
Proof. rewrite run_spec. by apply prefix_app_r. Qed.

End Chains.

(** [Build] of the packages that report the list of errors. *)
Definition build_with {O} (wrap : list error -> error) (b : builder O) : outcome error O :=
  match b_errs b with
  | [] => Ret (b_obj b)
  | es => Fail (wrap es)
  end.

Lemma build_chain {O Op} {apply : Op -> builder O -> builder O} {S : BuilderSpec apply}
    wrap ops (o : O) :
  build_with wrap (run apply ops (MkBuilder o []))
  = if forallb valid ops then Ret (chain_obj ops o) else Fail (wrap (chain_errs ops)).
Proof.
  rewrite run_spec. unfold build_with. simpl. destruct (forallb valid ops) eqn:E.
  - apply chain_errs_nil in E. by rewrite E.
  - destruct (chain_errs ops) eqn:F; [|done].
    apply chain_errs_nil in F. congruence.
Qed.

(** The same in terms of the effects of the accepted calls: what a rejected call does to the
    object is never seen. *)
Lemma build_effects {O Op} {apply : Op -> builder O -> builder O} {S : BuilderSpec apply}
    (effect : Op -> O -> O) wrap ops (o : O) :
  (forall op o, op_errs op = [] -> op_upd op o = effect op o) ->
  build_with wrap (run apply ops (MkBuilder o []))
  = match ops ≫= op_errs with
    | [] => Ret (foldl (fun o op => effect op o) o ops)
    | es => Fail (wrap es)
    end.
Proof.
  intros Heff. rewrite run_spec. unfold build_with, chain_errs. cbn [b_errs b_obj app].
  destruct (ops ≫= op_errs) eqn:E; [|done]. f_equal. revert o E.
  induction ops as [|op ops IH]; intros o E; [done|].
  cbn in E. apply app_eq_nil in E as [E1 E2]. cbn. rewrite Heff by done. by apply IH.
Qed.

(** ** Lists filtered by predicates

    The list builders of the packages hold the items, the filters and the errors met so far; the
    list they give back is the items on which every filter holds, in order. *)
Section Filters.
Context {X : Type}.

(** [PredicateList.all]: stops at the first predicate that fails. *)
Fixpoint all_preds (l : list (X -> bool)) (x : X) : bool :=
  match l with
  | [] => true
  | pred :: l => if negb (pred x) then false else all_preds l x
  end.

(** [for _, x := range items { if filters.all(x) { filtered = append(filtered, x) } }]. *)
Definition filter_loop (filters : list (X -> bool)) (items : list X) : list X :=
  foldl (fun acc x => if all_preds filters x then acc ++ [x] else acc) [] items.

(** No filter at all gives the list itself. *)
Definition filtered (filters : list (X -> bool)) (items : list X) : list X :=
  match filters with [] => items | _ => filter_loop filters items end.

Lemma all_preds_true l x : all_preds l x = true <-> Forall (fun p => p x = true) l.
Proof.
  induction l as [|p l IH]; cbn; [done|]. rewrite Forall_cons.
  destruct (p x); cbn; [rewrite IH|]; intuition congruence.
Qed.

Lemma filtered_eq filters items :
  filtered filters items = filter (fun x => all_preds filters x = true) items.
Proof.
  assert (forall acc, foldl (fun acc x => if all_preds filters x then acc ++ [x] else acc) acc items
    = acc ++ filter (fun x => all_preds filters x = true) items) as H.
  { induction items as [|x l IH]; intros acc; [cbn; by rewrite app_nil_r|].
    cbn [foldl]. rewrite IH, filter_cons. destruct (all_preds filters x); cbn; [|done].
    by rewrite <- app_assoc. }
  destruct filters as [|p ps]; [|apply (H [])].
  cbn. clear. induction items as [|x l IH]; [done|]. by rewrite filter_cons, <- IH.
Qed.

(** Filters given in two calls are the filters given in one. *)
Lemma filtered_app f1 f2 items :
  filtered (f1 ++ f2) items = filtered f2 (filtered f1 items).
Proof.
  rewrite !filtered_eq, list_filter_filter. apply list_filter_iff. intros x.
  rewrite !all_preds_true, Forall_app. tauto.
Qed.

End Filters.

(** ** Proving [op_spec]: unfold the method, split on its tests, compute. *)
Ltac solve_op_spec :=
  intros [] [? ?]; cbn; unfold add_err, upd; cbn;
  repeat case_match; cbn; rewrite ?app_nil_r; try reflexivity; try congruence.
