(* ===== verification/NdmConfig.v ===== *)
(** * The configuration of the node disk manager

    src/pkg/kubernetes/ndmconfig/ndmconfig.go: the configuration kept as YAML in a config map, and
    the path filter, whose two lists are strings of paths separated by commas. *)

From S2P Require Import Prelude GoStrings.
Open Scope string_scope. Open Scope list_scope.

(* Source: src/pkg/kubernetes/ndmconfig/ndmconfig.go *)

Record ProbeConfig := { probe_Key : string; probe_Name : string; probe_State : string }.

Record FilterConfig := {
  Key : string;
  Name : string;
  State : string;
  IncludeList : string;
  ExcludeList : string }.
#[global] Instance Eta_FilterConfig : Eta FilterConfig := fun r =>
  {| Key := Key r; Name := Name r; State := State r; IncludeList := IncludeList r;
     ExcludeList := ExcludeList r |}.

Record TagConfig := {
  tag_Name : string; tag_Type : string; tag_Pattern : string; tag_TagName : string }.

Record Config := {
  ProbeConfigs : list ProbeConfig;
  FilterConfigs : list FilterConfig;
  TagConfigs : list TagConfig }.
#[global] Instance Eta_Config : Eta Config := fun r =>
  {| ProbeConfigs := ProbeConfigs r; FilterConfigs := FilterConfigs r; TagConfigs := TagConfigs r |}.

(** [ListType] is a string: any value can be passed. *)
(* go: 60-60 Include *)
Definition Include : string := "include".
(* go: 61-61 Exclude *)
Definition Exclude : string := "exclude".

(** The YAML package. *)
Class Yaml := {
  yaml_Unmarshal : string -> outcome error Config;
  yaml_Marshal : Config -> outcome error string }.

(** The [Data] of the config map; [None] is the nil pointer. *)
Definition NewConfigFromAPIConfigMap `{Yaml} (ndmConfigMap : option (gomap string)) :
    outcome error Config :=
  match ndmConfigMap with
  | None => Fail (ErrNew "NDM ConfigMap is 'nil'")
  | Some data =>
    match yaml_Unmarshal (mget_str data "node-disk-manager.config") with
    | Fail err => Fail (Wrapf err "failed to unmarshal NDM config" [])
    | o => o
    end
  end.

(** The loop that looks for the path filter: the index of the first one. *)
(* go: 85-96 AppendToPathFilter *)
Definition path_filter_index (l : list FilterConfig) : option nat :=
  fst <$> list_find (fun f => Key f = "path-filter") l.

(** The list of a filter that [listtype] names. *)
(* go: none *)
Definition list_of (listtype : string) (f : FilterConfig) : string :=
  if String.eqb listtype Include then IncludeList f else ExcludeList f.

(** [f] on the list of the path filter: the part that the two operations share. *)
(* go: none *)
Definition on_path_filter (listtype : string) (g : string -> string) (c : option Config) :
    outcome error Config :=
  match c with
  | None => Fail (ErrNew "Config is nil")
  | Some c =>
    match path_filter_index (FilterConfigs c) with
    | None => Fail (ErrNew "No filterconfig with 'key: path-filter' found")
    | Some pathFilterIndex =>
      if String.eqb listtype Include then
        Ret (c <| FilterConfigs ::= alter (fun f => f <| IncludeList ::= g |>) pathFilterIndex |>)
      else if String.eqb listtype Exclude then
        Ret (c <| FilterConfigs ::= alter (fun f => f <| ExcludeList ::= g |>) pathFilterIndex |>)
      else Fail (ErrNew "invalid filterconfig path-filter list name")
    end
  end.

(* go: 98-115 AppendToPathFilter *)
Definition append_path (diskPath l : string) : string :=
  let separator := if (0 <? len l)%nat then "," else "" in l +:+ separator +:+ diskPath.

(** The configuration is changed in place; it is untouched when an error is returned. *)
(* go: 80-115 AppendToPathFilter *)
Definition AppendToPathFilter (listtype diskPath : string) : option Config -> outcome error Config :=
  on_path_filter listtype (append_path diskPath).

(* go: 135-149 RemoveFromPathFilter *)
Definition remove_path (diskPath l : string) : string :=
  let finalList := ReplaceAllEmpty l ("," +:+ diskPath) in ReplaceAllEmpty finalList diskPath.

(* go: 117-149 RemoveFromPathFilter *)
Definition RemoveFromPathFilter (listtype diskPath : string) : option Config -> outcome error Config :=
  on_path_filter listtype (remove_path diskPath).

Definition GetConfigYaml `{Yaml} (c : option Config) : outcome error string :=
  match c with
  | None => Fail (ErrNew "Config is nil")
  | Some c =>
    match yaml_Marshal c with
    | Fail err => Fail (Wrapf err "failed to marshal NDM Config to YAML" [])
    | o => o
    end
  end.

(** ** Removing what was appended *)

Lemma remove_all_absent old s :
  old <> "" -> Contains s old = false -> remove_all_from 0 s old = s.
Proof.
  intros Hne. induction s as [|a s IH]; cbn; [done|]. intros H.
  apply orb_false_iff in H as [-> H]. by rewrite IH.
Qed.

Lemma ReplaceAllEmpty_absent old s : Contains s old = false -> ReplaceAllEmpty s old = s.
Proof.
  intros H. unfold ReplaceAllEmpty. destruct old as [|a old]; [done|]. by apply remove_all_absent.
Qed.

(** Skipping [len t] characters of [t]. *)
Lemma remove_all_skip old t : remove_all_from (len t) t old = "".
Proof. induction t as [|a t IH]; [done|]. exact IH. Qed.

Lemma HasPrefix_refl s : HasPrefix s s = true.
Proof. rewrite <- (sapp_nil_r s) at 1. apply HasPrefix_app. Qed.

(** Where the first part of one split ends within another. *)
Lemma sapp_split p t s c :
  p +:+ t = s +:+ c ->
  (exists u, s = p +:+ u) \/ (exists a u, p = s +:+ String a u /\ c = String a (u +:+ t)).
Proof.
  revert s. induction p as [|x p IH]; intros s H; [left; by exists s|].
  destruct s as [|y s]; cbn in H.
  - right. exists x, p. done.
  - injection H as <- H. destruct (IH s H) as [[u ->]|(a & u & -> & ->)].
    + left. by exists u.
    + right. by exists a, u.
Qed.

(** A path without commas that begins with a comma before it, in a list that ends with the path,
    begins the list without that end, or the end itself. *)
Lemma entry_prefix p s :
  Contains p "," = false -> s <> "" ->
  HasPrefix (s +:+ "," +:+ p) ("," +:+ p) = HasPrefix s ("," +:+ p).
Proof.
  intros Hp Hs. apply eq_true_iff_eq. split; intros [t Ht]%HasPrefix_spec.
  - change (s +:+ "," +:+ p = ("," +:+ p) +:+ t) in Ht. destruct s as [|a s]; [done|].
    injection Ht as -> Ht.
    destruct (sapp_split _ _ _ _ (eq_sym Ht)) as [[u ->]|(b & u & -> & Hc)].
    + apply HasPrefix_spec. by exists u.
    + exfalso. injection Hc as <- _. enough (Contains (s +:+ String "," u) "," = true) by congruence.
      apply Contains_spec. by exists s, u.
  - apply HasPrefix_spec. exists (t +:+ "," +:+ p). by rewrite Ht, <- !sapp_assoc.
Qed.

(** Appending an entry and removing the entries of its kind removes it and those of the list. *)
Lemma remove_all_appended p s k :
  Contains p "," = false -> (k <= len s)%nat ->
  remove_all_from k (s +:+ "," +:+ p) ("," +:+ p) = remove_all_from k s ("," +:+ p).
Proof.
  intros Hp. revert k. induction s as [|a s IH]; intros k Hk.
  - assert (k = 0)%nat as -> by (cbn in Hk; lia). cbn. rewrite HasPrefix_refl. cbn.
    rewrite Nat.sub_0_r. apply remove_all_skip.
  - destruct k as [|k]; [|cbn in Hk; cbn [String.append remove_all_from]; apply IH; lia].
    pose proof (entry_prefix p (String a s) Hp) as He.
    cbn [String.append remove_all_from] in *. rewrite He by done.
    destruct (HasPrefix (String a s) (String "," p)) eqn:E; [|by rewrite IH by lia].
    apply IH. apply HasPrefix_spec in E as [t Ht]. injection Ht as _ ->.
    rewrite len_app. cbn. lia.
Qed.

Lemma remove_all_len old s k : (len (remove_all_from k s old) <= len s)%nat.
Proof.
  revert k. induction s as [|a s IH]; intros [|k]; cbn [remove_all_from String.length]; try lia.
  - destruct (HasPrefix _ _);
      [pose proof (IH (len old - 1)%nat)|pose proof (IH 0%nat); cbn [String.length]]; lia.
  - pose proof (IH k). lia.
Qed.

(** Removing something that occurs makes a string shorter. *)
Lemma ReplaceAllEmpty_shorter old s :
  old <> "" -> Contains s old = true -> (len (ReplaceAllEmpty s old) < len s)%nat.
Proof.
  intros Hne. unfold ReplaceAllEmpty. destruct old as [|b old]; [done|]. clear Hne.
  induction s as [|a s IH]; [done|]. intros H. cbn [remove_all_from].
  destruct (HasPrefix (String a s) (String b old)) eqn:E.
  - pose proof (remove_all_len (String b old) s (len (String b old) - 1)). cbn in *. lia.
  - change (Contains (String a s) (String b old))
      with (HasPrefix (String a s) (String b old) || Contains s (String b old)) in H.
    rewrite E in H. apply IH in H. cbn in *. lia.
Qed.

(** Removing what was appended gives back the list exactly when it does not have the path in it. *)
Lemma remove_append p s :
  p <> "" -> Contains p "," = false ->
  (remove_path p (append_path p s) = s <-> Contains s p = false).
Proof.
  intros Hne Hp. unfold remove_path, append_path. destruct s as [|a s].
  - cbn [String.length Nat.ltb Nat.leb String.append].
    rewrite (ReplaceAllEmpty_absent (String "," p) p).
    + split; [intros _; by destruct p|intros _]. destruct p as [|b p]; [done|]. cbn.
      rewrite Ascii.eqb_refl, HasPrefix_refl. cbn. rewrite Nat.sub_0_r. apply remove_all_skip.
    + apply not_true_is_false. intros (x & y & Hxy)%Contains_spec.
      enough (Contains p "," = true) by congruence. apply Contains_spec.
      exists x, (p +:+ y). exact Hxy.
  - cbn [String.length Nat.ltb Nat.leb]. change (ReplaceAllEmpty ?l ("," +:+ p))
      with (remove_all_from 0 l ("," +:+ p)).
    rewrite remove_all_appended by (done || lia). set (l := String a s).
    change (remove_all_from 0 l ("," +:+ p)) with (ReplaceAllEmpty l ("," +:+ p)).
    assert (forall old, (len (ReplaceAllEmpty l old) <= len l)%nat) as Hle
      by (intros [|b old]; [done|apply remove_all_len]).
    destruct (Contains l ("," +:+ p)) eqn:E1.
    + apply (ReplaceAllEmpty_shorter ("," +:+ p)) in E1 as Hs; [|done].
      assert (Contains l p = true) as ->.
      { apply Contains_spec in E1 as (x & y & ->). apply Contains_spec.
        exists (x +:+ ","), y. by rewrite <- !sapp_assoc. }
      split; [|done]. intros Heq. exfalso.
      assert (forall x, (len (ReplaceAllEmpty x p) <= len x)%nat) as Hx
        by (intros x; unfold ReplaceAllEmpty; destruct p; [done|apply remove_all_len]).
      specialize (Hx (ReplaceAllEmpty l ("," +:+ p))). rewrite Heq in Hx. lia.
    + rewrite (ReplaceAllEmpty_absent ("," +:+ p)) by done. destruct (Contains l p) eqn:E2.
      * apply (ReplaceAllEmpty_shorter p) in E2; [|done]. split; [|done].
        intros Heq. rewrite Heq in E2. lia.
      * split; [done|]. intros _. by apply ReplaceAllEmpty_absent.
Qed.

(** One operation undoes another on the configuration exactly when it does on the list of the first
    path filter. *)
Lemma on_path_filter_inverse listtype g h c c' :
  on_path_filter listtype g (Some c) = Ret c' ->
  exists i f, list_find (fun f => Key f = "path-filter") (FilterConfigs c) = Some (i, f) /\
    (on_path_filter listtype h (Some c') = Ret c <->
     h (g (list_of listtype f)) = list_of listtype f).
Proof.
  unfold on_path_filter, path_filter_index, list_of.
  destruct (list_find _ _) as [[i f]|] eqn:E; [|done]. cbn [fst fmap option_fmap option_map].
  intros Hc. exists i, f. split; [done|].
  pose proof E as (Hi & Hk & Hfirst)%list_find_Some.
  assert (forall k : FilterConfig -> FilterConfig, (forall f, Key (k f) = Key f) ->
    list_find (fun f => Key f = "path-filter") (alter k i (FilterConfigs c)) = Some (i, k f)) as Hfind.
  { intros k Hkey. apply list_find_Some. rewrite list_lookup_alter, Hi, Hkey.
    rewrite decide_True by done. split; [done|split; [done|]]. intros j y Hj Hlt.
    rewrite list_lookup_alter_ne in Hj by lia. by apply (Hfirst j). }
  assert (forall k k' : FilterConfig -> FilterConfig,
    c <| FilterConfigs := alter k' i (alter k i (FilterConfigs c)) |> = c <-> k' (k f) = f) as Halt.
  { intros k k'. split.
    - intros H. apply (f_equal (fun c => FilterConfigs c !! i)) in H.
      cbn [FilterConfigs set] in H. rewrite !list_lookup_alter, !decide_True, Hi in H by done.
      by injection H.
    - intros Hkk. destruct c as [ps fs ts]. cbn. f_equal. apply list_eq. intros j.
      rewrite !list_lookup_alter. destruct (decide (i = j)) as [<-|]; [|done].
      cbn in Hi. rewrite decide_True, Hi by done. cbn. by rewrite Hkk. }
  destruct (String.eqb listtype Include); [|destruct (String.eqb listtype Exclude); [|done]];
    injection Hc as <-; cbn [FilterConfigs set]; rewrite Hfind by done;
    cbn [fst fmap option_fmap option_map].
  - etrans; [|etrans; [apply (Halt (fun f => f <| IncludeList ::= g |>)
      (fun f => f <| IncludeList ::= h |>))|]].
    + split; [by intros [= H]|exact (fun H => f_equal (@Ret error _) H)].
    + destruct f; cbn. split; [by intros [= ->]|by intros ->].
  - etrans; [|etrans; [apply (Halt (fun f => f <| ExcludeList ::= g |>)
      (fun f => f <| ExcludeList ::= h |>))|]].
    + split; [by intros [= H]|exact (fun H => f_equal (@Ret error _) H)].
    + destruct f; cbn. split; [by intros [= ->]|by intros ->].
Qed.

(** C34: when removing a path from the path filter undoes appending it.  For a path that is not
    empty and has no comma, and whenever it could be appended, the removal gives back the whole
    configuration exactly when the path does not occur in the list it was appended to, neither as
    an entry nor as a part of one. *)
Theorem path_filter_roundtrip listtype p c c' :
  p <> "" -> Contains p "," = false ->
  AppendToPathFilter listtype p (Some c) = Ret c' ->
  exists i f, list_find (fun f => Key f = "path-filter") (FilterConfigs c) = Some (i, f) /\
    (RemoveFromPathFilter listtype p (Some c') = Ret c <->
     Contains (list_of listtype f) p = false).
Proof.
  intros Hne Hp Hc.
  destruct (on_path_filter_inverse _ _ (remove_path p) _ _ Hc) as (i & f & Hf & Hinv).
  exists i, f. split; [done|]. unfold RemoveFromPathFilter. rewrite Hinv. by apply remove_append.
Qed.

(** The removal works on substrings: a path that begins another is cut out of it, and the first
    path of a list leaves its comma behind. *)
Lemma remove_path_substring :
  remove_path "/dev/sda" "/dev/sdb,/dev/sda1" = "/dev/sdb1"
  /\ remove_path "/dev/sda" "/dev/sda,/dev/sdb" = ",/dev/sdb".
Proof. done. Qed.
