(* ===== verification/Client.v ===== *)
(** * The client of the Kubernetes API

    src/pkg/kubernetes/client/client.go: the options of the client, the functions that it is
    given by default, the configuration it chooses and the client of the whole process.  The
    functions of [client-go] and [os.Getenv] (through [maya]'s [env]) are parameters; a mocked
    function replaces one of them in a client. *)

From S2P Require Import Prelude GoStrings.
Open Scope string_scope. Open Scope list_scope.

(* Source: src/pkg/kubernetes/client/client.go *)

(** [rest.InClusterConfig], [clientcmd.BuildConfigFromFlags], [kubernetes.NewForConfig],
    [dynamic.NewForConfig] and [env.Get], with their types. *)
Class ClientGo := {
  RestConfig : Type;
  KubeClientset : Type;
  DynamicInterface : Type;
  InClusterConfig : outcome error RestConfig;
  BuildConfigFromFlags : string -> string -> outcome error RestConfig;
  NewForConfig : RestConfig -> outcome error KubeClientset;
  NewDynamicForConfig : RestConfig -> outcome error DynamicInterface;
  env_Get : string -> string }.

(* go: 34-34 K8sMasterIPEnvironmentKey *)
Definition K8sMasterIPEnvironmentKey := "OPENEBS_IO_K8S_MASTER".
(* go: 38-38 KubeConfigEnvironmentKey *)
Definition KubeConfigEnvironmentKey := "OPENEBS_IO_KUBE_CONFIG".

Section Client.
Context `{ClientGo}.

Definition getInClusterConfigFn : Type := outcome error RestConfig.
Definition buildConfigFromFlagsFn : Type := string -> string -> outcome error RestConfig.
Definition getKubeMasterIPFromENVFn : Type := string -> string.
Definition getKubeConfigPathFromENVFn : Type := string -> string.
Definition getKubeDynamicClientFn : Type := RestConfig -> outcome error DynamicInterface.
Definition getKubeClientsetFn : Type := RestConfig -> outcome error KubeClientset.

(** A function field that was not set is nil. *)
Record Client := {
  IsInCluster : bool;
  KubeConfigPath : string;
  getInClusterConfig : option getInClusterConfigFn;
  buildConfigFromFlags : option buildConfigFromFlagsFn;
  getKubeClientset : option getKubeClientsetFn;
  getKubeDynamicClient : option getKubeDynamicClientFn;
  getKubeMasterIPFromENV : option getKubeMasterIPFromENVFn;
  getKubeConfigPathFromENV : option getKubeConfigPathFromENVFn }.
#[global] Instance Eta_Client : Eta Client := fun r =>
  {| IsInCluster := IsInCluster r; KubeConfigPath := KubeConfigPath r;
     getInClusterConfig := getInClusterConfig r; buildConfigFromFlags := buildConfigFromFlags r;
     getKubeClientset := getKubeClientset r; getKubeDynamicClient := getKubeDynamicClient r;
     getKubeMasterIPFromENV := getKubeMasterIPFromENV r;
     getKubeConfigPathFromENV := getKubeConfigPathFromENV r |}.

(* go: none *)
Definition Client_zero : Client :=
  {| IsInCluster := false; KubeConfigPath := ""; getInClusterConfig := None;
     buildConfigFromFlags := None; getKubeClientset := None; getKubeDynamicClient := None;
     getKubeMasterIPFromENV := None; getKubeConfigPathFromENV := None |}.

Definition OptionFn : Type := Client -> Client.

(** [if c.f == nil { c.f = def }]. *)
(* go: none *)
Definition or_default {X} (x : option X) (def : X) : option X :=
  match x with None => Some def | Some _ => x end.

Definition withDefaultGetInClusterConfigFn : OptionFn := fun c =>
  c <| getInClusterConfig ::= fun f => or_default f InClusterConfig |>.

Definition withDefaultBuildConfigFromFlagsFn : OptionFn := fun c =>
  c <| buildConfigFromFlags ::= fun f => or_default f BuildConfigFromFlags |>.

Definition withDefaultGetKubeClientsetFn : OptionFn := fun c =>
  c <| getKubeClientset ::= fun f => or_default f NewForConfig |>.

Definition withDefaultGetKubeDynamicClientFn : OptionFn := fun c =>
  c <| getKubeDynamicClient ::= fun f => or_default f NewDynamicForConfig |>.

Definition withDefaultGetKubeMasterIPFromENVFn : OptionFn := fun c =>
  c <| getKubeMasterIPFromENV ::= fun f => or_default f env_Get |>.

Definition withDefaultGetKubeConfigPathFromENVFn : OptionFn := fun c =>
  c <| getKubeConfigPathFromENV ::= fun f => or_default f env_Get |>.

Definition defaultFns : list OptionFn :=
  [withDefaultGetInClusterConfigFn; withDefaultBuildConfigFromFlagsFn;
   withDefaultGetKubeClientsetFn; withDefaultGetKubeDynamicClientFn;
   withDefaultGetKubeMasterIPFromENVFn; withDefaultGetKubeConfigPathFromENVFn].

Definition withDefaults (c : Client) : Client := foldl (fun c def => def c) c defaultFns.

Definition New (opts : list OptionFn) : Client :=
  withDefaults (foldl (fun c o => o c) Client_zero opts).

(** The client of the process, made by the first call; [None] before it. *)
(* go: func Instance( *)
Definition Instance_ (opts : list OptionFn) : M (option Client) error Client := fun instance =>
  let c := match instance with None => New opts | Some c => c end in (Some c, Ret c).

Definition InCluster : OptionFn := fun c => c <| IsInCluster := true |>.

Definition WithKubeConfigPath (kubeConfigPath : string) : OptionFn := fun c =>
  c <| KubeConfigPath := kubeConfigPath |>.

Definition ConfigForPath (c : Client) (kubeConfigPath : string) : outcome error RestConfig :=
  f ← deref (buildConfigFromFlags c); f "" kubeConfigPath.

Definition getConfigFromENV (c : Client) : outcome error RestConfig :=
  master ← deref (getKubeMasterIPFromENV c);
  path ← deref (getKubeConfigPathFromENV c);
  let k8sMaster := master K8sMasterIPEnvironmentKey in
  let kubeConfig := path KubeConfigEnvironmentKey in
  if String.eqb (TrimSpace k8sMaster) "" && String.eqb (TrimSpace kubeConfig) "" then
    Fail (Errorf
      "failed to get kubernetes config: missing ENV: atleast one should be set: {%s} or {%s}"
      [AStr K8sMasterIPEnvironmentKey; AStr KubeConfigEnvironmentKey])
  else f ← deref (buildConfigFromFlags c); f k8sMaster kubeConfig.

(** The second variable is read when the first is blank. *)
Definition Config (c : Client) : outcome error RestConfig :=
  if IsInCluster c then f ← deref (getInClusterConfig c); f else
  master ← deref (getKubeMasterIPFromENV c);
  fromENV ← (if negb (String.eqb (TrimSpace (master K8sMasterIPEnvironmentKey)) "") then Ret true
             else path ← deref (getKubeConfigPathFromENV c);
                  Ret (negb (String.eqb (TrimSpace (path KubeConfigEnvironmentKey)) "")));
  if (fromENV : bool) then getConfigFromENV c else f ← deref (getInClusterConfig c); f.

Definition GetConfigForPathOrDirect (c : Client) : outcome error RestConfig :=
  if negb (String.eqb (KubeConfigPath c) "") then ConfigForPath c (KubeConfigPath c) else Config c.

Definition GetConfig (c : option Client) : outcome error RestConfig :=
  match c with
  | None => Fail (ErrNew "failed to get kubernetes config: nil client provided")
  | Some c => GetConfigForPathOrDirect c
  end.

Definition Clientset (c : Client) : outcome error KubeClientset :=
  match GetConfigForPathOrDirect c with
  | Fail err => Fail (Wrapf err
      "failed to get kubernetes clientset: IsInCluster {%t}: KubeConfigPath {%s}"
      [AOther; AStr (KubeConfigPath c)])
  | Ret config => f ← deref (getKubeClientset c); f config
  | Panic => Panic
  end.

Definition Dynamic (c : Client) : outcome error DynamicInterface :=
  match GetConfigForPathOrDirect c with
  | Fail err => Fail (Wrapf err "failed to get dynamic client" [])
  | Ret config => f ← deref (getKubeDynamicClient c); f config
  | Panic => Panic
  end.

(** ** The configuration that is chosen *)

(** The options of the package. *)
Inductive Opt := OptInCluster | OptPath (kubeConfigPath : string).

(* go: none *)
Definition opt_fn (o : Opt) : OptionFn :=
  match o with OptInCluster => InCluster | OptPath p => WithKubeConfigPath p end.

(** The path that is given last. *)
(* go: none *)
Definition path_of (opts : list Opt) : string :=
  foldl (fun p o => match o with OptPath p' => p' | OptInCluster => p end) "" opts.

(* go: none *)
Definition in_cluster (opts : list Opt) : bool :=
  existsb (fun o => match o with OptInCluster => true | OptPath _ => false end) opts.

(** The documented priority: the path, the flag, the environment, the cluster. *)
(* go: none *)
Definition chosen (opts : list Opt) : outcome error RestConfig :=
  let master := env_Get K8sMasterIPEnvironmentKey in
  let config := env_Get KubeConfigEnvironmentKey in
  if bool_decide (path_of opts <> "") then BuildConfigFromFlags "" (path_of opts)
  else if in_cluster opts then InClusterConfig
  else if bool_decide (TrimSpace master = "" /\ TrimSpace config = "") then InClusterConfig
  else BuildConfigFromFlags master config.

Lemma New_spec opts :
  New (map opt_fn opts)
  = {| IsInCluster := in_cluster opts; KubeConfigPath := path_of opts;
       getInClusterConfig := Some InClusterConfig;
       buildConfigFromFlags := Some BuildConfigFromFlags;
       getKubeClientset := Some NewForConfig;
       getKubeDynamicClient := Some NewDynamicForConfig;
       getKubeMasterIPFromENV := Some env_Get; getKubeConfigPathFromENV := Some env_Get |}.
Proof.
  unfold New. assert (forall c, foldl (fun c o => o c) c (map opt_fn opts)
    = c <| IsInCluster := IsInCluster c || in_cluster opts |>
        <| KubeConfigPath := foldl (fun p o => match o with OptPath p' => p' | _ => p end)
             (KubeConfigPath c) opts |>) as ->; [|done].
  induction opts as [|o opts IH]; intros c; cbn [map foldl].
  - destruct c; cbn. by rewrite orb_false_r.
  - rewrite IH. destruct o; destruct c; cbn; by rewrite ?orb_true_r.
Qed.

Lemma chosen_config opts : GetConfigForPathOrDirect (New (map opt_fn opts)) = chosen opts.
Proof.
  rewrite New_spec. unfold GetConfigForPathOrDirect, ConfigForPath, Config, getConfigFromENV, chosen.
  cbn -[String.eqb TrimSpace env_Get path_of in_cluster].
  destruct (String.eqb_spec (path_of opts) "") as [->|Hp]; cbn -[String.eqb TrimSpace in_cluster].
  - destruct (in_cluster opts); [done|].
    destruct (String.eqb_spec (TrimSpace (env_Get K8sMasterIPEnvironmentKey)) "") as [Hm|Hm];
      destruct (String.eqb_spec (TrimSpace (env_Get KubeConfigEnvironmentKey)) "") as [Hc|Hc];
      cbn -[TrimSpace]; repeat case_bool_decide; try done; tauto.
  - by rewrite bool_decide_true.
Qed.

(** C33: the configuration of a client made by the options of the package.  A path that is given
    comes first (the last one given), then the flag, then the environment when one of its two
    variables is not blank, passed on as they are, and else the cluster; no function of the client
    is nil; the clientset and the dynamic client are made from it; and the client of the process
    is the one that the first call asks for, whatever the options of the calls that follow. *)
Theorem client_configuration opts opts' :
  let c := New (map opt_fn opts) in
  GetConfig (Some c) = chosen opts
  /\ Clientset c = match chosen opts with
                   | Ret config => NewForConfig config
                   | Fail err => Fail (Wrapf err
                       "failed to get kubernetes clientset: IsInCluster {%t}: KubeConfigPath {%s}"
                       [AOther; AStr (path_of opts)])
                   | Panic => Panic
                   end
  /\ Dynamic c = match chosen opts with
                 | Ret config => NewDynamicForConfig config
                 | Fail err => Fail (Wrapf err "failed to get dynamic client" [])
                 | Panic => Panic
                 end
  /\ Instance_ (map opt_fn opts) None = (Some c, Ret c)
  /\ Instance_ opts' (Some c) = (Some c, Ret c).
Proof.
  intros c. pose proof (chosen_config opts) as Hc. fold c in Hc. split; [exact Hc|].
  unfold Clientset, Dynamic. rewrite Hc.
  split; [|split; [|done]]; unfold c; rewrite New_spec; by destruct (chosen opts).
Qed.

End Client.
