(* ===== verification/Event.v ===== *)
(** * Lists of events

    src/pkg/kubernetes/api/core/v1/event: event.go (the list of events, its sorting and the
    predicates) and buildlist.go (the builder of the list).  An [EventList] is reached through a
    pointer and sorted in place, and [List] returns the builder's own list when there is no
    filter, so the lists live in a store, by address. *)

From S2P Require Import Prelude GoStrings GoSort KubeApi Builder.
Open Scope string_scope. Open Scope list_scope.

Section Event.
Context {A : ApiTypes}.

(** The fields of the API object that the package reads; the time as an instant. *)
(* go: none *)
Record CoreEvent := {
  ev_Meta : ObjectMeta;
  ev_InvolvedKind : string;
  ev_Reason : string;
  ev_Message : string;
  ev_Type : string;
  ev_LastTimestamp : Z }.

(* Source: src/pkg/kubernetes/api/core/v1/event/event.go *)

Record Event := { Object : option CoreEvent }.

(* go: type EventList *)
Abbreviation EventList := (list Event).

(** The event lists that pointers hold, by address. *)
(* go: none *)
Abbreviation store := (gmap nat EventList).

Definition Predicate := Event -> outcome error bool.

Fixpoint all (l : list Predicate) (event : Event) : outcome error bool :=
  match l with
  | [] => Ret true
  | pred :: l => b ← pred event; if negb b then Ret false else all l event
  end.

(** The list behind a pointer. *)
(* go: none *)
Definition items (p : nat) : M store error EventList := fun st => (st, deref (st !! p)).

(* go: none *)
Definition set_items (p : nat) (its : EventList) : M store error unit := fun st =>
  (<[p := its]> st, Ret tt).

Definition Len (p : nat) : M store error nat := its ← items p; mret (length its).

(** [Less] on the objects of two events. *)
(* go: (eventList *EventList) Less( *)
Definition earlier (x y : CoreEvent) : bool := (ev_LastTimestamp x <? ev_LastTimestamp y)%Z.

(** [sort.Stable] with [less]: fewer than two events are not compared; otherwise every event is,
    and one without an object is a nil dereference. *)
(* go: none *)
Definition sort_at (less : CoreEvent -> CoreEvent -> bool) (p : nat) : M store error unit :=
  its ← items p;
  if (length its <? 2)%nat then mret tt else
  os ← lift (deref (mapM (M := option) Object its));
  set_items p (map (fun o => {| Object := Some o |}) (Stable less os)).

Definition LatestLastSort (p : nat) : M store error nat := _ ← sort_at earlier p; mret p.

Definition LatestFirstSort (p : nat) : M store error nat :=
  _ ← sort_at (Reverse earlier) p; mret p.

Definition isBdcEvent (event : Event) : outcome error bool :=
  o ← deref (Object event); Ret (String.eqb (ev_InvolvedKind o) "BlockDeviceClaim").

Definition IsBdcEvent : Predicate := isBdcEvent.

Definition isBdEvent (event : Event) : outcome error bool :=
  o ← deref (Object event); Ret (String.eqb (ev_InvolvedKind o) "BlockDevice").

Definition IsBdEvent : Predicate := isBdEvent.

Definition isPodEvent (event : Event) : outcome error bool :=
  o ← deref (Object event); Ret (String.eqb (ev_InvolvedKind o) "Pod").

Definition IsPodEvent : Predicate := isPodEvent.

Definition hasReason (reason : string) (event : Event) : outcome error bool :=
  o ← deref (Object event); Ret (String.eqb (ev_Reason o) reason).

Definition HasReason (reason : string) : Predicate := hasReason reason.

Definition hasStringInMessage (substr : string) (event : Event) : outcome error bool :=
  o ← deref (Object event); Ret (Contains (ev_Message o) substr).

Definition HasStringInMessage (substr : string) : Predicate := hasStringInMessage substr.

Definition isType (typeVal : string) (event : Event) : outcome error bool :=
  o ← deref (Object event); Ret (String.eqb (ev_Type o) typeVal).

Definition IsType (typeVal : string) : Predicate := isType typeVal.

(* Source: src/pkg/kubernetes/api/core/v1/event/buildlist.go *)

Record ListBuilder := { list_ : nat; filters : list Predicate }.

(** A new list, at an address of its own. *)
(* go: none *)
Definition alloc (its : EventList) : M store error nat := fun st =>
  let a := fresh (dom st) in (<[a := its]> st, Ret a).

Definition ListBuilderFromAPIList (events : option (list CoreEvent)) : M store error ListBuilder :=
  a ← alloc (match events with
             | None => []
             | Some evs => map (fun e => {| Object := Some e |}) evs
             end);
  mret {| list_ := a; filters := [] |}.

(** The loop that filters; a predicate that panics ends it. *)
(* go: 47-51 List *)
Fixpoint filter_items (fs : list Predicate) (its : EventList) : outcome error EventList :=
  match its with
  | [] => Ret []
  | event :: its =>
    b ← all fs event; filtered ← filter_items fs its;
    Ret (if (b : bool) then event :: filtered else filtered)
  end.

Definition List (b : ListBuilder) : M store error nat :=
  if (length (filters b) =? 0)%nat then mret (list_ b) else
  its ← items (list_ b);
  filtered ← lift (filter_items (filters b) its);
  alloc filtered.

Definition WithFilter (pred : list Predicate) (b : ListBuilder) : ListBuilder :=
  {| list_ := list_ b; filters := filters b ++ pred |}.

(** ** Sorting and filtering *)

(** The predicates that look at the object. *)
(* go: none *)
Definition of_value (f : CoreEvent -> bool) : Predicate := fun e => o ← deref (Object e); Ret (f o).

(* go: none *)
Definition the_event (o : CoreEvent) : Event := {| Object := Some o |}.

#[global] Instance earlier_weak : StrictWeak earlier.
Proof. apply (by_key_weak ev_LastTimestamp). Qed.

Lemma objects_of_events os : mapM (M := option) Object (map the_event os) = Some os.
Proof. induction os as [|o os IH]; [done|]. cbn in *. by rewrite IH. Qed.

Lemma Stable_small {X} (less : X -> X -> bool) l : length l < 2 -> Stable less l = l.
Proof. destruct l as [|x [|y l]]; cbn; [done|done|lia]. Qed.

Lemma sort_at_spec less p st os :
  st !! p = Some (map the_event os) ->
  sort_at less p st = (<[p := map the_event (Stable less os)]> st, Ret tt).
Proof.
  intros Hp. unfold sort_at, items, mbind, M_bind. rewrite Hp. cbn [deref]. rewrite length_map.
  destruct (length os <? 2)%nat eqn:E.
  - apply Nat.ltb_lt in E. rewrite Stable_small by done. unfold mret, M_ret. by rewrite insert_id.
  - rewrite objects_of_events. done.
Qed.

Lemma filter_items_spec gs os :
  filter_items (map of_value gs) (map the_event os)
  = Ret (map the_event (filter (fun o => all_preds gs o = true) os)).
Proof.
  assert (forall o, all (map of_value gs) (the_event o) = Ret (all_preds gs o)) as Hall.
  { intros o. induction gs as [|g gs IH]; [done|]. cbn. destruct (g o); [exact IH|done]. }
  induction os as [|o os IH]; [done|]. cbn [map filter_items].
  rewrite Hall. cbn [mbind outcome_bind]. rewrite IH. cbn [mbind outcome_bind].
  rewrite filter_cons. by destruct (all_preds gs o).
Qed.

(** The events of a list that [less] sorts, with the events of one time in their first order. *)
(* go: none *)
Definition sorted_from (less : CoreEvent -> CoreEvent -> bool) (evs l : list CoreEvent) : Prop :=
  l ≡ₚ evs /\ StronglySorted (fun x y => less y x = false) l /\
  forall t, filter (fun e => ev_LastTimestamp e = t) l
            = filter (fun e => ev_LastTimestamp e = t) evs.

Lemma filter_ext' {X} (P Q : X -> Prop) `{!forall x, Decision (P x), !forall x, Decision (Q x)} (l : list X) :
  (forall x, P x <-> Q x) -> filter P l = filter Q l.
Proof. intros HPQ. apply list_filter_iff. exact HPQ. Qed.

Lemma ties_by_time (less : CoreEvent -> CoreEvent -> bool) (l l' : list CoreEvent) :
  (forall x y, tie less x y <-> ev_LastTimestamp y = ev_LastTimestamp x) ->
  (forall t, filter (tie less t) l = filter (tie less t) l') <->
  (forall t, filter (fun e => ev_LastTimestamp e = t) l = filter (fun e => ev_LastTimestamp e = t) l').
Proof.
  intros Hless. split; intros H t.
  - destruct (decide (Exists (fun e => ev_LastTimestamp e = t) (l ++ l'))) as [He|He].
    + apply Exists_exists in He as (e & _ & <-).
      rewrite (filter_ext' _ (tie less e)), H by (intros x; symmetry; apply Hless).
      apply filter_ext'. intros x. apply Hless.
    + apply not_Exists_Forall, Forall_app in He as [He He']; [|intros x; apply _].
      by rewrite !filter_none.
  - rewrite (filter_ext' _ (fun e => ev_LastTimestamp e = ev_LastTimestamp t)) by apply Hless.
    rewrite H. apply filter_ext'. intros x. symmetry. apply Hless.
Qed.

Lemma sorted_by (less : CoreEvent -> CoreEvent -> bool) `{!StrictWeak less} evs :
  (forall x y, tie less x y <-> ev_LastTimestamp y = ev_LastTimestamp x) ->
  forall l, sorted_from less evs l <-> l = Stable less evs.
Proof.
  intros Ht l. split.
  - intros (_ & Hs & Hf). apply Stable_unique; [done|done|]. by apply (ties_by_time less l evs Ht).
  - intros ->. split; [|split].
    + by apply Stable_perm.
    + by apply Stable_sorted.
    + apply (ties_by_time less _ _ Ht). intros t. by apply Stable_ties.
Qed.

Lemma tie_earlier x y : tie earlier x y <-> ev_LastTimestamp y = ev_LastTimestamp x.
Proof. unfold tie, earlier. lia. Qed.

Lemma tie_later x y : tie (Reverse earlier) x y <-> ev_LastTimestamp y = ev_LastTimestamp x.
Proof. unfold tie, Reverse, earlier. lia. Qed.

Lemma list_spec gs evs st b st0 :
  ListBuilderFromAPIList (Some evs) st0 = (st, Ret b) ->
  exists p st', List (WithFilter (map of_value gs) b) st = (st', Ret p) /\
    st' !! p = Some (map the_event (filter (fun o => all_preds gs o = true) evs)) /\
    st' !! list_ b = Some (map the_event evs) /\ (p = list_ b <-> gs = []) /\ st0 ⊆ st'.
Proof.
  unfold ListBuilderFromAPIList, alloc, mbind, M_bind, mret, M_ret. intros [= <- <-].
  set (a := fresh (dom st0)). set (st1 := <[a := _]> st0).
  assert (st0 !! a = None) as Ha by (apply not_elem_of_dom, is_fresh).
  assert (st1 !! a = Some (map the_event evs)) as Ha1 by apply lookup_insert_eq.
  assert (st0 ⊆ st1) as Hsub by (by apply insert_subseteq).
  unfold List, WithFilter. cbn [list_ filters app]. rewrite length_map. destruct gs as [|g gs].
  - exists a, st1. cbn. rewrite (filter_all _ evs) by (by apply Forall_true). done.
  - unfold items, lift, mbind, M_bind. cbn [length Nat.eqb]. rewrite Ha1. cbn [deref].
    rewrite filter_items_spec. unfold alloc. set (c := fresh (dom st1)).
    assert (st1 !! c = None) as Hc by (apply not_elem_of_dom, is_fresh).
    assert (c <> a) as Hne by congruence.
    exists c, (<[c := map the_event (filter (fun o => all_preds (g :: gs) o = true) evs)]> st1).
    split; [done|]. rewrite lookup_insert_eq, lookup_insert_ne by done.
    split; [done|split; [done|split; [done|]]].
    etransitivity; [exact Hsub|]. by apply insert_subseteq.
Qed.

(** C32: the events of a list.  A list with filters has the events on which all hold; sorting it,
    the latest first or last, gives the one order in which the times descend or ascend and the
    events of one time keep their places.  The list is sorted where it is: it is the builder's own
    exactly when there is no filter, and then the builder gives the sorted list from then on. *)
Theorem events_sorted (latest_first : bool) gs evs st0 :
  let less := if latest_first then Reverse earlier else earlier in
  let sorted := if latest_first then LatestFirstSort else LatestLastSort in
  let kept := filter (fun o => all_preds gs o = true) evs in
  let '(st1, b) := ListBuilderFromAPIList (Some evs) st0 in
  exists b' p st2 st3 l, b = Ret b'
    /\ List (WithFilter (map of_value gs) b') st1 = (st2, Ret p)
    /\ sorted p st2 = (st3, Ret p)
    /\ (forall l', sorted_from less kept l' <-> l' = l)
    /\ items p st3 = (st3, Ret (map the_event l))
    /\ items (list_ b') st3
       = (st3, Ret (map the_event (if decide (gs = []) then l else evs))).
Proof.
  intros less sorted kept. destruct (ListBuilderFromAPIList (Some evs) st0) as [st1 b] eqn:Eb.
  assert (exists b', b = Ret b') as [b' ->] by (by injection Eb as _ <-; eexists).
  destruct (list_spec gs evs st1 b' st0 Eb) as (p & st2 & Hl & Hp & Hown & Hsame & _).
  assert (forall l, sorted_from less kept l <-> l = Stable less kept) as Hsort.
  { subst less. destruct latest_first; apply sorted_by; try apply _;
      [apply tie_later|apply tie_earlier]. }
  pose proof (sort_at_spec less p st2 _ Hp) as Hat.
  exists b', p, st2, (<[p := map the_event (Stable less kept)]> st2), (Stable less kept).
  split; [done|]. split; [done|]. split.
  { subst sorted less. destruct latest_first; unfold LatestFirstSort, LatestLastSort, mbind, M_bind;
      by rewrite Hat. }
  split; [exact Hsort|]. unfold items.
  rewrite lookup_insert_eq. split; [done|]. destruct (decide (gs = [])) as [Hg|Hg].
  - apply Hsame in Hg as <-. by rewrite lookup_insert_eq.
  - rewrite lookup_insert_ne by (intros Heq; by apply Hg, Hsame). by rewrite Hown.
Qed.

End Event.
