(* ===== verification/NodeAffinity.v ===== *)
(** * Node affinity from node labels

    Both [persistentvolume.Builder.WithNodeAffinity] and [pod.Builder.WithNodeAffinityNew] turn a
    map of node labels into the match expressions of one node selector term, in the order in
    which the map is ranged over, dropping the labels with an empty value.  The loop and its
    facts are stated once here. *)

From S2P Require Import Prelude GoStrings KubeApi.
Open Scope string_scope. Open Scope list_scope.

(* Source: src/pkg/kubernetes/api/core/v1/persistentvolume/build.go *)

(* go: 180-186 WithNodeAffinity *)
Definition label_requirement (key value : string) : NodeSelectorRequirement :=
  {| nsr_Key := key; nsr_Operator := NodeSelectorOpIn; nsr_Values := [value] |}.

(** [for key, value := range labels { if value != "" { append ... } }]. *)
(* go: 176-188 WithNodeAffinity *)
Definition match_expressions {O : MapOrder} (labels : gmap string string) :
    list NodeSelectorRequirement :=
  foldl (fun acc kv =>
    if negb (String.eqb kv.2 "") then acc ++ [label_requirement kv.1 kv.2] else acc)
    [] (map_range labels).

Definition one_term (es : list NodeSelectorRequirement) : NodeSelector :=
  {| NodeSelectorTerms := [{| MatchExpressions := es |}] |}.

(** The labels that constrain the placement. *)
Definition nonempty_labels (labels : gmap string string) : gmap string string :=
  filter (fun kv : string * string => kv.2 <> "") labels.

Lemma match_expressions_eq {O : MapOrder} labels :
  match_expressions labels
  = (fun kv => label_requirement kv.1 kv.2) <$>
      filter (fun kv : string * string => kv.2 <> "") (map_range labels).
Proof.
  unfold match_expressions.
  enough (forall l acc, foldl (fun acc kv => if negb (String.eqb kv.2 "")
      then acc ++ [label_requirement kv.1 kv.2] else acc) acc l
    = acc ++ ((fun kv => label_requirement kv.1 kv.2) <$>
        filter (fun kv : string * string => kv.2 <> "") l)) as H by apply (H _ []).
  induction l as [|[k v] l IH]; intros acc; [cbn; by rewrite app_nil_r|].
  cbn [foldl fst snd]. rewrite IH, filter_cons. cbn [fst snd]. destruct (String.eqb_spec v "") as [->|Hne].
  - rewrite decide_False by (intros H; by apply H). done.
  - rewrite decide_True by done. cbn. by rewrite <- app_assoc.
Qed.

Lemma elem_match_expressions {O : MapOrder} labels r :
  r ∈ match_expressions labels <->
  exists k v, labels !! k = Some v /\ v <> "" /\ r = label_requirement k v.
Proof.
  rewrite match_expressions_eq, list_elem_of_fmap. split.
  - intros ([k v] & -> & [Hv Hin]%list_elem_of_filter). apply map_range_elem in Hin. eauto.
  - intros (k & v & Hl & Hv & ->). exists (k, v). split; [done|].
    apply list_elem_of_filter. split; [done|]. by apply map_range_elem.
Qed.

(** No expression is left exactly when every value is empty. *)
Lemma match_expressions_nil {O : MapOrder} labels :
  match_expressions labels = [] <-> nonempty_labels labels = ∅.
Proof.
  unfold nonempty_labels. rewrite map_empty_filter, map_Forall_lookup. split.
  - intros H k v Hk Hv. assert (label_requirement k v ∈ match_expressions labels) as Hin
      by (apply elem_match_expressions; eauto).
    rewrite H in Hin. by apply elem_of_nil in Hin.
  - intros H. apply elem_of_nil_inv. intros r (k & v & Hk & Hv & _)%elem_match_expressions.
    apply (H k v Hk). done.
Qed.

Lemma match_expressions_keys_NoDup {O : MapOrder} labels :
  NoDup (nsr_Key <$> match_expressions labels).
Proof.
  rewrite match_expressions_eq, <- list_fmap_compose.
  change (nsr_Key ∘ (fun kv => label_requirement kv.1 kv.2)) with (fun kv : string * string => kv.1).
  generalize (map_range_NoDup labels). generalize (map_range labels).
  induction l as [|[k v] l IH]; [done|]. rewrite fmap_cons, NoDup_cons. intros [Hnin Hnd].
  rewrite filter_cons. case_decide; [|by apply IH]. rewrite fmap_cons. apply NoDup_cons.
  split; [|by apply IH]. cbn in *. intros ([k' v'] & -> & [_ Hin]%list_elem_of_filter)%list_elem_of_fmap.
  apply Hnin. apply list_elem_of_fmap. by exists (k', v').
Qed.
