(* ===== verification/VolumeBuilder.v ===== *)
(** * Package [volume]: the builder of pod volumes

    [src/pkg/kubernetes/api/core/v1/volume].  Each method of [Builder] is a definition of the
    same name; [Op] lists them so that a chain of calls is a list, and the instance
    [volume_spec] proves what every method promises. *)

From S2P Require Import Prelude GoStrings KubeApi Builder.
Open Scope string_scope. Open Scope list_scope.

(* Source: src/pkg/kubernetes/api/core/v1/volume/build.go *)

Section VolumeBuilder.
Context {A : ApiTypes}.

Definition Builder := builder Volume.

Definition NewBuilder : Builder := MkBuilder Volume_zero [].

Definition WithName (name : string) (b : Builder) : Builder :=
  if (len name =? 0)%nat then
    add_err (ErrNew "failed to build Volume object: missing Volume name") b
  else upd (fun v => v <| vol_Name := name |>) b.

Definition WithHostDirectory (path : string) (b : Builder) : Builder :=
  if (len path =? 0)%nat then
    add_err (ErrNew "failed to build volume object: missing volume path") b
  else upd (fun v => v <| vol_Source := VolumeSource_zero <|
    vs_HostPath := Some {| hp_Path := path; hp_Type := None |} |> |>) b.

(** A Secret or a ConfigMap is its metadata; [None] is a nil pointer.  A zero mode is reported
    and the volume is set all the same. *)
Definition WithSecret (secret : option ObjectMeta) (defaultMode : Z) (b : Builder) : Builder :=
  match secret with
  | None => add_err (ErrNew "failed to build volume object: nil ConfigMap") b
  | Some secret =>
    let b := if (defaultMode =? 0)%Z then
      add_err (ErrNew "failed to build volume object: missing defaultmode") b else b in
    upd (fun v => v <| vol_Source := VolumeSource_zero <|
        vs_Secret := Some {| sec_DefaultMode := Some defaultMode; sec_SecretName := Name secret |} |> |>
      <| vol_Name := Name secret |>) b
  end.

Definition WithConfigMap (configMap : option ObjectMeta) (defaultMode : Z) (b : Builder) :
    Builder :=
  match configMap with
  | None => add_err (ErrNew "failed to build volume object: nil ConfigMap") b
  | Some configMap =>
    let b := if (defaultMode =? 0)%Z then
      add_err (ErrNew "failed to build volume object: missing defaultmode") b else b in
    upd (fun v => v <| vol_Source := VolumeSource_zero <|
        vs_ConfigMap := Some {| cm_DefaultMode := Some defaultMode; cm_Name := Name configMap |} |> |>
      <| vol_Name := Name configMap |>) b
  end.

Definition WithHostPathAndType (dirpath : string) (dirtype : option string) (b : Builder) :
    Builder :=
  match dirtype with
  | None => add_err (ErrNew "failed to build volume object: nil volume type") b
  | Some newdirtype =>
    if (len dirpath =? 0)%nat then
      add_err (ErrNew "failed to build volume object: missing volume path") b
    else upd (fun v => v <| vol_Source := VolumeSource_zero <|
      vs_HostPath := Some {| hp_Path := dirpath; hp_Type := Some newdirtype |} |> |>) b
  end.

Definition WithPVCSource (pvcName : string) (b : Builder) : Builder :=
  if (len pvcName =? 0)%nat then
    add_err (ErrNew "failed to build volume object: missing pvc name") b
  else upd (fun v => v <| vol_Source := VolumeSource_zero <| vs_PVC := Some pvcName |> |>) b.

(** Only the [EmptyDir] field is assigned: another source set before stays. *)
Definition WithEmptyDir (dir : option EmptyDirVolumeSource) (b : Builder) : Builder :=
  match dir with
  | None => add_err (ErrNew "failed to build volume object: nil dir") b
  | Some newdir =>
    upd (fun v => v <| vol_Source ::= fun s => s <| vs_EmptyDir := Some newdir |> |>) b
  end.

Definition Build (b : Builder) : outcome error Volume :=
  build_with (fun es => Errorf "%+v" [AErrs es]) b.

(* Source: src/pkg/kubernetes/api/core/v1/volume/volume.go *)

(** ** [volume.go]: the wrapper over a possibly nil volume and its predicates *)

Record Wrapped := { object : option Volume }.

Definition NewForAPIObject (obj : option Volume) (opts : list (Wrapped -> Wrapped)) : Wrapped :=
  foldl (fun v o => o v) {| object := obj |} opts.

Definition Predicate := Wrapped -> bool.

(* go: (v *Volume) IsNil() *)
Definition Volume_IsNil (v : Wrapped) : bool :=
  match object v with None => true | Some _ => false end.

(* go: func IsNil() *)
Definition IsNil : Predicate := fun v => Volume_IsNil v.

Fixpoint all (l : list Predicate) (v : Wrapped) : bool :=
  match l with
  | [] => true
  | pred :: l => if negb (pred v) then false else all l v
  end.

(** ** The calls of the builder and what they promise *)

Inductive Op :=
| OpName (name : string)
| OpHostDirectory (path : string)
| OpSecret (secret : option ObjectMeta) (defaultMode : Z)
| OpConfigMap (configMap : option ObjectMeta) (defaultMode : Z)
| OpHostPathAndType (dirpath : string) (dirtype : option string)
| OpPVCSource (pvcName : string)
| OpEmptyDir (dir : option EmptyDirVolumeSource).

Definition apply (op : Op) : Builder -> Builder :=
  match op with
  | OpName name => WithName name
  | OpHostDirectory path => WithHostDirectory path
  | OpSecret s m => WithSecret s m
  | OpConfigMap c m => WithConfigMap c m
  | OpHostPathAndType p t => WithHostPathAndType p t
  | OpPVCSource n => WithPVCSource n
  | OpEmptyDir d => WithEmptyDir d
  end.

(** The source a call selects, when it selects one. *)
Definition source_of (op : Op) : option VolumeSource :=
  match op with
  | OpHostDirectory p => if decide (p = "") then None else
      Some (VolumeSource_zero <| vs_HostPath := Some {| hp_Path := p; hp_Type := None |} |>)
  | OpSecret (Some s) m => Some (VolumeSource_zero <|
      vs_Secret := Some {| sec_DefaultMode := Some m; sec_SecretName := Name s |} |>)
  | OpConfigMap (Some c) m => Some (VolumeSource_zero <|
      vs_ConfigMap := Some {| cm_DefaultMode := Some m; cm_Name := Name c |} |>)
  | OpHostPathAndType p (Some t) => if decide (p = "") then None else
      Some (VolumeSource_zero <| vs_HostPath := Some {| hp_Path := p; hp_Type := Some t |} |>)
  | OpPVCSource n => if decide (n = "") then None else
      Some (VolumeSource_zero <| vs_PVC := Some n |>)
  | _ => None
  end.

Definition name_of (op : Op) : option string :=
  match op with
  | OpName n => if decide (n = "") then None else Some n
  | OpSecret (Some s) _ => Some (Name s)
  | OpConfigMap (Some c) _ => Some (Name c)
  | _ => None
  end.

Definition errs_of (op : Op) : list error :=
  let missing (s msg : string) := if decide (s = "") then [ErrNew msg] else [] in
  let mode (m : Z) := if decide (m = 0%Z) then
    [ErrNew "failed to build volume object: missing defaultmode"] else [] in
  match op with
  | OpName n => missing n "failed to build Volume object: missing Volume name"
  | OpHostDirectory p => missing p "failed to build volume object: missing volume path"
  | OpSecret None _ | OpConfigMap None _ =>
      [ErrNew "failed to build volume object: nil ConfigMap"]
  | OpSecret (Some _) m | OpConfigMap (Some _) m => mode m
  | OpHostPathAndType _ None => [ErrNew "failed to build volume object: nil volume type"]
  | OpHostPathAndType p _ => missing p "failed to build volume object: missing volume path"
  | OpPVCSource n => missing n "failed to build volume object: missing pvc name"
  | OpEmptyDir None => [ErrNew "failed to build volume object: nil dir"]
  | OpEmptyDir _ => []
  end.

Definition upd_of (op : Op) (v : Volume) : Volume :=
  let s := default (vol_Source v) (source_of op) in
  {| vol_Name := default (vol_Name v) (name_of op);
     vol_Source := match op with
       | OpEmptyDir (Some d) => s <| vs_EmptyDir := Some d |>
       | _ => s
       end |}.

#[export] Instance volume_spec : BuilderSpec apply.
Proof.
  refine {| op_errs := errs_of; op_upd := upd_of |}.
  intros [n|p|[s|] m|[s|] m|p [t|]|n|[d|]] [[vn vs] es]; cbn;
    unfold WithName, WithHostDirectory, WithSecret, WithConfigMap, WithHostPathAndType,
      WithPVCSource, WithEmptyDir, add_err, upd;
    try (destruct n); try (destruct p); try (destruct m); cbn; rewrite ?app_nil_r; done.
Defined.

(** The volume that a chain of calls builds. *)
Theorem volume_build (ops : list Op) :
  Build (run apply ops NewBuilder)
  = if forallb (valid (apply := apply)) ops then Ret (chain_obj (apply := apply) ops Volume_zero)
    else Fail (Errorf "%+v" [AErrs (chain_errs (apply := apply) ops)]).
Proof. exact (build_chain (apply := apply) _ ops Volume_zero). Qed.

End VolumeBuilder.
#[global] Arguments Build {A} b : simpl never.
