(* ===== verification/ContainerBuilder.v ===== *)
(** * Package [container]: the builder of pod containers

    [src/pkg/kubernetes/api/core/v1/container/container.go].  Unlike the other builders this one
    also keeps a list of checks, predicates that [Build] evaluates on the finished container,
    and [Build] reports one fixed error whatever went wrong. *)

From S2P Require Import Prelude GoStrings KubeApi.
Open Scope string_scope. Open Scope list_scope.

(* Source: src/pkg/kubernetes/api/core/v1/container/container.go *)

Section ContainerBuilder.
Context {A : ApiTypes}.

(** [container] embeds a [corev1.Container] and adds nothing to it. *)
Definition container := Container.

Definition OptionFunc := container -> container.

Definition Predicate := container -> string * bool.

Definition predicateFailedError (message : string) : error :=
  Errorf "predicatefailed: %s" [AStr message].

(* go: 52-52 errorvalidationFailed *)
Definition errorvalidationFailed : error := ErrNew "container validation failed".

Definition asContainer (c : container) : Container :=
  {| c_Name := c_Name c; c_Image := c_Image c; c_Command := c_Command c; c_Args := c_Args c;
     c_WorkingDir := c_WorkingDir c; c_Ports := c_Ports c; c_EnvFrom := c_EnvFrom c;
     c_Env := c_Env c; c_Resources := c_Resources c; c_VolumeMounts := c_VolumeMounts c;
     c_VolumeDevices := c_VolumeDevices c; c_LivenessProbe := c_LivenessProbe c;
     c_ReadinessProbe := c_ReadinessProbe c; c_Lifecycle := c_Lifecycle c;
     c_TerminationMessagePath := c_TerminationMessagePath c;
     c_TerminationMessagePolicy := c_TerminationMessagePolicy c;
     c_ImagePullPolicy := c_ImagePullPolicy c; c_SecurityContext := c_SecurityContext c;
     c_Stdin := c_Stdin c; c_StdinOnce := c_StdinOnce c; c_TTY := c_TTY c |}.

Definition New (opts : list OptionFunc) : Container :=
  asContainer (foldl (fun c o => o c) Container_zero opts).

(* go: type Builder *)
Record Builder := {
  con : container;
  checks : list Predicate;
  errors : list error }.
#[global] Instance Eta_Builder : Eta Builder := fun r =>
  {| con := con r; checks := checks r; errors := errors r |}.

Definition NewBuilder : Builder := {| con := Container_zero; checks := []; errors := [] |}.

(** The errors of failed checks are appended to those found while building. *)
(* go: 108-112 validate *)
Fixpoint run_checks (cs : list Predicate) (c : container) (errs : list error) : list error :=
  match cs with
  | [] => errs
  | p :: cs =>
    let '(m, ok) := p c in
    run_checks cs c (if negb ok then errs ++ [predicateFailedError m] else errs)
  end.

Definition validate (b : Builder) : Builder * outcome error unit :=
  let b := b <| errors := run_checks (checks b) (con b) (errors b) |> in
  (b, if (length (errors b) =? 0)%nat then Ret tt else Fail errorvalidationFailed).

Definition Build (b : Builder) : Builder * outcome error Container :=
  let '(b, o) := validate b in
  (b, match o with
      | Ret _ => Ret (asContainer (con b))
      | Fail err => Fail err
      | Panic => Panic
      end).

Definition AddCheck (p : Predicate) (b : Builder) : Builder :=
  b <| checks := checks b ++ [p] |>.

Definition AddChecks (p : list Predicate) (b : Builder) : Builder :=
  foldl (fun b check => AddCheck check b) b p.

(** [b.errors = append(b.errors, errors.New(msg))]. *)
Definition err (msg : string) (b : Builder) : Builder := b <| errors := errors b ++ [ErrNew msg] |>.

(* go: func WithName( *)
Definition WithName_opt (name : string) : OptionFunc := fun c => c <| c_Name := name |>.

(* go: (b *Builder) WithName( *)
Definition WithName (name : string) (b : Builder) : Builder :=
  if (len name =? 0)%nat then err "failed to build container object: missing name" b
  else b <| con ::= WithName_opt name |>.

(* go: func WithImage( *)
Definition WithImage_opt (img : string) : OptionFunc := fun c => c <| c_Image := img |>.

(* go: (b *Builder) WithImage( *)
Definition WithImage (img : string) (b : Builder) : Builder :=
  if (len img =? 0)%nat then err "failed to build container object: missing image" b
  else b <| con ::= WithImage_opt img |>.

(** The methods that set a list reject a nil slice, then an empty one; the list is copied. *)
Definition WithCommandNew (cmd : slice string) (b : Builder) : Builder :=
  match cmd with
  | None => err "failed to build container object: nil command" b
  | Some cmd =>
    if (length cmd =? 0)%nat then err "failed to build container object: missing command" b
    else b <| con ::= fun c => c <| c_Command := Some cmd |> |>
  end.

Definition WithArgumentsNew (args : slice string) (b : Builder) : Builder :=
  match args with
  | None => err "failed to build container object: nil arguments" b
  | Some args =>
    if (length args =? 0)%nat then err "failed to build container object: missing arguments" b
    else b <| con ::= fun c => c <| c_Args := Some args |> |>
  end.

Definition WithVolumeMountsNew (volumeMounts : slice VolumeMount) (b : Builder) : Builder :=
  match volumeMounts with
  | None => err "failed to build container object: nil volumemounts" b
  | Some volumeMounts =>
    if (length volumeMounts =? 0)%nat then
      err "failed to build container object: missing volumemounts" b
    else b <| con ::= fun c => c <| c_VolumeMounts := Some volumeMounts |> |>
  end.

Definition WithVolumeDevices (volumeDevices : slice VolumeDevice) (b : Builder) : Builder :=
  match volumeDevices with
  | None => err "failed to build container object: nil volumedevices" b
  | Some volumeDevices =>
    if (length volumeDevices =? 0)%nat then
      err "failed to build container object: missing volumedevices" b
    else b <| con ::= fun c => c <| c_VolumeDevices := Some volumeDevices |> |>
  end.

Definition WithImagePullPolicy (policy : string) (b : Builder) : Builder :=
  if (len policy =? 0)%nat then
    err "failed to build container object: missing imagepullpolicy" b
  else b <| con ::= fun c => c <| c_ImagePullPolicy := policy |> |>.

Definition WithPrivilegedSecurityContext (privileged : option bool) (b : Builder) : Builder :=
  match privileged with
  | None => err "failed to build container object: missing securitycontext" b
  | Some newprivileged =>
    b <| con ::= fun c =>
      c <| c_SecurityContext := Some {| Privileged := Some newprivileged |} |> |>
  end.

Definition WithResources (resources : option ResourceRequirements) (b : Builder) : Builder :=
  match resources with
  | None => err "failed to build container object: missing resources" b
  | Some newresources => b <| con ::= fun c => c <| c_Resources := newresources |> |>
  end.

Definition WithResourcesByValue (resources : ResourceRequirements) (b : Builder) : Builder :=
  b <| con ::= fun c => c <| c_Resources := resources |> |>.

Definition WithPortsNew (ports : slice ContainerPort) (b : Builder) : Builder :=
  match ports with
  | None => err "failed to build container object: nil ports" b
  | Some ports =>
    if (length ports =? 0)%nat then err "failed to build container object: missing ports" b
    else b <| con ::= fun c => c <| c_Ports := Some ports |> |>
  end.

Definition WithEnvsNew (envs : slice EnvVar) (b : Builder) : Builder :=
  match envs with
  | None => err "failed to build container object: nil envs" b
  | Some envs =>
    if (length envs =? 0)%nat then err "failed to build container object: missing envs" b
    else b <| con ::= fun c => c <| c_Env := Some envs |> |>
  end.

Definition WithEnvs (envs : slice EnvVar) (b : Builder) : Builder :=
  match envs with
  | None => err "failed to build container object: nil envs" b
  | Some l =>
    if (length l =? 0)%nat then err "failed to build container object: missing envs" b
    else match c_Env (con b) with
         | None => WithEnvsNew envs b
         | Some _ => b <| con ::= fun c => c <| c_Env := slice_append (c_Env c) l |> |>
         end
  end.

Definition WithLivenessProbe (liveness : option Probe) (b : Builder) : Builder :=
  match liveness with
  | None => err "failed to build container object: nil liveness probe" b
  | Some _ => b <| con ::= fun c => c <| c_LivenessProbe := liveness |> |>
  end.

Definition WithLifeCycle (lc : option Lifecycle) (b : Builder) : Builder :=
  match lc with
  | None => err "failed to build container object: nil lifecycle" b
  | Some _ => b <| con ::= fun c => c <| c_Lifecycle := lc |> |>
  end.

(** ** The calls of the builder and what they promise *)

Inductive Op :=
| OpName (name : string)
| OpImage (img : string)
| OpCommandNew (cmd : slice string)
| OpArgumentsNew (args : slice string)
| OpVolumeMountsNew (ms : slice VolumeMount)
| OpVolumeDevices (ds : slice VolumeDevice)
| OpImagePullPolicy (policy : string)
| OpPrivileged (p : option bool)
| OpResources (r : option ResourceRequirements)
| OpResourcesByValue (r : ResourceRequirements)
| OpPortsNew (ps : slice ContainerPort)
| OpEnvsNew (es : slice EnvVar)
| OpEnvs (es : slice EnvVar)
| OpLivenessProbe (p : option Probe)
| OpLifeCycle (l : option Lifecycle)
| OpCheck (p : Predicate)
| OpChecks (ps : list Predicate).

Definition apply (op : Op) : Builder -> Builder :=
  match op with
  | OpName n => WithName n
  | OpImage i => WithImage i
  | OpCommandNew c => WithCommandNew c
  | OpArgumentsNew a => WithArgumentsNew a
  | OpVolumeMountsNew m => WithVolumeMountsNew m
  | OpVolumeDevices d => WithVolumeDevices d
  | OpImagePullPolicy p => WithImagePullPolicy p
  | OpPrivileged p => WithPrivilegedSecurityContext p
  | OpResources r => WithResources r
  | OpResourcesByValue r => WithResourcesByValue r
  | OpPortsNew p => WithPortsNew p
  | OpEnvsNew e => WithEnvsNew e
  | OpEnvs e => WithEnvs e
  | OpLivenessProbe p => WithLivenessProbe p
  | OpLifeCycle l => WithLifeCycle l
  | OpCheck p => AddCheck p
  | OpChecks ps => AddChecks ps
  end.

Definition run (ops : list Op) (b : Builder) : Builder := foldl (fun b op => apply op b) b ops.

(** A call is accepted when its argument is not the nil pointer, the nil or empty slice, or the
    empty string. *)
Definition filled {X} (s : slice X) : bool := match s with Some (_ :: _) => true | _ => false end.

Definition nonempty (s : string) : bool := match s with "" => false | _ => true end.

Definition accepted (op : Op) : bool :=
  match op with
  | OpName s | OpImage s | OpImagePullPolicy s => nonempty s
  | OpCommandNew s | OpArgumentsNew s => filled s
  | OpVolumeMountsNew s => filled s
  | OpVolumeDevices s => filled s
  | OpPortsNew s => filled s
  | OpEnvsNew s | OpEnvs s => filled s
  | OpPrivileged p => bool_decide (is_Some p)
  | OpResources r => bool_decide (is_Some r)
  | OpLivenessProbe p => bool_decide (is_Some p)
  | OpLifeCycle l => bool_decide (is_Some l)
  | OpResourcesByValue _ | OpCheck _ | OpChecks _ => true
  end.

Definition checks_of (op : Op) : list Predicate :=
  match op with OpCheck p => [p] | OpChecks ps => ps | _ => [] end.

(** What an accepted call does to the container. *)
Definition effect (op : Op) (c : Container) : Container :=
  match op with
  | OpName s => c <| c_Name := s |>
  | OpImage s => c <| c_Image := s |>
  | OpImagePullPolicy s => c <| c_ImagePullPolicy := s |>
  | OpCommandNew s => c <| c_Command := s |>
  | OpArgumentsNew s => c <| c_Args := s |>
  | OpVolumeMountsNew s => c <| c_VolumeMounts := s |>
  | OpVolumeDevices s => c <| c_VolumeDevices := s |>
  | OpPortsNew s => c <| c_Ports := s |>
  | OpEnvsNew s => c <| c_Env := s |>
  | OpEnvs s => c <| c_Env := Some (slice_list (c_Env c) ++ slice_list s) |>
  | OpPrivileged p => c <| c_SecurityContext := Some {| Privileged := p |} |>
  | OpResources (Some r) | OpResourcesByValue r => c <| c_Resources := r |>
  | OpLivenessProbe p => c <| c_LivenessProbe := p |>
  | OpLifeCycle l => c <| c_Lifecycle := l |>
  | OpResources None | OpCheck _ | OpChecks _ => c
  end.

Lemma AddChecks_spec ps b :
  AddChecks ps b = {| con := con b; checks := checks b ++ ps; errors := errors b |}.
Proof.
  unfold AddChecks. revert b. induction ps as [|p ps IH]; intros b; cbn.
  - rewrite app_nil_r. by destruct b.
  - rewrite IH. cbn. by rewrite <- app_assoc.
Qed.

Lemma container_apply_spec op b :
  checks (apply op b) = checks b ++ checks_of op /\
  (accepted op = true -> con (apply op b) = effect op (con b) /\ errors (apply op b) = errors b) /\
  (accepted op = false -> con (apply op b) = con b /\
     exists e, errors (apply op b) = errors b ++ [e]).
Proof.
  destruct op as [[]|[]|[[]|]|[[]|]|[[]|]|[[]|]|[]|[]|[]| |[[]|]|[[]|]|[[]|]|[]|[]| |]; cbn;
    rewrite ?AddChecks_spec, ?app_nil_r; cbn;
    unfold WithName_opt, WithImage_opt; cbn; split_and!; intros; try discriminate; eauto;
    split_goal; cbn; rewrite ?Heq; eauto.
Qed.

Lemma run_checks_nil cs c errs :
  run_checks cs c errs = [] <-> errs = [] /\ Forall (fun p : Predicate => (p c).2 = true) cs.
Proof.
  revert errs. induction cs as [|p cs IH]; intros errs; cbn.
  - split; [intros ->; auto|by intros [? _]].
  - destruct (p c) as [m ok] eqn:E. rewrite IH, Forall_cons, E. cbn.
    destruct ok; cbn; [tauto|]. split; [intros [H _]; by destruct errs|by intros [_ [? _]]].
Qed.

Lemma container_run_spec ops b :
  checks (run ops b) = checks b ++ (ops ≫= checks_of) /\
  (forallb accepted ops = true ->
     con (run ops b) = foldl (fun c op => effect op c) (con b) ops /\
     errors (run ops b) = errors b) /\
  (forallb accepted ops = false -> errors (run ops b) <> []) /\
  (errors b <> [] -> errors (run ops b) <> []).
Proof.
  revert b. induction ops as [|op ops IH]; intros b; [cbn; by rewrite app_nil_r|].
  change (run (op :: ops) b) with (run ops (apply op b)). cbn [mbind list_bind forallb foldl].
  destruct (container_apply_spec op b) as (Hc & Ht & Hf).
  destruct (IH (apply op b)) as (Ic & It & If & Ie).
  split; [by rewrite Ic, Hc, <- app_assoc|]. split; [|split].
  - intros [Ha Hr]%andb_true_iff. destruct (Ht Ha) as [Hcon He].
    destruct (It Hr) as [Icon Ier]. by rewrite Icon, Ier, Hcon, He.
  - intros Hn. destruct (accepted op).
    + by apply If.
    + destruct (Hf eq_refl) as (_ & e & He). apply Ie. rewrite He. by destruct (errors b).
  - intros Hn. apply Ie. destruct (accepted op).
    + by destruct (Ht eq_refl) as [_ ->].
    + destruct (Hf eq_refl) as (_ & e & ->). by destruct (errors b).
Qed.

Lemma asContainer_id c : asContainer c = c.
Proof. by destruct c. Qed.

Lemma Build_spec b :
  (Build b).2 = match run_checks (checks b) (con b) (errors b) with
                | [] => Ret (con b)
                | _ => Fail errorvalidationFailed
                end.
Proof.
  unfold Build, validate. cbn. rewrite asContainer_id.
  by destruct (run_checks (checks b) (con b) (errors b)).
Qed.

(** [Build] after any chain of calls returns the container with the effects of the calls in
    order exactly when no call was rejected and every check added along the way holds of that
    final container; in every other case it fails with the fixed validation error. *)
Theorem container_build (ops : list Op) :
  let c := foldl (fun c op => effect op c) Container_zero ops in
  (Build (run ops NewBuilder)).2
  = if forallb accepted ops && forallb (fun p : Predicate => (p c).2) (ops ≫= checks_of)
    then Ret c else Fail errorvalidationFailed.
Proof.
  cbn zeta. destruct (container_run_spec ops NewBuilder) as (Hc & Ht & Hf & _). rewrite Build_spec.
  destruct (forallb accepted ops) eqn:Ha.
  - destruct (Ht eq_refl) as [-> ->]. rewrite Hc. cbn [checks con errors NewBuilder app andb].
    match goal with |- _ = if ?q then _ else _ => destruct q eqn:Hp end.
    + rewrite (proj2 (run_checks_nil _ _ _)); [done|]. split; [done|].
      by apply forallb_Forall_true.
    + destruct (run_checks _ _ _) eqn:Hr; [|done]. apply run_checks_nil in Hr as [_ Hr].
      apply forallb_Forall_true in Hr. congruence.
  - cbn [andb]. destruct (run_checks _ _ _) eqn:Hr; [|done].
    apply run_checks_nil in Hr as [Hr _]. by specialize (Hf eq_refl).
Qed.

End ContainerBuilder.
#[global] Arguments Build {A} b : simpl never.
