(* ===== verification/PodList.v ===== *)
(** * Lists of pods

    src/pkg/kubernetes/api/core/v1/pod: pod.go (the wrapper, the predicates, the nodes of a list)
    and buildlist.go (the builder of the list). *)

From S2P Require Import Prelude GoStrings KubeApi Builder.
Open Scope string_scope. Open Scope list_scope.

Section PodList.
Context {A : ApiTypes}.

(* Source: src/pkg/kubernetes/api/core/v1/pod/pod.go *)

(* go: type Pod struct *)
Record Wrapped := { object : option Pod }.

(* go: type PodList struct *)
Record PodList_ := { items : list Wrapped }.

(** A predicate may dereference the object. *)
Definition Predicate := Wrapped -> outcome error bool.

(** [for _, x := range items { ... acc = append(acc, y) }]: the first panic ends it. *)
(* go: (pl *PodList) ToAPIList() *)
Fixpoint ToAPIList (pl : list Wrapped) : outcome error (list Pod) :=
  match pl with
  | [] => Ret []
  | pod :: pl => o ← deref (object pod); plist ← ToAPIList pl; Ret (o :: plist)
  end.

Definition NewForAPIObject (obj : option Pod) (opts : list (Wrapped -> Wrapped)) : Wrapped :=
  foldl (fun p o => o p) {| object := obj |} opts.

(* go: (pl *PodList) Len() *)
Definition Len (pl : PodList_) : nat := length (items pl).

Fixpoint all (l : list Predicate) (p : Wrapped) : outcome error bool :=
  match l with
  | [] => Ret true
  | pred :: l => b ← pred p; if negb b then Ret false else all l p
  end.

(* go: (p *Pod) IsRunning() *)
Definition Pod_IsRunning (p : Wrapped) : outcome error bool :=
  o ← deref (object p); Ret (String.eqb (pod_Phase o) "Running").

(* go: func IsRunning() *)
Definition IsRunning : Predicate := Pod_IsRunning.

(* go: (p *Pod) IsCompleted() *)
Definition Pod_IsCompleted (p : Wrapped) : outcome error bool :=
  o ← deref (object p); Ret (String.eqb (pod_Phase o) "Succeeded").

(* go: func IsCompleted() *)
Definition IsCompleted : Predicate := Pod_IsCompleted.

(* go: (p *Pod) HasLabel( *)
Definition Pod_HasLabel (key value : string) (p : Wrapped) : outcome error bool :=
  o ← deref (object p);
  Ret (match mget (Labels (pod_Meta o)) key with
       | Some val => String.eqb val value
       | None => false
       end).

(* go: func HasLabel( *)
Definition HasLabel (key value : string) : Predicate := Pod_HasLabel key value.

(** The loop over the pairs, in the order in which the map is walked. *)
(* go: 110-115 HasLabels *)
Fixpoint has_pairs (kvs : list (string * string)) (p : Wrapped) : outcome error bool :=
  match kvs with
  | [] => Ret true
  | (key, value) :: kvs => b ← Pod_HasLabel key value p; if negb b then Ret false else has_pairs kvs p
  end.

Definition HasLabels (Ord : MapOrder) (keyValuePair : gomap string) : Predicate := fun p =>
  has_pairs (map_range (default ∅ keyValuePair)) p.

(* go: (p *Pod) IsNil() *)
Definition Pod_IsNil (p : Wrapped) : bool := match object p with None => true | Some _ => false end.

(* go: func IsNil() *)
Definition IsNil : Predicate := fun p => Ret (Pod_IsNil p).

(* go: (p *Pod) GetAPIObject() *)
Definition GetAPIObject (p : Wrapped) : option Pod := object p.

(** [nodeNames[p.object.Spec.NodeName]++] for every pod. *)
Definition GetScheduledNodes (pl : PodList_) : outcome error (gmap string Z) :=
  foldl (fun acc p => nodeNames ← acc; o ← deref (object p);
    let n := ps_NodeName (pod_Spec o) in
    Ret (<[n := (default 0 (nodeNames !! n) + 1)%Z]> nodeNames)) (Ret ∅) (items pl).

(* go: (pl *PodList) IsMatchNodeAny( *)
Fixpoint match_nodes (nodes : gmap string Z) (pl : list Wrapped) : outcome error bool :=
  match pl with
  | [] => Ret true
  | p :: pl =>
    o ← deref (object p);
    if (default 0 (nodes !! ps_NodeName (pod_Spec o)) =? 0)%Z then Ret false else match_nodes nodes pl
  end.

(** [nodes] may be nil, which has no entry. *)
(* go: (pl *PodList) IsMatchNodeAny( *)
Definition IsMatchNodeAny (nodes : gomap Z) (pl : PodList_) : outcome error bool :=
  match_nodes (default ∅ nodes) (items pl).

(* Source: src/pkg/kubernetes/api/core/v1/pod/buildlist.go *)

Record ListBuilder := { list_ : PodList_; filters : list Predicate }.

Definition NewListBuilder : ListBuilder := {| list_ := {| items := [] |}; filters := [] |}.

(** Every item is copied to an object of its own. *)
Definition ListBuilderForAPIList (pods : option (list Pod)) : ListBuilder :=
  match pods with
  | None => NewListBuilder
  | Some pods => {| list_ := {| items := map (fun p => {| object := Some p |}) pods |}; filters := [] |}
  end.

Definition ListBuilderForObjectList (pods : list Wrapped) : ListBuilder :=
  {| list_ := {| items := pods |}; filters := [] |}.

(* go: (b *ListBuilder) List() *)
Fixpoint filter_items (fs : list Predicate) (its : list Wrapped) : outcome error (list Wrapped) :=
  match its with
  | [] => Ret []
  | pod :: its =>
    b ← all fs pod; filtered ← filter_items fs its;
    Ret (if (b : bool) then pod :: filtered else filtered)
  end.

Definition List (b : ListBuilder) : outcome error PodList_ :=
  if (length (filters b) =? 0)%nat then Ret (list_ b)
  else its ← filter_items (filters b) (items (list_ b)); Ret {| items := its |}.

Definition WithFilter (pred : list Predicate) (b : ListBuilder) : ListBuilder :=
  {| list_ := list_ b; filters := filters b ++ pred |}.

(* Source: src/pkg/kubernetes/api/core/v1/pod/pod.go *)

Definition FromList (pods : option (list Pod)) : outcome error PodList_ :=
  List (ListBuilderForAPIList pods).

(** ** What the lists promise *)

(** The predicates that look at the object. *)
(* go: none *)
Definition of_value (f : Pod -> bool) : Predicate := fun p => o ← deref (object p); Ret (f o).

(* go: none *)
Definition wrap (o : Pod) : Wrapped := {| object := Some o |}.

(* go: none *)
Definition node_of (o : Pod) : string := ps_NodeName (pod_Spec o).

(** The labels [m] are among those of a pod. *)
(* go: none *)
Definition labelled (m : gomap string) (o : Pod) : bool :=
  bool_decide (default ∅ m ⊆ default ∅ (Labels (pod_Meta o))).

Lemma has_pairs_spec kvs o :
  has_pairs kvs (wrap o) = Ret (forallb (fun kv => bool_decide (mget (Labels (pod_Meta o)) kv.1 = Some kv.2)) kvs).
Proof.
  induction kvs as [|[key value] kvs IH]; [done|]. cbn [has_pairs forallb fst snd].
  unfold Pod_HasLabel. cbn [wrap object deref mbind outcome_bind].
  destruct (mget (Labels (pod_Meta o)) key) as [v|]; cbn.
  - destruct (String.eqb_spec v value) as [->|Hne]; cbn; [by rewrite bool_decide_true, IH|].
    by rewrite bool_decide_false by congruence.
  - by rewrite bool_decide_false.
Qed.

Lemma mget_default {V} (m : gomap V) k : mget m k = default ∅ m !! k.
Proof. destruct m; [done|]. symmetry. apply lookup_empty. Qed.

(** Whatever the order in which the labels are tried. *)
Lemma HasLabels_spec Ord m o : HasLabels Ord m (wrap o) = Ret (labelled m o).
Proof.
  unfold HasLabels. rewrite has_pairs_spec. f_equal. unfold labelled. apply eq_true_iff_eq.
  rewrite bool_decide_eq_true, forallb_Forall_true, Forall_forall, map_subseteq_spec.
  split.
  - intros H k v Hk. specialize (H (k, v)). rewrite bool_decide_eq_true, mget_default in H.
    by apply H, map_range_elem.
  - intros H [k v] Hk%map_range_elem. apply bool_decide_eq_true. rewrite mget_default. by apply H.
Qed.

(** Predicates that have the given value on every object. *)
Lemma pod_filter_items fs gs os :
  Forall2 (fun (p : Predicate) g => forall o, p (wrap o) = Ret (g o)) fs gs ->
  filter_items fs (map wrap os) = Ret (map wrap (filter (fun o => all_preds gs o = true) os)).
Proof.
  intros Hf. assert (forall o, all fs (wrap o) = Ret (all_preds gs o)) as Hall.
  { intros o. induction Hf as [|p g fs gs Hp _ IH]; [done|]. cbn. rewrite Hp. cbn.
    by destruct (g o). }
  induction os as [|o os IH]; [done|]. cbn [map filter_items].
  rewrite Hall. cbn [mbind outcome_bind]. rewrite IH. cbn [mbind outcome_bind].
  rewrite filter_cons. by destruct (all_preds gs o).
Qed.

Lemma ToAPIList_wrap os : ToAPIList (map wrap os) = Ret os.
Proof. induction os as [|o os IH]; [done|]. cbn. by rewrite IH. Qed.

Lemma match_nodes_spec nodes os :
  match_nodes nodes (map wrap os)
  = Ret (forallb (fun o => negb (default 0 (nodes !! node_of o) =? 0)%Z) os).
Proof.
  induction os as [|o os IH]; [done|]. cbn. unfold node_of at 1. by destruct (_ =? 0)%Z.
Qed.

(** How many pods of a list are on a node. *)
(* go: none *)
Definition pods_on (n : string) (os : list Pod) : Z :=
  Z.of_nat (length (filter (fun o => node_of o = n) os)).

Lemma scheduled_nodes os :
  exists nodes, GetScheduledNodes {| items := map wrap os |} = Ret nodes /\
    forall n, nodes !! n = if decide (0 < pods_on n os)%Z then Some (pods_on n os) else None.
Proof.
  unfold GetScheduledNodes. cbn [items].
  induction os as [|o os IH] using rev_ind.
  { exists ∅. split; [done|]. intros n. by rewrite lookup_empty. }
  destruct IH as (nodes & IH & Hn). rewrite map_app, foldl_app, IH. cbn.
  eexists. split; [done|]. intros n. unfold pods_on in *. rewrite filter_app, length_app, filter_cons.
  fold (node_of o). destruct (decide (node_of o = n)) as [<-|Hne].
  - rewrite lookup_insert_eq, Hn. cbn [length filter].
    destruct (decide (0 < Z.of_nat (length (filter (fun x => node_of x = node_of o) os)))%Z);
      rewrite decide_True by (cbn; lia); f_equal; cbn; lia.
  - rewrite lookup_insert_ne, Hn by done. cbn [length filter]. by rewrite Nat.add_0_r.
Qed.

(** C40: lists of pods.  A list made from API objects gives back those on which every filter holds,
    in order; [HasLabels] holds of a pod that has all the labels, whatever the order in which they
    are tried; the nodes of a list are the nodes that have a pod of it, with their number of pods;
    and a list matches the nodes of another when each of its pods is on a node of the other. *)
Theorem pod_lists gs Ord m os os' :
  let b := WithFilter [HasLabels Ord m] (WithFilter (map of_value gs) (ListBuilderForAPIList (Some os))) in
  let kept := filter (fun o => all_preds (gs ++ [labelled m]) o = true) os in
  (l ← List b; ToAPIList (items l)) = Ret kept
  /\ exists nodes, (l ← FromList (Some os'); GetScheduledNodes l) = Ret nodes
    /\ (forall n, nodes !! n = if decide (0 < pods_on n os')%Z then Some (pods_on n os') else None)
    /\ (l ← List b; IsMatchNodeAny (Some nodes) l)
       = Ret (bool_decide (Forall (fun o => node_of o ∈ map node_of os') kept)).
Proof.
  intros b kept.
  assert (List b = Ret {| items := map wrap kept |}) as Hb.
  { unfold List, b, WithFilter. cbn [filters list_ items ListBuilderForAPIList app].
    rewrite length_app, Nat.add_1_r. cbn [Nat.eqb].
    change (map (fun p => {| object := Some p |}) os) with (map wrap os).
    rewrite (pod_filter_items _ (gs ++ [labelled m])); [done|]. apply Forall2_app.
    - induction gs; constructor; done.
    - repeat constructor. apply HasLabels_spec. }
  rewrite Hb. cbn [mbind outcome_bind items]. split; [apply ToAPIList_wrap|].
  destruct (scheduled_nodes os') as (nodes & Hs & Hn). exists nodes.
  split; [exact Hs|split; [exact Hn|]]. unfold IsMatchNodeAny. cbn [default items].
  rewrite match_nodes_spec. f_equal. apply eq_true_iff_eq.
  rewrite bool_decide_eq_true, forallb_Forall_true, !Forall_forall.
  apply forall_proper; intros o. apply forall_proper; intros Ho.
  rewrite negb_true_iff, Z.eqb_neq. cbn. rewrite Hn, list_elem_of_fmap. unfold pods_on.
  destruct (filter _ os') as [|x l] eqn:E; cbn [length].
  - rewrite decide_False by lia. split; [done|]. intros (x & Hx & Hin). exfalso.
    assert (x ∈ filter (fun y => node_of y = node_of o) os') as H by (by apply list_elem_of_filter).
    rewrite E in H. by apply elem_of_nil in H.
  - rewrite decide_True by lia. split; [intros _|intros _; cbn; lia].
    assert (x ∈ filter (fun y => node_of y = node_of o) os') as [Hx Hin]%list_elem_of_filter
      by (rewrite E; left).
    by exists x.
Qed.

End PodList.
