(* ===== verification/PodBuilder.v ===== *)
(** * Package [pod]: the builder of pods

    [src/pkg/kubernetes/api/core/v1/pod/build.go].  The pods built here are the helper pods that
    run on the node of a volume.  Calls that range over a map take the iteration order as an
    argument of their own. *)

From S2P Require Import Prelude GoStrings KubeApi Builder NodeAffinity.
From S2P Require VolumeBuilder ContainerBuilder.
Open Scope string_scope. Open Scope list_scope.

(* Source: src/pkg/kubernetes/api/core/v1/pod/build.go *)

Section PodBuilder.
Context {A : ApiTypes}.

(* go: 30-30 k8sNodeLabelKeyHostname *)
Definition k8sNodeLabelKeyHostname := "kubernetes.io/hostname".

Definition Builder := builder Pod.

Definition NewBuilder : Builder := MkBuilder Pod_zero [].

Definition upd_spec (f : PodSpec -> PodSpec) : Builder -> Builder :=
  upd (fun p => p <| pod_Spec ::= f |>).

(** The loop body of [WithTolerationsForTaints]. *)
(* go: 48-59 WithTolerationsForTaints *)
Definition toleration_for (t : Taint) : Toleration :=
  if (len (taint_Value t) =? 0)%nat then
    {| tol_Key := taint_Key t; tol_Effect := taint_Effect t;
       tol_Operator := TolerationOpExists; tol_Value := "" |}
  else
    {| tol_Key := taint_Key t; tol_Effect := taint_Effect t;
       tol_Value := taint_Value t; tol_Operator := TolerationOpEqual |}.

Definition WithTolerationsForTaints (taints : list Taint) (b : Builder) : Builder :=
  let tolerations := foldl (fun acc t => acc ++ [toleration_for t]) [] taints in
  upd_spec (fun s => s <| ps_Tolerations := ps_Tolerations s ++ tolerations |>) b.

Definition WithName (name : string) (b : Builder) : Builder :=
  if (len name =? 0)%nat then
    add_err (ErrNew "failed to build Pod object: missing Pod name") b
  else upd (fun p => p <| pod_Meta ::= fun m => m <| Name := name |> |>) b.

Definition WithNamespace (namespace : string) (b : Builder) : Builder :=
  if (len namespace =? 0)%nat then
    add_err (ErrNew "failed to build Pod object: missing namespace") b
  else upd (fun p => p <| pod_Meta ::= fun m => m <| Namespace := namespace |> |>) b.

Definition WithLabels (Ord : MapOrder) (matchlabels : gomap string) (b : Builder) : Builder :=
  if (mlen matchlabels =? 0)%nat then
    add_err (ErrNew "failed to build deployment object: no new matchlabels") b
  else upd (fun p => p <| pod_Meta ::= fun m => m <| Labels ::= fun labels =>
    let labels := match labels with None => ∅ | Some l => l end in
    Some (copy_into (default ∅ matchlabels) labels) |> |>) b.

Definition WithContainerBuilder (containerBuilder : ContainerBuilder.Builder) (b : Builder) :
    Builder :=
  match (ContainerBuilder.Build containerBuilder).2 with
  | Ret containerObj =>
    upd_spec (fun s => s <| ps_Containers := ps_Containers s ++ [containerObj] |>) b
  | Fail err => add_err (Wrapf err "failed to build pod" []) b
  | Panic => b
  end.

Definition WithVolumeBuilder (volumeBuilder : VolumeBuilder.Builder) (b : Builder) : Builder :=
  match VolumeBuilder.Build volumeBuilder with
  | Ret vol => upd_spec (fun s => s <| ps_Volumes := ps_Volumes s ++ [vol] |>) b
  | Fail err => add_err (Wrapf err "failed to build deployment" []) b
  | Panic => b
  end.

Definition WithRestartPolicy (restartPolicy : string) (b : Builder) : Builder :=
  upd_spec (fun s => s <| ps_RestartPolicy := restartPolicy |>) b.

Definition WithNodeName (nodeName : string) (b : Builder) : Builder :=
  if (len nodeName =? 0)%nat then
    add_err (ErrNew "failed to build Pod object: missing Pod node name") b
  else upd_spec (fun s => s <| ps_NodeName := nodeName |>) b.

Definition WithNodeSelectorHostnameNew (hostname : string) (b : Builder) : Builder :=
  if (len hostname =? 0)%nat then
    add_err (ErrNew "failed to build Pod object: missing Pod hostname") b
  else upd_spec (fun s => s <| ps_NodeSelector :=
    Some {[ k8sNodeLabelKeyHostname := hostname ]} |>) b.

Definition WithNodeAffinityNew (Ord : MapOrder) (labels : gomap string) (b : Builder) : Builder :=
  if (mlen labels =? 0)%nat then
    add_err (ErrNew "failed to build Pod object: missing node labels") b
  else
    let es := match_expressions (default ∅ labels) in
    if (length es =? 0)%nat then
      add_err (ErrNew "failed to build Pod object: missing node label values") b
    else upd_spec (fun s => s <| ps_Affinity :=
      Some {| RequiredDuringScheduling := Some (one_term es) |} |>) b.

Definition WithContainers (containers : list Container) (b : Builder) : Builder :=
  if (length containers =? 0)%nat then
    add_err (ErrNew "failed to build Pod object: missing containers") b
  else upd_spec (fun s => s <| ps_Containers := containers |>) b.

Definition WithContainer (container : Container) (b : Builder) : Builder :=
  WithContainers [container] b.

Definition WithImagePullSecrets (secrets : list LocalObjectReference) (b : Builder) : Builder :=
  if (length secrets =? 0)%nat then b
  else upd_spec (fun s => s <| ps_ImagePullSecrets := secrets |>) b.

Definition WithVolumes (volumes : list Volume) (b : Builder) : Builder :=
  if (length volumes =? 0)%nat then
    add_err (ErrNew "failed to build Pod object: missing volumes") b
  else upd_spec (fun s => s <| ps_Volumes := volumes |>) b.

Definition WithVolume (volume : Volume) (b : Builder) : Builder := WithVolumes [volume] b.

Definition WithServiceAccountName (serviceAccountName : string) (b : Builder) : Builder :=
  if (len serviceAccountName =? 0)%nat then
    add_err (ErrNew "failed to build Pod object: missing Pod service account name") b
  else upd_spec (fun s => s <| ps_ServiceAccountName := serviceAccountName |>) b.

Definition Build (b : Builder) : outcome error Pod :=
  build_with (fun es => Errorf "%+v" [AErrs es]) b.

(** ** The calls of the builder and what they promise *)

Inductive Op :=
| OpTolerationsForTaints (taints : list Taint)
| OpName (name : string)
| OpNamespace (namespace : string)
| OpLabels (Ord : MapOrder) (labels : gomap string)
| OpContainerBuilder (c : ContainerBuilder.Builder)
| OpVolumeBuilder (v : VolumeBuilder.Builder)
| OpRestartPolicy (p : string)
| OpNodeName (n : string)
| OpNodeSelectorHostnameNew (h : string)
| OpNodeAffinityNew (Ord : MapOrder) (labels : gomap string)
| OpContainers (cs : list Container)
| OpContainer (c : Container)
| OpImagePullSecrets (ss : list LocalObjectReference)
| OpVolumes (vs : list Volume)
| OpVolume (v : Volume)
| OpServiceAccountName (n : string).

Definition apply (op : Op) : Builder -> Builder :=
  match op with
  | OpTolerationsForTaints ts => WithTolerationsForTaints ts
  | OpName n => WithName n
  | OpNamespace n => WithNamespace n
  | OpLabels Ord l => WithLabels Ord l
  | OpContainerBuilder c => WithContainerBuilder c
  | OpVolumeBuilder v => WithVolumeBuilder v
  | OpRestartPolicy p => WithRestartPolicy p
  | OpNodeName n => WithNodeName n
  | OpNodeSelectorHostnameNew h => WithNodeSelectorHostnameNew h
  | OpNodeAffinityNew Ord l => WithNodeAffinityNew Ord l
  | OpContainers cs => WithContainers cs
  | OpContainer c => WithContainer c
  | OpImagePullSecrets ss => WithImagePullSecrets ss
  | OpVolumes vs => WithVolumes vs
  | OpVolume v => WithVolume v
  | OpServiceAccountName n => WithServiceAccountName n
  end.

(** The errors of a call, from its arguments alone. *)
Definition errs_of (op : Op) : list error :=
  let missing (s what : string) :=
    if decide (s = "") then [ErrNew ("failed to build Pod object: missing " +:+ what)] else [] in
  let missing_list {X} (l : list X) (what : string) :=
    match l with
    | [] => [ErrNew ("failed to build Pod object: missing " +:+ what)]
    | _ => []
    end in
  match op with
  | OpName n => missing n "Pod name"
  | OpNamespace n => missing n "namespace"
  | OpLabels _ l => if no_entries l then
      [ErrNew "failed to build deployment object: no new matchlabels"] else []
  | OpContainerBuilder c => match (ContainerBuilder.Build c).2 with
      | Fail e => [Wrapf e "failed to build pod" []] | _ => [] end
  | OpVolumeBuilder v => match VolumeBuilder.Build v with
      | Fail e => [Wrapf e "failed to build deployment" []] | _ => [] end
  | OpNodeName n => missing n "Pod node name"
  | OpNodeSelectorHostnameNew h => missing h "Pod hostname"
  | OpNodeAffinityNew _ l => if no_entries l then
      [ErrNew "failed to build Pod object: missing node labels"]
      else if decide (nonempty_labels (default ∅ l) = ∅) then
      [ErrNew "failed to build Pod object: missing node label values"] else []
  | OpContainers cs => missing_list cs "containers"
  | OpVolumes vs => missing_list vs "volumes"
  | OpServiceAccountName n => missing n "Pod service account name"
  | OpTolerationsForTaints _ | OpRestartPolicy _ | OpContainer _ | OpImagePullSecrets _
  | OpVolume _ => []
  end.

(** What an accepted call does to the pod. *)
Definition effect (op : Op) (p : Pod) : Pod :=
  match op with
  | OpName n => p <| pod_Meta ::= fun m => m <| Name := n |> |>
  | OpNamespace n => p <| pod_Meta ::= fun m => m <| Namespace := n |> |>
  | OpLabels _ l => p <| pod_Meta ::= fun m =>
      m <| Labels := Some (default ∅ l ∪ default ∅ (Labels m)) |> |>
  | _ => p <| pod_Spec ::= fun s =>
    match op with
    | OpTolerationsForTaints ts =>
        s <| ps_Tolerations := ps_Tolerations s ++ map toleration_for ts |>
    | OpContainerBuilder c => match (ContainerBuilder.Build c).2 with
        | Ret c => s <| ps_Containers := ps_Containers s ++ [c] |> | _ => s end
    | OpVolumeBuilder v => match VolumeBuilder.Build v with
        | Ret v => s <| ps_Volumes := ps_Volumes s ++ [v] |> | _ => s end
    | OpRestartPolicy r => s <| ps_RestartPolicy := r |>
    | OpNodeName n => s <| ps_NodeName := n |>
    | OpNodeSelectorHostnameNew h =>
        s <| ps_NodeSelector := Some {[ k8sNodeLabelKeyHostname := h ]} |>
    | OpNodeAffinityNew Ord l => s <| ps_Affinity :=
        Some {| RequiredDuringScheduling := Some (one_term (match_expressions (default ∅ l))) |} |>
    | OpContainers cs => s <| ps_Containers := cs |>
    | OpContainer c => s <| ps_Containers := [c] |>
    | OpImagePullSecrets [] => s
    | OpImagePullSecrets ss => s <| ps_ImagePullSecrets := ss |>
    | OpVolumes vs => s <| ps_Volumes := vs |>
    | OpVolume v => s <| ps_Volumes := [v] |>
    | OpServiceAccountName n => s <| ps_ServiceAccountName := n |>
    | OpName _ | OpNamespace _ | OpLabels _ _ => s
    end |>
  end.

Definition upd_of (op : Op) (p : Pod) : Pod :=
  match errs_of op with [] => effect op p | _ => p end.

Lemma tolerations_map ts acc :
  foldl (fun acc t => acc ++ [toleration_for t]) acc ts = acc ++ map toleration_for ts.
Proof.
  revert acc. induction ts as [|t ts IH]; intros acc; cbn; [by rewrite app_nil_r|].
  by rewrite IH, <- app_assoc.
Qed.

Lemma ContainerBuilder_Build_no_panic c : (ContainerBuilder.Build c).2 <> Panic.
Proof. rewrite ContainerBuilder.Build_spec. by case_match. Qed.

Lemma pod_eta (p : Pod) : p <| pod_Spec := pod_Spec p |> = p.
Proof. by destruct p. Qed.

Lemma pod_apply_spec op b :
  apply op b = MkBuilder (upd_of op (b_obj b)) (b_errs b ++ errs_of op).
Proof.
  destruct b as [p es]. unfold upd_of.
  destruct op as [ts|[]|[]|Ord l|c|v|r|[]|[]|Ord l|[]|c|[]|[]|v|[]]; cbn;
    rewrite ?app_nil_r; try reflexivity; try (by destruct p).
  - unfold WithTolerationsForTaints, upd_spec, upd. by rewrite tolerations_map.
  - unfold WithLabels, upd, add_err. rewrite mlen_empty.
    destruct (no_entries l); [done|].
    cbn. by rewrite copy_into_union, app_nil_r.
  - unfold WithContainerBuilder. pose proof (ContainerBuilder_Build_no_panic c).
    destruct (ContainerBuilder.Build c).2 eqn:E; cbn; rewrite ?app_nil_r; done.
  - unfold WithVolumeBuilder, VolumeBuilder.Build, build_with.
    destruct (b_errs v); cbn; rewrite ?app_nil_r; done.
  - unfold WithNodeAffinityNew, upd_spec, upd, add_err. rewrite mlen_empty.
    destruct (no_entries l); [done|].
    destruct (length (match_expressions _) =? 0)%nat eqn:El; bool_to_prop.
    + apply nil_length_inv, match_expressions_nil in El. by rewrite decide_True.
    + rewrite decide_False by (intros Hn; apply match_expressions_nil in Hn; by rewrite Hn in El).
      cbn. by rewrite app_nil_r.
Qed.

#[export] Instance pod_spec_laws : BuilderSpec apply :=
  {| op_errs := errs_of; op_upd := upd_of; op_spec := pod_apply_spec |}.

(** [Build] after a chain of calls, for use by the clients of the builder. *)
Lemma pod_Build_run (ops : list Op) :
  Build (run apply ops NewBuilder)
  = match ops ≫= errs_of with
    | [] => Ret (foldl (fun p op => effect op p) Pod_zero ops)
    | es => Fail (Errorf "%+v" [AErrs es])
    end.
Proof.
  refine (build_effects (apply := apply) effect (fun es => Errorf "%+v" [AErrs es]) ops Pod_zero _).
  intros op p. cbn. unfold upd_of. by intros ->.
Qed.

End PodBuilder.
