(* ===== verification/PodTemplate.v ===== *)
(** * Package [podtemplatespec]

    The builder of pod templates,
    [src/pkg/kubernetes/api/core/v1/podtemplatespec/podtemplatespec.go].  Variadic arguments are
    slices, nil when none is given.  A call that builds several containers or volumes stops at
    the first one that fails, with those built before it already in the template. *)

From S2P Require Import Prelude GoStrings KubeApi Builder.
From S2P Require VolumeBuilder ContainerBuilder.
Open Scope string_scope. Open Scope list_scope.

(* Source: src/pkg/kubernetes/api/core/v1/podtemplatespec/podtemplatespec.go *)

Section PodTemplate.
Context {A : ApiTypes}.

Definition Builder := builder PodTemplateSpec.

Definition NewBuilder : Builder := MkBuilder PodTemplateSpec_zero [].

Definition upd_meta (f : ObjectMeta -> ObjectMeta) : Builder -> Builder :=
  upd (fun p => p <| pt_Meta ::= f |>).

Definition upd_spec (f : PodSpec -> PodSpec) : Builder -> Builder :=
  upd (fun p => p <| pt_Spec ::= f |>).

Definition failed (what : string) : error := ErrNew ("failed to build " +:+ what).

Definition WithName (name : string) (b : Builder) : Builder :=
  if (len name =? 0)%nat then add_err (failed "podtemplatespec object: missing name") b
  else upd_meta (fun m => m <| Name := name |>) b.

Definition WithNamespace (namespace : string) (b : Builder) : Builder :=
  if (len namespace =? 0)%nat then add_err (failed "podtemplatespec object: missing namespace") b
  else upd_meta (fun m => m <| Namespace := namespace |>) b.

Definition WithAnnotationsNew (Ord : MapOrder) (annotations : gomap string) (b : Builder) : Builder :=
  if (mlen annotations =? 0)%nat then
    add_err (failed "podtemplatespec object: missing annotations") b
  else
    let newannotations := copy_into (default ∅ annotations) ∅ in
    upd_meta (fun m => m <| Annotations := Some newannotations |>) b.

Definition WithAnnotations (Ord : MapOrder) (annotations : gomap string) (b : Builder) : Builder :=
  if (mlen annotations =? 0)%nat then add_err (failed "deployment object: missing annotations") b
  else match Annotations (pt_Meta (b_obj b)) with
  | None => WithAnnotationsNew Ord annotations b
  | Some old =>
    upd_meta (fun m => m <| Annotations := Some (copy_into (default ∅ annotations) old) |>) b
  end.

Definition WithLabelsNew (Ord : MapOrder) (labels : gomap string) (b : Builder) : Builder :=
  if (mlen labels =? 0)%nat then add_err (failed "podtemplatespec object: missing labels") b
  else
    let newlbls := copy_into (default ∅ labels) ∅ in
    upd_meta (fun m => m <| Labels := Some newlbls |>) b.

Definition WithLabels (Ord : MapOrder) (labels : gomap string) (b : Builder) : Builder :=
  if (mlen labels =? 0)%nat then add_err (failed "podtemplatespec object: missing labels") b
  else match Labels (pt_Meta (b_obj b)) with
  | None => WithLabelsNew Ord labels b
  | Some old => upd_meta (fun m => m <| Labels := Some (copy_into (default ∅ labels) old) |>) b
  end.

Definition WithNodeSelectorNew (Ord : MapOrder) (nodeselectors : gomap string) (b : Builder) : Builder :=
  if (mlen nodeselectors =? 0)%nat then
    add_err (failed "podtemplatespec object: missing nodeselectors") b
  else
    let newnodeselectors := copy_into (default ∅ nodeselectors) ∅ in
    upd_spec (fun s => s <| ps_NodeSelector := Some newnodeselectors |>) b.

Definition WithNodeSelector (Ord : MapOrder) (nodeselectors : gomap string) (b : Builder) : Builder :=
  if (mlen nodeselectors =? 0)%nat then
    add_err (failed "podtemplatespec object: missing nodeselectors") b
  else match ps_NodeSelector (pt_Spec (b_obj b)) with
  | None => WithNodeSelectorNew Ord nodeselectors b
  | Some old =>
    upd_spec (fun s => s <| ps_NodeSelector := Some (copy_into (default ∅ nodeselectors) old) |>) b
  end.

Definition WithPriorityClassName (prorityClassName : string) (b : Builder) : Builder :=
  upd_spec (fun s => s <| ps_PriorityClassName := prorityClassName |>) b.

Definition WithServiceAccountName (serviceAccountnNme : string) (b : Builder) : Builder :=
  if (len serviceAccountnNme =? 0)%nat then
    add_err (failed "podtemplatespec object: missing serviceaccountname") b
  else upd_spec (fun s => s <| ps_ServiceAccountName := serviceAccountnNme |>) b.

Definition WithAffinity (affinity : option Affinity) (b : Builder) : Builder :=
  match affinity with
  | None => add_err (failed "podtemplatespec object: missing affinity") b
  | Some newaffinitylist => upd_spec (fun s => s <| ps_Affinity := Some newaffinitylist |>) b
  end.

Definition WithTolerationsByValue (tolerations : slice Toleration) (b : Builder) : Builder :=
  if (length (ps_Tolerations (pt_Spec (b_obj b))) =? 0)%nat then
    upd_spec (fun s => s <| ps_Tolerations := slice_list tolerations |>) b
  else upd_spec (fun s => s <| ps_Tolerations ::= fun ts => ts ++ slice_list tolerations |>) b.

Definition WithTolerationsNew (tolerations : slice Toleration) (b : Builder) : Builder :=
  match tolerations with
  | None => add_err (failed "podtemplatespec object: nil tolerations") b
  | Some [] => add_err (failed "podtemplatespec object: missing tolerations") b
  | Some newtolerations => upd_spec (fun s => s <| ps_Tolerations := newtolerations |>) b
  end.

Definition WithTolerations (tolerations : slice Toleration) (b : Builder) : Builder :=
  match tolerations with
  | None => add_err (failed "podtemplatespec object: nil tolerations") b
  | Some [] => add_err (failed "podtemplatespec object: missing tolerations") b
  | Some ts =>
    if (length (ps_Tolerations (pt_Spec (b_obj b))) =? 0)%nat then WithTolerationsNew tolerations b
    else upd_spec (fun s => s <| ps_Tolerations ::= fun old => old ++ ts |>) b
  end.

(** [for _, x := range builders { obj, err := x.Build(); if err != nil { ... return b }; ... }]:
    what was built, and the error that ended the loop. *)
(* go: 344-361 WithContainerBuilders *)
Fixpoint build_all {X O} (build : X -> outcome error O) (xs : list X) : list O * option error :=
  match xs with
  | [] => ([], None)
  | x :: xs =>
    match build x with
    | Ret o => let '(os, e) := build_all build xs in (o :: os, e)
    | Fail e => ([], Some (Wrapf e "failed to build podtemplatespec" []))
    | Panic => ([], None)
    end
  end.

Definition build_container (c : ContainerBuilder.Builder) : outcome error Container :=
  (ContainerBuilder.Build c).2.

Definition record_error (e : option error) (b : Builder) : Builder :=
  match e with Some e => add_err e b | None => b end.

Definition WithContainerBuilders (containerBuilderList : slice ContainerBuilder.Builder)
    (b : Builder) : Builder :=
  match containerBuilderList with
  | None => add_err (failed "podtemplatespec: nil containerbuilder") b
  | Some l =>
    let '(cs, e) := build_all build_container l in
    record_error e (upd_spec (fun s => s <| ps_Containers ::= fun old => old ++ cs |>) b)
  end.

Definition WithVolumeBuilders (volumeBuilderList : slice VolumeBuilder.Builder) (b : Builder) :
    Builder :=
  match volumeBuilderList with
  | None => add_err (failed "podtemplatespec: nil volumeBuilderList") b
  | Some l =>
    let '(vs, e) := build_all VolumeBuilder.Build l in
    record_error e (upd_spec (fun s => s <| ps_Volumes ::= fun old => old ++ vs |>) b)
  end.

Definition WithContainerBuildersNew (containerBuilderList : slice ContainerBuilder.Builder)
    (b : Builder) : Builder :=
  match containerBuilderList with
  | None => add_err (failed "podtemplatespec: nil containerbuilder") b
  | Some [] => add_err (failed "podtemplatespec: missing containerbuilder") b
  | Some l =>
    match build_all build_container l with
    | (_, Some e) => add_err e b
    | (containerList, None) => upd_spec (fun s => s <| ps_Containers := containerList |>) b
    end
  end.

Definition WithVolumeBuildersNew (volumeBuilderList : slice VolumeBuilder.Builder) (b : Builder) :
    Builder :=
  match volumeBuilderList with
  | None => add_err (failed "podtemplatespec: nil volumeBuilderList") b
  | Some [] => add_err (failed "podtemplatespec: missing volumeBuilderList") b
  | Some l =>
    match build_all VolumeBuilder.Build l with
    | (_, Some e) => add_err e b
    | (volList, None) => upd_spec (fun s => s <| ps_Volumes := volList |>) b
    end
  end.

Definition validate (b : Builder) : outcome error unit :=
  match b_errs b with
  | [] => Ret tt
  | es => Fail (Errorf "failed to validate: build errors were found: %v" [AErrs es])
  end.

Definition Build (b : Builder) : outcome error PodTemplateSpec :=
  match validate b with
  | Ret _ => Ret (b_obj b)
  | Fail err => Fail (Wrapf err "failed to build a podtemplatespec: %s" [AOther])
  | Panic => Panic
  end.

(** ** The calls of the builder and what they promise *)

Inductive Op :=
| OpName (n : string)
| OpNamespace (n : string)
| OpAnnotations (Ord : MapOrder) (m : gomap string)
| OpAnnotationsNew (Ord : MapOrder) (m : gomap string)
| OpLabels (Ord : MapOrder) (m : gomap string)
| OpLabelsNew (Ord : MapOrder) (m : gomap string)
| OpNodeSelector (Ord : MapOrder) (m : gomap string)
| OpNodeSelectorNew (Ord : MapOrder) (m : gomap string)
| OpPriorityClassName (n : string)
| OpServiceAccountName (n : string)
| OpAffinity (a : option Affinity)
| OpTolerationsByValue (ts : slice Toleration)
| OpTolerations (ts : slice Toleration)
| OpTolerationsNew (ts : slice Toleration)
| OpContainerBuilders (cs : slice ContainerBuilder.Builder)
| OpContainerBuildersNew (cs : slice ContainerBuilder.Builder)
| OpVolumeBuilders (vs : slice VolumeBuilder.Builder)
| OpVolumeBuildersNew (vs : slice VolumeBuilder.Builder).

Definition apply (op : Op) : Builder -> Builder :=
  match op with
  | OpName n => WithName n
  | OpNamespace n => WithNamespace n
  | OpAnnotations Ord m => WithAnnotations Ord m
  | OpAnnotationsNew Ord m => WithAnnotationsNew Ord m
  | OpLabels Ord m => WithLabels Ord m
  | OpLabelsNew Ord m => WithLabelsNew Ord m
  | OpNodeSelector Ord m => WithNodeSelector Ord m
  | OpNodeSelectorNew Ord m => WithNodeSelectorNew Ord m
  | OpPriorityClassName n => WithPriorityClassName n
  | OpServiceAccountName n => WithServiceAccountName n
  | OpAffinity a => WithAffinity a
  | OpTolerationsByValue ts => WithTolerationsByValue ts
  | OpTolerations ts => WithTolerations ts
  | OpTolerationsNew ts => WithTolerationsNew ts
  | OpContainerBuilders cs => WithContainerBuilders cs
  | OpContainerBuildersNew cs => WithContainerBuildersNew cs
  | OpVolumeBuilders vs => WithVolumeBuilders vs
  | OpVolumeBuildersNew vs => WithVolumeBuildersNew vs
  end.

(** The errors of a call, from its arguments alone. *)
Definition errs_of (op : Op) : list error :=
  let missing (b : bool) (what : string) := if b then [failed what] else [] in
  let nil_or_empty {X} (l : slice X) (nil empty : string) :=
    match l with None => [failed nil] | Some [] => [failed empty] | _ => [] end in
  let first_error {X O} (build : X -> outcome error O) (l : slice X) :=
    option_list (build_all build (slice_list l)).2 in
  match op with
  | OpName n => missing (String.eqb n "") "podtemplatespec object: missing name"
  | OpNamespace n => missing (String.eqb n "") "podtemplatespec object: missing namespace"
  | OpAnnotations _ m => missing (no_entries m) "deployment object: missing annotations"
  | OpAnnotationsNew _ m => missing (no_entries m) "podtemplatespec object: missing annotations"
  | OpLabels _ m | OpLabelsNew _ m => missing (no_entries m) "podtemplatespec object: missing labels"
  | OpNodeSelector _ m | OpNodeSelectorNew _ m =>
      missing (no_entries m) "podtemplatespec object: missing nodeselectors"
  | OpServiceAccountName n =>
      missing (String.eqb n "") "podtemplatespec object: missing serviceaccountname"
  | OpAffinity a => match a with None => [failed "podtemplatespec object: missing affinity"] | _ => [] end
  | OpTolerations ts | OpTolerationsNew ts => nil_or_empty ts
      "podtemplatespec object: nil tolerations" "podtemplatespec object: missing tolerations"
  | OpContainerBuilders None => [failed "podtemplatespec: nil containerbuilder"]
  | OpContainerBuilders cs => first_error build_container cs
  | OpContainerBuildersNew cs => nil_or_empty cs "podtemplatespec: nil containerbuilder"
      "podtemplatespec: missing containerbuilder" ++ first_error build_container cs
  | OpVolumeBuilders None => [failed "podtemplatespec: nil volumeBuilderList"]
  | OpVolumeBuilders vs => first_error VolumeBuilder.Build vs
  | OpVolumeBuildersNew vs => nil_or_empty vs "podtemplatespec: nil volumeBuilderList"
      "podtemplatespec: missing volumeBuilderList" ++ first_error VolumeBuilder.Build vs
  | OpPriorityClassName _ | OpTolerationsByValue _ => []
  end.

(** What an accepted call does to the template. *)
Definition effect (op : Op) (p : PodTemplateSpec) : PodTemplateSpec :=
  match op with
  | OpName n => p <| pt_Meta ::= fun m => m <| Name := n |> |>
  | OpNamespace n => p <| pt_Meta ::= fun m => m <| Namespace := n |> |>
  | OpAnnotations _ a => p <| pt_Meta ::= fun m =>
      m <| Annotations := Some (default ∅ a ∪ default ∅ (Annotations m)) |> |>
  | OpAnnotationsNew _ a => p <| pt_Meta ::= fun m => m <| Annotations := Some (default ∅ a) |> |>
  | OpLabels _ l => p <| pt_Meta ::= fun m =>
      m <| Labels := Some (default ∅ l ∪ default ∅ (Labels m)) |> |>
  | OpLabelsNew _ l => p <| pt_Meta ::= fun m => m <| Labels := Some (default ∅ l) |> |>
  | _ => p <| pt_Spec ::= fun s =>
    match op with
    | OpNodeSelector _ n =>
        s <| ps_NodeSelector := Some (default ∅ n ∪ default ∅ (ps_NodeSelector s)) |>
    | OpNodeSelectorNew _ n => s <| ps_NodeSelector := Some (default ∅ n) |>
    | OpPriorityClassName n => s <| ps_PriorityClassName := n |>
    | OpServiceAccountName n => s <| ps_ServiceAccountName := n |>
    | OpAffinity a => s <| ps_Affinity := a |>
    | OpTolerationsByValue ts | OpTolerations ts =>
        s <| ps_Tolerations := ps_Tolerations s ++ slice_list ts |>
    | OpTolerationsNew ts => s <| ps_Tolerations := slice_list ts |>
    | OpContainerBuilders cs =>
        s <| ps_Containers := ps_Containers s ++ (build_all build_container (slice_list cs)).1 |>
    | OpContainerBuildersNew cs =>
        s <| ps_Containers := (build_all build_container (slice_list cs)).1 |>
    | OpVolumeBuilders vs =>
        s <| ps_Volumes := ps_Volumes s ++ (build_all VolumeBuilder.Build (slice_list vs)).1 |>
    | OpVolumeBuildersNew vs =>
        s <| ps_Volumes := (build_all VolumeBuilder.Build (slice_list vs)).1 |>
    | _ => s
    end |>
  end.

(** A rejected call leaves the template alone, but for the prefix that was built. *)
Definition upd_of (op : Op) (p : PodTemplateSpec) : PodTemplateSpec :=
  match errs_of op, op with
  | [], _ | _, OpContainerBuilders (Some _) | _, OpVolumeBuilders (Some _) => effect op p
  | _, _ => p
  end.

Lemma template_apply_spec op b :
  apply op b = MkBuilder (upd_of op (b_obj b)) (b_errs b ++ errs_of op).
Proof.
  destruct b as [[[? ? ? labels annotations ? ?] s] es]. unfold upd_of.
  destruct op as [[]|[]|Ord m|Ord m|Ord m|Ord m|Ord m|Ord m|n|[]|[a|]|ts|[[|t ts]|]|[[|t ts]|]
    |[cs|]|[[|c cs]|]|[vs|]|[[|v vs]|]]; cbn -[build_all]; rewrite ?app_nil_r; try reflexivity.
  - unfold WithAnnotations, WithAnnotationsNew, upd_meta, upd, add_err. rewrite mlen_empty.
    destruct (no_entries m); [done|]. destruct annotations; cbn;
      by rewrite copy_into_union, ?(right_id_L ∅ (∪)), app_nil_r.
  - unfold WithAnnotationsNew, upd_meta, upd, add_err. rewrite mlen_empty, copy_into_union.
    destruct (no_entries m); [done|]. cbn. by rewrite (right_id_L ∅ (∪)), app_nil_r.
  - unfold WithLabels, WithLabelsNew, upd_meta, upd, add_err. rewrite mlen_empty.
    destruct (no_entries m); [done|]. destruct labels; cbn;
      by rewrite copy_into_union, ?(right_id_L ∅ (∪)), app_nil_r.
  - unfold WithLabelsNew, upd_meta, upd, add_err. rewrite mlen_empty, copy_into_union.
    destruct (no_entries m); [done|]. cbn. by rewrite (right_id_L ∅ (∪)), app_nil_r.
  - unfold WithNodeSelector, WithNodeSelectorNew, upd_spec, upd, add_err. rewrite mlen_empty.
    destruct (no_entries m); [done|]. destruct s as [? ? ? ? ? [sel|] ? ? ? ?]; cbn;
      by rewrite copy_into_union, ?(right_id_L ∅ (∪)), app_nil_r.
  - unfold WithNodeSelectorNew, upd_spec, upd, add_err. rewrite mlen_empty, copy_into_union.
    destruct (no_entries m); [done|]. cbn. by rewrite (right_id_L ∅ (∪)), app_nil_r.
  - unfold WithTolerationsByValue. by destruct s as [[]].
  - unfold WithTolerations. by destruct s as [[]].
  - by destruct (build_all build_container cs) as [cs' [e|]]; cbn; rewrite ?app_nil_r.
  - by destruct (build_all build_container (c :: cs)) as [cs' [e|]]; cbn; rewrite ?app_nil_r.
  - by destruct (build_all VolumeBuilder.Build vs) as [vs' [e|]]; cbn; rewrite ?app_nil_r.
  - by destruct (build_all VolumeBuilder.Build (v :: vs)) as [vs' [e|]]; cbn; rewrite ?app_nil_r.
Qed.

#[export] Instance template_spec_laws : BuilderSpec apply :=
  {| op_errs := errs_of; op_upd := upd_of; op_spec := template_apply_spec |}.

(** The builder of pod templates.  [Build] after any chain of calls returns the template with
    the effects of the calls in order when no call recorded an error; otherwise it fails with all
    of them, and the template that was built so far is not returned. *)
Theorem template_build (ops : list Op) :
  Build (run apply ops NewBuilder)
  = match ops ≫= errs_of with
    | [] => Ret (foldl (fun p op => effect op p) PodTemplateSpec_zero ops)
    | es => Fail (Wrapf (Errorf "failed to validate: build errors were found: %v" [AErrs es])
        "failed to build a podtemplatespec: %s" [AOther])
    end.
Proof.
  transitivity (build_with (fun es => Wrapf
      (Errorf "failed to validate: build errors were found: %v" [AErrs es])
      "failed to build a podtemplatespec: %s" [AOther]) (run apply ops NewBuilder)).
  - unfold Build, validate, build_with. by destruct (b_errs _).
  - refine (build_effects (apply := apply) effect _ ops PodTemplateSpec_zero _).
    intros op p. cbn. unfold upd_of. by intros ->.
Qed.

End PodTemplate.
