(* ===== verification/Deployment.v ===== *)
(** * Package [deployment]: the builder and the rollout status

    [deployment.go] and [rollout_status.go] of [src/pkg/kubernetes/api/apps/v1/deployment].  The
    counts of a status are 32-bit integers, kept in [Z] with their wrap-around where the code
    subtracts.  The checks of a rollout are the values of a Go map: the order in which they are
    tried is a parameter. *)

From S2P Require Import Prelude GoStrings KubeApi Builder.
From S2P Require PodTemplate.
Open Scope string_scope. Open Scope list_scope.

Section Deployment.
Context {A : ApiTypes}.

(** ** [appsv1.Deployment] *)

Record DeploymentCondition := { dc_Type : string; dc_Reason : string }.

Record DeploymentStatus := {
  ObservedGeneration : Z;
  Replicas : Z;
  UpdatedReplicas : Z;
  ReadyReplicas : Z;
  AvailableReplicas : Z;
  Conditions : list DeploymentCondition }.

(** [Spec.Selector] is the [MatchLabels] of the selector. *)
Record Deployment := {
  d_Meta : ObjectMeta;
  d_Replicas : option Z;
  d_Selector : option (gmap string string);
  d_Strategy : string;
  d_Template : PodTemplateSpec;
  d_Status : DeploymentStatus }.
#[global] Instance Eta_Deployment : Eta Deployment := fun r =>
  {| d_Meta := d_Meta r; d_Replicas := d_Replicas r; d_Selector := d_Selector r;
     d_Strategy := d_Strategy r; d_Template := d_Template r; d_Status := d_Status r |}.

Definition DeploymentStatus_zero : DeploymentStatus :=
  {| ObservedGeneration := 0; Replicas := 0; UpdatedReplicas := 0; ReadyReplicas := 0;
     AvailableReplicas := 0; Conditions := [] |}.

Definition Deployment_zero : Deployment :=
  {| d_Meta := ObjectMeta_zero; d_Replicas := None; d_Selector := None; d_Strategy := "";
     d_Template := PodTemplateSpec_zero; d_Status := DeploymentStatus_zero |}.

(* Source: src/pkg/kubernetes/api/apps/v1/deployment/deployment.go *)

(** ** The builder *)

(** The wrapper [Deploy] holds a pointer that is never nil here. *)
Definition Predicate := Deployment -> bool.

(** The deployment and the predicates of a builder. *)
Record state := { deployment : Deployment; checks : list Predicate }.
#[global] Instance Eta_state : Eta state := fun r =>
  {| deployment := deployment r; checks := checks r |}.

Definition Builder := builder state.

Definition NewBuilder : Builder := MkBuilder {| deployment := Deployment_zero; checks := [] |} [].

Definition upd_object (f : Deployment -> Deployment) : Builder -> Builder :=
  upd (fun s => s <| deployment ::= f |>).

Definition current (b : Builder) : Deployment := deployment (b_obj b).

Definition failed (what : string) : error := ErrNew ("failed to build deployment" +:+ what).

Definition upd_meta (f : ObjectMeta -> ObjectMeta) : Builder -> Builder :=
  upd_object (fun d => d <| d_Meta ::= f |>).

Definition WithName (name : string) (b : Builder) : Builder :=
  if (len name =? 0)%nat then add_err (failed ": missing name") b
  else upd_meta (fun m => m <| Name := name |>) b.

Definition WithNamespace (namespace : string) (b : Builder) : Builder :=
  if (len namespace =? 0)%nat then add_err (failed ": missing namespace") b
  else upd_meta (fun m => m <| Namespace := namespace |>) b.

Definition WithAnnotationsNew (Ord : MapOrder) (annotations : gomap string) (b : Builder) : Builder :=
  if (mlen annotations =? 0)%nat then add_err (failed " object: no new annotations") b
  else
    let newannotations := copy_into (default ∅ annotations) ∅ in
    upd_meta (fun m => m <| Annotations := Some newannotations |>) b.

Definition WithAnnotations (Ord : MapOrder) (annotations : gomap string) (b : Builder) : Builder :=
  if (mlen annotations =? 0)%nat then add_err (failed " object: missing annotations") b
  else match Annotations (d_Meta (current b)) with
  | None => WithAnnotationsNew Ord annotations b
  | Some old =>
    upd_meta (fun m => m <| Annotations := Some (copy_into (default ∅ annotations) old) |>) b
  end.

Definition upd_pod (f : PodSpec -> PodSpec) : Builder -> Builder :=
  upd_object (fun d => d <| d_Template ::= fun t => t <| pt_Spec ::= f |> |>).

(** The map of the caller becomes the map of the object, without a copy. *)
Definition WithNodeSelectorNew (selector : gomap string) (b : Builder) : Builder :=
  if (mlen selector =? 0)%nat then add_err (failed " object: no new node selector") b
  else upd_pod (fun s => s <| ps_NodeSelector := selector |>) b.

Definition WithNodeSelector (Ord : MapOrder) (selector : gomap string) (b : Builder) : Builder :=
  if (mlen selector =? 0)%nat then add_err (failed " object: no node selector") b
  else match ps_NodeSelector (pt_Spec (d_Template (current b))) with
  | None => WithNodeSelectorNew selector b
  | Some old => upd_pod (fun s => s <| ps_NodeSelector := Some (copy_into (default ∅ selector) old) |>) b
  end.

Definition WithOwnerReferenceNew (ownerRefernce : list OwnerReference) (b : Builder) : Builder :=
  if (length ownerRefernce =? 0)%nat then add_err (failed " object: no new ownerRefernce") b
  else upd_meta (fun m => m <| OwnerReferences := ownerRefernce |>) b.

Definition WithLabelsNew (Ord : MapOrder) (labels : gomap string) (b : Builder) : Builder :=
  if (mlen labels =? 0)%nat then add_err (failed " object: no new labels") b
  else
    let newlbls := copy_into (default ∅ labels) ∅ in
    upd_meta (fun m => m <| Labels := Some newlbls |>) b.

Definition WithLabels (Ord : MapOrder) (labels : gomap string) (b : Builder) : Builder :=
  if (mlen labels =? 0)%nat then add_err (failed " object: missing labels") b
  else match Labels (d_Meta (current b)) with
  | None => WithLabelsNew Ord labels b
  | Some old => upd_meta (fun m => m <| Labels := Some (copy_into (default ∅ labels) old) |>) b
  end.

Definition WithSelectorMatchLabelsNew (Ord : MapOrder) (matchlabels : gomap string) (b : Builder) :
    Builder :=
  if (mlen matchlabels =? 0)%nat then add_err (failed " object: no new matchlabels") b
  else
    let newmatchlabels := copy_into (default ∅ matchlabels) ∅ in
    upd_object (fun d => d <| d_Selector := Some newmatchlabels |>) b.

Definition WithSelectorMatchLabels (Ord : MapOrder) (matchlabels : gomap string) (b : Builder) :
    Builder :=
  if (mlen matchlabels =? 0)%nat then add_err (failed " object: missing matchlabels") b
  else match d_Selector (current b) with
  | None => WithSelectorMatchLabelsNew Ord matchlabels b
  | Some old => upd_object (fun d => d <| d_Selector := Some (copy_into (default ∅ matchlabels) old) |>) b
  end.

Definition WithReplicas (replicas : option Z) (b : Builder) : Builder :=
  match replicas with
  | None => add_err (failed " object: nil replicas") b
  | Some newreplicas =>
    if (newreplicas <? 0)%Z then
      add_err (Errorf "failed to build deployment object: invalid replicas {%d}" [AInt newreplicas]) b
    else upd_object (fun d => d <| d_Replicas := Some newreplicas |>) b
  end.

Definition WithStrategyType (strategytype : string) (b : Builder) : Builder :=
  if (len strategytype =? 0)%nat then add_err (failed " object: missing strategytype") b
  else upd_object (fun d => d <| d_Strategy := strategytype |>) b.

Definition WithPodTemplateSpecBuilder (tmplbuilder : option PodTemplate.Builder) (b : Builder) :
    Builder :=
  match tmplbuilder with
  | None => add_err (failed ": nil templatespecbuilder") b
  | Some tmplbuilder =>
    match PodTemplate.Build tmplbuilder with
    | Ret templatespecObj => upd_object (fun d => d <| d_Template := templatespecObj |>) b
    | Fail err => add_err (Wrapf err "failed to build deployment" []) b
    | Panic => b
    end
  end.

Definition validate (b : Builder) : outcome error unit :=
  match b_errs b with
  | [] => Ret tt
  | es => Fail (Errorf "failed to validate: build errors were found: %+v" [AErrs es])
  end.

Definition Build (b : Builder) : outcome error Deployment :=
  match validate b with
  | Ret _ => Ret (current b)
  | Fail err =>
    Fail (Wrapf err "failed to build a deployment: %s" [AStr (Name (d_Meta (current b)))])
  | Panic => Panic
  end.

Definition AddCheck (p : Predicate) (b : Builder) : Builder :=
  upd (fun s => s <| checks ::= fun cs => cs ++ [p] |>) b.

Definition AddChecks (p : list Predicate) (b : Builder) : Builder :=
  foldl (fun b check => AddCheck check b) b p.

(** ** The status of a rollout *)

Implicit Types d : Deployment.

Definition NewForAPIObject d (opts : list (Deployment -> Deployment)) : Deployment :=
  foldl (fun d o => o d) d opts.

(* go: (d *Deploy) IsProgressDeadlineExceeded() *)
Definition IsProgressDeadlineExceeded : Predicate := fun d =>
  existsb (fun cond => String.eqb (dc_Type cond) DeploymentProgressing &&
                       String.eqb (dc_Reason cond) "ProgressDeadlineExceeded") (Conditions (d_Status d)).

(* go: (d *Deploy) IsOlderReplicaActive() *)
Definition IsOlderReplicaActive : Predicate := fun d =>
  match d_Replicas d with
  | Some replicas => (UpdatedReplicas (d_Status d) <? replicas)%Z
  | None => false
  end.

(* go: (d *Deploy) IsTerminationInProgress() *)
Definition IsTerminationInProgress : Predicate := fun d =>
  (UpdatedReplicas (d_Status d) <? Replicas (d_Status d))%Z.

(* go: (d *Deploy) IsUpdateInProgress() *)
Definition IsUpdateInProgress : Predicate := fun d =>
  (AvailableReplicas (d_Status d) <? UpdatedReplicas (d_Status d))%Z.

(* go: (d *Deploy) IsNotSyncSpec() *)
Definition IsNotSyncSpec : Predicate := fun d =>
  (ObservedGeneration (d_Status d) <? Generation (d_Meta d))%Z.

(** The predicates of the same names, as the checks use them. *)
(* go: func IsProgressDeadlineExceeded() *)
Definition IsProgressDeadlineExceeded_predicate : Predicate := fun d => IsProgressDeadlineExceeded d.

(* go: func IsOlderReplicaActive() *)
Definition IsOlderReplicaActive_predicate : Predicate := fun d => IsOlderReplicaActive d.

(* go: func IsTerminationInProgress() *)
Definition IsTerminationInProgress_predicate : Predicate := fun d => IsTerminationInProgress d.

(* go: func IsUpdateInProgress() *)
Definition IsUpdateInProgress_predicate : Predicate := fun d => IsUpdateInProgress d.

(* go: func IsNotSyncSpec() *)
Definition IsNotSyncSpec_predicate : Predicate := fun d => IsNotSyncSpec d.

(** [stringer.Yaml] is a parameter. *)
(* go: (d *Deploy) String() *)
Definition Deploy_String (Yaml : string -> Deployment -> string) d : string := Yaml "deployment" d.

(* go: (d *Deploy) GoString() *)
Definition Deploy_GoString (Yaml : string -> Deployment -> string) d : string := Deploy_String Yaml d.

(* go: 53-65 PredicateName *)
Definition PredicateProgressDeadlineExceeded := "ProgressDeadlineExceeded".
(* go: 58-58 PredicateNotSpecSynced *)
Definition PredicateNotSpecSynced := "NotSpecSynced".
(* go: 60-60 PredicateOlderReplicaActive *)
Definition PredicateOlderReplicaActive := "OlderReplicaActive".
(* go: 62-62 PredicateTerminationInProgress *)
Definition PredicateTerminationInProgress := "TerminationInProgress".
(* go: 64-64 PredicateUpdateInProgress *)
Definition PredicateUpdateInProgress := "UpdateInProgress".

(* Source: src/pkg/kubernetes/api/apps/v1/deployment/rollout_status.go *)

(** A 32-bit signed integer after wrap-around. *)
Definition wrap32 (z : Z) : Z := ((z + 2 ^ 31) mod 2 ^ 32 - 2 ^ 31)%Z.

(* go: 30-65 rolloutStatuses *)
Definition rolloutStatuses : gmap string (Deployment -> string) := list_to_map [
  (PredicateProgressDeadlineExceeded, fun d => "deployment exceeded its progress deadline");
  (PredicateOlderReplicaActive, fun d =>
    match d_Replicas d with
    | None => "replica update in-progress: some older replicas were updated"
    | Some replicas => "replica update in-progress: " +:+ decZ (UpdatedReplicas (d_Status d)) +:+
        " of " +:+ decZ replicas +:+ " new replicas were updated"
    end);
  (PredicateTerminationInProgress, fun d =>
    "replica termination in-progress: " +:+
    decZ (wrap32 (Replicas (d_Status d) - UpdatedReplicas (d_Status d))) +:+
    " old replicas are pending termination");
  (PredicateUpdateInProgress, fun d =>
    "replica update in-progress: " +:+ decZ (AvailableReplicas (d_Status d)) +:+ " of " +:+
    decZ (UpdatedReplicas (d_Status d)) +:+ " updated replicas are available");
  (PredicateNotSpecSynced, fun d =>
    "deployment rollout in-progress: waiting for deployment spec update")].

(* go: 67-79 rolloutChecks *)
Definition rolloutChecks : gmap string Predicate := list_to_map [
  (PredicateProgressDeadlineExceeded, IsProgressDeadlineExceeded_predicate);
  (PredicateOlderReplicaActive, IsOlderReplicaActive_predicate);
  (PredicateTerminationInProgress, IsTerminationInProgress_predicate);
  (PredicateUpdateInProgress, IsUpdateInProgress_predicate);
  (PredicateNotSpecSynced, IsNotSyncSpec_predicate)].

(* go: 81-85 RolloutOutput *)
Record RolloutOutput := { IsRolledout : bool; Message : string }.

(** [json.Marshal] is a parameter. *)
(* go: type rawFn func *)
Definition rawFn : Type := RolloutOutput -> outcome error string.

(* go: type Rollout struct *)
Record Rollout := { output : option RolloutOutput; raw : option rawFn }.
#[global] Instance Eta_Rollout : Eta Rollout := fun r => {| output := output r; raw := raw r |}.

(* go: type rolloutBuildOption func *)
Definition rolloutBuildOption : Type := Rollout -> Rollout.

(* go: func withOutputObject( *)
Definition withOutputObject (o : option RolloutOutput) : rolloutBuildOption :=
  fun r => r <| output := o |>.

(** [Marshal] is [json.Marshal]. *)
(* go: (r *Rollout) withDefaults() *)
Definition withDefaults (Marshal : rawFn) (r : Rollout) : Rollout :=
  match raw r with None => r <| raw := Some (fun o => Marshal o) |> | Some _ => r end.

(* go: func NewRollout( *)
Definition NewRollout (Marshal : rawFn) (opts : list rolloutBuildOption) : Rollout :=
  withDefaults Marshal (foldl (fun r o => o r) {| output := None; raw := None |} opts).

(* go: (r *Rollout) Raw() *)
Definition Raw (r : Rollout) : outcome error string :=
  match output r with
  | None => Fail (ErrNew "unable to get rollout status output")
  | Some o => raw ← deref (raw r); raw o
  end.

(* Source: src/pkg/kubernetes/api/apps/v1/deployment/deployment.go *)

(** The first check that holds, in the order in which the map is walked. *)
Definition IsRollout (Ord : MapOrder) d : string * bool :=
  match find (fun pk : string * Predicate => pk.2 d) (map_range rolloutChecks) with
  | Some pk => (pk.1, false)
  | None => ("", true)
  end.

(** Calling a function that is not in the map is a panic. *)
Definition FailedRollout (name : string) d : outcome error RolloutOutput :=
  status ← deref (rolloutStatuses !! name);
  Ret {| Message := status d; IsRolledout := false |}.

Definition SuccessRollout d : RolloutOutput :=
  {| Message := "deployment successfully rolled out"; IsRolledout := true |}.

Definition RolloutStatus (Ord : MapOrder) d : outcome error RolloutOutput :=
  let '(pk, ok) := IsRollout Ord d in
  if (ok : bool) then Ret (SuccessRollout d) else FailedRollout pk d.

Definition RolloutStatusRaw (marshal : RolloutOutput -> outcome error string) (Ord : MapOrder) d :
    outcome error string :=
  message ← RolloutStatus Ord d;
  Raw (NewRollout marshal [withOutputObject (Some message)]).

Definition VerifyReplicaStatus d : outcome error unit :=
  match d_Replicas d with
  | None => Fail (ErrNew "failed to verify replica status for deployment: nil replicas")
  | Some replicas =>
    if negb (ReadyReplicas (d_Status d) =? replicas)%Z then
      Fail (Errorf (Name (d_Meta d) +:+
        " deployment pods are not in running state expected: %d got: %d")
        [AInt replicas; AInt (ReadyReplicas (d_Status d))])
    else Ret tt
  end.

(** A deployment that has settled: the controller has seen the current specification, every
    replica asked for was updated, no older one is left and all are available. *)
Record settled d : Prop := {
  no_deadline : IsProgressDeadlineExceeded d = false;
  all_updated : forall replicas, d_Replicas d = Some replicas ->
    (replicas <= UpdatedReplicas (d_Status d))%Z;
  no_old_replica : (Replicas (d_Status d) <= UpdatedReplicas (d_Status d))%Z;
  all_available : (UpdatedReplicas (d_Status d) <= AvailableReplicas (d_Status d))%Z;
  spec_observed : (Generation (d_Meta d) <= ObservedGeneration (d_Status d))%Z }.

Lemma settled_checks d :
  settled d <-> forall name check, rolloutChecks !! name = Some check -> check d = false.
Proof.
  split.
  - intros [H1 H2 H3 H4 H5] name check Hc. apply elem_of_list_to_map_2 in Hc.
    rewrite !elem_of_cons, elem_of_nil in Hc.
    destruct Hc as [[= -> ->]|[[= -> ->]|[[= -> ->]|[[= -> ->]|[[= -> ->]|[]]]]]]; [exact H1|..].
    + unfold IsOlderReplicaActive_predicate, IsOlderReplicaActive. destruct (d_Replicas d) as [r|]; [|done].
      apply Z.ltb_ge. by apply H2.
    + by apply Z.ltb_ge.
    + by apply Z.ltb_ge.
    + by apply Z.ltb_ge.
  - intros H. split.
    + by apply (H PredicateProgressDeadlineExceeded IsProgressDeadlineExceeded_predicate).
    + intros r Hr. specialize (H PredicateOlderReplicaActive IsOlderReplicaActive_predicate eq_refl).
      unfold IsOlderReplicaActive_predicate, IsOlderReplicaActive in H. rewrite Hr in H. by apply Z.ltb_ge.
    + by apply Z.ltb_ge, (H PredicateTerminationInProgress IsTerminationInProgress_predicate).
    + by apply Z.ltb_ge, (H PredicateUpdateInProgress IsUpdateInProgress_predicate).
    + by apply Z.ltb_ge, (H PredicateNotSpecSynced IsNotSyncSpec_predicate).
Qed.

Lemma every_check_has_a_status name check :
  rolloutChecks !! name = Some check -> exists status, rolloutStatuses !! name = Some status.
Proof.
  intros Hc. apply elem_of_list_to_map_2 in Hc. rewrite !elem_of_cons, elem_of_nil in Hc.
  destruct Hc as [[= -> ->]|[[= -> ->]|[[= -> ->]|[[= -> ->]|[[= -> ->]|[]]]]]]; by eexists.
Qed.

(** C35: the status of a rollout is always an answer, and whether it is a success does not depend on
    the order in which the checks are tried: it is when the deployment has settled.  Otherwise the
    message is that of a check that holds. *)
Theorem rollout_status (Ord : MapOrder) d :
  exists out, RolloutStatus Ord d = Ret out /\
    (IsRolledout out = true <-> settled d) /\
    (IsRolledout out = false -> exists name check status,
      rolloutChecks !! name = Some check /\ check d = true /\
      rolloutStatuses !! name = Some status /\ Message out = status d).
Proof.
  unfold RolloutStatus, IsRollout.
  destruct (find _ (map_range rolloutChecks)) as [[name check]|] eqn:E.
  - apply find_some in E as [Hin Hd]. cbn [fst snd] in *.
    apply list_elem_of_In, map_range_elem in Hin.
    destruct (every_check_has_a_status _ _ Hin) as [status Hs].
    exists {| Message := status d; IsRolledout := false |}. unfold FailedRollout. rewrite Hs.
    split; [done|]. split; [|intros _; by exists name, check, status].
    split; [done|]. intros Hset. apply (proj1 (settled_checks d) Hset) in Hin. congruence.
  - exists (SuccessRollout d). split; [done|]. split; [|done]. split; [|done]. intros _.
    apply settled_checks. intros name check Hc. apply map_range_elem, list_elem_of_In in Hc.
    exact (find_none _ _ E _ Hc).
Qed.

(** ** The calls of the builder and what they promise *)

Inductive Op :=
| OpName (n : string)
| OpNamespace (n : string)
| OpAnnotations (Ord : MapOrder) (m : gomap string)
| OpAnnotationsNew (Ord : MapOrder) (m : gomap string)
| OpNodeSelector (Ord : MapOrder) (m : gomap string)
| OpNodeSelectorNew (m : gomap string)
| OpOwnerReferenceNew (os : list OwnerReference)
| OpLabels (Ord : MapOrder) (m : gomap string)
| OpLabelsNew (Ord : MapOrder) (m : gomap string)
| OpSelectorMatchLabels (Ord : MapOrder) (m : gomap string)
| OpSelectorMatchLabelsNew (Ord : MapOrder) (m : gomap string)
| OpReplicas (r : option Z)
| OpStrategyType (t : string)
| OpPodTemplateSpecBuilder (t : option PodTemplate.Builder)
| OpCheck (p : Predicate)
| OpChecks (ps : list Predicate).

Definition apply (op : Op) : Builder -> Builder :=
  match op with
  | OpName n => WithName n
  | OpNamespace n => WithNamespace n
  | OpAnnotations Ord m => WithAnnotations Ord m
  | OpAnnotationsNew Ord m => WithAnnotationsNew Ord m
  | OpNodeSelector Ord m => WithNodeSelector Ord m
  | OpNodeSelectorNew m => WithNodeSelectorNew m
  | OpOwnerReferenceNew os => WithOwnerReferenceNew os
  | OpLabels Ord m => WithLabels Ord m
  | OpLabelsNew Ord m => WithLabelsNew Ord m
  | OpSelectorMatchLabels Ord m => WithSelectorMatchLabels Ord m
  | OpSelectorMatchLabelsNew Ord m => WithSelectorMatchLabelsNew Ord m
  | OpReplicas r => WithReplicas r
  | OpStrategyType t => WithStrategyType t
  | OpPodTemplateSpecBuilder t => WithPodTemplateSpecBuilder t
  | OpCheck p => AddCheck p
  | OpChecks ps => AddChecks ps
  end.

(** The errors of a call, from its arguments alone. *)
Definition errs_of (op : Op) : list error :=
  let missing (b : bool) (what : string) := if b then [failed what] else [] in
  match op with
  | OpName n => missing (String.eqb n "") ": missing name"
  | OpNamespace n => missing (String.eqb n "") ": missing namespace"
  | OpAnnotations _ m => missing (no_entries m) " object: missing annotations"
  | OpAnnotationsNew _ m => missing (no_entries m) " object: no new annotations"
  | OpNodeSelector _ m => missing (no_entries m) " object: no node selector"
  | OpNodeSelectorNew m => missing (no_entries m) " object: no new node selector"
  | OpOwnerReferenceNew os => match os with [] => [failed " object: no new ownerRefernce"] | _ => [] end
  | OpLabels _ m => missing (no_entries m) " object: missing labels"
  | OpLabelsNew _ m => missing (no_entries m) " object: no new labels"
  | OpSelectorMatchLabels _ m => missing (no_entries m) " object: missing matchlabels"
  | OpSelectorMatchLabelsNew _ m => missing (no_entries m) " object: no new matchlabels"
  | OpReplicas r => match r with
      | None => [failed " object: nil replicas"]
      | Some r => if (r <? 0)%Z then
          [Errorf "failed to build deployment object: invalid replicas {%d}" [AInt r]] else []
      end
  | OpStrategyType t => missing (String.eqb t "") " object: missing strategytype"
  | OpPodTemplateSpecBuilder t => match t with
      | None => [failed ": nil templatespecbuilder"]
      | Some t => match PodTemplate.Build t with
          | Fail e => [Wrapf e "failed to build deployment" []] | _ => [] end
      end
  | OpCheck _ | OpChecks _ => []
  end.

(** What an accepted call does to the deployment. *)
Definition effect (op : Op) d : Deployment :=
  let merge (m old : gomap string) : gomap string := Some (default ∅ m ∪ default ∅ old) in
  let pod (f : PodSpec -> PodSpec) := d <| d_Template ::= fun t => t <| pt_Spec ::= f |> |> in
  match op with
  | OpName n => d <| d_Meta ::= fun m => m <| Name := n |> |>
  | OpNamespace n => d <| d_Meta ::= fun m => m <| Namespace := n |> |>
  | OpAnnotations _ a => d <| d_Meta ::= fun m => m <| Annotations ::= merge a |> |>
  | OpAnnotationsNew _ a => d <| d_Meta ::= fun m => m <| Annotations := merge a None |> |>
  | OpNodeSelector _ n =>
      match ps_NodeSelector (pt_Spec (d_Template d)) with
      | None => pod (fun s => s <| ps_NodeSelector := n |>)
      | Some old => pod (fun s => s <| ps_NodeSelector := Some (default ∅ n ∪ old) |>)
      end
  | OpNodeSelectorNew n => pod (fun s => s <| ps_NodeSelector := n |>)
  | OpOwnerReferenceNew os => d <| d_Meta ::= fun m => m <| OwnerReferences := os |> |>
  | OpLabels _ l => d <| d_Meta ::= fun m => m <| Labels ::= merge l |> |>
  | OpLabelsNew _ l => d <| d_Meta ::= fun m => m <| Labels := merge l None |> |>
  | OpSelectorMatchLabels _ l => d <| d_Selector ::= merge l |>
  | OpSelectorMatchLabelsNew _ l => d <| d_Selector := merge l None |>
  | OpReplicas r => d <| d_Replicas := r |>
  | OpStrategyType t => d <| d_Strategy := t |>
  | OpPodTemplateSpecBuilder t => match t with
      | Some t => match PodTemplate.Build t with Ret t => d <| d_Template := t |> | _ => d end
      | None => d end
  | OpCheck _ | OpChecks _ => d
  end.

Definition op_checks (op : Op) : list Predicate :=
  match op with OpCheck p => [p] | OpChecks ps => ps | _ => [] end.

Definition upd_of (op : Op) (s : state) : state :=
  {| deployment := match errs_of op with [] => effect op (deployment s) | _ => deployment s end;
     checks := checks s ++ op_checks op |}.

Lemma deployment_AddChecks_spec ps b :
  AddChecks ps b = upd (fun s => s <| checks ::= fun cs => cs ++ ps |>) b.
Proof.
  revert b. induction ps as [|p ps IH]; intros [[d cs] es].
  - unfold AddChecks, upd. cbn. by rewrite app_nil_r.
  - change (AddChecks (p :: ps) ?b) with (AddChecks ps (AddCheck p b)). rewrite IH.
    unfold AddCheck, upd. cbn. by rewrite <- app_assoc.
Qed.

(** A call that merges or copies a map into the field [old]. *)
Ltac solve_map_call m old :=
  unfold upd_meta, upd_pod, upd_object, upd, add_err, current; cbn [b_obj deployment];
  rewrite ?mlen_empty, ?copy_into_union; destruct (no_entries m); [by rewrite ?app_nil_r|];
  destruct old eqn:?; cbn;
  repeat match goal with H : _ = _ |- _ => rewrite H end; cbn;
  rewrite ?copy_into_union, ?(right_id_L ∅ (∪)), ?app_nil_r; reflexivity.

Lemma deployment_apply_spec op b :
  apply op b = MkBuilder (upd_of op (b_obj b)) (b_errs b ++ errs_of op).
Proof.
  destruct b as [[d cs] es]. unfold upd_of.
  destruct op as [[]|[]|Ord m|Ord m|Ord m|m|[]|Ord m|Ord m|Ord m|Ord m|[r|]|[]|[t|]|p|ps];
    cbn -[AddChecks]; rewrite ?app_nil_r; try reflexivity.
  - unfold WithAnnotations, WithAnnotationsNew. solve_map_call m (Annotations (d_Meta d)).
  - unfold WithAnnotationsNew. solve_map_call m (Annotations (d_Meta d)).
  - unfold WithNodeSelector, WithNodeSelectorNew.
    solve_map_call m (ps_NodeSelector (pt_Spec (d_Template d))).
  - unfold WithNodeSelectorNew. solve_map_call m (ps_NodeSelector (pt_Spec (d_Template d))).
  - unfold WithLabels, WithLabelsNew. solve_map_call m (Labels (d_Meta d)).
  - unfold WithLabelsNew. solve_map_call m (Labels (d_Meta d)).
  - unfold WithSelectorMatchLabels, WithSelectorMatchLabelsNew. solve_map_call m (d_Selector d).
  - unfold WithSelectorMatchLabelsNew. solve_map_call m (d_Selector d).
  - unfold WithReplicas. destruct (r <? 0)%Z; cbn; by rewrite ?app_nil_r.
  - unfold WithPodTemplateSpecBuilder. destruct (PodTemplate.Build t); cbn; by rewrite ?app_nil_r.
  - rewrite deployment_AddChecks_spec. reflexivity.
Qed.

#[export] Instance deployment_spec_laws : BuilderSpec apply :=
  {| op_errs := errs_of; op_upd := upd_of; op_spec := deployment_apply_spec |}.

(** C36: the builder of deployments.  [Build] after any chain of calls returns the deployment with
    the effects of the calls in order when no call recorded an error, and otherwise fails with all
    of them.  The predicates added by [AddCheck] and [AddChecks] have no part in it. *)
Theorem deployment_build (ops : list Op) :
  match ops ≫= errs_of with
  | [] => Build (run apply ops NewBuilder)
      = Ret (foldl (fun d op => effect op d) Deployment_zero ops)
  | es => exists name, Build (run apply ops NewBuilder)
      = Fail (Wrapf (Errorf "failed to validate: build errors were found: %+v" [AErrs es])
          "failed to build a deployment: %s" [AStr name])
  end.
Proof.
  pose proof (run_spec (apply := apply) ops NewBuilder) as Hr. unfold chain_errs in Hr.
  cbn [b_errs NewBuilder app op_errs deployment_spec_laws] in Hr.
  unfold Build, validate. rewrite Hr. cbn [b_errs]. unfold current. cbn [b_obj].
  destruct (ops ≫= errs_of) as [|e es] eqn:E; [|by eexists]. f_equal.
  cbn [NewBuilder b_obj]. unfold chain_obj. cbn [op_upd deployment_spec_laws].
  clear Hr. generalize (@nil Predicate) Deployment_zero. revert E.
  induction ops as [|op ops IH]; [done|]. intros E cs d. cbn in E. apply app_eq_nil in E as [E1 E2].
  cbn [foldl]. unfold upd_of at 2. cbn [deployment checks]. rewrite IH by done. by rewrite E1.
Qed.

End Deployment.
