(* ===== verification/PersistentVolume.v ===== *)
(** * Package [persistentvolume]: persistent volumes

    [src/pkg/kubernetes/api/core/v1/persistentvolume]: the builder ([build.go]), the accessors
    that read back the path and the node affinity of a volume ([persistentvolume.go]) and the
    filtered lists ([buildlist.go]).  What the builder writes, the accessors read: the round trip
    is what lets the provisioner delete on the node where it created. *)

From S2P Require Import Prelude GoStrings KubeApi Builder NodeAffinity.
Open Scope string_scope. Open Scope list_scope.

(* Source: src/pkg/kubernetes/api/core/v1/persistentvolume/kubernetes.go *)

(* go: 30-34 KeyNode *)
Definition KeyNode := "kubernetes.io/hostname".

Section PersistentVolume.
Context {A : ApiTypes}.

(* Source: src/pkg/kubernetes/api/core/v1/persistentvolume/build.go *)

Definition Builder := builder PersistentVolume.

Definition NewBuilder : Builder := MkBuilder PersistentVolume_zero [].

Definition WithName (name : string) (b : Builder) : Builder :=
  if (len name =? 0)%nat then add_err (ErrNew "failed to build PV object: missing PV name") b
  else upd (fun pv => pv <| pv_Meta ::= fun m => m <| Name := name |> |>) b.

Definition WithAnnotations (annotations : gomap string) (b : Builder) : Builder :=
  if (mlen annotations =? 0)%nat then
    add_err (ErrNew "failed to build PV object: missing annotations") b
  else upd (fun pv => pv <| pv_Meta ::= fun m => m <| Annotations := annotations |> |>) b.

Definition WithLabels (labels : gomap string) (b : Builder) : Builder :=
  if (mlen labels =? 0)%nat then
    add_err (ErrNew "failed to build PV object: missing labels") b
  else upd (fun pv => pv <| pv_Meta ::= fun m => m <| Labels := labels |> |>) b.

Definition WithReclaimPolicy (reclaimPolicy : string) (b : Builder) : Builder :=
  upd (fun pv => pv <| pv_ReclaimPolicy := reclaimPolicy |>) b.

Definition WithVolumeMode (volumeMode : string) (b : Builder) : Builder :=
  upd (fun pv => pv <| pv_VolumeMode := Some volumeMode |>) b.

Definition WithAccessModes (accessMode : list string) (b : Builder) : Builder :=
  if (length accessMode =? 0)%nat then
    add_err (ErrNew "failed to build PV object: missing accessmodes") b
  else upd (fun pv => pv <| pv_AccessModes := accessMode |>) b.

Definition WithCapacityQty (resCapacity : Quantity) (b : Builder) : Builder :=
  upd (fun pv => pv <| pv_Capacity := Some {[ ResourceStorage := resCapacity ]} |>) b.

Definition WithCapacity (capacity : string) (b : Builder) : Builder :=
  match ParseQuantity capacity with
  | Ret resCapacity => WithCapacityQty resCapacity b
  | Fail err => add_err (Wrapf err
      "failed to build PV object: failed to parse capacity {%s}" [AStr capacity]) b
  | Panic => b
  end.

Definition WithLocalHostPathFormat (path fstype : string) (b : Builder) : Builder :=
  if (len path =? 0)%nat then add_err (ErrNew "failed to build PV object: missing PV path") b
  else upd (fun pv => pv <| pv_Source := PersistentVolumeSource_zero <|
    src_Local := Some {| local_Path := path; local_FSType := Some fstype |} |> |>) b.

Definition WithLocalHostDirectory (path : string) (b : Builder) : Builder :=
  WithLocalHostPathFormat path "" b.

Definition WithPersistentVolumeSource (source : option PersistentVolumeSource) (b : Builder) :
    Builder :=
  match source with
  | None => add_err (ErrNew "failed to build PV object: missing PV source") b
  | Some source => upd (fun pv => pv <| pv_Source := source |>) b
  end.

Definition WithNodeAffinityHostname (nodeName : string) (b : Builder) : Builder :=
  if (len nodeName =? 0)%nat then
    add_err (ErrNew "failed to build PV object: missing PV node name") b
  else upd (fun pv => pv <| pv_NodeAffinity :=
    Some {| Required := Some {| NodeSelectorTerms := [{| MatchExpressions :=
      [{| nsr_Key := KeyNode; nsr_Operator := NodeSelectorOpIn; nsr_Values := [nodeName] |}] |}]
    |} |} |>) b.

Definition WithNodeAffinity (Ord : MapOrder) (labels : gomap string) (b : Builder) : Builder :=
  if (mlen labels =? 0)%nat then
    add_err (ErrNew "failed to build PV object: missing PV node labels") b
  else
    let es := match_expressions (default ∅ labels) in
    if (length es =? 0)%nat then
      add_err (ErrNew "failed to build PV object: missing PV node label values") b
    else upd (fun pv => pv <| pv_NodeAffinity := Some {| Required := Some (one_term es) |} |>) b.

Definition WithNFS (server path : string) (readOnly : bool) (b : Builder) : Builder :=
  if (len server =? 0)%nat then
    add_err (ErrNew "failed to build PV object: missing NFS Server address") b
  else if (len path =? 0)%nat then
    add_err (ErrNew "failed to build PV object: missing NFS Path") b
  else upd (fun pv => pv <| pv_Source := PersistentVolumeSource_zero <|
    src_NFS := Some {| nfs_Server := server; nfs_Path := path; nfs_ReadOnly := readOnly |} |> |>) b.

Definition Build (b : Builder) : outcome error PersistentVolume :=
  build_with (fun es => Errorf "%+v" [AErrs es]) b.

(* Source: src/pkg/kubernetes/api/core/v1/persistentvolume/persistentvolume.go *)

(** ** [persistentvolume.go] *)

Record PV := { object : option PersistentVolume }.

Record PVList := { items : list PV }.

(* go: (p *PVList) Len() *)
Definition PVList_Len (p : PVList) : nat := length (items p).

(** Copies the items; a nil object is dereferenced. *)
Definition ToAPIList (p : PVList) : outcome error (list PersistentVolume) :=
  foldl (fun acc pv => plist ← acc; o ← deref (object pv); Ret (plist ++ [o])) (Ret []) (items p).

Definition NewForAPIObject (obj : option PersistentVolume) (opts : list (PV -> PV)) : PV :=
  foldl (fun p o => o p) {| object := obj |} opts.

Definition Predicate := PV -> bool.

(* go: (p *PV) IsNil() *)
Definition PV_IsNil (p : PV) : bool := match object p with None => true | Some _ => false end.

Definition GetPath (p : PV) : outcome error string :=
  o ← deref (object p);
  match src_Local (pv_Source o) with
  | Some local => Ret (local_Path local)
  | None =>
    match src_HostPath (pv_Source o) with
    | Some hostPath => Ret (hp_Path hostPath)
    | None => Ret ""
    end
  end.

(** The inner loop over the expressions of a term: [inl] is [return ""], [inr] the value of
    [hostname] after the loop. *)
(* go: 110-119 GetAffinitedNodeHostname *)
Fixpoint hostname_in_term (es : list NodeSelectorRequirement) (hostname : string) :
    unit + string :=
  match es with
  | [] => inr hostname
  | e :: es =>
    if String.eqb (nsr_Key e) KeyNode && String.eqb (nsr_Operator e) NodeSelectorOpIn then
      match nsr_Values e with
      | [v] => inr v
      | _ => inl tt
      end
    else hostname_in_term es hostname
  end.

(* go: 108-124 GetAffinitedNodeHostname *)
Fixpoint hostname_in_terms (ts : list NodeSelectorTerm) (hostname : string) : string :=
  match ts with
  | [] => hostname
  | t :: ts =>
    match hostname_in_term (MatchExpressions t) hostname with
    | inl _ => ""
    | inr h => if negb (String.eqb h "") then h else hostname_in_terms ts h
    end
  end.

Definition GetAffinitedNodeHostname (p : PV) : outcome error string :=
  o ← deref (object p);
  match pv_NodeAffinity o with
  | None => Ret ""
  | Some nodeAffinity =>
    match Required nodeAffinity with
    | None => Ret ""
    | Some required => Ret (hostname_in_terms (NodeSelectorTerms required) "")
    end
  end.

(** The body of the loops of [GetAffinitedNodeLabels]: [None] is [return nil]. *)
(* go: 155-163 GetAffinitedNodeLabels *)
Fixpoint labels_in_term (es : list NodeSelectorRequirement) (labels : gmap string string) :
    option (gmap string string) :=
  match es with
  | [] => Some labels
  | e :: es =>
    if String.eqb (nsr_Operator e) NodeSelectorOpIn then
      match nsr_Values e with
      | [v] => labels_in_term es (<[nsr_Key e := v]> labels)
      | _ => None
      end
    else labels_in_term es labels
  end.

Definition GetAffinitedNodeLabels (p : PV) : outcome error (gomap string) :=
  o ← deref (object p);
  match pv_NodeAffinity o with
  | None => Ret None
  | Some nodeAffinity =>
    match Required nodeAffinity with
    | None => Ret None
    | Some required =>
      Ret (foldl (fun acc t => acc ≫= labels_in_term (MatchExpressions t))
        (Some ∅) (NodeSelectorTerms required))
    end
  end.

(* go: func IsNil() *)
Definition IsNil : Predicate := fun p => PV_IsNil p.

(** On a nil object the accessor [GetName] would panic; the lists hold no nil object. *)
Definition ContainsName (name : string) : Predicate := fun p =>
  Contains (match object p with Some o => Name (pv_Meta o) | None => "" end) name.

Definition all (l : list Predicate) (p : PV) : bool := all_preds l p.

(* Source: src/pkg/kubernetes/api/core/v1/persistentvolume/buildlist.go *)

(** ** [buildlist.go] *)

Record ListBuilder := {
  lb_list : PVList;
  lb_filters : list Predicate;
  lb_errs : list error }.

Definition NewListBuilder : ListBuilder :=
  {| lb_list := {| items := [] |}; lb_filters := []; lb_errs := [] |}.

(** [None] is the nil list; after it the list of the builder is never read. *)
Definition ListBuilderForAPIObjects (pvs : option (list PersistentVolume)) : ListBuilder :=
  match pvs with
  | None => {| lb_list := {| items := [] |}; lb_filters := [];
               lb_errs := [ErrNew "failed to build pv list: missing api list"] |}
  | Some its => {| lb_list := {| items := map (fun pv => {| object := Some pv |}) its |};
                   lb_filters := []; lb_errs := [] |}
  end.

Definition ListBuilderForObjects (pvs : option PVList) : ListBuilder :=
  match pvs with
  | None => {| lb_list := {| items := [] |}; lb_filters := [];
               lb_errs := [ErrNew "failed to build pv list: missing object list"] |}
  | Some pvs => {| lb_list := pvs; lb_filters := []; lb_errs := [] |}
  end.

(* Source: src/pkg/kubernetes/api/core/v1/persistentvolume/persistentvolume.go *)

Definition WithFilter (pred : list Predicate) (b : ListBuilder) : ListBuilder :=
  {| lb_list := lb_list b; lb_filters := lb_filters b ++ pred; lb_errs := lb_errs b |}.

(* Source: src/pkg/kubernetes/api/core/v1/persistentvolume/buildlist.go *)

(* go: (b *ListBuilder) List() *)
Definition List (b : ListBuilder) : outcome error PVList :=
  match lb_errs b with
  | [] =>
    if (length (lb_filters b) =? 0)%nat then Ret (lb_list b)
    else Ret {| items := filter_loop (lb_filters b) (items (lb_list b)) |}
  | es => Fail (Errorf "failed to list pv: %+v" [AErrs es])
  end.

(* go: (b *ListBuilder) Len() *)
Definition Len (b : ListBuilder) : outcome error nat := l ← List b; Ret (PVList_Len l).

(* go: (b *ListBuilder) APIList() *)
Definition APIList (b : ListBuilder) : outcome error (list PersistentVolume) :=
  l ← List b; ToAPIList l.

(** ** The calls of the builder and what they promise *)

Inductive Op :=
| OpName (name : string)
| OpAnnotations (annotations : gomap string)
| OpLabels (labels : gomap string)
| OpReclaimPolicy (p : string)
| OpVolumeMode (m : string)
| OpAccessModes (ms : list string)
| OpCapacity (c : string)
| OpCapacityQty (q : Quantity)
| OpLocalHostDirectory (path : string)
| OpLocalHostPathFormat (path fstype : string)
| OpPersistentVolumeSource (s : option PersistentVolumeSource)
| OpNodeAffinityHostname (h : string)
| OpNodeAffinity (Ord : MapOrder) (labels : gomap string)
| OpNFS (server path : string) (readOnly : bool).

Definition apply (op : Op) : Builder -> Builder :=
  match op with
  | OpName n => WithName n
  | OpAnnotations a => WithAnnotations a
  | OpLabels l => WithLabels l
  | OpReclaimPolicy p => WithReclaimPolicy p
  | OpVolumeMode m => WithVolumeMode m
  | OpAccessModes ms => WithAccessModes ms
  | OpCapacity c => WithCapacity c
  | OpCapacityQty q => WithCapacityQty q
  | OpLocalHostDirectory p => WithLocalHostDirectory p
  | OpLocalHostPathFormat p t => WithLocalHostPathFormat p t
  | OpPersistentVolumeSource s => WithPersistentVolumeSource s
  | OpNodeAffinityHostname h => WithNodeAffinityHostname h
  | OpNodeAffinity Ord l => WithNodeAffinity Ord l
  | OpNFS s p r => WithNFS s p r
  end.

(** The errors of a call, from its arguments alone. *)
Definition errs_of (op : Op) : list error :=
  let e (what : string) := [ErrNew ("failed to build PV object: missing " +:+ what)] in
  let missing (s what : string) := if decide (s = "") then e what else [] in
  let missing_map (m : gomap string) (what : string) :=
    if no_entries m then e what else [] in
  match op with
  | OpName n => missing n "PV name"
  | OpAnnotations a => missing_map a "annotations"
  | OpLabels l => missing_map l "labels"
  | OpAccessModes [] => e "accessmodes"
  | OpCapacity c => match ParseQuantity c with
      | Fail err => [Wrapf err "failed to build PV object: failed to parse capacity {%s}" [AStr c]]
      | _ => [] end
  | OpLocalHostDirectory p | OpLocalHostPathFormat p _ => missing p "PV path"
  | OpPersistentVolumeSource None => e "PV source"
  | OpNodeAffinityHostname h => missing h "PV node name"
  | OpNodeAffinity _ l =>
      if no_entries l then e "PV node labels"
      else if bool_decide (nonempty_labels (default ∅ l) = ∅) then e "PV node label values" else []
  | OpNFS s p _ => if decide (s = "") then e "NFS Server address" else missing p "NFS Path"
  | OpReclaimPolicy _ | OpVolumeMode _ | OpCapacityQty _ | OpAccessModes _
  | OpPersistentVolumeSource _ => []
  end.

Definition local_source (path fstype : string) : PersistentVolumeSource :=
  {| src_Local := Some {| local_Path := path; local_FSType := Some fstype |};
     src_HostPath := None; src_NFS := None |}.

(** What an accepted call does to the volume. *)
Definition effect (op : Op) (pv : PersistentVolume) : PersistentVolume :=
  match op with
  | OpName n => pv <| pv_Meta ::= fun m => m <| Name := n |> |>
  | OpAnnotations a => pv <| pv_Meta ::= fun m => m <| Annotations := a |> |>
  | OpLabels l => pv <| pv_Meta ::= fun m => m <| Labels := l |> |>
  | OpReclaimPolicy p => pv <| pv_ReclaimPolicy := p |>
  | OpVolumeMode m => pv <| pv_VolumeMode := Some m |>
  | OpAccessModes ms => pv <| pv_AccessModes := ms |>
  | OpCapacity c => match ParseQuantity c with
      | Ret q => pv <| pv_Capacity := Some {[ ResourceStorage := q ]} |> | _ => pv end
  | OpCapacityQty q => pv <| pv_Capacity := Some {[ ResourceStorage := q ]} |>
  | OpLocalHostDirectory p => pv <| pv_Source := local_source p "" |>
  | OpLocalHostPathFormat p t => pv <| pv_Source := local_source p t |>
  | OpPersistentVolumeSource s => pv <| pv_Source ::= fun old => default old s |>
  | OpNodeAffinityHostname h => pv <| pv_NodeAffinity :=
      Some {| Required := Some (one_term [label_requirement KeyNode h]) |} |>
  | OpNodeAffinity Ord l => pv <| pv_NodeAffinity :=
      Some {| Required := Some (one_term (match_expressions (default ∅ l))) |} |>
  | OpNFS s p r => pv <| pv_Source := {| src_Local := None; src_HostPath := None;
      src_NFS := Some {| nfs_Server := s; nfs_Path := p; nfs_ReadOnly := r |} |} |>
  end.

Definition upd_of (op : Op) (pv : PersistentVolume) : PersistentVolume :=
  match errs_of op with [] => effect op pv | _ => pv end.

Lemma WithNodeAffinity_spec Ord labels b :
  WithNodeAffinity Ord labels b
  = if no_entries labels then
      add_err (ErrNew "failed to build PV object: missing PV node labels") b
    else if bool_decide (nonempty_labels (default ∅ labels) = ∅) then
      add_err (ErrNew "failed to build PV object: missing PV node label values") b
    else upd (effect (OpNodeAffinity Ord labels)) b.
Proof.
  unfold WithNodeAffinity. rewrite mlen_empty. destruct (no_entries labels); [done|].
  assert ((length (match_expressions (default ∅ labels)) =? 0)%nat
    = bool_decide (nonempty_labels (default ∅ labels) = ∅)) as ->; [|by case_bool_decide].
  apply eq_true_iff_eq. rewrite Nat.eqb_eq, bool_decide_eq_true, length_zero_iff_nil.
  apply match_expressions_nil.
Qed.

Lemma pv_apply_spec op b :
  apply op b = MkBuilder (upd_of op (b_obj b)) (b_errs b ++ errs_of op).
Proof.
  destruct b as [pv es]. unfold upd_of, apply.
  destruct op as [[]|a|l|p|m|[]|c|q|[]|[] t|[s|]|[]|Ord l|[] [] r]; cbn;
    rewrite ?app_nil_r; try reflexivity; try (by destruct pv).
  - unfold WithAnnotations. rewrite mlen_empty. destruct (no_entries a); cbn; by rewrite ?app_nil_r.
  - unfold WithLabels. rewrite mlen_empty. destruct (no_entries l); cbn; by rewrite ?app_nil_r.
  - unfold WithCapacity, WithCapacityQty. destruct (ParseQuantity c); cbn; by rewrite ?app_nil_r.
  - rewrite WithNodeAffinity_spec. destruct (no_entries l); [|case_bool_decide]; cbn; by rewrite ?app_nil_r.
Qed.

#[export] Instance pv_spec_laws : BuilderSpec apply :=
  {| op_errs := errs_of; op_upd := upd_of; op_spec := pv_apply_spec |}.

(** [Build] after a chain of calls, for use by the clients of the builder. *)
Lemma pv_Build_run (ops : list Op) :
  Build (run apply ops NewBuilder)
  = match ops ≫= errs_of with
    | [] => Ret (foldl (fun pv op => effect op pv) PersistentVolume_zero ops)
    | es => Fail (Errorf "%+v" [AErrs es])
    end.
Proof.
  refine (build_effects (apply := apply) effect (fun es => Errorf "%+v" [AErrs es])
    ops PersistentVolume_zero _).
  intros op p. cbn. unfold upd_of. by intros ->.
Qed.

(** ** Reading back *)

Lemma labels_in_term_requirements (l : list (string * string)) labels :
  labels_in_term ((fun kv => label_requirement kv.1 kv.2) <$> l) labels
  = Some (foldl (fun acc kv => <[kv.1 := kv.2]> acc) labels l).
Proof. revert labels. induction l as [|[k v] l IH]; intros labels; [done|]. cbn. apply IH. Qed.

Lemma labels_in_match_expressions {Ord : MapOrder} labels :
  labels_in_term (match_expressions labels) ∅ = Some (nonempty_labels labels).
Proof.
  rewrite match_expressions_eq, labels_in_term_requirements. f_equal. apply map_eq. intros k.
  assert (NoDup (filter (fun kv : string * string => kv.2 <> "") (map_range labels)).*1) as Hnd.
  { pose proof (match_expressions_keys_NoDup labels) as H. rewrite match_expressions_eq in H.
    by rewrite <- list_fmap_compose in H. }
  rewrite foldl_insert_lookup by done. rewrite lookup_empty. apply option_eq. intros v.
  unfold nonempty_labels. rewrite map_lookup_filter_Some.
  assert ((list_to_map (filter (fun kv : string * string => kv.2 <> "") (map_range labels))
      : gmap string string) !! k = Some v <-> labels !! k = Some v /\ v <> "") as H.
  { rewrite <- elem_of_list_to_map by done. rewrite list_elem_of_filter, map_range_elem.
    cbn. tauto. }
  rewrite <- H. by destruct (_ !! k).
Qed.

Lemma hostname_requirements l :
  NoDup l.*1 ->
  hostname_in_term ((fun kv => label_requirement kv.1 kv.2) <$> l) ""
  = inr (default "" ((list_to_map l : gmap string string) !! KeyNode)).
Proof.
  induction l as [|[k v] l IH]; [done|]. cbn [fmap list_fmap hostname_in_term]. cbn -[KeyNode String.eqb].
  intros [Hnin Hnd]%NoDup_cons. rewrite andb_true_r.
  destruct (String.eqb_spec k KeyNode) as [->|Hne].
  - by rewrite lookup_insert_eq.
  - rewrite lookup_insert_ne by done. by apply IH.
Qed.

(** The labels read back from a volume with the affinity written by [WithNodeAffinity]. *)
Lemma GetAffinitedNodeLabels_written {Ord : MapOrder} labels pv :
  pv_NodeAffinity pv = Some {| Required := Some (one_term (match_expressions labels)) |} ->
  GetAffinitedNodeLabels {| object := Some pv |} = Ret (Some (nonempty_labels labels)).
Proof.
  intros H. unfold GetAffinitedNodeLabels. cbn. rewrite H. cbn.
  by rewrite labels_in_match_expressions.
Qed.

Lemma GetAffinitedNodeHostname_written {Ord : MapOrder} labels pv :
  pv_NodeAffinity pv = Some {| Required := Some (one_term (match_expressions labels)) |} ->
  GetAffinitedNodeHostname {| object := Some pv |}
  = Ret (default "" (nonempty_labels labels !! KeyNode)).
Proof.
  intros H. unfold GetAffinitedNodeHostname. cbn. rewrite H. cbn -[KeyNode].
  pose proof (match_expressions_keys_NoDup labels) as Hnd. rewrite match_expressions_eq in *.
  rewrite <- list_fmap_compose in Hnd. rewrite hostname_requirements by done.
  assert ((list_to_map (filter (fun kv : string * string => kv.2 <> "") (map_range labels))
    : gmap string string) !! KeyNode = nonempty_labels labels !! KeyNode) as ->.
  { apply option_eq. intros v. rewrite <- elem_of_list_to_map by done.
    unfold nonempty_labels. rewrite map_lookup_filter_Some, list_elem_of_filter, map_range_elem.
    cbn. tauto. }
  destruct (nonempty_labels labels !! KeyNode) as [h|]; [|done]. cbn.
  by destruct (String.eqb_spec h "") as [->|].
Qed.

(** C20: the builder of volumes.  [Build] after any chain of calls returns the volume with the
    effects of the calls in order when no call recorded an error, and otherwise fails with all
    the recorded errors, in the order of the calls. *)
Theorem pv_build (ops : list Op) :
  Build (run apply ops NewBuilder)
  = match ops ≫= errs_of with
    | [] => Ret (foldl (fun pv op => effect op pv) PersistentVolume_zero ops)
    | es => Fail (Errorf "%+v" [AErrs es])
    end.
Proof. apply pv_Build_run. Qed.

(** C19: what [WithNodeAffinity] writes, [GetAffinitedNodeLabels] and [GetAffinitedNodeHostname] read
    back, whatever the iteration order was: the labels that are not empty, and the hostname among
    them. *)
Theorem affinity_roundtrip Ord labels (b : Builder) :
  nonempty_labels labels <> ∅ ->
  let pv := {| object := Some (b_obj (WithNodeAffinity Ord (Some labels) b)) |} in
  b_errs (WithNodeAffinity Ord (Some labels) b) = b_errs b /\
  GetAffinitedNodeLabels pv = Ret (Some (nonempty_labels labels)) /\
  GetAffinitedNodeHostname pv = Ret (default "" (nonempty_labels labels !! KeyNode)).
Proof.
  intros Hne. rewrite WithNodeAffinity_spec.
  assert (no_entries (Some labels) = false) as ->.
  { apply bool_decide_eq_false_2. cbn. intros ->. by apply Hne. }
  rewrite bool_decide_eq_false_2 by done. cbn [default]. split; [done|].
  split; [by apply (GetAffinitedNodeLabels_written (Ord := Ord))
         |by apply (GetAffinitedNodeHostname_written (Ord := Ord))].
Qed.

End PersistentVolume.
