(* ===== verification/PersistentVolumeClaim.v ===== *)
(** * Package [persistentvolumeclaim]

    [build.go], [persistentvolumeclaim.go] and [buildlist.go] of
    [src/pkg/kubernetes/api/core/v1/persistentvolumeclaim].  The lists hold pointers: a list made
    from a template holds one pointer many times, so the objects live in a store here and the
    functions that dereference take the store. *)

From S2P Require Import Prelude GoStrings KubeApi Builder.
Open Scope string_scope. Open Scope list_scope.

(* Source: src/pkg/kubernetes/api/core/v1/persistentvolumeclaim/build.go *)

Section PersistentVolumeClaim.
Context {A : ApiTypes}.

Definition Builder := builder PersistentVolumeClaim.

Definition NewBuilder : Builder := MkBuilder PersistentVolumeClaim_zero [].

(** The object is the caller's own, changed in place by the calls that follow. *)
Definition BuildFrom (pvc : option PersistentVolumeClaim) : Builder :=
  match pvc with
  | None => add_err (ErrNew "failed to build cstorvolumeclaim object: nil pvc") NewBuilder
  | Some pvc => MkBuilder pvc []
  end.

Definition upd_meta (f : ObjectMeta -> ObjectMeta) : Builder -> Builder :=
  upd (fun p => p <| pvc_Meta ::= f |>).

Definition WithName (name : string) (b : Builder) : Builder :=
  if (len name =? 0)%nat then add_err (ErrNew "failed to build PVC object: missing PVC name") b
  else upd_meta (fun m => m <| Name := name |>) b.

Definition WithGenerateName (name : string) (b : Builder) : Builder :=
  if (len name =? 0)%nat then
    add_err (ErrNew "failed to build PVC object: missing PVC generateName") b
  else upd_meta (fun m => m <| GenerateName := name |>) b.

Definition WithNamespace (namespace : string) (b : Builder) : Builder :=
  let namespace := if (len namespace =? 0)%nat then "default" else namespace in
  upd_meta (fun m => m <| Namespace := namespace |>) b.

Definition WithAnnotations (annotations : gomap string) (b : Builder) : Builder :=
  if (mlen annotations =? 0)%nat then
    add_err (ErrNew "failed to build PVC object: missing annotations") b
  else upd_meta (fun m => m <| Annotations := annotations |>) b.

Definition WithLabels (Ord : MapOrder) (labels : gomap string) (b : Builder) : Builder :=
  if (mlen labels =? 0)%nat then add_err (ErrNew "failed to build PVC object: missing labels") b
  else upd_meta (fun m => m <| Labels ::= fun old =>
    Some (copy_into (default ∅ labels) (default ∅ old)) |>) b.

Definition WithLabelsNew (Ord : MapOrder) (labels : gomap string) (b : Builder) : Builder :=
  if (mlen labels =? 0)%nat then add_err (ErrNew "failed to build PVC object: missing labels") b
  else
    let newlbls := copy_into (default ∅ labels) ∅ in
    upd_meta (fun m => m <| Labels := Some newlbls |>) b.

Definition WithStorageClass (scName : string) (b : Builder) : Builder :=
  if (len scName =? 0)%nat then b
  else upd (fun p => p <| pvc_StorageClassName := Some scName |>) b.

Definition WithAccessModes (accessMode : list string) (b : Builder) : Builder :=
  if (length accessMode =? 0)%nat then
    add_err (ErrNew "failed to build PVC object: missing accessmodes") b
  else upd (fun p => p <| pvc_AccessModes := accessMode |>) b.

Definition WithAccessModeRWO (b : Builder) : Builder := WithAccessModes [ReadWriteOnce] b.

(** [ParseQuantity] returns a quantity or an error. *)
Definition WithCapacity (capacity : string) (b : Builder) : Builder :=
  match ParseQuantity capacity with
  | Ret resCapacity =>
    upd (fun p => p <| pvc_Requests := Some {[ ResourceStorage := resCapacity ]} |>) b
  | Fail err => add_err (Wrapf err
      "failed to build PVC object: failed to parse capacity {%s}" [AStr capacity]) b
  | Panic => b
  end.

Definition WithVolumeMode (vM : string) (b : Builder) : Builder :=
  upd (fun p => p <| pvc_VolumeMode := Some vM |>) b.

Definition Build (b : Builder) : outcome error PersistentVolumeClaim :=
  build_with (fun es => Errorf "%+v" [AErrs es]) b.

(* Source: src/pkg/kubernetes/api/core/v1/persistentvolumeclaim/persistentvolumeclaim.go *)

(** The objects, at the addresses that pointers hold. *)
Abbreviation store := (gmap nat PersistentVolumeClaim).

Record PVC := { object : option nat }.

Record PVCList := { items : list PVC }.

Definition load (st : store) (p : PVC) : outcome error PersistentVolumeClaim :=
  a ← deref (object p); deref (st !! a).

(* go: (p *PVCList) Len() *)
Definition PVCList_Len (p : PVCList) : nat := length (items p).

Definition ToAPIList (st : store) (p : PVCList) : outcome error (list PersistentVolumeClaim) :=
  foldl (fun acc pvc => plist ← acc; o ← load st pvc; Ret (plist ++ [o])) (Ret []) (items p).

Definition NewForAPIObject (obj : option nat) (opts : list (PVC -> PVC)) : PVC :=
  foldl (fun p o => o p) {| object := obj |} opts.

Definition Predicate := store -> PVC -> outcome error bool.

(* go: (p *PVC) IsBound() *)
Definition PVC_IsBound (st : store) (p : PVC) : outcome error bool :=
  o ← load st p; Ret (String.eqb (pvc_Phase o) ClaimBound).

(* go: func IsBound() *)
Definition IsBound : Predicate := PVC_IsBound.

(* go: (p *PVC) IsNil() *)
Definition PVC_IsNil (p : PVC) : bool := match object p with None => true | Some _ => false end.

(* go: func IsNil() *)
Definition IsNil : Predicate := fun _ p => Ret (PVC_IsNil p).

Definition ContainsName (name : string) : Predicate := fun st p =>
  o ← load st p; Ret (Contains (Name (pvc_Meta o)) name).

Fixpoint all (l : list Predicate) (st : store) (p : PVC) : outcome error bool :=
  match l with
  | [] => Ret true
  | pred :: l => b ← pred st p; if negb b then Ret false else all l st p
  end.

(* Source: src/pkg/kubernetes/api/core/v1/persistentvolumeclaim/buildlist.go *)

Record ListBuilder := {
  template : option nat;
  count : Z;
  lb_list : PVCList;
  filters : list Predicate;
  errs : list error }.
#[global] Instance Eta_ListBuilder : Eta ListBuilder := fun r =>
  {| template := template r; count := count r; lb_list := lb_list r; filters := filters r;
     errs := errs r |}.

Definition NewListBuilder : ListBuilder :=
  {| template := None; count := 0; lb_list := {| items := [] |}; filters := []; errs := [] |}.

Definition ListBuilderFromTemplate (pvc : option nat) : ListBuilder :=
  match pvc with
  | None => NewListBuilder <| errs := [ErrNew "failed to build pvc list: nil pvc template"] |>
  | Some _ => NewListBuilder <| template := pvc |> <| count := 1%Z |>
  end.

(** Every item is copied to an address of its own. *)
Definition ListBuilderForAPIObjects (pvcs : option (list PersistentVolumeClaim)) (st : store) :
    store * ListBuilder :=
  match pvcs with
  | None => (st, NewListBuilder <| errs := [ErrNew "failed to build pvc list: missing api list"] |>)
  | Some its =>
    foldl (fun '(st, b) pvc =>
      let a := fresh (dom st) in
      (<[a := pvc]> st,
       b <| lb_list ::= fun l => {| items := items l ++ [{| object := Some a |}] |} |>))
      (st, NewListBuilder) its
  end.

(** After a nil list the list of the builder is never read. *)
Definition ListBuilderForObjects (pvcs : option PVCList) : ListBuilder :=
  match pvcs with
  | None => NewListBuilder <| errs := [ErrNew "failed to build pvc list: missing object list"] |>
  | Some pvcs => NewListBuilder <| lb_list := pvcs |>
  end.

Definition WithFilter (pred : list Predicate) (b : ListBuilder) : ListBuilder :=
  b <| filters ::= fun fs => fs ++ pred |>.

Definition WithCount (n : Z) (b : ListBuilder) : ListBuilder := b <| count := n |>.

Definition buildFromTemplateIfNilList (b : ListBuilder) : ListBuilder :=
  if negb (length (items (lb_list b)) =? 0)%nat
     || match template b with None => true | Some _ => false end then b
  else b <| lb_list ::= fun l => {| items := items l
         ++ repeat {| object := template b |} (Z.to_nat (count b)) |} |>.

(** The loop that filters; a predicate that panics ends it. *)
(* go: 136-141 List *)
Definition filter_items (fs : list Predicate) (st : store) (its : list PVC) :
    outcome error (list PVC) :=
  foldl (fun acc pvc => filtered ← acc; ok ← all fs st pvc;
    Ret (if (ok : bool) then filtered ++ [pvc] else filtered)) (Ret []) its.

(** The list that was built stays in the builder. *)
(* go: (b *ListBuilder) List() *)
Definition List (b : ListBuilder) (st : store) : ListBuilder * outcome error PVCList :=
  match errs b with
  | [] =>
    let b := buildFromTemplateIfNilList b in
    (b, if (length (filters b) =? 0)%nat then Ret (lb_list b)
        else its ← filter_items (filters b) st (items (lb_list b)); Ret {| items := its |})
  | es => (b, Fail (Errorf "failed to build pvc list: %+v" [AErrs es]))
  end.

(* go: (b *ListBuilder) Len() *)
Definition Len (b : ListBuilder) (st : store) : ListBuilder * outcome error nat :=
  let '(b, l) := List b st in (b, l ← l; Ret (PVCList_Len l)).

(* go: (b *ListBuilder) APIList() *)
Definition APIList (b : ListBuilder) (st : store) :
    ListBuilder * outcome error (list PersistentVolumeClaim) :=
  let '(b, l) := List b st in (b, l ← l; ToAPIList st l).

(** ** The calls of the builder and what they promise *)

Inductive Op :=
| OpName (n : string)
| OpGenerateName (n : string)
| OpNamespace (n : string)
| OpAnnotations (m : gomap string)
| OpLabels (Ord : MapOrder) (m : gomap string)
| OpLabelsNew (Ord : MapOrder) (m : gomap string)
| OpStorageClass (n : string)
| OpAccessModes (ms : list string)
| OpAccessModeRWO
| OpCapacity (c : string)
| OpVolumeMode (m : string).

Definition apply (op : Op) : Builder -> Builder :=
  match op with
  | OpName n => WithName n
  | OpGenerateName n => WithGenerateName n
  | OpNamespace n => WithNamespace n
  | OpAnnotations m => WithAnnotations m
  | OpLabels Ord m => WithLabels Ord m
  | OpLabelsNew Ord m => WithLabelsNew Ord m
  | OpStorageClass n => WithStorageClass n
  | OpAccessModes ms => WithAccessModes ms
  | OpAccessModeRWO => WithAccessModeRWO
  | OpCapacity c => WithCapacity c
  | OpVolumeMode m => WithVolumeMode m
  end.

Definition errs_of (op : Op) : list error :=
  let missing (b : bool) (what : string) :=
    if b then [ErrNew ("failed to build PVC object: missing " +:+ what)] else [] in
  match op with
  | OpName n => missing (String.eqb n "") "PVC name"
  | OpGenerateName n => missing (String.eqb n "") "PVC generateName"
  | OpAnnotations m => missing (no_entries m) "annotations"
  | OpLabels _ m | OpLabelsNew _ m => missing (no_entries m) "labels"
  | OpAccessModes ms => missing (bool_decide (ms = [])) "accessmodes"
  | OpCapacity c => match ParseQuantity c with
      | Fail e => [Wrapf e "failed to build PVC object: failed to parse capacity {%s}" [AStr c]]
      | _ => [] end
  | OpNamespace _ | OpStorageClass _ | OpAccessModeRWO | OpVolumeMode _ => []
  end.

(** What an accepted call does to the claim. *)
Definition effect (op : Op) (p : PersistentVolumeClaim) : PersistentVolumeClaim :=
  match op with
  | OpName n => p <| pvc_Meta ::= fun m => m <| Name := n |> |>
  | OpGenerateName n => p <| pvc_Meta ::= fun m => m <| GenerateName := n |> |>
  | OpNamespace n =>
      p <| pvc_Meta ::= fun m => m <| Namespace := if String.eqb n "" then "default" else n |> |>
  | OpAnnotations a => p <| pvc_Meta ::= fun m => m <| Annotations := a |> |>
  | OpLabels _ l => p <| pvc_Meta ::= fun m =>
      m <| Labels := Some (default ∅ l ∪ default ∅ (Labels m)) |> |>
  | OpLabelsNew _ l => p <| pvc_Meta ::= fun m => m <| Labels := Some (default ∅ l) |> |>
  | OpStorageClass n => if String.eqb n "" then p else p <| pvc_StorageClassName := Some n |>
  | OpAccessModes ms => p <| pvc_AccessModes := ms |>
  | OpAccessModeRWO => p <| pvc_AccessModes := [ReadWriteOnce] |>
  | OpCapacity c => match ParseQuantity c with
      | Ret q => p <| pvc_Requests := Some {[ ResourceStorage := q ]} |> | _ => p end
  | OpVolumeMode m => p <| pvc_VolumeMode := Some m |>
  end.

Definition upd_of (op : Op) (p : PersistentVolumeClaim) : PersistentVolumeClaim :=
  match errs_of op with [] => effect op p | _ => p end.

Lemma pvc_apply_spec op b :
  apply op b = MkBuilder (upd_of op (b_obj b)) (b_errs b ++ errs_of op).
Proof.
  destruct b as [p es]. unfold upd_of.
  destruct op as [[]|[]|[]|m|Ord m|Ord m|[]|[]| |c|m]; cbn; rewrite ?app_nil_r; try reflexivity.
  - unfold WithAnnotations, upd_meta, upd, add_err. rewrite mlen_empty.
    destruct (no_entries m); cbn; by rewrite ?app_nil_r.
  - unfold WithLabels, upd_meta, upd, add_err. rewrite mlen_empty.
    destruct (no_entries m); cbn; by rewrite ?copy_into_union, ?app_nil_r.
  - unfold WithLabelsNew, upd_meta, upd, add_err. rewrite mlen_empty, copy_into_union.
    destruct (no_entries m); cbn; by rewrite ?map_union_empty, ?(right_id_L ∅ (∪)), ?app_nil_r.
  - unfold WithCapacity. destruct (ParseQuantity c); cbn; by rewrite ?app_nil_r.
Qed.

#[export] Instance pvc_spec_laws : BuilderSpec apply :=
  {| op_errs := errs_of; op_upd := upd_of; op_spec := pvc_apply_spec |}.

(** The builder of claims.  Started from nothing or from an object of the caller, [Build] after
    any chain of calls returns the object with the effects of the calls in order when no call
    recorded an error, and otherwise all the errors; started from nil it always fails. *)
Theorem pvc_build (ops : list Op) (start : option PersistentVolumeClaim) :
  Build (run apply ops (BuildFrom start))
  = match start, ops ≫= errs_of with
    | Some p, [] => Ret (foldl (fun p op => effect op p) p ops)
    | Some _, es => Fail (Errorf "%+v" [AErrs es])
    | None, es => Fail (Errorf "%+v"
        [AErrs (ErrNew "failed to build cstorvolumeclaim object: nil pvc" :: es)])
    end.
Proof.
  destruct start as [p|].
  - refine (build_effects (apply := apply) effect (fun es => Errorf "%+v" [AErrs es]) ops p _).
    intros op o. cbn. unfold upd_of. by intros ->.
  - unfold Build, build_with. rewrite (run_spec (apply := apply)). reflexivity.
Qed.

(** ** Lists *)

Lemma ToAPIList_load st ps os :
  Forall2 (fun p o => load st p = Ret o) ps os -> ToAPIList st {| items := ps |} = Ret os.
Proof.
  unfold ToAPIList. cbn [items].
  assert (forall acc, Forall2 (fun p o => load st p = Ret o) ps os ->
    foldl (fun acc pvc => plist ← acc; o ← load st pvc; Ret (plist ++ [o])) (Ret acc) ps
    = Ret (E := error) (acc ++ os)) as H; [|apply (H [])].
  intros acc Hf. revert acc. induction Hf as [|p o ps os Hp _ IH]; intros acc; cbn [foldl].
  - by rewrite app_nil_r.
  - cbn [mbind outcome_bind]. rewrite Hp. cbn [mbind outcome_bind]. rewrite IH.
    by rewrite <- app_assoc.
Qed.

(** C37: a list made from a template.  It has [count] pointers to the one object; the list is built
    at the first call only, so a count given later is ignored; and what a later call returns is
    the object as it is then, as many times. *)
Theorem pvc_list_from_template t n st :
  (0 < n)%Z ->
  let '(b, l) := List (WithCount n (ListBuilderFromTemplate (Some t))) st in
  l = Ret {| items := repeat {| object := Some t |} (Z.to_nat n) |} /\
  forall m st' o, st' !! t = Some o ->
    APIList (WithCount m b) st' = (WithCount m b, Ret (repeat o (Z.to_nat n))).
Proof.
  intros Hn. cbn. split; [done|]. intros m st' o Ho. unfold APIList, List. cbn.
  unfold buildFromTemplateIfNilList. cbn. destruct (Z.to_nat n) as [|k] eqn:E; [lia|].
  cbn -[ToAPIList]. f_equal. rewrite (ToAPIList_load st' _ (o :: repeat o k)); [done|].
  constructor; [cbn; by rewrite Ho|]. clear -Ho.
  induction k as [|k IH]; constructor; [cbn; by rewrite Ho|done].
Qed.

(** The predicates that look at the object. *)
Definition of_value (f : PersistentVolumeClaim -> bool) : Predicate := fun st p =>
  o ← load st p; Ret (f o).

Lemma IsBound_of_value : IsBound = of_value (fun o => String.eqb (pvc_Phase o) ClaimBound).
Proof. done. Qed.

Lemma ContainsName_of_value n : ContainsName n = of_value (fun o => Contains (Name (pvc_Meta o)) n).
Proof. done. Qed.

Lemma all_of_value gs st p o :
  load st p = Ret o -> all (map of_value gs) st p = Ret (all_preds gs o).
Proof.
  intros Hp. induction gs as [|g gs IH]; [done|]. cbn [map all].
  assert (of_value g st p = Ret (g o)) as -> by (unfold of_value; by rewrite Hp).
  cbn [mbind outcome_bind all_preds]. destruct (g o); [exact IH|done].
Qed.

Lemma filter_items_load gs st ps os :
  Forall2 (fun p o => load st p = Ret o) ps os ->
  exists ps', filter_items (map of_value gs) st ps = Ret ps' /\
    Forall2 (fun p o => load st p = Ret o) ps' (filter (fun o => all_preds gs o = true) os).
Proof.
  intros Hf. unfold filter_items.
  enough (forall acc, exists ps',
    foldl (fun acc pvc => filtered ← acc; ok ← all (map of_value gs) st pvc;
      Ret (if (ok : bool) then filtered ++ [pvc] else filtered)) (Ret acc) ps
    = Ret (E := error) (acc ++ ps') /\
    Forall2 (fun p o => load st p = Ret o) ps' (filter (fun o => all_preds gs o = true) os)) as H
    by apply (H []).
  induction Hf as [|p o ps os Hp _ IH]; intros acc; cbn [foldl].
  - exists []. by rewrite app_nil_r.
  - cbn [mbind outcome_bind]. rewrite (all_of_value gs st p o Hp). cbn [mbind outcome_bind].
    rewrite filter_cons. destruct (all_preds gs o) eqn:E.
    + destruct (IH (acc ++ [p])) as (ps' & -> & Hps'). exists (p :: ps'). rewrite <- app_assoc.
      split; [done|]. by constructor.
    + destruct (IH acc) as (ps' & -> & Hps'). by exists ps'.
Qed.

(** The objects of a list given by the API are stored at new addresses. *)
Lemma api_objects_stored its st :
  let '(st', b) := ListBuilderForAPIObjects (Some its) st in
  st ⊆ st' /\ Forall2 (fun p o => load st' p = Ret o) (items (lb_list b)) its /\
  errs b = [] /\ filters b = [] /\ template b = None.
Proof.
  cbn. set (step := fun '(st, b) pvc => _).
  enough (forall st b os, Forall2 (fun p o => load st p = Ret o) (items (lb_list b)) os ->
    errs b = [] /\ filters b = [] /\ template b = None ->
    let '(st', b') := foldl step (st, b) its in st ⊆ st' /\
      Forall2 (fun p o => load st' p = Ret o) (items (lb_list b')) (os ++ its) /\
      errs b' = [] /\ filters b' = [] /\ template b' = None) as H.
  { apply (H st NewListBuilder []); [constructor|done]. }
  clear st. induction its as [|pvc its IH]; intros st b os Hb Hr; cbn [foldl].
  { rewrite app_nil_r. done. }
  set (a := fresh (dom st)). assert (st !! a = None) as Ha
    by (apply not_elem_of_dom, is_fresh).
  specialize (IH (<[a := pvc]> st) (b <| lb_list ::= fun l =>
    {| items := items l ++ [{| object := Some a |}] |} |>) (os ++ [pvc])).
  cbn [step]. fold a. destruct (foldl step _ its) as [st' b'].
  destruct IH as (Hsub & IH); [|done|].
  - cbn. apply Forall2_app.
    + eapply Forall2_impl; [exact Hb|]. intros [[a'|]] o; unfold load; [|done].
      cbn [object deref mbind outcome_bind]. destruct (decide (a = a')) as [<-|Hne]; [by rewrite Ha|].
      by rewrite lookup_insert_ne.
    + constructor; [|constructor]. unfold load. cbn [object deref mbind outcome_bind].
      by rewrite lookup_insert_eq.
  - rewrite <- app_assoc in IH. split; [|done]. etransitivity; [|exact Hsub]. by apply insert_subseteq.
Qed.

(** A list made from API objects gives back the objects on which every filter holds, in order,
    and the objects of the caller are not touched. *)
Theorem pvc_list_filters its gs st :
  let '(st', b) := ListBuilderForAPIObjects (Some its) st in
  st ⊆ st' /\
  (APIList (WithFilter (map of_value gs) b) st').2
  = Ret (filter (fun o => all_preds gs o = true) its).
Proof.
  pose proof (api_objects_stored its st) as H.
  destruct (ListBuilderForAPIObjects (Some its) st) as [st' b].
  destruct H as (Hsub & Hits & He & Hfs & Ht). split; [done|]. unfold APIList, List, WithFilter.
  cbn [errs set]. rewrite He. unfold buildFromTemplateIfNilList. cbn [template lb_list filters set].
  rewrite Ht, orb_true_r. cbn [filters lb_list]. rewrite Hfs. cbn [app].
  destruct (filter_items_load gs st' _ _ Hits) as (ps' & Hps & Hl).
  destruct gs as [|g gs].
  - cbn. rewrite (filter_all _ its) by (by apply Forall_true). destruct (lb_list b) as [ps]. cbn in *.
    by apply ToAPIList_load.
  - cbn [map] in Hps. cbn [map length Nat.eqb]. rewrite Hps. cbn [mbind outcome_bind]. by apply ToAPIList_load.
Qed.

End PersistentVolumeClaim.
