(* ===== verification/CachedClient.v ===== *)
(** * The clients of the packages

    Every package under src/pkg/kubernetes/api with a [kubernetes.go] has a client of its own for
    one kind of object, and they share a design: the clientset is made by the first operation that
    needs it, by a function that depends on whether a path was given, and is kept.  This file has
    the part of a client that the packages repeat, as operations over the client and a log of what
    it asked for, and the invariant that they share; [Package] is what a package gives: its
    operations, and the proof that they keep to the design. *)

From S2P Require Import Prelude GoStrings Client.
Open Scope string_scope. Open Scope list_scope.

(** The options of the calls, passed through unexamined. *)
Class CallOptions := {
  ListOptions : Type;
  GetOptions : Type;
  GetOptions_zero : GetOptions;
  DeleteOptions : Type }.

Section CachedClient.
Context {G : ClientGo} {W : Type}.

(** What a client asked for: a clientset, by which path, and whether it was given one; a
    configuration; a call of the API, with which clientset, what, in which namespace and on
    which object. *)
Inductive Event :=
| Fetched (path : string) (result : option KubeClientset)
| FetchedConfig (path : string) (ok : bool)
| Called (cli : KubeClientset) (operation : string) (namespace : option string) (target : string).

(* Source: src/pkg/kubernetes/api/core/v1/persistentvolumeclaim/kubernetes.go *)

(** The fields that all clients have; [R] has those that differ. *)
Record Kubeclient (R : Type) := {
  clientset : option KubeClientset;
  kubeConfigPath : string;
  getClientset : option (M W error KubeClientset);
  getClientsetForPath : option (string -> M W error KubeClientset);
  fields : R }.
Arguments clientset {R} k.
Arguments kubeConfigPath {R} k.
Arguments getClientset {R} k.
Arguments getClientsetForPath {R} k.
Arguments fields {R} k.
#[global] Instance Eta_Kubeclient R : Eta (Kubeclient R) := fun k =>
  {| clientset := clientset k; kubeConfigPath := kubeConfigPath k; getClientset := getClientset k;
     getClientsetForPath := getClientsetForPath k; fields := fields k |}.

(** The client, what it has asked for, and the rest of the world. *)
(* go: none *)
Record KState (R : Type) := MkState { cli : Kubeclient R; log : list Event; ext : W }.
Arguments MkState {R} cli log ext.
Arguments cli {R} k.
Arguments log {R} k.
Arguments ext {R} k.

(** The options that a client is built with. *)
Definition KubeclientBuildOption (R : Type) : Type := Kubeclient R -> Kubeclient R.

Definition WithClientSet {R} (c : option KubeClientset) : KubeclientBuildOption R :=
  fun k => k <| clientset := c |>.

Definition WithKubeConfigPath {R} (path : string) : KubeclientBuildOption R :=
  fun k => k <| kubeConfigPath := path |>.

(** The functions that make a clientset by default, from src/pkg/kubernetes/client. *)
(* go: 93-103 Kubeclient.withDefaults *)
Definition withDefaultGetters {R} : KubeclientBuildOption R := fun k =>
  k <| getClientset ::= fun f => or_default f (lift (Clientset (New []))) |>
    <| getClientsetForPath ::= fun f => or_default f (fun path =>
         lift (Clientset (New [Client.WithKubeConfigPath path]))) |>.

(* go: none *)
Definition KM (R T : Type) : Type := M (KState R) error T.

Section Operations.
Context {R : Type}.

(* go: none *)
Definition get_client : KM R (Kubeclient R) := fun s => (s, Ret (cli s)).

(* go: none *)
Definition put_client (k : Kubeclient R) : KM R unit := fun s =>
  (MkState k (log s) (ext s), Ret tt).

(* go: none *)
Definition result_of {T} (o : outcome error T) : option T :=
  match o with Ret a => Some a | _ => None end.

(** A clientset is asked for; a function that was not set is a nil dereference. *)
(* go: none *)
Definition fetch (path : string) (f : option (M W error KubeClientset)) : KM R KubeClientset := fun s =>
  match f with
  | None => (s, Panic)
  | Some f => let '(w, o) := f (ext s) in (MkState (cli s) (log s ++ [Fetched path (result_of o)]) w, o)
  end.

(** A function of the client is called: it is given the clientset. *)
(* go: none *)
Definition invoke {T} (c : KubeClientset) (operation : string) (ns : option string)
    (target : string) (f : option (M W error T)) : KM R T := fun s =>
  match f with
  | None => (s, Panic)
  | Some f => let '(w, o) := f (ext s) in (MkState (cli s) (log s ++ [Called c operation ns target]) w, o)
  end.

Definition getClientsetForPathOrDirect : KM R KubeClientset :=
  k ← get_client;
  if negb (String.eqb (kubeConfigPath k) "") then
    fetch (kubeConfigPath k) ((fun f => f (kubeConfigPath k)) <$> getClientsetForPath k)
  else fetch "" (getClientset k).

(** [wrap] is what the package does with an error of the functions. *)
Definition getClientsetOrCached (wrap : error -> error) : KM R KubeClientset :=
  k ← get_client;
  match clientset k with
  | Some c => mret c
  | None =>
    cs ← on_err getClientsetForPathOrDirect (fun err => throw (wrap err));
    k ← get_client;
    _ ← put_client (k <| clientset := Some cs |>);
    mret cs
  end.

(** [k.fields = g(k.fields)]. *)
(* go: none *)
Definition modify_fields (g : R -> R) : KM R unit := fun s =>
  (MkState ((cli s) <| fields ::= g |>) (log s) (ext s), Ret tt).

(** [cli, err := k.getClientsetOrCached(); if err != nil { return wrap(err) }]. *)
(* go: none *)
Definition with_client {T} (get : KM R KubeClientset) (wrap : error -> error)
    (body : KubeClientset -> KM R T) : KM R T :=
  c ← on_err get (fun err => throw (wrap err)); body c.

(** [for _, item := range items { obj, err := f(item); if err != nil { return nil, err };
    acc = append(acc, obj) }]. *)
(* go: 269-280 Kubeclient.CreateCollection *)
Fixpoint collect {T U} (f : T -> KM R U) (items : list T) (acc : list U) : KM R (list U) :=
  match items with
  | [] => mret acc
  | item :: items => obj ← f item; collect f items (acc ++ [obj])
  end.

(** The same for a configuration, kept in a field of the package. *)
(* go: none *)
Definition fetch_config (path : string) (f : option (M W error RestConfig)) : KM R RestConfig := fun s =>
  match f with
  | None => (s, Panic)
  | Some f =>
    let '(w, o) := f (ext s) in (MkState (cli s) (log s ++ [FetchedConfig path (is_Ret o)]) w, o)
  end.

(* go: none *)
Definition getKubeConfigForPathOrDirect (direct : R -> option (M W error RestConfig))
    (for_path : R -> option (string -> M W error RestConfig)) : KM R RestConfig :=
  k ← get_client;
  if negb (String.eqb (kubeConfigPath k) "") then
    fetch_config (kubeConfigPath k) ((fun f => f (kubeConfigPath k)) <$> for_path (fields k))
  else fetch_config "" (direct (fields k)).

(** A configuration is made once too; [kc] is the field it is kept in. *)
(* go: none *)
Definition getKubeConfigOrCached (kc : R -> option RestConfig) (set_kc : RestConfig -> R -> R)
    (get : KM R RestConfig) : KM R RestConfig :=
  k ← get_client;
  match kc (fields k) with
  | Some c => mret c
  | None =>
    c ← on_err get (fun err => throw (Wrapf err "failed to get kube config" []));
    _ ← modify_fields (set_kc c);
    mret c
  end.

(** ** The contract

    How the clientset that a client keeps goes with what it asks for: it is asked for until it is
    given, and every call is made with the one that was given. *)
(* go: none *)
Inductive Step (path : string) : option KubeClientset -> Event -> option KubeClientset -> Prop :=
| step_failed : Step path None (Fetched path None) None
| step_made c : Step path None (Fetched path (Some c)) (Some c)
| step_config c ok : Step path (Some c) (FetchedConfig path ok) (Some c)
| step_call c operation ns target : Step path (Some c) (Called c operation ns target) (Some c).

(* go: none *)
Inductive Steps (path : string) : option KubeClientset -> list Event -> option KubeClientset -> Prop :=
| steps_nil c : Steps path c [] c
| steps_cons c e c' l c'' : Step path c e c' -> Steps path c' l c'' -> Steps path c (e :: l) c''.

Lemma Steps_app path c l c' l' c'' :
  Steps path c l c' -> Steps path c' l' c'' -> Steps path c (l ++ l') c''.
Proof. induction 1; cbn; intros H'; [done|]. econstructor; eauto. Qed.

Lemma Steps_one path c e c' : Step path c e c' -> Steps path c [e] c'.
Proof. intros H. econstructor; [exact H|constructor]. Qed.

(* go: none *)
Definition made (e : Event) : bool :=
  match e with Fetched _ (Some _) => true | _ => false end.

(** A clientset that is kept is the one of every call, and it was made once, or given. *)
Lemma Steps_calls path c l c' :
  Steps path c l c' ->
  (forall cs operation ns target, Called cs operation ns target ∈ l -> c' = Some cs) /\
  (forall cs, c = Some cs -> c' = Some cs) /\
  length (filter (fun e => made e = true) l)
  = match c, c' with None, Some _ => 1 | _, _ => 0 end.
Proof.
  induction 1 as [c|c e c' l c'' He Hl (IHc & IHs & IHn)].
  { split_and!; [|done|by destruct c]. intros ???? H. by apply elem_of_nil in H. }
  split_and!.
  - intros cs op ns tg [<-|H]%elem_of_cons; [|by eapply IHc]. inversion He; subst. by apply IHs.
  - intros cs ->. apply IHs. by inversion He.
  - rewrite filter_cons. inversion He; subst; cbn [made]; rewrite ?decide_True by done;
      rewrite ?decide_False by done; cbn [length]; rewrite IHn; [done| |done|done].
    by rewrite (IHs c0 eq_refl).
Qed.

Lemma Steps_paths path c l c' :
  Steps path c l c' ->
  Forall (fun e => match e with
                   | Fetched p _ | FetchedConfig p _ => p = path
                   | Called _ _ _ _ => True
                   end) l.
Proof. induction 1 as [|c e c' l c'' He _ IH]; constructor; [by inversion He|done]. Qed.

(** From a state in which [P] holds, [m] keeps to the contract, and [Q] holds of its result in the
    state that it leaves. *)
(* go: none *)
Definition keeps {T} (P : KState R -> Prop) (m : KM R T) (Q : KState R -> T -> Prop) : Prop :=
  forall s, P s -> exists l, log (m s).1 = log s ++ l /\
    kubeConfigPath (cli (m s).1) = kubeConfigPath (cli s) /\
    Steps (kubeConfigPath (cli s)) (clientset (cli s)) l (clientset (cli (m s).1)) /\
    match (m s).2 with Ret a => Q (m s).1 a | _ => True end.

(* go: none *)
Definition anything (s : KState R) : Prop := True.

(** The client has the clientset [c]. *)
(* go: none *)
Definition has (c : KubeClientset) (s : KState R) : Prop := clientset (cli s) = Some c.

Lemma keeps_same {T} P (m : KM R T) Q :
  (forall s, P s -> (m s).1 = s) ->
  (forall s a, P s -> (m s).2 = Ret a -> Q s a) -> keeps P m Q.
Proof.
  intros Hs Hq s HP. exists []. rewrite (Hs s HP), app_nil_r. split_and!; [done|done|constructor|].
  destruct (m s).2 eqn:E; [|done|done]. by apply Hq.
Qed.

Lemma keeps_ret {T} P (a : T) Q : (forall s, P s -> Q s a) -> keeps P (mret a) Q.
Proof. intros H. apply keeps_same; [done|]. intros s b HP [= <-]. by apply H. Qed.

Lemma keeps_throw {T} P e (Q : KState R -> T -> Prop) : keeps P (throw e) Q.
Proof. by apply keeps_same. Qed.

Lemma keeps_lift {T} P (o : outcome error T) : keeps P (lift o) (fun s _ => P s).
Proof. by apply keeps_same. Qed.

Lemma keeps_get P : keeps P get_client (fun s k => P s /\ k = cli s).
Proof. apply keeps_same; [done|]. intros s a HP [= <-]. done. Qed.

Lemma keeps_weaken {T} (P P' : KState R -> Prop) (m : KM R T) (Q Q' : KState R -> T -> Prop) :
  keeps P m Q -> (forall s, P' s -> P s) -> (forall s a, Q s a -> Q' s a) -> keeps P' m Q'.
Proof.
  intros H HP HQ s Hs. destruct (H s (HP s Hs)) as (l & H1 & H2 & H3 & H4). exists l.
  split_and!; [done|done|done|]. destruct (m s).2; [by apply HQ|done|done].
Qed.

Lemma keeps_bind {T U} P (m : KM R T) (f : T -> KM R U) Q Q' :
  keeps P m Q' -> (forall a, keeps (fun s => Q' s a) (f a) Q) -> keeps P (m ≫= f) Q.
Proof.
  intros Hm Hf s HP. destruct (Hm s HP) as (l & Hl & Hp & Hs & Hq).
  unfold mbind, M_bind. destruct (m s) as [s' [a|e|]]; cbn [fst snd] in *.
  - destruct (Hf a s' Hq) as (l' & Hl' & Hp' & Hs' & Hq'). exists (l ++ l').
    rewrite Hl', Hl, Hp', <- app_assoc. rewrite Hp in Hs'. split_and!; [done|done| |done].
    by eapply Steps_app.
  - exists l. done.
  - exists l. done.
Qed.

Lemma keeps_on_err {T} P (m : KM R T) wrap Q :
  keeps P m Q -> keeps P (on_err m (fun err => throw (wrap err))) Q.
Proof.
  intros Hm s HP. destruct (Hm s HP) as (l & Hl & Hp & Hs & Hq). exists l. unfold on_err, throw.
  destruct (m s) as [s' [a|e|]]; done.
Qed.

Lemma keeps_getClientsetOrCached wrap :
  keeps anything (getClientsetOrCached wrap) (fun s c => has c s).
Proof.
  intros [k lg w] _. unfold getClientsetOrCached, getClientsetForPathOrDirect, get_client, put_client,
    fetch, on_err, throw, has, mbind, M_bind, mret, M_ret. cbn [cli].
  destruct (clientset k) as [c|] eqn:Ec; cbn [fst snd cli log].
  { exists []. rewrite app_nil_r, Ec. split_and!; [done|done|constructor|done]. }
  set (path := kubeConfigPath k).
  set (f := if negb (path =? "")%string then (fun f => f path) <$> getClientsetForPath k else getClientset k).
  replace ((if negb (path =? "")%string then _ else _) (MkState k lg w))
    with (fetch path f (MkState k lg w)).
  2:{ subst f. unfold fetch. destruct (String.eqb_spec path "") as [->|]; done. }
  unfold fetch. destruct f as [f|]; cbn [fst snd cli log ext].
  - destruct (f w) as [w' [c|e|]]; cbn; eexists; rewrite ?Ec;
      (split_and!; [reflexivity|done| |done]); apply Steps_one; constructor.
  - exists []. rewrite app_nil_r, Ec. split_and!; [done|done|constructor|done].
Qed.

Lemma keeps_invoke {T} c op ns target (f : option (M W error T)) :
  keeps (has c) (invoke c op ns target f) (fun s _ => has c s).
Proof.
  intros s Hc. unfold invoke, has in *. destruct f as [f|].
  - destruct (f (ext s)) as [w o]. exists [Called c op ns target]. cbn. rewrite Hc.
    split_and!; [done|done|apply Steps_one; constructor|by destruct o].
  - exists []. cbn. rewrite app_nil_r, Hc. split_and!; [done|done|constructor|done].
Qed.

Lemma keeps_config direct for_path c :
  keeps (has c) (getKubeConfigForPathOrDirect direct for_path) (fun s _ => has c s).
Proof.
  intros [k lg w] Hc. unfold has in *. cbn [cli] in Hc.
  unfold getKubeConfigForPathOrDirect, get_client, mbind, M_bind. cbn [cli].
  set (path := kubeConfigPath k).
  set (f := if negb (path =? "")%string then (fun f => f path) <$> for_path (fields k)
            else direct (fields k)).
  replace ((if negb (path =? "")%string then _ else _) (MkState k lg w))
    with (fetch_config path f (MkState k lg w)).
  2:{ subst f. unfold fetch_config. destruct (String.eqb_spec path "") as [->|]; done. }
  unfold fetch_config. destruct f as [f|]; cbn [fst snd cli log ext].
  - destruct (f w) as [w' o]. cbn. eexists. rewrite ?Hc.
    split_and!; [reflexivity|done|apply Steps_one; constructor|by destruct o].
  - exists []. rewrite app_nil_r, Hc. split_and!; [done|done|constructor|done].
Qed.

Lemma keeps_fields c g : keeps (has c) (modify_fields g) (fun s _ => has c s).
Proof.
  intros s Hc. exists []. unfold has in *. cbn. rewrite app_nil_r, Hc.
  split_and!; [done|done|constructor|done].
Qed.

Lemma keeps_with_client {T} get wrap (body : KubeClientset -> KM R T) (Q : KState R -> T -> Prop) :
  keeps anything get (fun s c => has c s) -> (forall c, keeps (has c) (body c) Q) ->
  keeps anything (with_client get wrap body) Q.
Proof. intros Hg Hb. eapply keeps_bind; [by apply keeps_on_err|done]. Qed.

(** The shape of an operation that asks for one thing. *)
Lemma keeps_api {T} c op (ns : Kubeclient R -> option string) target
    (f : Kubeclient R -> option (M W error T)) :
  keeps (has c) (k ← get_client; invoke c op (ns k) target (f k)) (fun _ _ => True).
Proof.
  eapply keeps_bind; [apply keeps_get|]. intros k.
  by eapply keeps_weaken; [apply keeps_invoke|intros s [H _]; exact H|].
Qed.

Lemma keeps_modify P g : keeps P (modify_fields g) (fun _ _ => True).
Proof.
  intros s _. exists []. cbn. rewrite app_nil_r. split_and!; [done|done|constructor|done].
Qed.

Lemma keeps_config_cached kc set_kc get c :
  keeps (has c) get (fun s _ => has c s) ->
  keeps (has c) (getKubeConfigOrCached kc set_kc get) (fun s _ => has c s).
Proof.
  intros Hget. eapply keeps_bind; [apply keeps_get|]. intros k. destruct (kc (fields k)).
  - apply keeps_ret. by intros s [H _].
  - eapply keeps_bind.
    { eapply keeps_weaken; [by apply keeps_on_err|by intros s [H _]|done]. }
    intros cfg. eapply keeps_bind; [apply keeps_fields|]. intros ?. by apply keeps_ret.
Qed.

Lemma keeps_marshal {T U} P (m : KM R T) (f : T -> outcome error U) :
  keeps P m (fun _ _ => True) -> keeps P (a ← m; lift (f a)) (fun _ _ => True).
Proof.
  intros H. eapply keeps_bind; [exact H|]. intros a.
  eapply (keeps_weaken (fun _ => True)); [apply keeps_lift|done|done].
Qed.

Lemma keeps_discard {T} P (m : KM R T) Q :
  keeps P m Q -> keeps P (_ ← m; mret tt) (fun _ _ => True).
Proof. intros H. eapply keeps_bind; [exact H|]. intros a. by apply keeps_ret. Qed.

Lemma keeps_collect {T U} (f : T -> KM R U) items acc :
  (forall a, keeps anything (f a) (fun _ _ => True)) ->
  keeps anything (collect f items acc) (fun _ _ => True).
Proof.
  intros Hf. revert acc. induction items as [|a items IH]; intros acc; cbn [collect];
    [by apply keeps_ret|].
  eapply keeps_bind; [apply Hf|]. intros obj. by eapply keeps_weaken; [apply IH|..].
Qed.

Lemma mapM_cons_run {T U S} (g : T -> M S error U) a items w :
  mapM g (a :: items) w
  = match g a w with
    | (w1, Ret b) =>
      let '(w2, o) := mapM g items w1 in (w2, objs ← o; Ret (b :: objs))
    | (w1, Fail e) => (w1, Fail e)
    | (w1, Panic) => (w1, Panic)
    end.
Proof.
  cbn [mapM]. unfold mbind at 1, M_bind at 1. destruct (g a w) as [w1 [b|e|]]; [|done|done].
  unfold mbind, M_bind. by destruct (mapM g items w1) as [w2 [objs|e|]].
Qed.

(** A loop of requests: they are made one after the other, with what [mapM] gives for the world
    and the result, up to the first that fails. *)
Lemma collect_spec {T U} (f : T -> KM R U) (g : T -> M W error U) (ev : T -> Event) k items acc lg w :
  (forall a lg w, f a (MkState k lg w) = let '(w', o) := g a w in (MkState k (lg ++ [ev a]) w', o)) ->
  exists n, collect f items acc (MkState k lg w)
    = (let '(w', o) := mapM g items w in
       (MkState k (lg ++ map ev (take n items)) w', objs ← o; Ret (acc ++ objs))) /\
  match (mapM g items w).2 with
  | Ret _ => n = length items
  | _ => exists i item w1 objs, n = S i /\ items !! i = Some item /\
      mapM g (take i items) w = (w1, Ret objs) /\ is_Ret (g item w1).2 = false
  end.
Proof.
  intros Hf. revert acc lg w. induction items as [|a items IH]; intros acc lg w.
  { exists 0. cbn. by rewrite !app_nil_r. }
  cbn [collect]. unfold mbind at 1, M_bind at 1. rewrite Hf, mapM_cons_run.
  destruct (g a w) as [w1 [b|e|]] eqn:Eg.
  - destruct (IH (acc ++ [b]) (lg ++ [ev a]) w1) as (n & Heq & Hn). exists (S n). rewrite Heq.
    assert (forall i w3 objs, mapM g (take i items) w1 = (w3, Ret objs) ->
      mapM g (take (S i) (a :: items)) w = (w3, Ret (b :: objs))) as Hpre.
    { intros i w3 objs H. cbn [take firstn]. rewrite mapM_cons_run, Eg. by rewrite H. }
    destruct (mapM g items w1) as [w2 [objs|e|]]; cbn in *; rewrite <- !app_assoc; cbn;
      (split; [done|]); [lia|..];
      destruct Hn as (i & item & w3 & objs & -> & Hi & Ht & Hg);
      exists (S i), item, w3, (b :: objs);
      (split_and!; [done|done|by apply (Hpre i w3 objs)|done]).
  - exists 1. cbn. split; [done|]. exists 0, a, w, []. by rewrite Eg.
  - exists 1. cbn. split; [done|]. exists 0, a, w, []. by rewrite Eg.
Qed.

End Operations.

(** ** Packages

    A package gives its operations, which of them it refuses to ask for, and what is done by each;
    it owes that every operation keeps to the contract and that what is refused is not asked for. *)
(* go: none *)
Class Package := {
  rest : Type;
  operation : Type;
  refused : operation -> bool;
  exec : operation -> KM rest unit;
  exec_keeps : forall o, keeps anything (exec o) (fun _ _ => True);
  exec_refused : forall o s, refused o = true -> exists e, exec o s = (s, Fail e) }.

(** Operations in sequence, each after the one before has returned, with or without an error. *)
(* go: none *)
Fixpoint run_all {P : Package} (ops : list operation) (s : KState rest) : KState rest :=
  match ops with
  | [] => s
  | o :: ops => run_all ops (exec o s).1
  end.

Lemma run_all_keeps {P : Package} ops s :
  exists l, log (run_all ops s) = log s ++ l /\
    kubeConfigPath (cli (run_all ops s)) = kubeConfigPath (cli s) /\
    Steps (kubeConfigPath (cli s)) (clientset (cli s)) l (clientset (cli (run_all ops s))).
Proof.
  revert s. induction ops as [|o ops IH]; intros s; cbn [run_all].
  { exists []. rewrite app_nil_r. split_and!; [done|done|constructor]. }
  destruct (exec_keeps o s I) as (l & Hl & Hp & Hs & _).
  destruct (IH (exec o s).1) as (l' & Hl' & Hp' & Hs'). exists (l ++ l').
  rewrite Hl', Hl, Hp', <- app_assoc. rewrite Hp in Hs'. split_and!; [done|done|].
  by eapply Steps_app.
Qed.

(** What is refused might as well not have been asked for. *)
Lemma run_all_refused {P : Package} ops s :
  run_all ops s = run_all (filter (fun o => refused o = false) ops) s.
Proof.
  revert s. induction ops as [|o ops IH]; intros s; [done|]. cbn [run_all].
  rewrite filter_cons. destruct (refused o) eqn:Ho; cbn [run_all].
  - rewrite decide_False by done. destruct (exec_refused o s Ho) as [e ->]. apply IH.
  - rewrite decide_True by done. cbn [run_all]. apply IH.
Qed.

End CachedClient.

Arguments clientset {G W R} k.
Arguments kubeConfigPath {G W R} k.
Arguments getClientset {G W R} k.
Arguments getClientsetForPath {G W R} k.
Arguments fields {G W R} k.
Arguments MkState {G W R} cli log ext.
Arguments cli {G W R} k.
Arguments log {G W R} k.
Arguments ext {G W R} k.
Arguments Package {G} W.
Arguments anything {G W R} s /.

(** The operations of a package: what is refused, and else one request. *)
Ltac keeps_op :=
  repeat first
    [ apply keeps_throw
    | apply keeps_modify
    | eapply keeps_with_client; [apply keeps_getClientsetOrCached | intros ?; apply keeps_api]
    | eapply keeps_discard
    | case_match ].
