(* ===== verification/PodClient.v ===== *)
(** * The client of pods

    src/pkg/kubernetes/api/core/v1/pod/kubernetes.go.  It also keeps a configuration, for the
    commands that it runs in pods. *)

From S2P Require Import Prelude GoStrings KubeApi Client CachedClient.
Open Scope string_scope. Open Scope list_scope.

(* Source: src/pkg/kubernetes/api/core/v1/pod/kubernetes.go *)

Record ExecOutput := { Stdout : string; Stderr : string }.

(** [cli.CoreV1().Pods(namespace)] and [json.Marshal]; [exec_URL] is the request that [defaultExec]
    makes for a pod, by name and namespace, [NewSPDYExecutor] and [Stream] are those of the package
    remotecommand, and [Stream] gives what was written to the two buffers. *)
Class PodsApi {A : ApiTypes} {G : ClientGo} {O : CallOptions} (W : Type) := {
  PodExecOptions : Type;
  pods_create : KubeClientset -> string -> Pod -> M W error Pod;
  pods_list : KubeClientset -> string -> ListOptions -> M W error (list Pod);
  pods_delete : KubeClientset -> string -> string -> DeleteOptions -> M W error unit;
  pods_delete_collection : KubeClientset -> string -> ListOptions -> DeleteOptions -> M W error unit;
  pods_get : KubeClientset -> string -> string -> GetOptions -> M W error Pod;
  exec_TTY : PodExecOptions -> bool;
  exec_URL : KubeClientset -> string -> string -> PodExecOptions -> string;
  Executor : Type;
  NewSPDYExecutor : RestConfig -> string -> string -> outcome error Executor;
  Stream : Executor -> bool -> M W error (string * string);
  marshal_pod : Pod -> outcome error string;
  marshal_output : ExecOutput -> outcome error string }.

Section PodClient.
Context {A : ApiTypes} {G : ClientGo} {O : CallOptions} {W : Type} {X : PodsApi W}.

Definition getKubeConfigFn : Type := M W error RestConfig.
Definition getKubeConfigForPathFn : Type := string -> M W error RestConfig.
Definition createFn : Type := KubeClientset -> string -> Pod -> M W error Pod.
Definition listFn : Type := KubeClientset -> string -> ListOptions -> M W error (list Pod).
Definition deleteFn : Type :=
  KubeClientset -> string -> string -> option DeleteOptions -> M W error unit.
Definition deleteCollectionFn : Type :=
  KubeClientset -> string -> ListOptions -> option DeleteOptions -> M W error unit.
Definition getFn : Type := KubeClientset -> string -> string -> GetOptions -> M W error Pod.
Definition execFn : Type :=
  KubeClientset -> RestConfig -> string -> string -> PodExecOptions -> M W error ExecOutput.

Definition defaultExec : execFn := fun cli config name namespace opts =>
  let url := exec_URL cli name namespace opts in
  exec ← lift (NewSPDYExecutor config "POST" url);
  '(stdout, stderr) ← Stream exec (exec_TTY opts);
  mret {| Stdout := stdout; Stderr := stderr |}.

(** The fields beside those of every client. *)
(* go: type KubeClient struct *)
Record fields_ := {
  namespace : string;
  kubeConfig : option RestConfig;
  getKubeConfig : option getKubeConfigFn;
  getKubeConfigForPath : option getKubeConfigForPathFn;
  create : option createFn;
  list_ : option listFn;
  del : option deleteFn;
  delCollection : option deleteCollectionFn;
  get : option getFn;
  exec_ : option execFn }.
#[global] Instance Eta_fields : Eta fields_ := fun r =>
  {| namespace := namespace r; kubeConfig := kubeConfig r; getKubeConfig := getKubeConfig r;
     getKubeConfigForPath := getKubeConfigForPath r; create := create r; list_ := list_ r;
     del := del r; delCollection := delCollection r; get := get r; exec_ := exec_ r |}.

Definition KubeClient := CachedClient.Kubeclient (W := W) fields_.
Definition KM := CachedClient.KM (W := W) fields_.

Definition withDefaults (k : KubeClient) : KubeClient :=
  withDefaultGetters k <| fields ::= fun f => f
    <| getKubeConfig ::= fun g => or_default g (lift (Config (New []))) |>
    <| getKubeConfigForPath ::= fun g => or_default g (fun path =>
         lift (GetConfigForPathOrDirect (New [Client.WithKubeConfigPath path]))) |>
    <| create ::= fun g => or_default g (fun c ns pod => pods_create c ns pod) |>
    <| list_ ::= fun g => or_default g (fun c ns opts => pods_list c ns opts) |>
    <| del ::= fun g => or_default g (fun c ns name opts =>
         o ← lift (deref opts); pods_delete c ns name o) |>
    <| get ::= fun g => or_default g (fun c ns name opts => pods_get c ns name opts) |>
    <| delCollection ::= fun g => or_default g (fun c ns listOpts deleteOpts =>
         o ← lift (deref deleteOpts); pods_delete_collection c ns listOpts o) |>
    <| exec_ ::= fun g => or_default g defaultExec |> |>.

(* go: none *)
Definition KubeClient_zero : KubeClient := {|
  clientset := None; kubeConfigPath := ""; getClientset := None; getClientsetForPath := None;
  fields := {| namespace := ""; kubeConfig := None; getKubeConfig := None;
               getKubeConfigForPath := None; create := None; list_ := None; del := None;
               delCollection := None; get := None; exec_ := None |} |}.

Definition WithClientSet (c : option KubeClientset) : KubeclientBuildOption (W := W) fields_ :=
  CachedClient.WithClientSet c.

Definition WithKubeConfigPath (path : string) : KubeclientBuildOption (W := W) fields_ :=
  CachedClient.WithKubeConfigPath path.

Definition NewKubeClient (opts : list (KubeclientBuildOption fields_)) : KubeClient :=
  withDefaults (foldl (fun k o => o k) KubeClient_zero opts).

Definition WithNamespace (ns : string) : KM unit := modify_fields (fun f => f <| namespace := ns |>).

Definition WithKubeConfig (config : option RestConfig) : KM unit :=
  modify_fields (fun f => f <| kubeConfig := config |>).

Definition getClientsetForPathOrDirect : KM KubeClientset :=
  CachedClient.getClientsetForPathOrDirect.

Definition getClientsetOrCached : KM KubeClientset :=
  CachedClient.getClientsetOrCached (fun err => Wrapf err "failed to get clientset" []).

Definition getKubeConfigForPathOrDirect : KM RestConfig :=
  CachedClient.getKubeConfigForPathOrDirect getKubeConfig getKubeConfigForPath.

Definition getKubeConfigOrCached : KM RestConfig :=
  CachedClient.getKubeConfigOrCached kubeConfig (fun c f => f <| kubeConfig := Some c |>)
    getKubeConfigForPathOrDirect.

Definition List (opts : ListOptions) : KM (list Pod) :=
  with_client getClientsetOrCached (fun err => Wrapf err "failed to list pods" []) (fun cli =>
  k ← get_client; let k := fields k in
  invoke cli "list" (Some (namespace k)) "" ((fun f => f cli (namespace k) opts) <$> list_ k)).

(** A name of blanks is passed on. *)
Definition Delete (name : string) (opts : option DeleteOptions) : KM unit :=
  if (len name =? 0)%nat then throw (ErrNew "failed to delete pod: missing pod name") else
  with_client getClientsetOrCached
    (fun err => Wrapf err "failed to delete pod {%s}: failed to get clientset" [AStr name]) (fun cli =>
  k ← get_client; let k := fields k in
  invoke cli "delete" (Some (namespace k)) name ((fun f => f cli (namespace k) name opts) <$> del k)).

Definition Create (pod : option Pod) : KM Pod :=
  match pod with
  | None => throw (ErrNew "failed to create pod: nil pod object")
  | Some pod =>
    with_client getClientsetOrCached
      (fun err => Wrapf err "failed to create pod {%s} in namespace {%s}"
        [AStr (Name (pod_Meta pod)); AStr (Namespace (pod_Meta pod))]) (fun cli =>
    k ← get_client; let k := fields k in
    invoke cli "create" (Some (namespace k)) (Name (pod_Meta pod))
      ((fun f => f cli (namespace k) pod) <$> create k))
  end.

Definition Get (name : string) (opts : GetOptions) : KM Pod :=
  if (len name =? 0)%nat then throw (ErrNew "failed to get pod: missing pod name") else
  with_client getClientsetOrCached
    (fun err => Wrapf err "failed to get pod {%s}: failed to get clientset" [AStr name]) (fun cli =>
  k ← get_client; let k := fields k in
  invoke cli "get" (Some (namespace k)) name ((fun f => f cli (namespace k) name opts) <$> get k)).

Definition GetRaw (name : string) (opts : GetOptions) : KM string :=
  p ← Get name opts; lift (marshal_pod p).

Definition Exec (name : string) (opts : PodExecOptions) : KM ExecOutput :=
  with_client getClientsetOrCached (fun err => err) (fun cli =>
  config ← getKubeConfigOrCached;
  k ← get_client; let k := fields k in
  invoke cli "exec" (Some (namespace k)) name
    ((fun f => f cli config name (namespace k) opts) <$> exec_ k)).

Definition ExecRaw (name : string) (opts : PodExecOptions) : KM string :=
  execOutput ← Exec name opts; lift (marshal_output execOutput).

Definition DeleteCollection (listOpts : ListOptions) (deleteOpts : option DeleteOptions) : KM unit :=
  with_client getClientsetOrCached
    (fun err => Wrapf err "failed to delete the collection of pods" []) (fun cli =>
  k ← get_client; let k := fields k in
  invoke cli "deletecollection" (Some (namespace k)) ""
    ((fun f => f cli (namespace k) listOpts deleteOpts) <$> delCollection k)).

(** ** The package *)

Inductive Op :=
| OpWithNamespace (ns : string)
| OpWithKubeConfig (config : option RestConfig)
| OpList (opts : ListOptions)
| OpDelete (name : string) (opts : option DeleteOptions)
| OpCreate (pod : option Pod)
| OpGet (name : string) (opts : GetOptions)
| OpGetRaw (name : string) (opts : GetOptions)
| OpExec (name : string) (opts : PodExecOptions)
| OpExecRaw (name : string) (opts : PodExecOptions)
| OpDeleteCollection (listOpts : ListOptions) (deleteOpts : option DeleteOptions).

Definition exec (o : Op) : KM unit :=
  match o with
  | OpWithNamespace ns => WithNamespace ns
  | OpWithKubeConfig config => WithKubeConfig config
  | OpList opts => _ ← List opts; mret tt
  | OpDelete name opts => Delete name opts
  | OpCreate pod => _ ← Create pod; mret tt
  | OpGet name opts => _ ← Get name opts; mret tt
  | OpGetRaw name opts => _ ← GetRaw name opts; mret tt
  | OpExec name opts => _ ← Exec name opts; mret tt
  | OpExecRaw name opts => _ ← ExecRaw name opts; mret tt
  | OpDeleteCollection listOpts deleteOpts => DeleteCollection listOpts deleteOpts
  end.

(** An empty name, a nil object. *)
Definition refused (o : Op) : bool :=
  match o with
  | OpDelete name _ | OpGet name _ | OpGetRaw name _ => (len name =? 0)%nat
  | OpCreate None => true
  | _ => false
  end.

Lemma pod_Get_keeps name opts : keeps anything (Get name opts) (fun _ _ => True).
Proof. unfold Get. keeps_op. Qed.

Lemma Exec_keeps name opts : keeps anything (Exec name opts) (fun _ _ => True).
Proof.
  eapply keeps_with_client; [apply keeps_getClientsetOrCached|]. intros c.
  eapply keeps_bind; [apply keeps_config_cached, keeps_config|]. intros config. apply keeps_api.
Qed.

Lemma pods_keep o : keeps anything (exec o) (fun _ _ => True).
Proof.
  destruct o; cbn;
    unfold GetRaw, ExecRaw, List, Delete, Create, DeleteCollection, WithNamespace, WithKubeConfig;
    try keeps_op.
  - apply pod_Get_keeps.
  - eapply keeps_marshal, pod_Get_keeps.
  - apply Exec_keeps.
  - eapply keeps_marshal, Exec_keeps.
Qed.

Lemma pods_refused o s : refused o = true -> exists e, exec o s = (s, Fail e).
Proof.
  destruct o as [| | | name | [|] | name | name | | |]; cbn; try done; try (by eexists);
    unfold Get, Delete, GetRaw, Get; intros H; rewrite H; by eexists.
Qed.

Definition package : Package W :=
  {| CachedClient.exec := exec; CachedClient.refused := refused;
     exec_keeps := pods_keep; exec_refused := pods_refused |}.

End PodClient.
