(* ===== verification/EventClient.v ===== *)
(** * The client of events

    src/pkg/kubernetes/api/core/v1/event/kubernetes.go. *)

From S2P Require Import Prelude GoStrings KubeApi Client CachedClient.
From S2P Require Event.
Open Scope string_scope. Open Scope list_scope.

(* Source: src/pkg/kubernetes/api/core/v1/event/kubernetes.go *)

(** [cli.CoreV1().Events(namespace)]. *)
Class EventsApi {A : ApiTypes} {G : ClientGo} {O : CallOptions} (W : Type) := {
  events_list : KubeClientset -> string -> ListOptions -> M W error (list Event.CoreEvent) }.

Section EventClient.
Context {A : ApiTypes} {G : ClientGo} {O : CallOptions} {W : Type} {X : EventsApi W}.

Definition getKubeConfigFn : Type := M W error RestConfig.
Definition getKubeConfigForPathFn : Type := string -> M W error RestConfig.
Definition listFn : Type := KubeClientset -> string -> ListOptions -> M W error (list Event.CoreEvent).

(** The fields beside those of every client. *)
(* go: type KubeClient struct *)
Record fields_ := {
  namespace : string;
  kubeConfig : option RestConfig;
  getKubeConfig : option getKubeConfigFn;
  getKubeConfigForPath : option getKubeConfigForPathFn;
  list_ : option listFn }.
#[global] Instance Eta_fields : Eta fields_ := fun r =>
  {| namespace := namespace r; kubeConfig := kubeConfig r; getKubeConfig := getKubeConfig r;
     getKubeConfigForPath := getKubeConfigForPath r; list_ := list_ r |}.

Definition KubeClient := CachedClient.Kubeclient (W := W) fields_.
Definition KM := CachedClient.KM (W := W) fields_.

Definition withDefaults (k : KubeClient) : KubeClient :=
  withDefaultGetters k <| fields ::= fun f => f
    <| getKubeConfig ::= fun g => or_default g (lift (Config (New []))) |>
    <| getKubeConfigForPath ::= fun g => or_default g (fun path =>
         lift (GetConfigForPathOrDirect (New [Client.WithKubeConfigPath path]))) |>
    <| list_ ::= fun g => or_default g (fun c ns opts => events_list c ns opts) |> |>.

(* go: none *)
Definition KubeClient_zero : KubeClient := {|
  clientset := None; kubeConfigPath := ""; getClientset := None; getClientsetForPath := None;
  fields := {| namespace := ""; kubeConfig := None; getKubeConfig := None;
               getKubeConfigForPath := None; list_ := None |} |}.

Definition WithClientSet (c : option KubeClientset) : KubeclientBuildOption (W := W) fields_ :=
  CachedClient.WithClientSet c.

Definition WithKubeConfigPath (path : string) : KubeclientBuildOption (W := W) fields_ :=
  CachedClient.WithKubeConfigPath path.

Definition NewKubeClient (opts : list (KubeclientBuildOption fields_)) : KubeClient :=
  withDefaults (foldl (fun k o => o k) KubeClient_zero opts).

Definition WithNamespace (ns : string) : KM unit := modify_fields (fun f => f <| namespace := ns |>).

Definition WithKubeConfig (config : option RestConfig) : KM unit :=
  modify_fields (fun f => f <| kubeConfig := config |>).

Definition getClientsetForPathOrDirect : KM KubeClientset :=
  CachedClient.getClientsetForPathOrDirect.

Definition getClientsetOrCached : KM KubeClientset :=
  CachedClient.getClientsetOrCached (fun err => Wrapf err "failed to get clientset" []).

Definition getKubeConfigForPathOrDirect : KM RestConfig :=
  CachedClient.getKubeConfigForPathOrDirect getKubeConfig getKubeConfigForPath.

Definition getKubeConfigOrCached : KM RestConfig :=
  CachedClient.getKubeConfigOrCached kubeConfig (fun c f => f <| kubeConfig := Some c |>)
    getKubeConfigForPathOrDirect.

Definition List (opts : ListOptions) : KM (list Event.CoreEvent) :=
  with_client getClientsetOrCached (fun err => Wrapf err "failed to list Events" []) (fun cli =>
  k ← get_client; let k := fields k in
  invoke cli "list" (Some (namespace k)) "" ((fun f => f cli (namespace k) opts) <$> list_ k)).

(** ** The package *)

Inductive Op :=
| OpWithNamespace (ns : string)
| OpWithKubeConfig (config : option RestConfig)
| OpList (opts : ListOptions).

Definition exec (o : Op) : KM unit :=
  match o with
  | OpWithNamespace ns => WithNamespace ns
  | OpWithKubeConfig config => WithKubeConfig config
  | OpList opts => _ ← List opts; mret tt
  end.

Lemma events_keep o : keeps anything (exec o) (fun _ _ => True).
Proof. destruct o; cbn; unfold List, WithNamespace, WithKubeConfig; keeps_op. Qed.

(** Nothing is refused. *)
Definition package : Package W.
Proof.
  refine {| CachedClient.exec := exec; CachedClient.refused := fun _ => false;
            exec_keeps := events_keep |}.
  done.
Defined.

End EventClient.
