(* ===== verification/PvcClient.v ===== *)
(** * The client of claims

    src/pkg/kubernetes/api/core/v1/persistentvolumeclaim/kubernetes.go. *)

From S2P Require Import Prelude GoStrings KubeApi Client CachedClient.
Open Scope string_scope. Open Scope list_scope.

(* Source: src/pkg/kubernetes/api/core/v1/persistentvolumeclaim/kubernetes.go *)

(** [cli.CoreV1().PersistentVolumeClaims(namespace)]. *)
Class ClaimsApi {A : ApiTypes} {G : ClientGo} {O : CallOptions} (W : Type) := {
  claims_get : KubeClientset -> string -> string -> GetOptions -> M W error PersistentVolumeClaim;
  claims_list : KubeClientset -> string -> ListOptions -> M W error (list PersistentVolumeClaim);
  claims_delete : KubeClientset -> string -> string -> DeleteOptions -> M W error unit;
  claims_delete_collection : KubeClientset -> string -> ListOptions -> DeleteOptions -> M W error unit;
  claims_create : KubeClientset -> string -> PersistentVolumeClaim -> M W error PersistentVolumeClaim;
  claims_update : KubeClientset -> string -> PersistentVolumeClaim -> M W error PersistentVolumeClaim }.

Section PvcClient.
Context {A : ApiTypes} {G : ClientGo} {O : CallOptions} {W : Type} {X : ClaimsApi W}.

Definition getFn : Type :=
  KubeClientset -> string -> string -> GetOptions -> M W error PersistentVolumeClaim.
Definition listFn : Type :=
  KubeClientset -> string -> ListOptions -> M W error (list PersistentVolumeClaim).
Definition deleteFn : Type :=
  KubeClientset -> string -> string -> option DeleteOptions -> M W error unit.
Definition deleteCollectionFn : Type :=
  KubeClientset -> string -> ListOptions -> option DeleteOptions -> M W error unit.
Definition createFn : Type :=
  KubeClientset -> string -> PersistentVolumeClaim -> M W error PersistentVolumeClaim.
Definition updateFn : Type :=
  KubeClientset -> string -> PersistentVolumeClaim -> M W error PersistentVolumeClaim.

(** The fields beside those of every client. *)
(* go: type Kubeclient struct *)
Record fields_ := {
  namespace : string;
  list_ : option listFn;
  get : option getFn;
  create : option createFn;
  update : option updateFn;
  del : option deleteFn;
  delCollection : option deleteCollectionFn }.
#[global] Instance Eta_fields : Eta fields_ := fun r =>
  {| namespace := namespace r; list_ := list_ r; get := get r; create := create r;
     update := update r; del := del r; delCollection := delCollection r |}.

Definition Kubeclient := CachedClient.Kubeclient (W := W) fields_.
Definition KM := CachedClient.KM (W := W) fields_.

(** The options of a deletion are a pointer, which the default functions dereference. *)
Definition withDefaults (k : Kubeclient) : Kubeclient :=
  withDefaultGetters k <| fields ::= fun f => f
    <| get ::= fun g => or_default g (fun c name ns opts => claims_get c ns name opts) |>
    <| list_ ::= fun g => or_default g (fun c ns opts => claims_list c ns opts) |>
    <| del ::= fun g => or_default g (fun c ns name deleteOpts =>
         o ← lift (deref deleteOpts); claims_delete c ns name o) |>
    <| delCollection ::= fun g => or_default g (fun c ns listOpts deleteOpts =>
         o ← lift (deref deleteOpts); claims_delete_collection c ns listOpts o) |>
    <| create ::= fun g => or_default g (fun c ns pvc => claims_create c ns pvc) |>
    <| update ::= fun g => or_default g (fun c ns pvc => claims_update c ns pvc) |> |>.

(* go: none *)
Definition Kubeclient_zero : Kubeclient := {|
  clientset := None; kubeConfigPath := ""; getClientset := None; getClientsetForPath := None;
  fields := {| namespace := ""; list_ := None; get := None; create := None; update := None;
               del := None; delCollection := None |} |}.

Definition NewKubeClient (opts : list (KubeclientBuildOption fields_)) : Kubeclient :=
  withDefaults (foldl (fun k o => o k) Kubeclient_zero opts).

Definition WithNamespace (ns : string) : KM unit := modify_fields (fun f => f <| namespace := ns |>).

Definition getClientsetOrCached : KM KubeClientset :=
  CachedClient.getClientsetOrCached (fun err => Wrapf err "failed to get clientset" []).

Definition Get (name : string) (opts : GetOptions) : KM PersistentVolumeClaim :=
  if String.eqb (TrimSpace name) "" then throw (ErrNew "failed to get pvc: missing pvc name") else
  with_client getClientsetOrCached
    (fun err => Wrapf err "failed to get pvc {%s}" [AStr name]) (fun cli =>
  k ← get_client; let k := fields k in
  invoke cli "get" (Some (namespace k)) name
    ((fun f => f cli name (namespace k) opts) <$> get k)).

Definition List (opts : ListOptions) : KM (list PersistentVolumeClaim) :=
  with_client getClientsetOrCached
    (fun err => Wrapf err "failed to list pvc listoptions: '%v'" [AOther]) (fun cli =>
  k ← get_client; let k := fields k in
  invoke cli "list" (Some (namespace k)) ""
    ((fun f => f cli (namespace k) opts) <$> list_ k)).

Definition Delete (name : string) (deleteOpts : option DeleteOptions) : KM unit :=
  if String.eqb (TrimSpace name) "" then throw (ErrNew "failed to delete pvc: missing pvc name") else
  with_client getClientsetOrCached
    (fun err => Wrapf err "failed to delete pvc {%s}" [AStr name]) (fun cli =>
  k ← get_client; let k := fields k in
  invoke cli "delete" (Some (namespace k)) name
    ((fun f => f cli (namespace k) name deleteOpts) <$> del k)).

Definition Create (pvc : option PersistentVolumeClaim) : KM PersistentVolumeClaim :=
  match pvc with
  | None => throw (ErrNew "failed to create pvc: nil pvc object")
  | Some pvc =>
    with_client getClientsetOrCached
      (fun err => Wrapf err "failed to create pvc {%s} in namespace {%s}"
        [AStr (Name (pvc_Meta pvc)); AStr (Namespace (pvc_Meta pvc))]) (fun cli =>
    k ← get_client; let k := fields k in
    invoke cli "create" (Some (namespace k)) (Name (pvc_Meta pvc))
      ((fun f => f cli (namespace k) pvc) <$> create k))
  end.

Definition Update (pvc : option PersistentVolumeClaim) : KM PersistentVolumeClaim :=
  match pvc with
  | None => throw (ErrNew "failed to update pvc: nil pvc object")
  | Some pvc =>
    with_client getClientsetOrCached
      (fun err => Wrapf err "failed to update pvc {%s} in namespace {%s}"
        [AStr (Name (pvc_Meta pvc)); AStr (Namespace (pvc_Meta pvc))]) (fun cli =>
    k ← get_client; let k := fields k in
    invoke cli "update" (Some (namespace k)) (Name (pvc_Meta pvc))
      ((fun f => f cli (namespace k) pvc) <$> update k))
  end.

(** The claims that were created stay when one fails. *)
Definition CreateCollection (l : option (list PersistentVolumeClaim)) :
    KM (list PersistentVolumeClaim) :=
  match l with
  | None | Some [] => throw (ErrNew "failed to create list of pvcs: nil pvc list provided")
  | Some items => collect (fun item => Create (Some item)) items []
  end.

Definition DeleteCollection (listOpts : ListOptions) (deleteOpts : option DeleteOptions) : KM unit :=
  with_client getClientsetOrCached
    (fun err => Wrapf err "failed to delete the collection of pvcs" []) (fun cli =>
  k ← get_client; let k := fields k in
  invoke cli "deletecollection" (Some (namespace k)) ""
    ((fun f => f cli (namespace k) listOpts deleteOpts) <$> delCollection k)).

(** ** The package *)

Inductive Op :=
| OpWithNamespace (ns : string)
| OpGet (name : string) (opts : GetOptions)
| OpList (opts : ListOptions)
| OpDelete (name : string) (opts : option DeleteOptions)
| OpCreate (pvc : option PersistentVolumeClaim)
| OpUpdate (pvc : option PersistentVolumeClaim)
| OpCreateCollection (l : option (list PersistentVolumeClaim))
| OpDeleteCollection (listOpts : ListOptions) (deleteOpts : option DeleteOptions).

Definition exec (o : Op) : KM unit :=
  match o with
  | OpWithNamespace ns => WithNamespace ns
  | OpGet name opts => _ ← Get name opts; mret tt
  | OpList opts => _ ← List opts; mret tt
  | OpDelete name opts => Delete name opts
  | OpCreate pvc => _ ← Create pvc; mret tt
  | OpUpdate pvc => _ ← Update pvc; mret tt
  | OpCreateCollection l => _ ← CreateCollection l; mret tt
  | OpDeleteCollection listOpts deleteOpts => DeleteCollection listOpts deleteOpts
  end.

(** A blank name, a nil object, an empty list. *)
Definition refused (o : Op) : bool :=
  match o with
  | OpGet name _ | OpDelete name _ => String.eqb (TrimSpace name) ""
  | OpCreate None | OpUpdate None => true
  | OpCreateCollection (None | Some []) => true
  | _ => false
  end.

Lemma Create_keeps pvc : keeps anything (Create pvc) (fun _ _ => True).
Proof. unfold Create. keeps_op. Qed.

Lemma CreateCollection_keeps l : keeps anything (CreateCollection l) (fun _ _ => True).
Proof.
  unfold CreateCollection. destruct l as [[|pvc l]|]; [apply keeps_throw| |apply keeps_throw].
  apply keeps_collect. intros item. apply Create_keeps.
Qed.

Lemma claims_keep o : keeps anything (exec o) (fun _ _ => True).
Proof.
  destruct o; cbn; unfold Get, List, Delete, Update, DeleteCollection, WithNamespace; try keeps_op.
  - apply Create_keeps.
  - apply CreateCollection_keeps.
Qed.

Lemma claims_refused o s : refused o = true -> exists e, exec o s = (s, Fail e).
Proof.
  destruct o as [| name | | name | [|] | [|] | [[|]|] |]; cbn; try done; try (by eexists);
    unfold Get, Delete; intros ->; by eexists.
Qed.

Definition package : Package W :=
  {| CachedClient.exec := exec; CachedClient.refused := refused;
     exec_keeps := claims_keep; exec_refused := claims_refused |}.

(** C39: creating a collection of claims.  With the clientset that the client has, the claims are
    created one after the other, in order and in the namespace of the client, up to the first that
    is not; then its error is returned and nothing is done about those that were created. *)
Theorem claims_created_in_order items f c lg w k :
  items <> [] -> clientset k = Some c -> create (fields k) = Some f ->
  let ns := namespace (fields k) in
  let called := fun pvc => Called c "create" (Some ns) (Name (pvc_Meta pvc)) in
  exists n, CreateCollection (Some items) (MkState k lg w)
    = (let '(w', o) := mapM (f c ns) items w in
       (MkState k (lg ++ map called (take n items)) w', o)) /\
  match (mapM (f c ns) items w).2 with
  | Ret _ => n = length items
  | _ => exists i item w1 objs, n = S i /\ items !! i = Some item /\
      mapM (f c ns) (take i items) w = (w1, Ret objs) /\ is_Ret (f c ns item w1).2 = false
  end.
Proof.
  intros Hne Hc Hf ns called.
  destruct (collect_spec (fun item => Create (Some item)) (f c ns) called k items [] lg w) as (n & H & Hn).
  { intros a lg' w'. unfold Create, with_client, getClientsetOrCached, CachedClient.getClientsetOrCached,
      on_err, get_client, invoke, mbind, M_bind, mret, M_ret. cbn [cli]. rewrite Hc. cbn [cli ext log].
    rewrite Hf. cbn. unfold called, ns. by destruct (f c (namespace (fields k)) a w') as [w2 [b|e|]]. }
  exists n. split; [|exact Hn]. destruct items as [|item items]; [done|]. cbn [CreateCollection].
  rewrite H. destruct (mapM (f c ns) (item :: items) w) as [w' [objs|e|]]; done.
Qed.

End PvcClient.
