(* ===== verification/PvClient.v ===== *)
(** * The client of persistent volumes

    src/pkg/kubernetes/api/core/v1/persistentvolume/kubernetes.go.  The objects have no namespace. *)

From S2P Require Import Prelude GoStrings KubeApi Client CachedClient.
Open Scope string_scope. Open Scope list_scope.

(* Source: src/pkg/kubernetes/api/core/v1/persistentvolume/kubernetes.go *)

(** [cli.CoreV1().PersistentVolumes()], and maya's rendering of an object as YAML. *)
Class VolumesApi {A : ApiTypes} {G : ClientGo} {O : CallOptions} (W : Type) := {
  volumes_get : KubeClientset -> string -> GetOptions -> M W error PersistentVolume;
  volumes_list : KubeClientset -> ListOptions -> M W error (list PersistentVolume);
  volumes_delete : KubeClientset -> string -> DeleteOptions -> M W error unit;
  volumes_delete_collection : KubeClientset -> ListOptions -> DeleteOptions -> M W error unit;
  volumes_create : KubeClientset -> option PersistentVolume -> M W error PersistentVolume;
  stringer_Yaml : string -> option PersistentVolume -> string }.

Section PvClient.
Context {A : ApiTypes} {G : ClientGo} {O : CallOptions} {W : Type} {X : VolumesApi W}.

Definition getFn : Type := KubeClientset -> string -> GetOptions -> M W error PersistentVolume.
Definition listFn : Type := KubeClientset -> ListOptions -> M W error (list PersistentVolume).
Definition deleteFn : Type := KubeClientset -> string -> option DeleteOptions -> M W error unit.
Definition deleteCollectionFn : Type :=
  KubeClientset -> ListOptions -> option DeleteOptions -> M W error unit.
Definition createFn : Type := KubeClientset -> option PersistentVolume -> M W error PersistentVolume.

(** The fields beside those of every client. *)
(* go: type Kubeclient struct *)
Record fields_ := {
  list_ : option listFn;
  get : option getFn;
  create : option createFn;
  del : option deleteFn;
  delCollection : option deleteCollectionFn }.
#[global] Instance Eta_fields : Eta fields_ := fun r =>
  {| list_ := list_ r; get := get r; create := create r; del := del r;
     delCollection := delCollection r |}.

Definition Kubeclient := CachedClient.Kubeclient (W := W) fields_.
Definition KM := CachedClient.KM (W := W) fields_.

Definition withDefaults (k : Kubeclient) : Kubeclient :=
  withDefaultGetters k <| fields ::= fun f => f
    <| get ::= fun g => or_default g (fun c name opts => volumes_get c name opts) |>
    <| list_ ::= fun g => or_default g (fun c opts => volumes_list c opts) |>
    <| del ::= fun g => or_default g (fun c name deleteOpts =>
         o ← lift (deref deleteOpts); volumes_delete c name o) |>
    <| delCollection ::= fun g => or_default g (fun c listOpts deleteOpts =>
         o ← lift (deref deleteOpts); volumes_delete_collection c listOpts o) |>
    <| create ::= fun g => or_default g (fun c pv => volumes_create c pv) |> |>.

(* go: none *)
Definition Kubeclient_zero : Kubeclient := {|
  clientset := None; kubeConfigPath := ""; getClientset := None; getClientsetForPath := None;
  fields := {| list_ := None; get := None; create := None; del := None;
               delCollection := None |} |}.

Definition WithClientSet (c : option KubeClientset) : KubeclientBuildOption (W := W) fields_ :=
  CachedClient.WithClientSet c.

Definition WithKubeConfigPath (path : string) : KubeclientBuildOption (W := W) fields_ :=
  CachedClient.WithKubeConfigPath path.

Definition NewKubeClient (opts : list (KubeclientBuildOption fields_)) : Kubeclient :=
  withDefaults (foldl (fun k o => o k) Kubeclient_zero opts).

Definition getClientsetForPathOrDirect : KM KubeClientset :=
  CachedClient.getClientsetForPathOrDirect.

Definition getClientsetOrCached : KM KubeClientset :=
  CachedClient.getClientsetOrCached (fun err => Wrapf err "failed to get clientset" []).

Definition Get (name : string) (opts : GetOptions) : KM PersistentVolume :=
  if String.eqb (TrimSpace name) "" then
    throw (ErrNew "failed to get pv: missing pv name") else
  with_client getClientsetOrCached
    (fun err => Wrapf err "failed to get pv {%s}" [AStr name]) (fun cli =>
  k ← get_client; let k := fields k in
  invoke cli "get" None name ((fun f => f cli name opts) <$> get k)).

Definition List (opts : ListOptions) : KM (list PersistentVolume) :=
  with_client getClientsetOrCached
    (fun err => Wrapf err "failed to list pv listoptions: '%v'" [AOther]) (fun cli =>
  k ← get_client; let k := fields k in
  invoke cli "list" None "" ((fun f => f cli opts) <$> list_ k)).

Definition Delete (name : string) (deleteOpts : option DeleteOptions) : KM unit :=
  if String.eqb (TrimSpace name) "" then
    throw (ErrNew "failed to delete pvc: missing pv name") else
  with_client getClientsetOrCached
    (fun err => Wrapf err "failed to delete pv {%s}" [AStr name]) (fun cli =>
  k ← get_client; let k := fields k in
  invoke cli "delete" None name ((fun f => f cli name deleteOpts) <$> del k)).

(** The volume is a pointer, passed on as it is. *)
Definition Create (pv : option PersistentVolume) : KM PersistentVolume :=
  with_client getClientsetOrCached
    (fun err => Wrapf err "failed to create pv: %s" [AStr (stringer_Yaml "persistent volume" pv)])
    (fun cli =>
  k ← get_client; let k := fields k in
  invoke cli "create" None (match pv with Some pv => Name (pv_Meta pv) | None => "" end)
    ((fun f => f cli pv) <$> create k)).

Definition DeleteCollection (listOpts : ListOptions) (deleteOpts : option DeleteOptions) : KM unit :=
  with_client getClientsetOrCached
    (fun err => Wrapf err "failed to delete the collection of pvs" []) (fun cli =>
  k ← get_client; let k := fields k in
  invoke cli "deletecollection" None "" ((fun f => f cli listOpts deleteOpts) <$> delCollection k)).

(** ** The package *)

Inductive Op :=
| OpGet (name : string) (opts : GetOptions)
| OpList (opts : ListOptions)
| OpDelete (name : string) (opts : option DeleteOptions)
| OpCreate (pv : option PersistentVolume)
| OpDeleteCollection (listOpts : ListOptions) (deleteOpts : option DeleteOptions).

Definition exec (o : Op) : KM unit :=
  match o with
  | OpGet name opts => _ ← Get name opts; mret tt
  | OpList opts => _ ← List opts; mret tt
  | OpDelete name opts => Delete name opts
  | OpCreate pv => _ ← Create pv; mret tt
  | OpDeleteCollection listOpts deleteOpts => DeleteCollection listOpts deleteOpts
  end.

(** A blank name. *)
Definition refused (o : Op) : bool :=
  match o with
  | OpGet name _ | OpDelete name _ => String.eqb (TrimSpace name) ""
  | _ => false
  end.

Lemma volumes_keep o : keeps anything (exec o) (fun _ _ => True).
Proof. destruct o; cbn; unfold Get, List, Delete, Create, DeleteCollection; keeps_op. Qed.

Lemma volumes_refused o s : refused o = true -> exists e, exec o s = (s, Fail e).
Proof.
  destruct o as [name| | name | |]; cbn; try done;
    unfold Get, Delete; intros ->; by eexists.
Qed.

Definition package : Package W :=
  {| CachedClient.exec := exec; CachedClient.refused := refused;
     exec_keeps := volumes_keep; exec_refused := volumes_refused |}.

End PvClient.
