(* ===== verification/ClassClient.v ===== *)
(** * The client of StorageClasses

    src/pkg/kubernetes/api/storage/v1/storageclass/kubernetes.go.  The objects have no namespace. *)

From S2P Require Import Prelude GoStrings KubeApi Client CachedClient.
Open Scope string_scope. Open Scope list_scope.

(* Source: src/pkg/kubernetes/api/storage/v1/storageclass/kubernetes.go *)

(** [cli.StorageV1().StorageClasses()]. *)
Class ClassesApi {A : ApiTypes} {G : ClientGo} {O : CallOptions} (W : Type) := {
  classes_get : KubeClientset -> string -> GetOptions -> M W error StorageClass;
  classes_list : KubeClientset -> ListOptions -> M W error (list StorageClass);
  classes_delete : KubeClientset -> string -> DeleteOptions -> M W error unit;
  classes_delete_collection : KubeClientset -> ListOptions -> DeleteOptions -> M W error unit;
  classes_create : KubeClientset -> StorageClass -> M W error StorageClass;
  classes_update : KubeClientset -> StorageClass -> M W error StorageClass }.

Section ClassClient.
Context {A : ApiTypes} {G : ClientGo} {O : CallOptions} {W : Type} {X : ClassesApi W}.

Definition getFn : Type := KubeClientset -> string -> GetOptions -> M W error StorageClass.
Definition listFn : Type := KubeClientset -> ListOptions -> M W error (list StorageClass).
Definition deleteFn : Type := KubeClientset -> string -> option DeleteOptions -> M W error unit.
Definition deleteCollectionFn : Type :=
  KubeClientset -> ListOptions -> option DeleteOptions -> M W error unit.
Definition createFn : Type := KubeClientset -> StorageClass -> M W error StorageClass.
Definition updateFn : Type := KubeClientset -> StorageClass -> M W error StorageClass.

(** The fields beside those of every client. *)
(* go: type Kubeclient struct *)
Record fields_ := {
  list_ : option listFn;
  get : option getFn;
  create : option createFn;
  update : option updateFn;
  del : option deleteFn;
  delCollection : option deleteCollectionFn }.
#[global] Instance Eta_fields : Eta fields_ := fun r =>
  {| list_ := list_ r; get := get r; create := create r; update := update r; del := del r;
     delCollection := delCollection r |}.

Definition Kubeclient := CachedClient.Kubeclient (W := W) fields_.
Definition KM := CachedClient.KM (W := W) fields_.

Definition withDefaults (k : Kubeclient) : Kubeclient :=
  withDefaultGetters k <| fields ::= fun f => f
    <| get ::= fun g => or_default g (fun c name opts => classes_get c name opts) |>
    <| list_ ::= fun g => or_default g (fun c opts => classes_list c opts) |>
    <| del ::= fun g => or_default g (fun c name deleteOpts =>
         o ← lift (deref deleteOpts); classes_delete c name o) |>
    <| delCollection ::= fun g => or_default g (fun c listOpts deleteOpts =>
         o ← lift (deref deleteOpts); classes_delete_collection c listOpts o) |>
    <| create ::= fun g => or_default g (fun c sc => classes_create c sc) |>
    <| update ::= fun g => or_default g (fun c sc => classes_update c sc) |> |>.

(* go: none *)
Definition Kubeclient_zero : Kubeclient := {|
  clientset := None; kubeConfigPath := ""; getClientset := None; getClientsetForPath := None;
  fields := {| list_ := None; get := None; create := None; update := None; del := None;
               delCollection := None |} |}.

Definition WithClientSet (c : option KubeClientset) : KubeclientBuildOption (W := W) fields_ :=
  CachedClient.WithClientSet c.

Definition WithKubeConfigPath (path : string) : KubeclientBuildOption (W := W) fields_ :=
  CachedClient.WithKubeConfigPath path.

Definition NewKubeClient (opts : list (KubeclientBuildOption fields_)) : Kubeclient :=
  withDefaults (foldl (fun k o => o k) Kubeclient_zero opts).

Definition getClientsetForPathOrDirect : KM KubeClientset :=
  CachedClient.getClientsetForPathOrDirect.

Definition getClientsetOrCached : KM KubeClientset :=
  CachedClient.getClientsetOrCached (fun err => Wrapf err "failed to get clientset" []).

Definition Get (name : string) (opts : GetOptions) : KM StorageClass :=
  if String.eqb (TrimSpace name) "" then
    throw (ErrNew "failed to get StorageClass: missing StorageClass name") else
  with_client getClientsetOrCached
    (fun err => Wrapf err "failed to get StorageClass {%s}" [AStr name]) (fun cli =>
  k ← get_client; let k := fields k in
  invoke cli "get" None name ((fun f => f cli name opts) <$> get k)).

Definition List (opts : ListOptions) : KM (list StorageClass) :=
  with_client getClientsetOrCached
    (fun err => Wrapf err "failed to list StorageClass listoptions: '%v'" [AOther]) (fun cli =>
  k ← get_client; let k := fields k in
  invoke cli "list" None "" ((fun f => f cli opts) <$> list_ k)).

Definition Delete (name : string) (deleteOpts : option DeleteOptions) : KM unit :=
  if String.eqb (TrimSpace name) "" then
    throw (ErrNew "failed to delete StorageClass: missing StorageClass name") else
  with_client getClientsetOrCached
    (fun err => Wrapf err "failed to delete StorageClass {%s}" [AStr name]) (fun cli =>
  k ← get_client; let k := fields k in
  invoke cli "delete" None name ((fun f => f cli name deleteOpts) <$> del k)).

Definition Create (sc : option StorageClass) : KM StorageClass :=
  match sc with
  | None => throw (ErrNew "failed to create StorageClass: nil StorageClass object")
  | Some sc =>
    with_client getClientsetOrCached
      (fun err => Wrapf err "failed to create StorageClass {%s}" [AStr (Name (sc_Meta sc))]) (fun cli =>
    k ← get_client; let k := fields k in
    invoke cli "create" None (Name (sc_Meta sc)) ((fun f => f cli sc) <$> create k))
  end.

Definition Update (sc : option StorageClass) : KM StorageClass :=
  match sc with
  | None => throw (ErrNew "failed to update StorageClass: nil StorageClass object")
  | Some sc =>
    with_client getClientsetOrCached
      (fun err => Wrapf err "failed to update StorageClass {%s}" [AStr (Name (sc_Meta sc))]) (fun cli =>
    k ← get_client; let k := fields k in
    invoke cli "update" None (Name (sc_Meta sc)) ((fun f => f cli sc) <$> update k))
  end.

Definition CreateCollection (l : option (list StorageClass)) : KM (list StorageClass) :=
  match l with
  | None | Some [] => throw (ErrNew
      "failed to create list of StorageClasses: nil StorageClass list provided")
  | Some items => collect (fun item => Create (Some item)) items []
  end.

Definition DeleteCollection (listOpts : ListOptions) (deleteOpts : option DeleteOptions) : KM unit :=
  with_client getClientsetOrCached
    (fun err => Wrapf err "failed to delete the collection of StorageClasses" []) (fun cli =>
  k ← get_client; let k := fields k in
  invoke cli "deletecollection" None "" ((fun f => f cli listOpts deleteOpts) <$> delCollection k)).

(** ** The package *)

Inductive Op :=
| OpGet (name : string) (opts : GetOptions)
| OpList (opts : ListOptions)
| OpDelete (name : string) (opts : option DeleteOptions)
| OpCreate (sc : option StorageClass)
| OpUpdate (sc : option StorageClass)
| OpCreateCollection (l : option (list StorageClass))
| OpDeleteCollection (listOpts : ListOptions) (deleteOpts : option DeleteOptions).

Definition exec (o : Op) : KM unit :=
  match o with
  | OpGet name opts => _ ← Get name opts; mret tt
  | OpList opts => _ ← List opts; mret tt
  | OpDelete name opts => Delete name opts
  | OpCreate sc => _ ← Create sc; mret tt
  | OpUpdate sc => _ ← Update sc; mret tt
  | OpCreateCollection l => _ ← CreateCollection l; mret tt
  | OpDeleteCollection listOpts deleteOpts => DeleteCollection listOpts deleteOpts
  end.

(** A blank name, a nil object, an empty list. *)
Definition refused (o : Op) : bool :=
  match o with
  | OpGet name _ | OpDelete name _ => String.eqb (TrimSpace name) ""
  | OpCreate None | OpUpdate None => true
  | OpCreateCollection (None | Some []) => true
  | _ => false
  end.

Lemma class_Create_keeps sc : keeps anything (Create sc) (fun _ _ => True).
Proof. unfold Create. keeps_op. Qed.

Lemma classes_keep o : keeps anything (exec o) (fun _ _ => True).
Proof.
  destruct o; cbn; unfold Get, List, Delete, Update, DeleteCollection; try keeps_op.
  - apply class_Create_keeps.
  - unfold CreateCollection. keeps_op. apply keeps_collect. intros item. apply class_Create_keeps.
Qed.

Lemma classes_refused o s : refused o = true -> exists e, exec o s = (s, Fail e).
Proof.
  destruct o as [name| | name | [|] | [|] | [[|]|] |]; cbn; try done; try (by eexists);
    unfold Get, Delete; intros ->; by eexists.
Qed.

Definition package : Package W :=
  {| CachedClient.exec := exec; CachedClient.refused := refused;
     exec_keeps := classes_keep; exec_refused := classes_refused |}.

End ClassClient.
