(* ===== verification/DeploymentClient.v ===== *)
(** * The client of deployments

    src/pkg/kubernetes/api/apps/v1/deployment/kubernetes.go.  Its clientset is made by maya's
    client, not by the one of this repository. *)

From S2P Require Import Prelude GoStrings KubeApi Client CachedClient.
From S2P Require Deployment.
Open Scope string_scope. Open Scope list_scope.

(* Source: src/pkg/kubernetes/api/apps/v1/deployment/kubernetes.go *)

(** [cli.AppsV1().Deployments(namespace)], maya's client and its error injection, [json.Marshal],
    and the order of the next [range] over a map, chosen by the run time. *)
Class DeploymentsApi {A : ApiTypes} {G : ClientGo} {O : CallOptions} (W : Type) := {
  deployments_get : KubeClientset -> string -> string -> GetOptions -> M W error Deployment.Deployment;
  deployments_list : KubeClientset -> string -> ListOptions -> M W error (list Deployment.Deployment);
  deployments_create : KubeClientset -> string -> Deployment.Deployment -> M W error Deployment.Deployment;
  deployments_update : KubeClientset -> string -> Deployment.Deployment -> M W error Deployment.Deployment;
  deployments_delete : KubeClientset -> string -> string -> DeleteOptions -> M W error unit;
  deployments_patch : KubeClientset -> string -> string -> string -> string -> list string ->
    M W error Deployment.Deployment;
  maya_Clientset : M W error KubeClientset;
  maya_ClientsetForPath : string -> M W error KubeClientset;
  IsDeploymentDeleteErrorInjected : bool;
  IsDeploymentCreateErrorInjected : bool;
  IsDeploymentUpdateErrorInjected : bool;
  marshal_deployment : Deployment.Deployment -> outcome error string;
  marshal_rollout : Deployment.RolloutOutput -> outcome error string;
  next_order : W -> W * MapOrder }.

Section DeploymentClient.
Context {A : ApiTypes} {G : ClientGo} {O : CallOptions} {W : Type} {X : DeploymentsApi W}.
Abbreviation D := Deployment.Deployment.

Definition getFn : Type := KubeClientset -> string -> string -> option GetOptions -> M W error D.
Definition listFn : Type := KubeClientset -> string -> option ListOptions -> M W error (list D).
Definition createFn : Type := KubeClientset -> string -> D -> M W error D.
Definition updateFn : Type := KubeClientset -> string -> D -> M W error D.
Definition deleteFn : Type :=
  KubeClientset -> string -> string -> option DeleteOptions -> M W error unit.
Definition patchFn : Type :=
  KubeClientset -> string -> string -> string -> string -> list string -> M W error D.
Definition rolloutStatusFn : Type := D -> M W error Deployment.RolloutOutput.
Definition rolloutStatusfFn : Type := D -> M W error string.

Definition defaultGetClientset : M W error KubeClientset := maya_Clientset.
Definition defaultGetClientsetForPath (path : string) : M W error KubeClientset :=
  maya_ClientsetForPath path.
Definition defaultGet : getFn := fun cli name ns opts =>
  o ← lift (deref opts); deployments_get cli ns name o.
Definition defaultList : listFn := fun cli ns opts =>
  o ← lift (deref opts); deployments_list cli ns o.
Definition defaultCreate : createFn := fun cli ns deploy => deployments_create cli ns deploy.
Definition defaultUpdate : updateFn := fun cli ns deploy => deployments_update cli ns deploy.
Definition defaultDel : deleteFn := fun cli ns name opts =>
  o ← lift (deref opts); deployments_delete cli ns name o.
Definition defaultPatch : patchFn := fun cli name ns pt data subresources =>
  deployments_patch cli ns name pt data subresources.
Definition defaultRolloutStatus : rolloutStatusFn := fun d w =>
  let '(w, Ord) := next_order w in (w, Deployment.RolloutStatus Ord d).
Definition defaultRolloutStatusf : rolloutStatusfFn := fun d w =>
  let '(w, Ord) := next_order w in (w, Deployment.RolloutStatusRaw marshal_rollout Ord d).

(** The fields beside those of every client. *)
(* go: type Kubeclient struct *)
Record fields_ := {
  namespace : string;
  get : option getFn;
  list_ : option listFn;
  create : option createFn;
  update : option updateFn;
  del : option deleteFn;
  patch : option patchFn;
  rolloutStatus : option rolloutStatusFn;
  rolloutStatusf : option rolloutStatusfFn }.
#[global] Instance Eta_fields : Eta fields_ := fun r =>
  {| namespace := namespace r; get := get r; list_ := list_ r; create := create r;
     update := update r; del := del r; patch := patch r; rolloutStatus := rolloutStatus r;
     rolloutStatusf := rolloutStatusf r |}.

Definition Kubeclient := CachedClient.Kubeclient (W := W) fields_.
Definition KM := CachedClient.KM (W := W) fields_.

Definition withDefaults (k : Kubeclient) : Kubeclient :=
  k <| getClientset ::= fun g => or_default g defaultGetClientset |>
    <| getClientsetForPath ::= fun g => or_default g defaultGetClientsetForPath |>
    <| fields ::= fun f => f
      <| get ::= fun g => or_default g defaultGet |>
      <| list_ ::= fun g => or_default g defaultList |>
      <| create ::= fun g => or_default g defaultCreate |>
      <| update ::= fun g => or_default g defaultUpdate |>
      <| del ::= fun g => or_default g defaultDel |>
      <| patch ::= fun g => or_default g defaultPatch |>
      <| rolloutStatus ::= fun g => or_default g defaultRolloutStatus |>
      <| rolloutStatusf ::= fun g => or_default g defaultRolloutStatusf |> |>.

(* go: none *)
Definition Kubeclient_zero : Kubeclient := {|
  clientset := None; kubeConfigPath := ""; getClientset := None; getClientsetForPath := None;
  fields := {| namespace := ""; get := None; list_ := None; create := None; update := None;
               del := None; patch := None; rolloutStatus := None; rolloutStatusf := None |} |}.

(* go: func WithNamespace( *)
Definition WithNamespace_opt (ns : string) : KubeclientBuildOption (W := W) fields_ := fun k =>
  k <| fields ::= fun f => f <| namespace := ns |> |>.

(* go: func WithClientset( *)
Definition WithClientset (c : option KubeClientset) : KubeclientBuildOption (W := W) fields_ :=
  CachedClient.WithClientSet c.

Definition WithKubeConfigPath (path : string) : KubeclientBuildOption (W := W) fields_ :=
  CachedClient.WithKubeConfigPath path.

Definition NewKubeClient (opts : list (KubeclientBuildOption fields_)) : Kubeclient :=
  withDefaults (foldl (fun k o => o k) Kubeclient_zero opts).

(* go: (k *Kubeclient) WithNamespace( *)
Definition WithNamespace (ns : string) : KM unit := modify_fields (fun f => f <| namespace := ns |>).

Definition getClientsetForPathOrDirect : KM KubeClientset :=
  CachedClient.getClientsetForPathOrDirect.

(** The error is returned as it is. *)
Definition getClientOrCached : KM KubeClientset := CachedClient.getClientsetOrCached (fun err => err).

(** [k.get(ctx, cli, name, k.namespace, &metav1.GetOptions{})], after the clientset. *)
Definition Get (name : string) : KM D :=
  with_client getClientOrCached (fun err => err) (fun cli =>
  k ← get_client; let k := fields k in
  invoke cli "get" (Some (namespace k)) name
    ((fun f => f cli name (namespace k) (Some GetOptions_zero)) <$> get k)).

Definition List (opts : option ListOptions) : KM (list D) :=
  with_client getClientOrCached (fun err => err) (fun cli =>
  k ← get_client; let k := fields k in
  invoke cli "list" (Some (namespace k)) "" ((fun f => f cli (namespace k) opts) <$> list_ k)).

Definition Patch (name pt data : string) (subresources : list string) : KM D :=
  with_client getClientOrCached (fun err => err) (fun cli =>
  k ← get_client; let k := fields k in
  invoke cli "patch" (Some (namespace k)) name
    ((fun f => f cli name (namespace k) pt data subresources) <$> patch k)).

Definition GetRaw (name : string) : KM string := d ← Get name; lift (marshal_deployment d).

Definition Delete (name : string) (opts : option DeleteOptions) : KM unit :=
  if IsDeploymentDeleteErrorInjected then
    throw (ErrNew "Deployment delete error via injection") else
  if String.eqb (TrimSpace name) "" then
    throw (ErrNew "failed to delete deployment: missing deployment name") else
  with_client getClientOrCached
    (fun err => Wrapf err "failed to delete deployment {%s}" [AStr name]) (fun cli =>
  k ← get_client; let k := fields k in
  invoke cli "delete" (Some (namespace k)) name ((fun f => f cli (namespace k) name opts) <$> del k)).

Definition Create (deployment : option D) : KM D :=
  if IsDeploymentCreateErrorInjected then
    throw (ErrNew "Deployment create error via injection") else
  match deployment with
  | None => throw (ErrNew "failed to create deployment: nil deployment object")
  | Some deployment =>
    with_client getClientOrCached
      (fun err => Wrapf err "failed to create deployment {%s} in namespace {%s}"
        [AStr (Name (Deployment.d_Meta deployment)); AStr (Namespace (Deployment.d_Meta deployment))])
      (fun cli =>
    k ← get_client; let k := fields k in
    invoke cli "create" (Some (namespace k)) (Name (Deployment.d_Meta deployment))
      ((fun f => f cli (namespace k) deployment) <$> create k))
  end.

Definition Update (deployment : option D) : KM D :=
  if IsDeploymentUpdateErrorInjected then
    throw (ErrNew "Deployment update error via injection") else
  match deployment with
  | None => throw (ErrNew "failed to update deployment: nil deployment object")
  | Some deployment =>
    with_client getClientOrCached
      (fun err => Wrapf err "failed to update deployment {%s} in namespace {%s}"
        [AStr (Name (Deployment.d_Meta deployment)); AStr (Namespace (Deployment.d_Meta deployment))])
      (fun cli =>
    k ← get_client; let k := fields k in
    invoke cli "update" (Some (namespace k)) (Name (Deployment.d_Meta deployment))
      ((fun f => f cli (namespace k) deployment) <$> update k))
  end.

(** A function of the client that is given the object, and makes no request. *)
(* go: none *)
Definition apply_function {T : Type} (f : fields_ -> option (D -> M W error T)) (d : D) : KM T :=
  fun s =>
    match f (fields (cli s)) with
    | None => (s, Panic)
    | Some g => let '(w, o) := g d (ext s) in (MkState (cli s) (log s) w, o)
    end.

Definition RolloutStatusf (name : string) : KM string :=
  d ← Get name; apply_function rolloutStatusf d.

Definition RolloutStatus (name : string) : KM Deployment.RolloutOutput :=
  d ← Get name; apply_function rolloutStatus d.

(** ** The package *)

Inductive Op :=
| OpWithNamespace (ns : string)
| OpGet (name : string)
| OpList (opts : option ListOptions)
| OpPatch (name pt data : string) (subresources : list string)
| OpGetRaw (name : string)
| OpDelete (name : string) (opts : option DeleteOptions)
| OpCreate (deployment : option D)
| OpUpdate (deployment : option D)
| OpRolloutStatusf (name : string)
| OpRolloutStatus (name : string).

Definition exec (o : Op) : KM unit :=
  match o with
  | OpWithNamespace ns => WithNamespace ns
  | OpGet name => _ ← Get name; mret tt
  | OpList opts => _ ← List opts; mret tt
  | OpPatch name pt data subresources => _ ← Patch name pt data subresources; mret tt
  | OpGetRaw name => _ ← GetRaw name; mret tt
  | OpDelete name opts => Delete name opts
  | OpCreate deployment => _ ← Create deployment; mret tt
  | OpUpdate deployment => _ ← Update deployment; mret tt
  | OpRolloutStatusf name => _ ← RolloutStatusf name; mret tt
  | OpRolloutStatus name => _ ← RolloutStatus name; mret tt
  end.

(** A blank name to delete, a nil object, an error that is injected; names are not looked at by
    the other operations. *)
Definition refused (o : Op) : bool :=
  match o with
  | OpDelete name _ => IsDeploymentDeleteErrorInjected || String.eqb (TrimSpace name) ""
  | OpCreate d => IsDeploymentCreateErrorInjected || match d with None => true | Some _ => false end
  | OpUpdate d => IsDeploymentUpdateErrorInjected || match d with None => true | Some _ => false end
  | _ => false
  end.

Lemma deployment_Get_keeps name : keeps anything (Get name) (fun _ _ => True).
Proof. unfold Get. keeps_op. Qed.

Lemma apply_function_keeps {T} (f : fields_ -> option (D -> M W error T)) d :
  keeps (fun _ => True) (apply_function f d) (fun _ _ => True).
Proof.
  intros s _. exists []. rewrite app_nil_r. unfold apply_function, get_client, panic, mbind, M_bind.
  destruct (f (fields (cli s))) as [g|]; [destruct (g d (ext s)) as [w o]|];
    (split_and!; [done|done|constructor|by try destruct o]).
Qed.

Lemma deployments_keep o : keeps anything (exec o) (fun _ _ => True).
Proof.
  destruct o; cbn; unfold List, Patch, GetRaw, Delete, Create, Update, RolloutStatus, RolloutStatusf,
    WithNamespace; try keeps_op.
  all: first [ apply deployment_Get_keeps | eapply keeps_marshal, deployment_Get_keeps
    | eapply keeps_bind; [apply deployment_Get_keeps|intros d; apply apply_function_keeps] ].
Qed.

Lemma deployments_refused o s : refused o = true -> exists e, exec o s = (s, Fail e).
Proof.
  destruct o as [| | | | | name | d | d | |]; cbn; try done; unfold Delete, Create, Update.
  - destruct IsDeploymentDeleteErrorInjected; cbn; intros H; [by eexists|].
    rewrite H. by eexists.
  - destruct IsDeploymentCreateErrorInjected, d; cbn; intros H; try done; by eexists.
  - destruct IsDeploymentUpdateErrorInjected, d; cbn; intros H; try done; by eexists.
Qed.

Definition package : Package W :=
  {| CachedClient.exec := exec; CachedClient.refused := refused;
     exec_keeps := deployments_keep; exec_refused := deployments_refused |}.

End DeploymentClient.
