(* ===== verification/Clients.v ===== *)
(** * What the clients of all packages have in common

    The six packages with a client, as instances of [CachedClient.Package], and the contract that
    every sequence of their operations keeps. *)

From S2P Require Import Prelude GoStrings KubeApi Client CachedClient.
From S2P Require PodClient EventClient PvcClient PvClient ClassClient DeploymentClient.
Open Scope string_scope. Open Scope list_scope.

Section Clients.
Context {A : ApiTypes} {G : ClientGo} {O : CallOptions} {W : Type}.
Context {X1 : PodClient.PodsApi W} {X2 : EventClient.EventsApi W} {X3 : PvcClient.ClaimsApi W}.
Context {X4 : PvClient.VolumesApi W} {X5 : ClassClient.ClassesApi W}.
Context {X6 : DeploymentClient.DeploymentsApi W}.

Inductive package := Pods | Events | Claims | Volumes | Classes | Deployments.

Definition package_of (p : package) : Package W :=
  match p with
  | Pods => PodClient.package
  | Events => EventClient.package
  | Claims => PvcClient.package
  | Volumes => PvClient.package
  | Classes => ClassClient.package
  | Deployments => DeploymentClient.package
  end.

(** C38: the clientset of a client, in every package and after any operations, whatever their
    outcomes.  It is asked for, by the path that the client was built with, only until it is
    given, and at most once with success, never if the client was built with one; every call of
    the API is made with it; and the operations that are refused for their arguments ask for
    nothing and change nothing. *)
Theorem one_clientset p (ops : list (@operation _ _ (package_of p))) s :
  let s' := run_all ops s in
  s' = run_all (filter (fun o => refused o = false) ops) s /\
  exists l, log s' = log s ++ l /\
    Steps (kubeConfigPath (cli s)) (clientset (cli s)) l (clientset (cli s')) /\
    length (filter (fun e => made e = true) l)
    = match clientset (cli s), clientset (cli s') with None, Some _ => 1 | _, _ => 0 end /\
    Forall (fun e => match e with
                     | Called c _ _ _ => clientset (cli s') = Some c
                     | Fetched path _ | FetchedConfig path _ => path = kubeConfigPath (cli s)
                     end) l.
Proof.
  intros s'. split; [apply run_all_refused|].
  destruct (run_all_keeps ops s) as (l & Hl & _ & Hs). exists l. split; [exact Hl|].
  split; [exact Hs|]. destruct (Steps_calls _ _ _ _ Hs) as (Hc & _ & Hn). split; [exact Hn|].
  apply Forall_forall. intros e He. pose proof (Steps_paths _ _ _ _ Hs) as Hp.
  rewrite Forall_forall in Hp. specialize (Hp e He). by destruct e; [| |by eapply Hc].
Qed.

End Clients.
