(* ===== verification/Maya.v ===== *)
(** * Code outside the repository that the provisioner calls

    The packages of [github.com/openebs/maya] (configuration, host path checks, block device
    claims, environment) and of the label selectors of Kubernetes are not part of the repository.
    Their functions are the fields of the class [Maya]; nothing is assumed about them except
    where a theorem asks for [MayaLaws], whose fields state the documented behaviour. *)

From S2P Require Import Prelude GoStrings GoPath KubeApi.
Open Scope string_scope. Open Scope list_scope.

(** [mconfig.Config]: one entry of the [cas.openebs.io/config] annotation. *)
Record Config := {
  cfg_Name : string;
  cfg_Enabled : string;
  cfg_Value : string;
  cfg_Data : gomap string;
  cfg_List : list string }.

(** The dynamic values stored in a [map[string]interface{}]. *)
Inductive iface :=
| INil
| IStrMap (m : gomap string)
| IStrList (l : slice string)
| IOther.

Abbreviation object_map := (gmap string iface).

(** The custom resources of NDM, with the fields the provisioner uses. *)
Record BlockDeviceClaim := {
  bdc_Name : string;
  bdc_Namespace : string;
  bdc_Finalizers : list string;
  bdc_BlockDeviceName : string;
  bdc_Deleting : bool }.
#[global] Instance Eta_BlockDeviceClaim : Eta BlockDeviceClaim := fun r =>
  {| bdc_Name := bdc_Name r; bdc_Namespace := bdc_Namespace r;
     bdc_Finalizers := bdc_Finalizers r; bdc_BlockDeviceName := bdc_BlockDeviceName r;
     bdc_Deleting := bdc_Deleting r |}.

Record DevLink := { dl_Kind : string; dl_Links : list string }.

Record BlockDevice := {
  bd_Mountpoint : string;
  bd_Path : string;
  bd_DevLinks : list DevLink }.

Class Maya := {
  (* castemplate *)
  UnMarshallToConfig : string -> outcome error (list Config);
  MergeConfig : list Config -> list Config -> list Config;
  ConfigToMap : list Config -> outcome error object_map;
  (* util *)
  GetNestedField : object_map -> string -> iface;
  MergeMapOfObjects : object_map -> object_map -> object_map * bool;
  RemoveString : list string -> string -> list string;
  (* hostpath: a path builder with the check [IsNonRoot]; the last two arguments are the message
     of the check and its arguments.  [BuildNonRootPath] is WithPathJoin, WithCheckf and
     ValidateAndBuild, [ExtractNonRootSubPath] is WithPath, WithCheckf and ExtractSubPath. *)
  BuildNonRootPath : string -> string -> string -> list arg -> outcome error string;
  ExtractNonRootSubPath : string -> string -> list arg -> outcome error (string * string);
  (* env *)
  OpenEBSNamespace : string;
  OpenEBSServiceAccount : string;
  menv_Get : string -> string;
  menv_GetOrDefault : string -> string -> string;
  (* analytics: the names of events and labels *)
  EventLabelCapacity : string;
  VolumeProvision : string;
  VolumeDeprovision : string;
  (* blockdeviceclaim: the builder *)
  BdcBuilder : Type;
  bdc_NewBuilder : BdcBuilder;
  bdc_WithNamespace : string -> BdcBuilder -> BdcBuilder;
  bdc_WithName : string -> BdcBuilder -> BdcBuilder;
  bdc_WithSelector : gomap string -> BdcBuilder -> BdcBuilder;
  bdc_WithCapacity : string -> BdcBuilder -> BdcBuilder;
  bdc_WithFinalizer : string -> BdcBuilder -> BdcBuilder;
  bdc_WithBlockVolumeMode : string -> BdcBuilder -> BdcBuilder;
  bdc_Build : BdcBuilder -> outcome error BlockDeviceClaim;
  (* k8s.io/apimachinery/pkg/labels *)
  labels_Set_String : gmap string string -> string }.

(** The name under which an entry is filed. *)
Definition config_key (c : Config) : string := TrimSpace (cfg_Name c).

(** The entry that wins among those filed under a name: the last one. *)
Definition last_config (key : string) (cs : list Config) : option Config :=
  last (filter (fun c => config_key c = key) cs).

(** Documented behaviour of the packages above. *)
Class MayaLaws (Y : Maya) := {
  (** the first list, and the entries of the second whose name is not in the first *)
  MergeConfig_spec high low :
    MergeConfig high low
    = high ++ filter (fun c => config_key c ∉ map config_key high) low;
  (** the enabled flag and the value of each entry, under its trimmed name *)
  ConfigToMap_spec cs :
    Forall (fun c => config_key c <> "") cs ->
    exists m, ConfigToMap cs = Ret m /\
      forall key, m !! key =
        (fun c => IStrMap (Some (<[EnabledPTP := cfg_Enabled c]> {[ValuePTP := cfg_Value c]}))) <$>
          last_config key cs;
  (** an entry without a name is an error *)
  ConfigToMap_blank cs :
    Exists (fun c => config_key c = "") cs -> exists e, ConfigToMap cs = Fail e;
  GetNestedField_spec m k : GetNestedField m k = default INil (m !! k);
  MergeMapOfObjects_spec dst src : MergeMapOfObjects dst src = (src ∪ dst, true);
  RemoveString_spec l s : RemoveString l s = filter (fun x => x <> s) l;
  (** the joined, cleaned path, when it is not directly under root *)
  BuildNonRootPath_spec base rel fmt args p :
    BuildNonRootPath base rel fmt args = Ret p ->
    p = Join2 base rel /\
    forall fmt' args', exists e, ExtractNonRootSubPath p fmt' args' = Ret e;
  (** the parent directory and the last element, both not empty *)
  ExtractNonRootSubPath_spec p fmt args parent vol :
    ExtractNonRootSubPath p fmt args = Ret (parent, vol) ->
    parent <> "" /\ vol <> "" /\ has_slash vol = false /\
    (p = parent +:+ "/" +:+ vol \/ p = parent +:+ "/" +:+ vol +:+ "/");
  maya_no_panic :
    (forall base rel fmt args, BuildNonRootPath base rel fmt args <> Panic) /\
    (forall p fmt args, ExtractNonRootSubPath p fmt args <> Panic) /\
    (forall cs, ConfigToMap cs <> Panic) /\ (forall s, UnMarshallToConfig s <> Panic);
  menv_GetOrDefault_spec k d :
    menv_GetOrDefault k d = if String.eqb (menv_Get k) "" then d else menv_Get k }.

(** ** The merged configuration *)

Lemma config_key_elem key (cs : list Config) :
  key ∈ map config_key cs <-> filter (fun c => config_key c = key) cs <> [].
Proof.
  induction cs as [|c cs IH]; cbn [map].
  - split; [by intros ?%elem_of_nil|done].
  - rewrite elem_of_cons, IH, filter_cons. case_decide as Hd; intuition congruence.
Qed.

(** For each name the merged list has the entries of the first list when it has any, and those of
    the second list otherwise. *)
Lemma MergeConfig_named {Y : Maya} {L : MayaLaws Y} high low key :
  filter (fun c => config_key c = key) (MergeConfig high low)
  = match filter (fun c => config_key c = key) high with
    | [] => filter (fun c => config_key c = key) low
    | cs => cs
    end.
Proof.
  rewrite MergeConfig_spec, filter_app, list_filter_filter.
  destruct (filter (fun c => config_key c = key) high) as [|c cs] eqn:E.
  - cbn [app]. apply list_filter_iff. intros c. split; [tauto|]. intros <-. split; [done|].
    rewrite config_key_elem. rewrite E. tauto.
  - rewrite (filter_none _ low), app_nil_r; [done|]. apply Forall_forall.
    intros c' _ [<- Hin]. apply Hin, config_key_elem. by rewrite E.
Qed.

Lemma MergeConfig_last {Y : Maya} {L : MayaLaws Y} high low key :
  last_config key (MergeConfig high low) =
    match last_config key high with Some c => Some c | None => last_config key low end.
Proof.
  unfold last_config. rewrite MergeConfig_named.
  destruct (filter (fun c => config_key c = key) high) as [|c cs] eqn:E; [done|].
  destruct (last (c :: cs)) eqn:El; [done|]. by apply last_None in El.
Qed.
