(* ===== verification/Cluster.v ===== *)
(** * The cluster the provisioner talks to

    The Kubernetes API server, the NDM resources, the clock and the alert log, as an interface
    [Cluster W] over an abstract state [W]: each operation takes the state and gives the next one
    with a response, so any behaviour of the outside world, concurrent changes included, is some
    instance.  The code runs over [World W], which adds the trace of the calls made so far with
    their answers, the last one last: what the provisioner asks of the cluster, and in which
    order, is what the theorems are about.  [emits m Q] says that [m] only adds to the trace, and
    that the calls it adds and its outcome satisfy [Q]; its rules follow the monad. *)

From S2P Require Import Prelude GoStrings KubeApi Maya.
Open Scope string_scope. Open Scope list_scope.

Section Calls.
Context {A : ApiTypes}.

(** The calls that leave the program; [Outside] is a call to a package outside the repository that
    returns nothing to the program, or that it runs in a goroutine. *)
Inductive Call :=
| PodCreate (ns : string) (p : Pod)
| PodGet (ns name : string)
| PodDelete (ns name : string)
| StorageClassGet (name : string)
| NodeList (selector : string)
| PVList (selector : string)
| BdcGet (ns name : string)
| BdcCreate (ns : string) (b : BlockDeviceClaim)
| BdcUpdate (ns : string) (b : BlockDeviceClaim)
| BdcDelete (ns name : string)
| BdcAddFinalizer (b : BlockDeviceClaim) (finalizer : string)
| BdGet (ns name : string)
| Sleep (seconds : nat)
| Alert (error : bool) (fields : list (string * string))
| SendEvent (fields : list (string * string))
| Outside (f : string) (args : list string).

(** What a call was answered. *)
Inductive Answer :=
| Done
| Refused (e : error)
| Crashed
| APod (p : Pod)
| AStorageClass (s : StorageClass)
| ANodes (ns : list Node)
| APVs (ps : list PersistentVolume)
| ABdc (b : BlockDeviceClaim)
| ABd (b : BlockDevice).

Definition answer {T} (f : T -> Answer) (o : outcome error T) : Answer :=
  match o with Ret a => f a | Fail e => Refused e | Panic => Crashed end.

Definition Trace := list (Call * Answer).

Class Cluster (W : Type) := {
  pods_create : string -> Pod -> M W error Pod;
  pods_get : string -> string -> M W error Pod;
  pods_delete : string -> string -> M W error unit;
  storageclasses_get : string -> M W error StorageClass;
  nodes_list : string -> M W error (list Node);
  pvs_list : string -> M W error (list PersistentVolume);
  bdcs_get : string -> string -> M W error BlockDeviceClaim;
  bdcs_create : string -> BlockDeviceClaim -> M W error unit;
  bdcs_update : string -> BlockDeviceClaim -> M W error unit;
  bdcs_delete : string -> string -> M W error unit;
  bdcs_add_finalizer : BlockDeviceClaim -> string -> M W error unit;
  bds_get : string -> string -> M W error BlockDevice;
  time_passes : nat -> W -> W;
  (** the order of the next [range] over a map: chosen by the run time, not by the program *)
  next_order : W -> W * MapOrder }.

Record World (W : Type) := MkWorld { trace : Trace; ext : W }.
#[global] Arguments MkWorld {W} trace ext.
#[global] Arguments trace {W} w.
#[global] Arguments ext {W} w.

Section Ops.
Context {W : Type} {K : Cluster W}.

(** Programs over the world, with errors of type [E]. *)
Definition Prog (E T : Type) := M (World W) E T.

Definition call {T} (c : Call) (f : T -> Answer) (op : M W error T) : Prog error T := fun w =>
  let '(s, o) := op (ext w) in (MkWorld (trace w ++ [(c, answer f o)]) s, o).

Definition tell {E} (c : Call) : Prog E unit := fun w =>
  (MkWorld (trace w ++ [(c, Done)]) (ext w), Ret tt).

Definition sleep {E} (seconds : nat) : Prog E unit := fun w =>
  (MkWorld (trace w ++ [(Sleep seconds, Done)]) (time_passes seconds (ext w)), Ret tt).

Definition map_order {E} : Prog E MapOrder := fun w =>
  let '(s, o) := next_order (ext w) in (MkWorld (trace w) s, Ret o).

Definition Pods_Create (ns : string) (p : Pod) : Prog error Pod :=
  call (PodCreate ns p) APod (pods_create ns p).
Definition Pods_Get (ns name : string) : Prog error Pod :=
  call (PodGet ns name) APod (pods_get ns name).
Definition Pods_Delete (ns name : string) : Prog error unit :=
  call (PodDelete ns name) (fun _ => Done) (pods_delete ns name).
Definition StorageClasses_Get (name : string) : Prog error StorageClass :=
  call (StorageClassGet name) AStorageClass (storageclasses_get name).
Definition Nodes_List (selector : string) : Prog error (list Node) :=
  call (NodeList selector) ANodes (nodes_list selector).
Definition PVs_List (selector : string) : Prog error (list PersistentVolume) :=
  call (PVList selector) APVs (pvs_list selector).
Definition Bdcs_Get (ns name : string) : Prog error BlockDeviceClaim :=
  call (BdcGet ns name) ABdc (bdcs_get ns name).
Definition Bdcs_Create (ns : string) (b : BlockDeviceClaim) : Prog error unit :=
  call (BdcCreate ns b) (fun _ => Done) (bdcs_create ns b).
Definition Bdcs_Update (ns : string) (b : BlockDeviceClaim) : Prog error unit :=
  call (BdcUpdate ns b) (fun _ => Done) (bdcs_update ns b).
Definition Bdcs_Delete (ns name : string) : Prog error unit :=
  call (BdcDelete ns name) (fun _ => Done) (bdcs_delete ns name).
Definition Bdcs_AddFinalizer (b : BlockDeviceClaim) (f : string) : Prog error unit :=
  call (BdcAddFinalizer b f) (fun _ => Done) (bdcs_add_finalizer b f).
Definition Bds_Get (ns name : string) : Prog error BlockDevice :=
  call (BdGet ns name) ABd (bds_get ns name).

(** ** What a program emits *)

Definition emits {E T} (m : Prog E T) (Q : Trace -> outcome E T -> Prop) : Prop :=
  forall w, exists l, trace (m w).1 = trace w ++ l /\ Q l (m w).2.

Lemma emits_weaken {E T} (m : Prog E T) (P Q : Trace -> outcome E T -> Prop) :
  emits m P -> (forall l o, P l o -> Q l o) -> emits m Q.
Proof. intros Hm HPQ w. destruct (Hm w) as (l & ? & ?). eauto. Qed.

Lemma emits_ret {E T} (a : T) (Q : Trace -> outcome E T -> Prop) :
  Q [] (Ret a) -> emits (mret a) Q.
Proof. intros H w. exists []. by rewrite app_nil_r. Qed.

Lemma emits_throw {E T} (e : E) (Q : Trace -> outcome E T -> Prop) :
  Q [] (Fail e) -> emits (throw e) Q.
Proof. intros H w. exists []. by rewrite app_nil_r. Qed.

Lemma emits_lift {E T} (o : outcome E T) (Q : Trace -> outcome E T -> Prop) :
  Q [] o -> emits (lift o) Q.
Proof. intros H w. exists []. by rewrite app_nil_r. Qed.

Lemma emits_call {T} c f (op : M W error T) (Q : Trace -> outcome error T -> Prop) :
  (forall o, Q [(c, answer f o)] o) -> emits (call c f op) Q.
Proof. intros H w. unfold call. destruct (op (ext w)) as [s o]. cbn. eauto. Qed.

Lemma emits_tell {E} c (Q : Trace -> outcome E unit -> Prop) :
  Q [(c, Done)] (Ret tt) -> emits (tell c) Q.
Proof. intros H w. cbn. eauto. Qed.

Lemma emits_sleep {E} n (Q : Trace -> outcome E unit -> Prop) :
  Q [(Sleep n, Done)] (Ret tt) -> emits (sleep n) Q.
Proof. intros H w. cbn. eauto. Qed.

Lemma emits_map_order {E} (Q : Trace -> outcome E MapOrder -> Prop) :
  (forall o, Q [] (Ret o)) -> emits map_order Q.
Proof.
  intros H w. unfold map_order. destruct (next_order (ext w)) as [s o]. cbn.
  exists []. by rewrite app_nil_r.
Qed.

Lemma emits_bind {E T U} (m : Prog E T) (f : T -> Prog E U)
    (Q : Trace -> outcome E U -> Prop) :
  emits m (fun l o =>
    match o with
    | Ret a => emits (f a) (fun l' o' => Q (l ++ l') o')
    | Fail e => Q l (Fail e)
    | Panic => Q l Panic
    end) ->
  emits (m ≫= f) Q.
Proof.
  intros Hm w. destruct (Hm w) as (l & Hl & Ho). unfold mbind, M_bind.
  destruct (m w) as [w' [a|e|]]; cbn in *; eauto.
  destruct (Ho w') as (l' & Hl' & HQ). exists (l ++ l'). by rewrite Hl', Hl, <- app_assoc.
Qed.

Lemma emits_on_err {E F T} (m : Prog E T) (h : E -> Prog F T)
    (Q : Trace -> outcome F T -> Prop) :
  emits m (fun l o =>
    match o with
    | Ret a => Q l (Ret a)
    | Fail e => emits (h e) (fun l' o' => Q (l ++ l') o')
    | Panic => Q l Panic
    end) ->
  emits (on_err m h) Q.
Proof.
  intros Hm w. destruct (Hm w) as (l & Hl & Ho). unfold on_err.
  destruct (m w) as [w' [a|e|]]; cbn in *; eauto.
  destruct (Ho w') as (l' & Hl' & HQ). exists (l ++ l'). by rewrite Hl', Hl, <- app_assoc.
Qed.

Lemma emits_attempt {E F T} (m : Prog E T) (Q : Trace -> outcome F (T + E) -> Prop) :
  emits m (fun l o => Q l match o with
    | Ret a => Ret (inl a) | Fail e => Ret (inr e) | Panic => Panic end) ->
  emits (attempt m) Q.
Proof.
  intros Hm w. destruct (Hm w) as (l & Hl & Ho). unfold attempt.
  destruct (m w) as [w' [a|e|]]; cbn in *; eauto.
Qed.

(** [defer func() { ... fin() ... }()]: the call runs whatever the outcome of the body; an error of
    it is logged and dropped, and a panic of it is a panic of the whole. *)
Definition deferred {E T} (fin : Prog error unit) (m : Prog E T) : Prog E T := fun w =>
  let '(w1, o) := m w in
  match fin w1 with
  | (w2, Panic) => (w2, Panic)
  | (w2, _) => (w2, o)
  end.

(** The outcome of a body with a deferred call. *)
Definition after_deferred {E T} (fin : outcome error unit) (o : outcome E T) : outcome E T :=
  match fin with Panic => Panic | _ => o end.

Lemma emits_deferred {E T} (fin : Prog error unit) (m : Prog E T)
    (Q : Trace -> outcome E T -> Prop) :
  emits m (fun l o => emits fin (fun l' f => Q (l ++ l') (after_deferred f o))) ->
  emits (deferred fin m) Q.
Proof.
  intros Hm w. destruct (Hm w) as (l & Hl & Ho). unfold deferred.
  destruct (m w) as [w' o]. cbn in *. destruct (Ho w') as (l' & Hl' & HQ).
  exists (l ++ l'). destruct (fin w') as [w2 f]. cbn in *.
  rewrite app_assoc, <- Hl, <- Hl'. by destruct f.
Qed.

End Ops.
End Calls.

(** ** Properties of traces that are kept by adding calls *)

Section Stays.
Context {A : ApiTypes} {W : Type} {K : Cluster W}.

Class Appends (P : Trace -> Prop) := {
  appends_nil : P [];
  appends_app l l' : P l -> P l' -> P (l ++ l') }.

(** Whatever happens, the calls that [m] adds satisfy [P]. *)
Definition stays {E T} (m : Prog (W := W) E T) (P : Trace -> Prop) : Prop :=
  emits m (fun l _ => P l).

Context (P : Trace -> Prop) {HP : Appends P}.

Lemma stays_ret {E T} (a : T) : stays (E := E) (mret a) P.
Proof. apply emits_ret, appends_nil. Qed.

Lemma stays_throw {E T} (e : E) : stays (T := T) (throw e) P.
Proof. apply emits_throw, appends_nil. Qed.

Lemma stays_lift {E T} (o : outcome E T) : stays (lift o) P.
Proof. apply emits_lift, appends_nil. Qed.

Lemma stays_map_order {E} : stays (E := E) map_order P.
Proof. apply emits_map_order. intros _. apply appends_nil. Qed.

Lemma stays_tell {E} c : P [(c, Done)] -> stays (E := E) (tell c) P.
Proof. intros H. by apply emits_tell. Qed.

Lemma stays_call {T} c (f : T -> Answer) op : (forall a, P [(c, a)]) -> stays (call c f op) P.
Proof. intros H. by apply emits_call. Qed.

Lemma stays_bind {E T U} (m : Prog (W := W) E T) (f : T -> Prog (W := W) E U) :
  stays m P -> (forall a, stays (f a) P) -> stays (m ≫= f) P.
Proof.
  intros Hm Hf. apply emits_bind. eapply emits_weaken; [exact Hm|]. intros l [a|e|] Hl; [|done..].
  eapply emits_weaken; [apply Hf|]. intros l' ? Hl'. by apply appends_app.
Qed.

Lemma stays_lift_bind {E T U} (o : outcome E T) (f : T -> Prog (W := W) E U) :
  (forall a, o = Ret a -> stays (f a) P) -> stays (lift o ≫= f) P.
Proof.
  intros Hf. apply emits_bind, emits_lift. destruct o as [a|e|]; [|apply appends_nil..].
  by apply Hf.
Qed.

Lemma stays_on_err {E F T} (m : Prog (W := W) E T) (h : E -> Prog (W := W) F T) :
  stays m P -> (forall e, stays (h e) P) -> stays (on_err m h) P.
Proof.
  intros Hm Hh. apply emits_on_err. eapply emits_weaken; [exact Hm|]. intros l [a|e|] Hl; [done| |done].
  eapply emits_weaken; [apply Hh|]. intros l' ? Hl'. by apply appends_app.
Qed.

End Stays.

(** Follows the structure of a program: the calls that are left are shown to satisfy the property. *)
Ltac stay :=
  lazymatch goal with
  | |- forall _, _ => intro; stay
  | |- stays (match ?x with _ => _ end) _ => destruct x; stay
  | |- stays (let _ := _ in _) _ => cbv zeta; stay
  | |- stays (_ ≫= _) _ => apply stays_bind; [apply _|stay|stay]
  | |- stays (on_err _ _) _ => apply stays_on_err; [apply _|stay|stay]
  | |- stays (mret _) _ => apply stays_ret, _
  | |- stays (throw _) _ => apply stays_throw, _
  | |- stays (lift _) _ => apply stays_lift, _
  | |- stays map_order _ => apply stays_map_order, _
  | |- stays (tell _) _ => apply stays_tell; auto with go
  | |- stays (call _ _ _) _ => apply stays_call; intros; auto with go
  | |- _ => eauto with go
  end.

(** The calls are all of one kind. *)
#[export] Instance Forall_appends {A : ApiTypes} (P : Call * Answer -> Prop) :
  Appends (Forall P).
Proof. split; [constructor|]. intros l l' H H'. by apply Forall_app. Qed.
