(* ===== verification/VolumeConfig.v ===== *)
(** * The configuration of a volume

    [src/cmd/provisioner-localpv/app/config.go] and the types of [types.go]: the entries of the
    StorageClass annotation merged with the defaults, the accessors with their default values,
    and the readers of node and volume metadata. *)

From S2P Require Import Prelude GoStrings GoPath KubeApi Maya Cluster.
Open Scope string_scope. Open Scope list_scope.

(* Source: src/cmd/provisioner-localpv/app/config.go *)

(* go: 38-38 KeyPVStorageType *)
Definition KeyPVStorageType := "StorageType".
(* go: 42-42 KeyPVBasePath *)
Definition KeyPVBasePath := "BasePath".
(* go: 46-46 KeyPVFSType *)
Definition KeyPVFSType := "FSType".
(* go: 50-50 KeyBDTag *)
Definition KeyBDTag := "BlockDeviceTag".
(* go: 55-55 KeyNodeAffinityLabel *)
Definition KeyNodeAffinityLabel := "NodeAffinityLabel".
(* go: 75-75 KeyNodeAffinityLabels *)
Definition KeyNodeAffinityLabels := "NodeAffinityLabels".
(* go: 99-99 KeyBlockDeviceSelectors *)
Definition KeyBlockDeviceSelectors := "BlockDeviceSelectors".
(* go: 120-120 KeyXFSQuota *)
Definition KeyXFSQuota := "XFSQuota".
(* go: 129-129 KeyEXT4Quota *)
Definition KeyEXT4Quota := "EXT4Quota".
(* go: 131-131 KeyQuotaSoftLimit *)
Definition KeyQuotaSoftLimit := "softLimitGrace".
(* go: 132-132 KeyQuotaHardLimit *)
Definition KeyQuotaHardLimit := "hardLimitGrace".
(* go: 138-138 betaStorageClassAnnotation *)
Definition betaStorageClassAnnotation := "volume.beta.kubernetes.io/storage-class".
(* go: 142-142 k8sNodeLabelKeyHostname *)
Definition k8sNodeLabelKeyHostname := "kubernetes.io/hostname".

(* Source: src/cmd/provisioner-localpv/app/types.go *)

Record VolumeConfig := {
  pvName : string;
  pvcName : string;
  scName : string;
  options : object_map;
  configData : object_map;
  configList : object_map }.

(* Source: src/cmd/provisioner-localpv/app/config.go *)

Section Accessors.
Context {Y : Maya}.

Definition getValue (c : VolumeConfig) (key : string) : string :=
  match GetNestedField (options c) key with
  | IStrMap configObj =>
    match mget configObj ValuePTP with Some val => val | None => "" end
  | _ => ""
  end.

Definition getEnabled (c : VolumeConfig) (key : string) : string :=
  match GetNestedField (options c) key with
  | IStrMap configObj =>
    match mget configObj EnabledPTP with Some val => val | None => "" end
  | _ => ""
  end.

Definition getDataField (c : VolumeConfig) (key dataKey : string) : string :=
  match GetNestedField (configData c) key with
  | IStrMap configData =>
    match mget configData dataKey with Some val => val | None => "" end
  | _ => ""
  end.

Definition getData (c : VolumeConfig) (key : string) : gomap string :=
  match GetNestedField (configData c) key with
  | IStrMap configData => configData
  | _ => None
  end.

Definition getList (c : VolumeConfig) (key : string) : slice string :=
  match GetNestedField (configList c) key with
  | IStrList listValues => listValues
  | _ => None
  end.

Definition GetStorageType (c : VolumeConfig) : string :=
  let stgType := getValue c KeyPVStorageType in
  if (len (TrimSpace stgType) =? 0)%nat then "hostpath" else stgType.

Definition GetBlockDeviceSelectors (c : VolumeConfig) : gomap string :=
  getData c KeyBlockDeviceSelectors.

Definition GetBDTagValue (c : VolumeConfig) : string :=
  let bdTagValue := getValue c KeyBDTag in
  if (len (TrimSpace bdTagValue) =? 0)%nat then "" else bdTagValue.

Definition GetFSType (c : VolumeConfig) : string :=
  let fsType := getValue c KeyPVFSType in
  if (len (TrimSpace fsType) =? 0)%nat then "" else fsType.

Definition GetNodeAffinityLabelKey (c : VolumeConfig) : string :=
  let nodeAffinityLabelKey := getValue c KeyNodeAffinityLabel in
  if (len (TrimSpace nodeAffinityLabelKey) =? 0)%nat then "" else nodeAffinityLabelKey.

Definition GetNodeAffinityLabelKeys (c : VolumeConfig) : slice string :=
  match getList c KeyNodeAffinityLabels with
  | None => None
  | nodeAffinityLabelKeys => nodeAffinityLabelKeys
  end.

(* go: (c *VolumeConfig) GetPath *)
Definition GetPath (c : VolumeConfig) : outcome error string :=
  let basePath := getValue c KeyPVBasePath in
  if String.eqb (TrimSpace basePath) "" then
    Fail (Errorf "failed to get path: base path is empty" [])
  else
    let pvRelPath := pvName c in
    BuildNonRootPath basePath pvRelPath "path should not be a root directory: %s/%s"
      [AStr basePath; AStr pvRelPath].

Definition IsXfsQuotaEnabled (c : VolumeConfig) : bool :=
  match ParseBool (TrimSpace (getEnabled c KeyXFSQuota)) with
  | None => false
  | Some enableXfsQuotaBool => enableXfsQuotaBool
  end.

Definition IsExt4QuotaEnabled (c : VolumeConfig) : bool :=
  match ParseBool (TrimSpace (getEnabled c KeyEXT4Quota)) with
  | None => false
  | Some enableExt4QuotaBool => enableExt4QuotaBool
  end.

(** The loops over the configuration entries. *)
(* go: 480-496 dataConfigToMap *)
Fixpoint dataConfigToMap_from (pvConfig : list Config) (m : object_map) :
    outcome error object_map :=
  match pvConfig with
  | [] => Ret m
  | configObj :: rest =>
    match cfg_Data configObj with
    | None => dataConfigToMap_from rest m
    | Some _ =>
      let configName := TrimSpace (cfg_Name configObj) in
      let confHierarchy : object_map := {[ configName := IStrMap (cfg_Data configObj) ]} in
      let '(m, isMerged) := MergeMapOfObjects m confHierarchy in
      if negb isMerged then
        Fail (Errorf "failed to transform cas config 'Data' for configName '%s' to map: failed to merge: %s"
          [AStr configName; AOther])
      else dataConfigToMap_from rest m
    end
  end.

Definition dataConfigToMap (pvConfig : list Config) : outcome error object_map :=
  dataConfigToMap_from pvConfig ∅.

(* go: 502-518 listConfigToMap *)
Fixpoint listConfigToMap_from (pvConfig : list Config) (m : object_map) :
    outcome error object_map :=
  match pvConfig with
  | [] => Ret m
  | configObj :: rest =>
    if (length (cfg_List configObj) =? 0)%nat then listConfigToMap_from rest m
    else
      let configName := TrimSpace (cfg_Name configObj) in
      let confHierarchy : object_map :=
        {[ configName := IStrList (Some (cfg_List configObj)) ]} in
      let '(m, isMerged) := MergeMapOfObjects m confHierarchy in
      if negb isMerged then
        Fail (Errorf "failed to transform cas config 'List' for configName '%s' to map: failed to merge: %s"
          [AStr configName; AOther])
      else listConfigToMap_from rest m
  end.

Definition listConfigToMap (pvConfig : list Config) : outcome error object_map :=
  listConfigToMap_from pvConfig ∅.

End Accessors.

Section Metadata.
Context {A : ApiTypes}.

Definition GetStorageClassName (pvc : PersistentVolumeClaim) : option string :=
  match mget (Annotations (pvc_Meta pvc)) betaStorageClassAnnotation with
  | Some class => Some class
  | None => pvc_StorageClassName pvc
  end.

Definition GetLocalPVType (pv : PersistentVolume) : string :=
  match mget (Labels (pv_Meta pv)) CASTypeKey with
  | Some casType => casType
  | None => ""
  end.

Definition GetNodeHostname (n : Node) : string :=
  match mget (Labels (node_Meta n)) k8sNodeLabelKeyHostname with
  | Some hostname => hostname
  | None => ""
  end.

Definition GetNodeLabelValue (n : Node) (labelKey : string) : string :=
  match mget (Labels (node_Meta n)) labelKey with
  | Some labelValue => labelValue
  | None => ""
  end.

Definition GetTaints (n : Node) : list Taint := node_Taints n.

Definition GetImagePullSecrets (s : string) : list LocalObjectReference :=
  let s := TrimSpace s in
  if (len s =? 0)%nat then []
  else
    let arr := SplitChar ","%char s in
    foldl (fun acc item =>
      if (0 <? len item)%nat then acc ++ [{| lor_Name := TrimSpace item |}] else acc) [] arr.

End Metadata.

(* Source: src/cmd/provisioner-localpv/app/types.go *)

Section Config.
Context {A : ApiTypes} {Y : Maya} {W : Type} {K : Cluster W}.

(** The field [getVolumeConfig] is set to the method [GetVolumeConfig]; [kubeClient] is the
    interface [Cluster]. *)
Record Provisioner := {
  namespace : string;
  helperImage : string;
  defaultConfig : list Config;
  getVolumeConfig : string -> PersistentVolumeClaim -> Prog (W := W) error VolumeConfig }.

(* Source: src/cmd/provisioner-localpv/app/config.go *)

(** [p.defaultConfig] is the only field of the receiver that is read. *)
Definition GetVolumeConfig (defaultConfig : list Config) (pvName : string)
    (pvc : PersistentVolumeClaim) : Prog (W := W) error VolumeConfig :=
  let pvConfig := defaultConfig in
  scName ← lift (deref (GetStorageClassName pvc));
  sc ← on_err (StorageClasses_Get scName) (fun err =>
    throw (Wrapf err "failed to get storageclass: missing sc name {%v}" [AOther]));
  let scCASConfigStr := mget_str (Annotations (sc_Meta sc)) CASConfigKey in
  pvConfig ← (if negb (len (TrimSpace scCASConfigStr) =? 0)%nat then
      scCASConfig ← on_err (lift (UnMarshallToConfig scCASConfigStr)) (fun err =>
        throw (Wrapf err "failed to get config: invalid sc config {%v}" [AStr scCASConfigStr]));
      mret (MergeConfig scCASConfig pvConfig)
    else mret pvConfig);
  let unreadable err :=
    throw (Wrapf err "unable to read volume config: pvc {%v}" [AStr (Name (pvc_Meta pvc))]) in
  pvConfigMap ← on_err (lift (ConfigToMap pvConfig)) unreadable;
  dataPvConfigMap ← on_err (lift (dataConfigToMap pvConfig)) unreadable;
  listPvConfigMap ← on_err (lift (listConfigToMap pvConfig)) unreadable;
  mret {| pvName := pvName; pvcName := Name (pvc_Meta pvc); scName := scName;
          options := pvConfigMap; configData := dataPvConfigMap;
          configList := listPvConfigMap |}.

End Config.

(** ** Image pull secrets *)

Lemma GetImagePullSecrets_eq s :
  GetImagePullSecrets s
  = (fun item => {| lor_Name := TrimSpace item |}) <$>
      filter (fun item => item <> "") (SplitChar ","%char (TrimSpace s)).
Proof.
  unfold GetImagePullSecrets. set (t := TrimSpace s).
  assert (forall l acc, foldl (fun acc item => if (0 <? len item)%nat
      then acc ++ [{| lor_Name := TrimSpace item |}] else acc) acc l
    = acc ++ ((fun item => {| lor_Name := TrimSpace item |}) <$> filter (fun item => item <> "") l))
    as H.
  { induction l as [|x l IH]; intros acc; [cbn; by rewrite app_nil_r|]. cbn [foldl].
    rewrite IH, filter_cons. destruct x as [|a x].
    - rewrite decide_False by (intros Hx; by apply Hx). done.
    - rewrite decide_True by done. cbn. by rewrite <- app_assoc. }
  destruct t as [|a t'] eqn:E; [done|]. cbn [String.length Nat.eqb]. by rewrite H.
Qed.

(** Text in which a name can be listed. *)
Definition secret_name (n : string) : Prop :=
  n <> "" /\ all_graphic n = true /\ Contains n "," = false.

Lemma comma_free_cons a s :
  Contains (String a s) "," = Ascii.eqb a ","%char || Contains s ",".
Proof. cbn [Contains HasPrefix]. destruct (Ascii.eqb a ","%char); [by destruct s|done]. Qed.

Lemma SplitChar_names ns :
  ns <> [] -> Forall secret_name ns -> SplitChar ","%char (join ","%char ns) = ns.
Proof.
  assert (forall n t, Contains n "," = false ->
    SplitChar ","%char (n +:+ t) = match SplitChar ","%char t with
      | w :: ws => (n +:+ w) :: ws | [] => [n] end) as Happ.
  { induction n as [|a n IH]; intros t Hn.
    - cbn [String.append]. by destruct (SplitChar ","%char t) eqn:E; [apply SplitChar_nonnil in E|].
    - rewrite comma_free_cons in Hn. apply orb_false_iff in Hn as [Ha Hn].
      cbn [String.append SplitChar]. rewrite Ha, IH by done. by destruct (SplitChar ","%char t). }
  induction ns as [|n ns IH]; [done|]. intros _ Hns. inversion Hns as [|? ? (_ & _ & Hn) Hns']; subst.
  destruct ns as [|n' ns].
  - cbn [join]. rewrite <- (sapp_nil_r n) at 1. rewrite Happ by done. cbn. by rewrite sapp_nil_r.
  - change (join ","%char (n :: n' :: ns)) with (n +:+ String ","%char (join ","%char (n' :: ns))).
    rewrite Happ by done. cbn [SplitChar]. rewrite Ascii.eqb_refl, IH by done. by rewrite sapp_nil_r.
Qed.

Lemma join_graphic ns :
  Forall secret_name ns -> all_graphic (join ","%char ns) = true.
Proof.
  induction 1 as [|n ns (_ & Hn & _) Hns IH]; [done|]. destruct ns as [|n' ns]; [done|].
  change (join ","%char (n :: n' :: ns)) with (n +:+ String ","%char (join ","%char (n' :: ns))).
  rewrite all_graphic_app, Hn. done.
Qed.

(** The secrets listed in the environment, separated by commas, are the secrets of the helper
    pods, in order. *)
Theorem image_pull_secrets_roundtrip ns :
  Forall secret_name ns -> lor_Name <$> GetImagePullSecrets (join ","%char ns) = ns.
Proof.
  intros Hns. rewrite GetImagePullSecrets_eq, (TrimSpace_id _ (join_graphic _ Hns)).
  destruct ns as [|n ns]; [done|]. rewrite SplitChar_names by done.
  rewrite <- list_fmap_compose. induction Hns as [|m ms (Hm & Hg & _) _ IH]; [done|].
  rewrite filter_cons, decide_True by done. rewrite fmap_cons, IH. f_equal. cbn. by apply TrimSpace_id.
Qed.

(** ** What the accessors give

    The entries of a configuration, by name. *)

(** The last entry of a name that has data. *)
Definition last_data (key : string) (cs : list Config) : gomap string :=
  last (filter (fun c => config_key c = key) cs ≫= fun c => option_list (cfg_Data c)).

(** The last entry of a name that has a nonempty list. *)
Definition last_list (key : string) (cs : list Config) : slice string :=
  last (filter (fun c => config_key c = key) cs ≫= fun c =>
    match cfg_List c with [] => [] | l => [l] end).

(** The configuration of a StorageClass annotation merged with the defaults; an annotation that
    is blank adds nothing. *)
Definition merged_config {Y : Maya} (annotation : string) (defaults : list Config) :
    outcome error (list Config) :=
  if (len (TrimSpace annotation) =? 0)%nat then Ret defaults
  else cs ← UnMarshallToConfig annotation; Ret (MergeConfig cs defaults).

Section Lemmas.
Context {Y : Maya} {L : MayaLaws Y}.

Lemma dataConfigToMap_spec cs :
  exists m, dataConfigToMap cs = Ret m /\
    forall key, m !! key = (fun d => IStrMap (Some d)) <$> last_data key cs.
Proof.
  unfold dataConfigToMap, last_data.
  enough (forall m0, exists m, dataConfigToMap_from cs m0 = Ret m /\ forall key,
    m !! key = match last (filter (fun c => config_key c = key) cs ≫=
        fun c => option_list (cfg_Data c)) with
      | Some d => Some (IStrMap (Some d)) | None => m0 !! key end) as H.
  { destruct (H ∅) as (m & -> & Hm). exists m. split; [done|]. intros key.
    rewrite Hm, lookup_empty. by case_match. }
  induction cs as [|c cs IH]; intros m0; [by exists m0|]. cbn [dataConfigToMap_from].
  destruct (cfg_Data c) as [d|] eqn:Ed.
  - rewrite MergeMapOfObjects_spec. cbn [negb].
    destruct (IH ({[TrimSpace (cfg_Name c) := IStrMap (Some d)]} ∪ m0)) as (m & -> & Hm).
    exists m. split; [done|]. intros key. rewrite Hm, filter_cons. fold (config_key c).
    case_decide as Hk; [|case_match; [done|]].
    + rewrite bind_cons, Ed. change (option_list (Some d)) with [d]. cbn [app].
      rewrite last_cons. case_match; [done|]. subst key. by rewrite lookup_union_l'; rewrite lookup_singleton_eq.
    + rewrite lookup_union_r; [done|]. by rewrite lookup_singleton_ne.
  - destruct (IH m0) as (m & -> & Hm). exists m. split; [done|]. intros key.
    rewrite Hm, filter_cons. case_decide; [|done]. by rewrite bind_cons, Ed.
Qed.

Lemma listConfigToMap_spec cs :
  exists m, listConfigToMap cs = Ret m /\
    forall key, m !! key = (fun l => IStrList (Some l)) <$> last_list key cs.
Proof.
  unfold listConfigToMap, last_list.
  enough (forall m0, exists m, listConfigToMap_from cs m0 = Ret m /\ forall key,
    m !! key = match last (filter (fun c => config_key c = key) cs ≫=
        fun c => match cfg_List c with [] => [] | l => [l] end) with
      | Some d => Some (IStrList (Some d)) | None => m0 !! key end) as H.
  { destruct (H ∅) as (m & -> & Hm). exists m. split; [done|]. intros key.
    rewrite Hm, lookup_empty. by case_match. }
  induction cs as [|c cs IH]; intros m0; [by exists m0|]. cbn [listConfigToMap_from].
  destruct (cfg_List c) as [|x d] eqn:Ed; cbn [length Nat.eqb].
  - destruct (IH m0) as (m & -> & Hm). exists m. split; [done|]. intros key.
    rewrite Hm, filter_cons. case_decide; [|done]. by rewrite bind_cons, Ed.
  - rewrite MergeMapOfObjects_spec. cbn [negb].
    destruct (IH ({[TrimSpace (cfg_Name c) := IStrList (Some (x :: d))]} ∪ m0)) as (m & -> & Hm).
    exists m. split; [done|]. intros key. rewrite Hm, filter_cons. fold (config_key c).
    case_decide as Hk; [|case_match; [done|]].
    + rewrite bind_cons, Ed. cbn [app]. rewrite last_cons.
      case_match; [done|]. subst key. by rewrite lookup_union_l'; rewrite lookup_singleton_eq.
    + rewrite lookup_union_r; [done|]. by rewrite lookup_singleton_ne.
Qed.

End Lemmas.

(** A volume configuration shows the entries [cs]: every accessor gives what the last entry of
    the name says, or the zero value. *)
Record shows {Y : Maya} (c : VolumeConfig) (cs : list Config) : Prop := {
  shows_value key : getValue c key = default "" (cfg_Value <$> last_config key cs);
  shows_enabled key : getEnabled c key = default "" (cfg_Enabled <$> last_config key cs);
  shows_data key : getData c key = last_data key cs;
  shows_field key field : getDataField c key field = mget_str (last_data key cs) field;
  shows_list key : getList c key = last_list key cs }.

Section Merging.
Context {A : ApiTypes} {Y : Maya} {L : MayaLaws Y} {W : Type} {K : Cluster W}.

(** What a finished [GetVolumeConfig] did: one request for the StorageClass of the claim, and a
    configuration that shows the merged entries. *)
Definition config_outcome (defaults : list Config) (pv : string) (pvc : PersistentVolumeClaim)
    (l : Trace) (o : outcome error VolumeConfig) : Prop :=
  match o with
  | Ret c => exists sc cs,
      l = [(StorageClassGet (scName c), AStorageClass sc)] /\
      GetStorageClassName pvc = Some (scName c) /\
      pvName c = pv /\ pvcName c = Name (pvc_Meta pvc) /\
      merged_config (mget_str (Annotations (sc_Meta sc)) CASConfigKey) defaults = Ret cs /\
      Forall (fun e => config_key e <> "") cs /\ shows c cs
  | Fail e => exists scn, GetStorageClassName pvc = Some scn /\
      ((exists e', l = [(StorageClassGet scn, Refused e')]) \/
       exists sc, l = [(StorageClassGet scn, AStorageClass sc)] /\
         match merged_config (mget_str (Annotations (sc_Meta sc)) CASConfigKey) defaults with
         | Ret cs => Exists (fun e => config_key e = "") cs
         | _ => True
         end)
  | Panic => (GetStorageClassName pvc = None /\ l = []) \/
      exists scn, GetStorageClassName pvc = Some scn /\ l = [(StorageClassGet scn, Crashed)]
  end.

Lemma maps_show pv pvcn scn cs mo md ml :
  (forall key, mo !! key = (fun c => IStrMap (Some (<[EnabledPTP := cfg_Enabled c]>
     {[ValuePTP := cfg_Value c]}))) <$> last_config key cs) ->
  (forall key, md !! key = (fun d => IStrMap (Some d)) <$> last_data key cs) ->
  (forall key, ml !! key = (fun l => IStrList (Some l)) <$> last_list key cs) ->
  shows {| pvName := pv; pvcName := pvcn; scName := scn; options := mo; configData := md;
           configList := ml |} cs.
Proof.
  intros Ho Hd Hl. split; intros key; unfold getValue, getEnabled, getData, getDataField, getList;
    cbn [options configData configList]; intros; rewrite GetNestedField_spec, ?Ho, ?Hd, ?Hl.
  - by destruct (last_config key cs).
  - by destruct (last_config key cs).
  - by destruct (last_data key cs).
  - destruct (last_data key cs); [|done]. cbn. unfold mget_str. cbn. by case_match.
  - by destruct (last_list key cs).
Qed.

Lemma GetVolumeConfig_emits defaults pv pvc :
  emits (GetVolumeConfig (W := W) defaults pv pvc) (config_outcome defaults pv pvc).
Proof.
  destruct (maya_no_panic (Y := Y)) as (_ & _ & Hcm & Hum).
  unfold GetVolumeConfig. apply emits_bind, emits_lift.
  destruct (GetStorageClassName pvc) as [scn|] eqn:Hscn; cbn [deref]; [|left; done].
  apply emits_bind, emits_on_err, emits_call. intros [sc|e|]; cbn [answer app].
  2: { apply emits_throw. exists scn. eauto. }
  2: { right. eauto. }
  set (ann := mget_str _ _).
  apply emits_bind. apply emits_weaken with (P := fun l o => l = [] /\
    match merged_config ann defaults with
    | Ret cs => o = Ret cs | Fail _ => is_Ret o = false /\ o <> Panic | Panic => False end).
  { unfold merged_config. destruct (len (TrimSpace ann) =? 0)%nat; cbn [negb].
    - by apply emits_ret.
    - apply emits_bind, emits_on_err, emits_lift. unfold mbind, outcome_bind.
      destruct (UnMarshallToConfig ann) as [cs|e|] eqn:E.
      + cbn [app]. by apply emits_ret.
      + apply emits_throw. cbn. done.
      + by apply Hum in E. }
  intros l o [-> Ho]. destruct (merged_config ann defaults) as [cs|e|] eqn:Hm; [| |done].
  2: { destruct o; destruct Ho as [Hr Hp]; try done. exists scn. split; [done|]. right.
       exists sc. fold ann. by rewrite Hm. }
  subst o. cbn [app]. apply emits_bind, emits_on_err, emits_lift.
  destruct (decide (Forall (fun e => config_key e <> "") cs)) as [Hne|Hbl].
  - destruct (ConfigToMap_spec cs Hne) as (mo & -> & Ho).
    destruct (dataConfigToMap_spec cs) as (md & Hmd & Hd).
    destruct (listConfigToMap_spec cs) as (ml & Hml & Hl).
    apply emits_bind, emits_on_err, emits_lift. rewrite Hmd.
    apply emits_bind, emits_on_err, emits_lift. rewrite Hml.
    apply emits_ret. cbn. exists sc, cs. fold ann.
    split_and!; try done. by apply maps_show.
  - apply not_Forall_Exists in Hbl; [|apply _].
    assert (Exists (fun e => config_key e = "") cs) as Hex.
    { eapply Exists_impl; [exact Hbl|]. cbn. intros c. apply dec_stable. }
    destruct (ConfigToMap_blank cs Hex) as (e & ->). apply emits_throw. exists scn.
    split; [done|]. right. exists sc. fold ann. by rewrite Hm.
Qed.

(** C12: the configuration of a volume.  It takes one request, for the StorageClass that the claim
    names; its entries are those of the annotation of the class and, for the names the annotation
    does not mention, the defaults; every accessor gives what the last entry of a name says.  The
    annotations of the claim, which the comment of the code names, add no entry. *)
Theorem GetVolumeConfig_merges defaults pv pvc w w' c :
  GetVolumeConfig (W := W) defaults pv pvc w = (w', Ret c) ->
  exists sc cs,
    GetStorageClassName pvc = Some (scName c) /\
    trace w' = trace w ++ [(StorageClassGet (scName c), AStorageClass sc)] /\
    pvName c = pv /\ pvcName c = Name (pvc_Meta pvc) /\
    merged_config (mget_str (Annotations (sc_Meta sc)) CASConfigKey) defaults = Ret cs /\
    (forall key, getValue c key = default "" (cfg_Value <$> last_config key cs) /\
      getEnabled c key = default "" (cfg_Enabled <$> last_config key cs) /\
      getData c key = last_data key cs /\ getList c key = last_list key cs) /\
    (forall entries, UnMarshallToConfig (mget_str (Annotations (sc_Meta sc)) CASConfigKey)
        = Ret entries -> TrimSpace (mget_str (Annotations (sc_Meta sc)) CASConfigKey) <> "" ->
      forall key, last_config key cs =
        match last_config key entries with Some e => Some e | None => last_config key defaults end).
Proof.
  intros Hrun. destruct (GetVolumeConfig_emits defaults pv pvc w) as (l & Hl & Ho).
  rewrite Hrun in Hl, Ho. destruct Ho as (sc & cs & -> & Hn & Hpv & Hpvc & Hm & _ & Hs).
  exists sc, cs. split_and!; try done.
  - intros key. split_and!; apply Hs.
  - intros entries Hu Hne key. unfold merged_config in Hm.
    destruct (TrimSpace _) eqn:E; [done|]. cbn [String.length Nat.eqb] in Hm. rewrite Hu in Hm.
    apply Ret_inj in Hm. subst cs. apply MergeConfig_last.
Qed.

End Merging.
