(* ===== verification/HelperHostpath.v ===== *)
(** * The helper pods of hostpath volumes

    [src/cmd/provisioner-localpv/app/helper_hostpath.go]: the options of a helper pod, the quota
    limits, and the three pods that create a directory, delete it or set a quota on it.  Each
    pod is built with the package builders, created, polled until it succeeds and deleted. *)

From Stdlib Require Import QArith.
From S2P Require Import Prelude GoStrings GoFloat GoPath KubeApi Builder NodeAffinity Maya Cluster.
From S2P Require Import VolumeConfig.
From S2P Require VolumeBuilder ContainerBuilder PodBuilder.
Close Scope Q_scope.
Open Scope string_scope. Open Scope list_scope.

(* Source: src/cmd/provisioner-localpv/app/helper_hostpath.go *)

(* go: 48-52 CmdTimeoutCounts *)
Definition CmdTimeoutCounts : nat := 120.

Section Options.
Context {A : ApiTypes}.

Record HelperPodOptions := {
  nodeAffinityLabels : gomap string;
  name : string;
  cmdsForPath : list string;
  path : string;
  serviceAccountName : string;
  selectedNodeTaints : list Taint;
  imagePullSecrets : list LocalObjectReference;
  softLimitGrace : string;
  hardLimitGrace : string;
  pvcStorage : Z }.
#[global] Instance Eta_HelperPodOptions : Eta HelperPodOptions := fun r =>
  {| nodeAffinityLabels := nodeAffinityLabels r; name := name r; cmdsForPath := cmdsForPath r;
     path := path r; serviceAccountName := serviceAccountName r;
     selectedNodeTaints := selectedNodeTaints r; imagePullSecrets := imagePullSecrets r;
     softLimitGrace := softLimitGrace r; hardLimitGrace := hardLimitGrace r;
     pvcStorage := pvcStorage r |}.

(** [pOpts] is a pointer in the code; the options it points to are the value here, and the
    functions that assign them return the new value. *)
Record podConfig := {
  pOpts : HelperPodOptions;
  parentDir : string;
  volumeDir : string;
  podName : string;
  taints : list Taint }.

(* go: (pOpts *HelperPodOptions) validate() *)
Definition validate (p : HelperPodOptions) : outcome error unit :=
  if String.eqb (name p) "" || String.eqb (path p) ""
     || match nodeAffinityLabels p with None => true | Some _ => false end
     || (mlen (nodeAffinityLabels p) =? 0)%nat
     || String.eqb (serviceAccountName p) "" then
    Fail (Errorf "invalid empty name or hostpath or hostname or service account name" [])
  else Ret tt.

Definition validateLimits (p : HelperPodOptions) : HelperPodOptions * outcome error unit :=
  let soft := softLimitGrace p in
  let hard := hardLimitGrace p in
  if String.eqb soft "0k" && String.eqb hard "0k" then
    let pvcStorageInKString := FormatCeil (fdiv (of_int (pvcStorage p)) 1024%Q) +:+ "k" in
    (p <| softLimitGrace := pvcStorageInKString |> <| hardLimitGrace := pvcStorageInKString |>,
     Ret tt)
  else if String.eqb soft "0k" || String.eqb hard "0k" then (p, Ret tt)
  else if (len hard <? len soft)%nat || (len soft =? len hard)%nat && str_ltb hard soft then
    (p, Fail (Errorf "hard limit cannot be smaller than soft limit" []))
  else (p, Ret tt).

(** [valueRegex.FindString]: the expression matches at the start of every string, and each of its
    three parts takes as much as it can. *)
(* go: 137-138 convertToK *)
Definition FindString (limit : string) : string :=
  let '(ip, r1) := take_digits limit in
  let '(dot, r2) := take_dot r1 in
  let '(fp, _) := take_digits r2 in
  ip +:+ dot +:+ fp.

(** The arithmetic of [convertToK]: the storage and a percentage of it, in units of 1024. *)
(* go: 148-155 convertToK *)
Definition limit_in_k (value : float64) (pvcStorage : Z) : float64 :=
  let value := if Qle_bool value 100%Q then value else 100%Q in
  let value := fmul value (of_int pvcStorage) in
  let value := fdiv value 100%Q in
  let value := fadd value (of_int pvcStorage) in
  fdiv value 1024%Q.

Definition convertToK (limit : string) (pvcStorage : Z) : outcome error string :=
  if (len limit =? 0)%nat then Ret "0k"
  else
    let valueString := FindString limit in
    if negb (String.eqb limit (valueString +:+ "%")) then
      Fail (Errorf "invalid format for limit grace" [])
    else
      match ParseFloat valueString with
      | None => Fail (Errorf "invalid format, cannot parse" [])
      | Some value => Ret (FormatCeil (limit_in_k value pvcStorage) +:+ "k")
      end.

End Options.

Section Pods.
Context {A : ApiTypes} {Y : Maya} {W : Type} {K : Cluster W}.

(** [hostpath.NewBuilder().WithPath(path).WithCheckf(IsNonRoot, ...).ExtractSubPath()]. *)
(* go: 180-182 createInitPod *)
Definition extract_volume_dir (path : string) : outcome error (string * string) :=
  ExtractNonRootSubPath path "volume directory {%v} should not be under root directory"
    [AStr path].

(** The pod that [launchPod] builds, as the chain of calls on the builders. *)
(* go: 323-360 launchPod *)
Definition helper_container (helperImage : string) (config : podConfig) :
    ContainerBuilder.Builder :=
  ContainerBuilder.run
    [ContainerBuilder.OpName ("local-path-" +:+ podName config);
     ContainerBuilder.OpImage helperImage;
     ContainerBuilder.OpCommandNew (match cmdsForPath (pOpts config) with [] => None | l => Some l end);
     ContainerBuilder.OpVolumeMountsNew (Some
       [{| vm_Name := "data"; vm_ReadOnly := false; vm_MountPath := "/data/" |};
        {| vm_Name := "dev"; vm_ReadOnly := false; vm_MountPath := "/dev/" |}]);
     ContainerBuilder.OpPrivileged (Some true)]
    ContainerBuilder.NewBuilder.

(* go: 351-353 launchPod *)
Definition helper_volume (vname dir : string) : VolumeBuilder.Builder :=
  run VolumeBuilder.apply [VolumeBuilder.OpName vname; VolumeBuilder.OpHostDirectory dir]
    VolumeBuilder.NewBuilder.

(* go: 323-360 launchPod *)
Definition helper_pod_calls (Ord : MapOrder) (helperImage : string) (config : podConfig) :
    list PodBuilder.Op :=
  [PodBuilder.OpName (podName config +:+ "-" +:+ name (pOpts config));
   PodBuilder.OpRestartPolicy RestartPolicyNever;
   PodBuilder.OpNodeAffinityNew Ord (nodeAffinityLabels (pOpts config));
   PodBuilder.OpServiceAccountName (serviceAccountName (pOpts config));
   PodBuilder.OpTolerationsForTaints (taints config);
   PodBuilder.OpContainerBuilder (helper_container helperImage config);
   PodBuilder.OpImagePullSecrets (imagePullSecrets (pOpts config));
   PodBuilder.OpVolumeBuilder (helper_volume "data" (parentDir config));
   PodBuilder.OpVolumeBuilder (helper_volume "dev" "/dev/")].

Definition launchPod (p : Provisioner (W := W)) (config : podConfig) : Prog (W := W) error Pod :=
  Ord ← map_order;
  helperPod ← lift (PodBuilder.Build
    (run PodBuilder.apply (helper_pod_calls Ord (helperImage p) config) PodBuilder.NewBuilder));
  Pods_Create (namespace p) helperPod.

(** The polling loop of [exitPod]; [n] is the number of iterations left. *)
(* go: 381-392 exitPod *)
Fixpoint wait_for_pod (ns podName : string) (n : nat) : Prog (W := W) error bool :=
  match n with
  | 0 => mret false
  | S n =>
    checkPod ← Pods_Get ns podName;
    if String.eqb (pod_Phase checkPod) PodSucceeded then mret true
    else _ ← sleep 1; wait_for_pod ns podName n
  end.

Definition exitPod (p : Provisioner (W := W)) (hPod : Pod) : Prog (W := W) error unit :=
  deferred (Pods_Delete (namespace p) (Name (pod_Meta hPod))) (
    completed ← wait_for_pod (namespace p) (Name (pod_Meta hPod)) CmdTimeoutCounts;
    if negb completed then
      throw (Errorf "create process timeout after %v seconds" [AInt (Z.of_nat CmdTimeoutCounts)])
    else mret tt).

Definition createInitPod (p : Provisioner (W := W)) (o : HelperPodOptions) :
    Prog (W := W) error unit :=
  _ ← lift (validate o);
  '(parentDir, volumeDir) ← lift (extract_volume_dir (path o));
  let o := o <| cmdsForPath ::= fun cmds => cmds ++ [Join2 "/data/" volumeDir] |> in
  iPod ← launchPod p {| pOpts := o; parentDir := parentDir; volumeDir := volumeDir;
                        podName := "init"; taints := selectedNodeTaints o |};
  exitPod p iPod.

Definition createCleanupPod (p : Provisioner (W := W)) (o : HelperPodOptions) :
    Prog (W := W) error unit :=
  _ ← lift (validate o);
  '(parentDir, volumeDir) ← lift (extract_volume_dir (path o));
  let o := o <| cmdsForPath ::= fun cmds => cmds ++ [Join2 "/data/" volumeDir] |> in
  cPod ← launchPod p {| pOpts := o; parentDir := parentDir; volumeDir := volumeDir;
                        podName := "cleanup"; taints := selectedNodeTaints o |};
  exitPod p cPod.

(** The shell script of the quota pod. *)
(* go: 284-303 createQuotaPod *)
Definition quota_script (soft hard volumeDir : string) : string :=
  let fs := "FS=`stat -f -c %T /data` ; " in
  let checkQuota :=
    "if [[ " +:+ dq +:+ "$FS" +:+ dq +:+ " == " +:+ dq +:+ "xfs" +:+ dq +:+ " ]]; then " +:+
    "  PID=`xfs_quota -x -c 'report -h' /data | tail -2 | awk 'NR==1{print substr ($1,2)}+0'` ;" +:+
    "  PID=`expr $PID + 1` ;" +:+
    "  xfs_quota -x -c 'project -s -p " +:+ Join2 "/data/" volumeDir +:+ " '$PID /data;" +:+
    "  xfs_quota -x -c 'limit -p bsoft=" +:+ soft +:+ " bhard=" +:+ hard +:+ " '$PID /data ;" +:+
    "elif [[ " +:+ dq +:+ "$FS" +:+ dq +:+ " == " +:+ dq +:+ "ext2/ext3" +:+ dq +:+ " ]]; then" +:+
    "  PID=`repquota -P /data | tail -3 | awk 'NR==1{print substr ($1,2)}+0'` ;" +:+
    "  PID=`expr $PID + 1` ;" +:+
    "  chattr +P -p $PID " +:+ Join2 "/data/" volumeDir +:+ " ;" +:+
    "  setquota -P $PID " +:+ ToUpper soft +:+ " " +:+ ToUpper hard +:+ " 0 0 " +:+ "/data ; " +:+
    "else " +:+
    "  rm -rf " +:+ Join2 "/data/" volumeDir +:+ " ; exit 1; fi" in
  fs +:+ checkQuota.

(** The limits of the options in kilobytes, checked: the assignments and returns between the two
    conversions and [validateLimits]. *)
(* go: 270-282 createQuotaPod *)
Definition resolve_limits (o : HelperPodOptions) : outcome error HelperPodOptions :=
  soft ← convertToK (softLimitGrace o) (pvcStorage o);
  let o := o <| softLimitGrace := soft |> in
  hard ← convertToK (hardLimitGrace o) (pvcStorage o);
  let o := o <| hardLimitGrace := hard |> in
  let '(o, r) := validateLimits o in
  _ ← r;
  Ret o.

Definition createQuotaPod (p : Provisioner (W := W)) (o : HelperPodOptions) :
    Prog (W := W) error unit :=
  _ ← lift (validate o);
  '(parentDir, volumeDir) ← lift (extract_volume_dir (path o));
  o ← lift (resolve_limits o);
  let o := o <| cmdsForPath :=
    ["sh"; "-c"; quota_script (softLimitGrace o) (hardLimitGrace o) volumeDir] |> in
  qPod ← launchPod p {| pOpts := o; parentDir := parentDir; volumeDir := volumeDir;
                        podName := "quota"; taints := selectedNodeTaints o |};
  exitPod p qPod.

End Pods.
