(* ===== verification/HelperPods.v ===== *)
(** * What the helper pods do

    The life of a helper pod as a relation on traces, and the pod each of the three functions of
    [helper_hostpath.go] runs: [runs_pod ns pod] is created once, polled at most
    [CmdTimeoutCounts] times a second apart, and deleted in every case, whatever the API server
    answers. *)

From S2P Require Import Prelude GoStrings GoPath KubeApi Builder NodeAffinity Maya Cluster.
From S2P Require Import VolumeConfig HelperHostpath.
From S2P Require VolumeBuilder ContainerBuilder PodBuilder.
Open Scope string_scope. Open Scope list_scope.

Section Life.
Context {A : ApiTypes} {Y : Maya} {W : Type} {K : Cluster W}.

(** ** Polling *)

(** At most [n] polls of a pod, one second apart: the calls, and whether it succeeded. *)
Inductive polling (ns name : string) : nat -> Trace -> outcome error bool -> Prop :=
| polling_over : polling ns name 0 [] (Ret false)
| polling_succeeded n pod :
    pod_Phase pod = PodSucceeded ->
    polling ns name (S n) [(PodGet ns name, APod pod)] (Ret true)
| polling_refused n e : polling ns name (S n) [(PodGet ns name, Refused e)] (Fail e)
| polling_crashed n : polling ns name (S n) [(PodGet ns name, Crashed)] Panic
| polling_again n pod l o :
    pod_Phase pod <> PodSucceeded ->
    polling ns name n l o ->
    polling ns name (S n) ((PodGet ns name, APod pod) :: (Sleep 1, Done) :: l) o.

Lemma wait_for_pod_polling ns name n :
  emits (W := W) (wait_for_pod ns name n) (polling ns name n).
Proof.
  induction n as [|n IH]; cbn [wait_for_pod].
  - apply emits_ret. constructor.
  - apply emits_bind, emits_call. intros [pod|e|]; cbn [answer]; try by constructor.
    destruct (String.eqb_spec (pod_Phase pod) PodSucceeded) as [H|H].
    + apply emits_ret. by constructor.
    + apply emits_bind, emits_sleep. cbn [app]. eapply emits_weaken; [exact IH|].
      intros l o Hl. by constructor.
Qed.

Definition is_get (c : Call * Answer) : bool :=
  match c with (PodGet _ _, _) => true | _ => false end.

Fixpoint count {X} (f : X -> bool) (l : list X) : nat :=
  match l with [] => 0 | x :: l => (if f x then 1 else 0) + count f l end.

Lemma polling_bound ns name n l o : polling ns name n l o -> (count is_get l <= n)%nat.
Proof. induction 1; cbn; lia. Qed.

Lemma polling_calls ns name n l o :
  polling ns name n l o -> Forall (fun c => c.1 = PodGet ns name \/ c.1 = Sleep 1) l.
Proof. induction 1; repeat (constructor; auto). Qed.

(** Success is seen in the last answer, and only then. *)
Lemma polling_true ns name n l :
  polling ns name n l (Ret true) ->
  exists pre pod, l = pre ++ [(PodGet ns name, APod pod)] /\ pod_Phase pod = PodSucceeded.
Proof.
  remember (Ret true) as o. induction 1 as [|n pod H|n e|n|n pod l o Hp Hl IH]; try discriminate.
  - by exists [], pod.
  - destruct (IH Heqo) as (pre & pod' & -> & ?).
    by exists ((PodGet ns name, APod pod) :: (Sleep 1, Done) :: pre), pod'.
Qed.

Lemma polling_not_true ns name n l o :
  polling ns name n l o -> o <> Ret true ->
  Forall (fun c => match c.2 with APod pod => pod_Phase pod <> PodSucceeded | _ => True end) l.
Proof.
  induction 1 as [| | | |n pod l o Hp Hl IH]; intros Ho; try done; repeat (constructor; try done).
  by apply IH.
Qed.

(** ** The life of a pod *)

(** What the polls make [exitPod] return. *)
Definition polled (r : outcome error bool) : outcome error unit :=
  match r with
  | Ret true => Ret tt
  | Ret false => Fail (Errorf "create process timeout after %v seconds"
                   [AInt (Z.of_nat CmdTimeoutCounts)])
  | Fail e => Fail e
  | Panic => Panic
  end.

(** The polls and the deletion of a created pod, and the result of [exitPod]: that of the polls,
    unless the deletion panics. *)
Definition exits (ns name : string) (l : Trace) (o : outcome error unit) : Prop :=
  exists polls r a,
    l = polls ++ [(PodDelete ns name, a)] /\
    polling ns name CmdTimeoutCounts polls r /\
    o = match a with Crashed => Panic | _ => polled r end.

Lemma exitPod_exits p hPod :
  emits (exitPod (W := W) p hPod) (exits (namespace p) (Name (pod_Meta hPod))).
Proof.
  unfold exitPod. set (nm := Name _).
  apply emits_deferred. eapply emits_weaken with (P := fun l o => exists r,
    polling (namespace p) nm CmdTimeoutCounts l r /\ o = polled r).
  - apply emits_bind. eapply emits_weaken; [apply wait_for_pod_polling|].
    intros l [b|e|] Hl; cbn beta iota; eauto. destruct b; cbn [negb].
    + apply emits_ret. rewrite app_nil_r. eauto.
    + apply emits_throw. rewrite app_nil_r. eauto.
  - intros l o (r & Hr & ->). apply emits_call. intros d. exists l, r, (answer (fun _ => Done) d).
    split_and!; [done|done|]. by destruct d.
Qed.

(** A crashed poll is the last one, and the polls panic exactly then. *)
Lemma polling_crashes ns name n l r :
  polling ns name n l r -> (r = Panic <-> (PodGet ns name, Crashed) ∈ l).
Proof.
  induction 1 as [|n pod H|n e|n|n pod l o Hp Hl IH].
  - split; [done|by intros ?%elem_of_nil].
  - split; [done|by intros ?%list_elem_of_singleton].
  - split; [done|by intros ?%list_elem_of_singleton].
  - split; [intros _; by left|done].
  - rewrite IH, !elem_of_cons. split; [tauto|]. by intros [?|[?|?]].
Qed.

Lemma polled_Ret r : polled r = Ret tt <-> r = Ret true.
Proof. destruct r as [[]| |]; by split. Qed.

Lemma polled_Panic r : polled r = Panic <-> r = Panic.
Proof. destruct r as [[]| |]; by split. Qed.

(** The polls saw the pod succeed exactly when their last answer is a pod that succeeded. *)
Lemma polling_success ns name n l r :
  polling ns name n l r ->
  (r = Ret true <->
   exists pre pod, l = pre ++ [(PodGet ns name, APod pod)] /\ pod_Phase pod = PodSucceeded).
Proof.
  intros Hp. split; [intros ->; by eapply polling_true|]. intros (pre & pod & -> & Hs).
  assert (r = Ret true \/ r <> Ret true) as [->|Hne]
    by (destruct r as [[]| |]; (by left) || by right); [done|].
  pose proof (polling_not_true _ _ _ _ _ Hp Hne) as Hall.
  apply Forall_app in Hall as [_ Hall]. by inversion Hall.
Qed.

(** C11: [exitPod] ends, after at most [CmdTimeoutCounts] polls of the pod, all of them requests
    for that pod or pauses of a second; its last call is the deletion of the pod, whatever
    happened before.  It reports success exactly when the last poll saw the pod succeeded and the
    client did not panic in the deletion, an error of which changes nothing; and it panics exactly
    when the client panicked, in a poll or in the deletion. *)
Theorem exitPod_lifecycle p hPod w w' r :
  exitPod (W := W) p hPod w = (w', r) ->
  let ns := namespace p in
  let nm := Name (pod_Meta hPod) in
  exists polls a,
    trace w' = trace w ++ polls ++ [(PodDelete ns nm, a)] /\
    (count is_get polls <= CmdTimeoutCounts)%nat /\
    Forall (fun c => c.1 = PodGet ns nm \/ c.1 = Sleep 1) polls /\
    (r = Ret tt <-> a <> Crashed /\
     exists pre pod, polls = pre ++ [(PodGet ns nm, APod pod)] /\ pod_Phase pod = PodSucceeded) /\
    (r = Panic <-> a = Crashed \/ (PodGet ns nm, Crashed) ∈ polls).
Proof.
  intros Hrun. cbv zeta. destruct (exitPod_exits p hPod w) as (l & Hl & polls & r' & a & -> & Hp & Hr).
  rewrite Hrun in Hl, Hr. cbn [fst snd] in *. exists polls, a. split; [done|].
  split; [by eapply polling_bound|]. split; [by eapply polling_calls|].
  rewrite <- (polling_success _ _ _ _ _ Hp), <- (polling_crashes _ _ _ _ _ Hp).
  rewrite <- polled_Ret, <- (polled_Panic r').
  destruct a; subst r; split; intuition congruence.
Qed.

(** A pod that is created, and the run of the created pod [hp] to its deletion. *)
Inductive runs_pod (ns : string) (pod : Pod) : Trace -> outcome error unit -> Prop :=
| pod_refused e : runs_pod ns pod [(PodCreate ns pod, Refused e)] (Fail e)
| pod_crashed : runs_pod ns pod [(PodCreate ns pod, Crashed)] Panic
| pod_ran hp l o :
    exits ns (Name (pod_Meta hp)) l o ->
    runs_pod ns pod ((PodCreate ns pod, APod hp) :: l) o.

(** A successful run: the pod was created, seen to succeed, and deleted. *)
Lemma runs_pod_succeeded ns pod l :
  runs_pod ns pod l (Ret tt) ->
  exists hp pre done a,
    l = (PodCreate ns pod, APod hp) :: pre ++
        [(PodGet ns (Name (pod_Meta hp)), APod done); (PodDelete ns (Name (pod_Meta hp)), a)] /\
    pod_Phase done = PodSucceeded.
Proof.
  inversion 1 as [| |hp l' o Hex]; subst. destruct Hex as (polls & r & a & -> & Hr & Ho).
  assert (r = Ret true) as -> by (apply polled_Ret; by destruct a). destruct (polling_true _ _ _ _ Hr) as (pre & d & -> & ?).
  exists hp, pre, d, a. by rewrite <- app_assoc.
Qed.

(** ** No pod is left behind, and no other pod is touched *)

(** Every pod that was created in the trace is deleted later in it, and every pod that is deleted
    in the trace was created earlier in it. *)
Record pods_tidy (l : Trace) : Prop := {
  none_left : forall pre ns pod hp post,
    l = pre ++ (PodCreate ns pod, APod hp) :: post ->
    exists a, (PodDelete ns (Name (pod_Meta hp)), a) ∈ post;
  none_touched : forall pre ns nm a post,
    l = pre ++ (PodDelete ns nm, a) :: post ->
    exists pod hp, (PodCreate ns pod, APod hp) ∈ pre /\ nm = Name (pod_Meta hp) }.

Lemma pods_tidy_nil : pods_tidy [].
Proof. split; intros pre *; by destruct pre. Qed.

Lemma pods_tidy_app l1 l2 : pods_tidy l1 -> pods_tidy l2 -> pods_tidy (l1 ++ l2).
Proof.
  intros [H1 T1] [H2 T2]. split.
  - intros pre ns pod hp post H.
    apply app_eq_inv in H as [(k & -> & Hk)|(k & -> & Hk)].
    + destruct k as [|c k].
      * destruct (H2 [] ns pod hp post) as (a & Ha); eauto.
      * injection Hk as <- ->. destruct (H1 pre ns pod hp k eq_refl) as (a & Ha).
        exists a. apply elem_of_app. by left.
    + destruct (H2 k ns pod hp post Hk) as (a & Ha); eauto.
  - intros pre ns nm a post H.
    apply app_eq_inv in H as [(k & -> & Hk)|(k & -> & Hk)].
    + destruct k as [|c k].
      * destruct (T2 [] ns nm a post) as (pod & hp & Hin & _); eauto. by apply elem_of_nil in Hin.
      * injection Hk as <- ->. by apply (T1 pre ns nm a k).
    + destruct (T2 k ns nm a post Hk) as (pod & hp & Hin & ->). exists pod, hp.
      split; [|done]. apply elem_of_app. by right.
Qed.

(** Calls that neither create a pod nor delete one. *)
Lemma pods_tidy_other l :
  Forall (fun c => match c with
                   | (PodCreate _ _, APod _) | (PodDelete _ _, _) => False
                   | _ => True
                   end) l ->
  pods_tidy l.
Proof. intros H. split; intros *; intros ->; apply Forall_app in H as [_ H]; by inversion H. Qed.

Lemma runs_pod_pods_tidy ns pod l o : runs_pod ns pod l o -> pods_tidy l.
Proof.
  inversion 1 as [| |hp l' o' Hex]; subst; try (apply pods_tidy_other; by repeat constructor).
  destruct Hex as (polls & r & a & -> & Hr & _). apply polling_calls in Hr.
  assert (forall c, c ∈ polls -> c.1 = PodGet ns (Name (pod_Meta hp)) \/ c.1 = Sleep 1) as Hpolls
    by (by apply Forall_forall).
  split.
  - intros pre ns' pod' hp' post Heq. destruct pre as [|c pre].
    + injection Heq as <- <- <- <-. exists a. apply elem_of_app. right. by apply list_elem_of_singleton.
    + injection Heq as _ Heq. exfalso.
      assert ((PodCreate ns' pod', APod hp') ∈ polls ++ [(PodDelete ns (Name (pod_Meta hp)), a)])
        as [Hin|Hin]%elem_of_app by (rewrite Heq; apply elem_of_app; right; left).
      * apply Hpolls in Hin. by destruct Hin.
      * by apply list_elem_of_singleton in Hin.
  - intros pre ns' nm a' post Heq. destruct pre as [|c pre]; [done|].
    injection Heq as <- Heq. exists pod, hp.
    assert ((PodDelete ns' nm, a') ∈ polls ++ [(PodDelete ns (Name (pod_Meta hp)), a)])
      as [Hin|Hin]%elem_of_app by (rewrite Heq; apply elem_of_app; right; left).
    + apply Hpolls in Hin. by destruct Hin.
    + apply list_elem_of_singleton in Hin as [= -> -> _]. split; [left|done].
Qed.

End Life.

(** ** The pods *)

Section Built.
Context {A : ApiTypes} {Y : Maya} {L : MayaLaws Y} {W : Type} {K : Cluster W}.

Definition host_directory (vname dir : string) : Volume :=
  {| vol_Name := vname;
     vol_Source := VolumeSource_zero <| vs_HostPath := Some {| hp_Path := dir; hp_Type := None |} |> |}.

(** The container: privileged, with the parent directory of the volume at [/data/]. *)
Definition the_container (helperImage podName : string) (cmd : list string) : Container :=
  Container_zero
    <| c_Name := "local-path-" +:+ podName |>
    <| c_Image := helperImage |>
    <| c_Command := Some cmd |>
    <| c_VolumeMounts := Some
         [{| vm_Name := "data"; vm_ReadOnly := false; vm_MountPath := "/data/" |};
          {| vm_Name := "dev"; vm_ReadOnly := false; vm_MountPath := "/dev/" |}] |>
    <| c_SecurityContext := Some {| Privileged := Some true |} |>.

(** The pod of a helper: where it runs ([Ord] orders the labels), and what. *)
Definition the_pod (Ord : MapOrder) (helperImage podName parentDir : string) (cmd : list string)
    (o : HelperPodOptions) : Pod :=
  {| pod_Meta := ObjectMeta_zero <| Name := podName +:+ "-" +:+ name o |>;
     pod_Spec := PodSpec_zero
       <| ps_RestartPolicy := RestartPolicyNever |>
       <| ps_Affinity := Some {| RequiredDuringScheduling :=
            Some (one_term (match_expressions (default ∅ (nodeAffinityLabels o)))) |} |>
       <| ps_ServiceAccountName := serviceAccountName o |>
       <| ps_Tolerations := map PodBuilder.toleration_for (selectedNodeTaints o) |>
       <| ps_Containers := [the_container helperImage podName cmd] |>
       <| ps_ImagePullSecrets := imagePullSecrets o |>
       <| ps_Volumes := [host_directory "data" parentDir; host_directory "dev" "/dev/"] |>;
     pod_Phase := "" |}.

(** What the builders reject. *)
Definition pod_buildable (helperImage parentDir : string) (cmd : list string)
    (o : HelperPodOptions) : bool :=
  negb (String.eqb helperImage "") && negb (String.eqb parentDir "")
  && negb (bool_decide (cmd = []))
  && negb (bool_decide (nonempty_labels (default ∅ (nodeAffinityLabels o)) = ∅))
  && negb (String.eqb (serviceAccountName o) "").

Lemma helper_container_build helperImage config :
  (ContainerBuilder.Build (helper_container helperImage config)).2
  = if negb (String.eqb helperImage "") && negb (bool_decide (cmdsForPath (pOpts config) = []))
    then Ret (the_container helperImage (podName config) (cmdsForPath (pOpts config)))
    else Fail ContainerBuilder.errorvalidationFailed.
Proof.
  rewrite ContainerBuilder.Build_spec. unfold helper_container.
  destruct helperImage as [|a s]; destruct (cmdsForPath (pOpts config)) as [|c cs]; reflexivity.
Qed.

Lemma helper_volume_build vname dir :
  vname <> "" ->
  VolumeBuilder.Build (helper_volume vname dir)
  = if negb (String.eqb dir "") then Ret (host_directory vname dir)
    else Fail (Errorf "%+v" [AErrs [ErrNew "failed to build volume object: missing volume path"]]).
Proof. intros H. destruct vname as [|a s]; [done|]. by destruct dir. Qed.

(** The calls of [launchPod] record an error exactly when the pod is not buildable. *)
Lemma helper_pod_errs Ord helperImage config :
  podName config <> "" ->
  (helper_pod_calls Ord helperImage config ≫= PodBuilder.errs_of = []) <->
  pod_buildable helperImage (parentDir config) (cmdsForPath (pOpts config)) (pOpts config) = true.
Proof.
  intros Hname. unfold helper_pod_calls, pod_buildable. cbn [mbind list_bind PodBuilder.errs_of].
  rewrite helper_container_build, !helper_volume_build by done.
  destruct (podName config) as [|a s]; [done|]. cbn [String.append].
  rewrite decide_False by done.
  destruct helperImage as [|b t]; destruct (cmdsForPath (pOpts config)) as [|c cs];
    destruct (parentDir config) as [|d u]; destruct (serviceAccountName (pOpts config)) as [|e v];
    destruct (no_entries (nodeAffinityLabels (pOpts config))) eqn:En;
    cbn; repeat (case_decide || case_bool_decide); cbn; try done.
  all: split; intros; try done.
  all: exfalso; apply no_entries_true in En; try rewrite En in *; by unfold nonempty_labels in *.
Qed.

Lemma helper_pod_effect Ord helperImage config :
  taints config = selectedNodeTaints (pOpts config) ->
  pod_buildable helperImage (parentDir config) (cmdsForPath (pOpts config)) (pOpts config) = true ->
  foldl (fun p op => PodBuilder.effect op p) Pod_zero (helper_pod_calls Ord helperImage config)
  = the_pod Ord helperImage (podName config) (parentDir config) (cmdsForPath (pOpts config))
      (pOpts config).
Proof.
  intros Ht Hb. unfold pod_buildable in Hb. bool_to_prop. unfold helper_pod_calls.
  cbn [foldl PodBuilder.effect]. rewrite helper_container_build, !helper_volume_build, Ht by done.
  rewrite !(proj2 (String.eqb_neq _ _)) by done.
  rewrite (bool_decide_eq_false_2 (cmdsForPath (pOpts config) = [])) by done.
  unfold the_pod. cbn -[String.append PodBuilder.toleration_for].
  by destruct (imagePullSecrets (pOpts config)).
Qed.

(** One request to create the pod, or none when the pod is not buildable. *)
Lemma launchPod_emits p config :
  podName config <> "" ->
  taints config = selectedNodeTaints (pOpts config) ->
  let cmd := cmdsForPath (pOpts config) in
  let ok := pod_buildable (helperImage p) (parentDir config) cmd (pOpts config) in
  emits (launchPod (W := W) p config) (fun l o =>
    (ok = false /\ l = [] /\ exists e, o = Fail e) \/
    (ok = true /\ exists Ord, l = [(PodCreate (namespace p)
        (the_pod Ord (helperImage p) (podName config) (parentDir config) cmd (pOpts config)),
        answer APod o)])).
Proof.
  intros Hname Ht cmd ok. unfold launchPod. apply emits_bind, emits_map_order. intros Ord.
  apply emits_bind, emits_lift. rewrite PodBuilder.pod_Build_run.
  pose proof (helper_pod_errs Ord (helperImage p) config Hname) as Herr. fold cmd ok in Herr.
  destruct (helper_pod_calls Ord (helperImage p) config ≫= PodBuilder.errs_of) as [|e es] eqn:E.
  - assert (ok = true) as Hok by tauto. rewrite helper_pod_effect by done. fold cmd.
    apply emits_call. intros o. right. split; [done|]. by exists Ord.
  - left. split; [|eauto]. destruct ok; [|done]. destruct Herr as [_ Herr]. by specialize (Herr eq_refl).
Qed.

(** A helper pod from its options: the directory is [volumeDir] under [parentDir]. *)
Definition runs_helper (p : Provisioner (W := W)) (kind parentDir : string) (cmd : list string)
    (o : HelperPodOptions) (l : Trace) (r : outcome error unit) : Prop :=
  (pod_buildable (helperImage p) parentDir cmd o = false /\ l = [] /\ exists e, r = Fail e) \/
  (exists Ord, runs_pod (namespace p) (the_pod Ord (helperImage p) kind parentDir cmd o) l r).

Lemma launch_exit_emits p config :
  podName config <> "" ->
  taints config = selectedNodeTaints (pOpts config) ->
  emits (pod ← launchPod (W := W) p config; exitPod p pod)
    (runs_helper p (podName config) (parentDir config) (cmdsForPath (pOpts config)) (pOpts config)).
Proof.
  intros Hname Ht. apply emits_bind. eapply emits_weaken; [by apply launchPod_emits|].
  intros l o [(Hok & -> & e & ->)|(Hok & Ord & ->)].
  { left. eauto. }
  destruct o as [hp|e|]; cbn [answer].
  - eapply emits_weaken; [apply exitPod_exits|]. intros l' o' Hex. right. exists Ord.
    by constructor.
  - right. exists Ord. constructor.
  - right. exists Ord. constructor.
Qed.

(** ** The three helpers

    A helper that is refused makes no call; otherwise it runs one pod, on the directory of the
    volume, with the given command. *)
Definition helper_result (p : Provisioner (W := W)) (kind : string) (o : HelperPodOptions)
    (cmd_of : string -> outcome error (list string)) (l : Trace) (r : outcome error unit) : Prop :=
  (l = [] /\ exists e, r = Fail e) \/
  (exists parentDir volumeDir cmd Ord,
    validate o = Ret tt /\
    extract_volume_dir (path o) = Ret (parentDir, volumeDir) /\
    cmd_of volumeDir = Ret cmd /\
    runs_pod (namespace p) (the_pod Ord (helperImage p) kind parentDir cmd o) l r).

(** The directory, appended to the command of the options. *)
Definition with_directory (o : HelperPodOptions) (volumeDir : string) :
    outcome error (list string) := Ret (cmdsForPath o ++ [Join2 "/data/" volumeDir]).

(** The quota script, for the limits of the options. *)
Definition with_quota (o : HelperPodOptions) (volumeDir : string) : outcome error (list string) :=
  o ← resolve_limits o;
  Ret ["sh"; "-c"; quota_script (softLimitGrace o) (hardLimitGrace o) volumeDir].

Lemma helper_cases {T} (m : outcome error T) (f : T -> Prog (W := W) error unit)
    (Q : Trace -> outcome error unit -> Prop) :
  m <> Panic ->
  (forall a, m = Ret a -> emits (f a) Q) ->
  (forall e, Q [] (Fail e)) ->
  emits (a ← lift m; f a) Q.
Proof.
  intros Hp Hf Hq. apply emits_bind, emits_lift. destruct m as [a|e|]; [|done..].
  by apply Hf.
Qed.

Lemma validate_no_panic o : validate o <> Panic.
Proof. unfold validate. by case_match. Qed.

Lemma extract_no_panic p : extract_volume_dir p <> Panic.
Proof. apply (maya_no_panic (Y := Y)). Qed.

Lemma resolve_limits_no_panic o : resolve_limits o <> Panic.
Proof.
  assert (forall s z, convertToK s z <> Panic) as Hc
    by (intros s z; unfold convertToK; by repeat case_match).
  assert (forall o, (validateLimits o).2 <> Panic) as Hv
    by (intros o'; unfold validateLimits; by repeat case_match).
  unfold resolve_limits, mbind, outcome_bind. intros H. split_in H; simplify_eq; try done.
  - match goal with H : validateLimits ?o = _ |- _ => pose proof (Hv o) as Hn; by rewrite H in Hn end.
  - by eapply Hc.
  - by eapply Hc.
Qed.

Lemma runs_helper_result p kind parentDir volumeDir cmd cmd_of o o' l r :
  validate o = Ret tt ->
  extract_volume_dir (path o) = Ret (parentDir, volumeDir) ->
  cmd_of volumeDir = Ret cmd ->
  (forall Ord, the_pod Ord (helperImage p) kind parentDir cmd o'
    = the_pod Ord (helperImage p) kind parentDir cmd o) ->
  runs_helper p kind parentDir cmd o' l r -> helper_result p kind o cmd_of l r.
Proof.
  intros Hv He Hc Hpod [(_ & -> & e & ->)|(Ord & Hr)]; [left; eauto|]. right.
  exists parentDir, volumeDir, cmd, Ord. by rewrite <- Hpod.
Qed.

Lemma createInitPod_emits p o :
  emits (createInitPod (W := W) p o) (helper_result p "init" o (with_directory o)).
Proof.
  unfold createInitPod. apply helper_cases; [apply validate_no_panic|intros [] Hv|left; eauto].
  apply helper_cases; [apply extract_no_panic|intros [parentDir volumeDir] He|left; eauto].
  eapply emits_weaken; [by apply launch_exit_emits|]. intros l r Hr.
  by eapply runs_helper_result.
Qed.

Lemma createCleanupPod_emits p o :
  emits (createCleanupPod (W := W) p o) (helper_result p "cleanup" o (with_directory o)).
Proof.
  unfold createCleanupPod. apply helper_cases; [apply validate_no_panic|intros [] Hv|left; eauto].
  apply helper_cases; [apply extract_no_panic|intros [parentDir volumeDir] He|left; eauto].
  eapply emits_weaken; [by apply launch_exit_emits|]. intros l r Hr.
  by eapply runs_helper_result.
Qed.

(** Resolving the limits changes nothing else. *)
Lemma resolve_limits_frame o o' :
  resolve_limits o = Ret o' ->
  o' = o <| softLimitGrace := softLimitGrace o' |> <| hardLimitGrace := hardLimitGrace o' |>.
Proof.
  unfold resolve_limits, mbind, outcome_bind. intros H. split_in H; simplify_eq.
  match goal with H : validateLimits _ = _ |- _ => unfold validateLimits in H; split_in H end;
    by simplify_eq.
Qed.

Lemma createQuotaPod_emits p o :
  emits (createQuotaPod (W := W) p o) (helper_result p "quota" o (with_quota o)).
Proof.
  unfold createQuotaPod. apply helper_cases; [apply validate_no_panic|intros [] Hv|left; eauto].
  apply helper_cases; [apply extract_no_panic|intros [parentDir volumeDir] He|left; eauto].
  apply helper_cases; [apply resolve_limits_no_panic|intros o' Ho'|left; eauto].
  eapply emits_weaken; [by apply launch_exit_emits|]. intros l r Hr.
  eapply runs_helper_result in Hr; eauto.
  - by unfold with_quota; rewrite Ho'.
  - intros Ord. by rewrite (resolve_limits_frame _ _ Ho').
Qed.

Lemma helper_result_pods_tidy p kind o cmd_of l r :
  helper_result p kind o cmd_of l r -> pods_tidy l.
Proof.
  intros [(-> & _)|(? & ? & ? & ? & _ & _ & _ & Hr)]; [apply pods_tidy_nil|].
  by eapply runs_pod_pods_tidy.
Qed.

(** ** What the pods are allowed to do *)

Lemma runs_pod_create ns pod l r ns' pod' a :
  runs_pod ns pod l r -> (PodCreate ns' pod', a) ∈ l -> pod' = pod.
Proof.
  inversion 1 as [| |hp l' o' Hex]; subst; rewrite elem_of_cons; intros [Hin|Hin]; try congruence;
    try by apply elem_of_nil in Hin.
  destruct Hex as (polls & r' & d & -> & Hp & _). apply polling_calls in Hp.
  apply elem_of_app in Hin as [Hin|Hin].
  - rewrite Forall_forall in Hp. apply Hp in Hin. by destruct Hin.
  - by apply list_elem_of_singleton in Hin.
Qed.

(** The names without a slash that [Join] does not keep. *)
Lemma Join2_data_cases v :
  v <> "" -> has_slash v = false ->
  plain_name v = true /\ Join2 "/data/" v = "/data/" +:+ v \/
  v = "." /\ Join2 "/data/" v = "/data" \/
  v = ".." /\ Join2 "/data/" v = "/".
Proof.
  intros Hne Hs. destruct (String.eqb_spec v ".") as [->|Hd]; [by right; left|].
  destruct (String.eqb_spec v "..") as [->|Hdd]; [by right; right|]. left.
  assert (plain_name v = true) as Hv.
  { unfold plain_name. rewrite Hs. by rewrite !(proj2 (String.eqb_neq _ _)) by done. }
  split; [done|]. by apply Join2_data.
Qed.

(** C6: what a cleanup pod deletes.  The pod is created only for a path [parentDir/volumeDir] with
    both parts not empty and no slash in [volumeDir]; it mounts [parentDir] at [/data], and its
    command is that of the options with one more argument, [target].  For an absolute path that
    was cleaned, as [Provision] does with the path of a volume, [volumeDir] is a plain name and
    [target] is [/data/volumeDir], strictly below the mounted directory.  For any other path the
    same holds unless the last element is [.] or [..], which no check of the provisioner refuses:
    then the target is the mounted directory itself or the root of the pod. *)
Theorem cleanup_stays_below p o w w' r :
  createCleanupPod (W := W) p o w = (w', r) ->
  exists l, trace w' = trace w ++ l /\
    forall ns pod a, (PodCreate ns pod, a) ∈ l ->
    exists parentDir volumeDir target Ord,
      (path o = parentDir +:+ "/" +:+ volumeDir \/ path o = parentDir +:+ "/" +:+ volumeDir +:+ "/") /\
      parentDir <> "" /\ volumeDir <> "" /\ has_slash volumeDir = false /\
      pod = the_pod Ord (helperImage p) "cleanup" parentDir (cmdsForPath o ++ [target]) o /\
      (forall q, path o = Clean q -> IsAbs (path o) = true ->
        plain_name volumeDir = true /\ target = "/data/" +:+ volumeDir) /\
      (plain_name volumeDir = true /\ target = "/data/" +:+ volumeDir \/
       volumeDir = "." /\ target = "/data" \/ volumeDir = ".." /\ target = "/").
Proof.
  intros Hrun. destruct (createCleanupPod_emits p o w) as (l & Hl & Ho). rewrite Hrun in Hl, Ho.
  exists l. split; [done|]. intros ns pod a Hin.
  destruct Ho as [(-> & _)|(parentDir & volumeDir & cmd & Ord & _ & Hex & Hcmd & Hr)];
    [by apply elem_of_nil in Hin|].
  apply Ret_inj in Hcmd. subst cmd. apply ExtractNonRootSubPath_spec in Hex as (H1 & H2 & H3 & H4).
  exists parentDir, volumeDir, (Join2 "/data/" volumeDir), Ord. split_and!; try done.
  - by eapply runs_pod_create.
  - intros q Hq Habs. rewrite Hq in H4, Habs. apply Clean_rooted_inv in Habs.
    apply Clean_last in H4 as [Hv _]; [|done..]. split; [done|]. by apply Join2_data.
  - by apply Join2_data_cases.
Qed.

(** C16: a quota pod is created only with limits that were resolved: the script it runs sets the
    limits that [resolve_limits] gave for the options, on the directory of the volume; with
    limits that are malformed or out of order no pod is created. *)
Theorem quota_pod_checked p o w w' r :
  createQuotaPod (W := W) p o w = (w', r) ->
  exists l, trace w' = trace w ++ l /\
    (is_Ret (resolve_limits o) = false -> l = [] /\ is_Ret r = false) /\
    forall ns pod a, (PodCreate ns pod, a) ∈ l ->
    exists parentDir volumeDir Ord o',
      extract_volume_dir (path o) = Ret (parentDir, volumeDir) /\
      resolve_limits o = Ret o' /\
      pod = the_pod Ord (helperImage p) "quota" parentDir
        ["sh"; "-c"; quota_script (softLimitGrace o') (hardLimitGrace o') volumeDir] o.
Proof.
  intros Hrun. destruct (createQuotaPod_emits p o w) as (l & Hl & Ho). rewrite Hrun in Hl, Ho.
  exists l. cbn [fst snd] in *. split; [done|].
  destruct Ho as [(-> & e & ->)|(parentDir & volumeDir & cmd & Ord & _ & Hex & Hcmd & Hr)].
  { split; [done|]. intros ns pod a Hin. by apply elem_of_nil in Hin. }
  unfold with_quota, mbind, outcome_bind in Hcmd.
  destruct (resolve_limits o) as [o'| |] eqn:Ho'; [|done..]. split; [done|].
  intros ns pod a Hin. exists parentDir, volumeDir, Ord, o'. apply Ret_inj in Hcmd. subst cmd.
  split; [done|]. split; [done|]. by eapply runs_pod_create.
Qed.

End Built.
