(* ===== verification/Quota.v ===== *)
(** * The quota limits

    Facts about [convertToK], [validateLimits] and [resolve_limits] of [HelperHostpath]: the
    limits that reach the quota script are numerals with the suffix [k], between the storage and
    twice the storage (in units of 1024, rounded up), ordered as the percentages are, and a soft
    limit above the hard limit is refused. *)

From Stdlib Require Import QArith Lqa Qround.
From S2P Require Import Prelude GoStrings GoFloat KubeApi HelperHostpath.
Close Scope Q_scope.
Open Scope string_scope. Open Scope list_scope.

(** ** Strings the conversion accepts *)

(** A percentage: digits, perhaps a point and digits, and the percent sign. *)
Definition percentage (limit : string) : option (string * string) :=
  let '(ip, r1) := take_digits limit in
  let '(_, r2) := take_dot r1 in
  let '(fp, r3) := take_digits r2 in
  if String.eqb r3 "%" then Some (ip, fp) else None.

Fixpoint all_digits (s : string) : bool :=
  match s with "" => true | String a s => is_digit a && all_digits s end.

Definition digit_head (s : string) : bool :=
  match s with "" => false | String a _ => is_digit a end.

Lemma take_digits_spec s d r :
  take_digits s = (d, r) <-> s = d +:+ r /\ all_digits d = true /\ digit_head r = false.
Proof.
  split.
  - revert d r. induction s as [|a s IH]; intros d r; cbn [take_digits].
    + intros [= <- <-]. done.
    + destruct (is_digit a) eqn:Ha.
      * destruct (take_digits s) as [d' r'] eqn:E. intros [= <- <-].
        destruct (IH _ _ eq_refl) as (-> & Hd & Hr). cbn. by rewrite Ha, Hd.
      * intros [= <- <-]. done.
  - revert s. induction d as [|a d IH]; intros s (-> & Hd & Hr); cbn [String.append].
    + destruct r as [|b r]; [done|]. cbn in *. by rewrite Hr.
    + cbn in Hd. apply andb_true_iff in Hd as [Ha Hd]. cbn [take_digits].
      by rewrite Ha, (IH (d +:+ r)).
Qed.

Lemma take_dot_spec s d r :
  take_dot s = (d, r) -> s = d +:+ r /\ (d = "." \/ d = "" /\ HasPrefix r "." = false).
Proof.
  destruct s as [|a s]; cbn [take_dot]; [intros [= <- <-]; by auto|].
  destruct (Ascii.eqb_spec a (ascii_of_nat 46)) as [->|Hne]; intros [= <- <-]; [by auto|].
  split; [done|]. right. split; [done|]. cbn. apply andb_false_iff. left. by apply Ascii.eqb_neq.
Qed.

(** The parts of a string: digits, a point or nothing, digits, the rest. *)
Lemma parts limit ip r1 dot r2 fp r3 :
  take_digits limit = (ip, r1) -> take_dot r1 = (dot, r2) -> take_digits r2 = (fp, r3) ->
  limit = (ip +:+ dot +:+ fp) +:+ r3 /\
  take_digits (ip +:+ dot +:+ fp) = (ip, dot +:+ fp) /\
  take_dot (dot +:+ fp) = (dot, fp) /\ take_digits fp = (fp, "").
Proof.
  intros H1 H2 H3. apply take_digits_spec in H1 as (-> & Hip & Hr1).
  apply take_dot_spec in H2 as (-> & Hdot). apply take_digits_spec in H3 as (-> & Hfp & Hr3).
  assert (take_digits fp = (fp, "")) as Hf
    by (apply take_digits_spec; by rewrite sapp_nil_r).
  split_and!; [by rewrite !sapp_assoc| | |done].
  - apply take_digits_spec. split_and!; [done|done|].
    destruct Hdot as [->|[-> _]]; [done|]. by destruct fp.
  - destruct Hdot as [->|[-> Hp]]; [done|]. destruct fp as [|a fp]; [done|].
    cbn [String.append] in *. cbn in Hr1. cbn in Hfp. by rewrite Hr1 in Hfp.
Qed.

(** [convertToK], by the form of the limit. *)
Lemma convertToK_eq limit storage :
  convertToK limit storage
  = if String.eqb limit "" then Ret "0k"
    else match percentage limit with
    | None => Fail (Errorf "invalid format for limit grace" [])
    | Some (ip, fp) =>
      if (len ip + len fp =? 0)%nat || Qle_bool overflow_bound (rnd (decimal_value ip fp)) then
        Fail (Errorf "invalid format, cannot parse" [])
      else Ret (FormatCeil (limit_in_k (rnd (decimal_value ip fp)) storage) +:+ "k")
    end.
Proof.
  destruct (String.eqb_spec limit "") as [->|Hne0]; [done|]. unfold convertToK, percentage, FindString.
  assert ((len limit =? 0)%nat = false) as -> by (by destruct limit).
  destruct (take_digits limit) as [ip r1] eqn:E1. destruct (take_dot r1) as [dot r2] eqn:E2.
  destruct (take_digits r2) as [fp r3] eqn:E3.
  destruct (parts _ _ _ _ _ _ _ E1 E2 E3) as (Hl & P1 & P2 & P3). rewrite Hl.
  destruct (String.eqb_spec r3 "%") as [->|Hne].
  - rewrite String.eqb_refl. cbn [negb]. unfold ParseFloat. rewrite P1, P2, P3.
    destruct (len ip + len fp =? 0)%nat; [done|]. cbn [orb].
    by destruct (Qle_bool overflow_bound _).
  - destruct (String.eqb_spec ((ip +:+ dot +:+ fp) +:+ r3) ((ip +:+ dot +:+ fp) +:+ "%")) as [H|_].
    + by apply sapp_inj_l in H.
    + done.
Qed.

(** ** The value of a limit *)

(** The number of kilobytes that [convertToK] prints. *)
Definition kilobytes (value : float64) (storage : Z) : Z := Qceiling (limit_in_k value storage).

Open Scope Q_scope.

Lemma fdiv_1024 z : (Z.abs z < 2 ^ 53)%Z -> fdiv (inject_Z z) 1024 == inject_Z z / 1024.
Proof.
  intros H. unfold fdiv. assert (inject_Z z / 1024 == inject_Z z * pow2 (-10)) as E
    by (change (pow2 (-10)) with (1 # 1024); unfold Qdiv; change (/ 1024) with (1 # 1024); ring).
  rewrite E. apply rnd_exact; lia.
Qed.

Lemma fdiv_mono x y d : 0 < d -> x <= y -> fdiv x d <= fdiv y d.
Proof.
  intros Hd H. apply rnd_mono. unfold Qdiv. apply Qmult_le_compat_r; [done|].
  apply Qinv_le_0_compat. lra.
Qed.

Lemma decimal_value_nonneg ip fp : 0 <= decimal_value ip fp.
Proof. unfold decimal_value, Qle. cbn. lia. Qed.

Definition cap (value : float64) : float64 := if Qle_bool value 100 then value else 100.

Lemma cap_bounds v : 0 <= v -> 0 <= cap v <= 100.
Proof.
  intros H. unfold cap. destruct (Qle_bool v 100) eqn:E.
  - apply Qle_bool_iff in E. lra.
  - lra.
Qed.

Lemma cap_mono v w : v <= w -> cap v <= cap w.
Proof.
  intros H. unfold cap. destruct (Qle_bool v 100) eqn:E, (Qle_bool w 100) eqn:F; try lra.
  - by apply Qle_bool_iff in E.
  - apply Qle_bool_iff in F. assert (v <= 100) as Hv by lra. apply Qle_bool_iff in Hv. congruence.
Qed.

Lemma of_int_nonneg z : (0 <= z)%Z -> 0 <= of_int z.
Proof. intros H. apply rnd_nonneg. change 0 with (inject_Z 0). by rewrite <- Zle_Qle. Qed.

Lemma limit_in_k_mono v w storage :
  (0 <= storage)%Z -> v <= w -> limit_in_k v storage <= limit_in_k w storage.
Proof.
  intros Hs H. unfold limit_in_k. fold (cap v) (cap w). pose proof (of_int_nonneg _ Hs).
  apply fdiv_mono; [lra|]. apply rnd_mono. apply Qplus_le_compat; [|lra].
  apply fdiv_mono; [lra|]. apply rnd_mono. apply Qmult_le_compat_r; [by apply cap_mono|done].
Qed.

(** Up to 64 TiB no rounding is visible at the ends of the range. *)
Lemma limit_in_k_bounds v storage :
  (0 <= storage <= 2 ^ 46)%Z -> 0 <= v ->
  inject_Z storage / 1024 <= limit_in_k v storage <= inject_Z (2 * storage) / 1024.
Proof.
  intros Hs Hv. pose proof (cap_bounds v Hv) as [C0 C1].
  assert (of_int storage == inject_Z storage) as Es by (apply of_int_exact; lia).
  assert (0 <= inject_Z storage) as S0 by (change 0 with (inject_Z 0); rewrite <- Zle_Qle; lia).
  unfold limit_in_k. fold (cap v). set (m := fmul (cap v) (of_int storage)).
  assert (0 <= m <= inject_Z (100 * storage)) as [M0 M1].
  { split; unfold m, fmul.
    - apply rnd_nonneg. rewrite Es. nra.
    - rewrite <- rnd_int by lia. apply rnd_mono. rewrite Es, inject_Z_mult.
      change (inject_Z 100) with 100. nra. }
  set (d := fdiv m 100). assert (0 <= d <= inject_Z storage) as [D0 D1].
  { split; unfold d, fdiv.
    - apply rnd_nonneg. unfold Qdiv. change (/ 100) with (1 # 100). nra.
    - rewrite <- rnd_int by lia. apply rnd_mono. rewrite inject_Z_mult in M1.
      change (inject_Z 100) with 100 in M1. unfold Qdiv. change (/ 100) with (1 # 100). nra. }
  assert (inject_Z storage <= fadd d (of_int storage) <= inject_Z (2 * storage)) as [A0 A1].
  { split; unfold fadd.
    - rewrite <- (rnd_int storage) at 1 by lia. apply rnd_mono. lra.
    - rewrite <- (rnd_int (2 * storage)) by lia. apply rnd_mono. rewrite inject_Z_mult, Es.
      change (inject_Z 2) with 2. lra. }
  split.
  - rewrite <- fdiv_1024 by lia. by apply fdiv_mono.
  - rewrite <- fdiv_1024 by lia. by apply fdiv_mono.
Qed.

(** Nothing is added for a percentage of zero. *)
Lemma limit_in_k_0 v storage :
  (0 <= storage <= 2 ^ 46)%Z -> v == 0 -> limit_in_k v storage == inject_Z storage / 1024.
Proof.
  intros Hs Hv. assert (of_int storage == inject_Z storage) as Es by (apply of_int_exact; lia).
  unfold limit_in_k. fold (cap v). assert (cap v == 0) as Hc.
  { unfold cap. destruct (Qle_bool v 100) eqn:E; [done|].
    enough (Qle_bool v 100 = true) by congruence. apply Qle_bool_iff. lra. }
  unfold fdiv at 1, fadd, fdiv, fmul. rewrite Hc, Es, Qmult_0_l.
  change (rnd 0) with 0. change (rnd (0 / 100)) with 0. rewrite Qplus_0_l, rnd_int by lia.
  apply fdiv_1024. lia.
Qed.

(** From 100 on, the request is doubled. *)
Lemma limit_in_k_100 v storage :
  (0 <= storage <= 2 ^ 46)%Z -> 100 <= v -> limit_in_k v storage == inject_Z (2 * storage) / 1024.
Proof.
  intros Hs Hv. assert (of_int storage == inject_Z storage) as Es by (apply of_int_exact; lia).
  unfold limit_in_k. fold (cap v). assert (cap v == 100) as Hc.
  { unfold cap. destruct (Qle_bool v 100) eqn:E; [|done]. apply Qle_bool_iff in E. lra. }
  unfold fdiv at 1, fadd, fdiv, fmul. rewrite Hc, Es.
  assert (100 * inject_Z storage == inject_Z (100 * storage)) as -> by (by rewrite inject_Z_mult).
  rewrite rnd_int by lia.
  assert (inject_Z (100 * storage) / 100 == inject_Z storage) as ->
    by (rewrite inject_Z_mult; change (inject_Z 100) with 100; field).
  rewrite rnd_int, <- inject_Z_plus by lia. replace (storage + storage)%Z with (2 * storage)%Z by lia.
  rewrite rnd_int by lia. apply fdiv_1024. lia.
Qed.

Close Scope Q_scope.

(** [z / 1024], rounded up. *)
Definition ceil_k (z : Z) : Z := ((z + 1023) / 1024)%Z.

Lemma Qceiling_1024 z : Qceiling (inject_Z z / 1024) = ceil_k z.
Proof.
  unfold ceil_k. assert (Qdiv (inject_Z z) 1024 == z # 1024)%Q as E by (unfold Qeq; cbn; lia).
  rewrite E. unfold Qceiling, Qfloor. cbn [Qopp Qnum Qden].
  pose proof (Z.div_mod (- z) 1024). pose proof (Z.mod_pos_bound (- z) 1024).
  pose proof (Z.div_mod (z + 1023) 1024). pose proof (Z.mod_pos_bound (z + 1023) 1024). lia.
Qed.

Lemma limit_in_k_nonneg v storage :
  (0 <= storage)%Z -> (0 <= v)%Q -> (0 <= limit_in_k v storage)%Q.
Proof.
  intros Hs Hv. unfold limit_in_k. fold (cap v). pose proof (of_int_nonneg _ Hs).
  pose proof (cap_bounds v Hv).
  assert (forall x d, (0 < d)%Q -> (0 <= x)%Q -> (0 <= fdiv x d)%Q) as Hd.
  { intros x d H1 H2. apply rnd_nonneg. unfold Qdiv. apply Qmult_le_0_compat; [done|].
    apply Qinv_le_0_compat. lra. }
  apply Hd; [lra|]. apply rnd_nonneg.
  assert (0 <= fdiv (fmul (cap v) (of_int storage)) 100)%Q; [|lra].
  apply Hd; [lra|]. apply rnd_nonneg. nra.
Qed.

Lemma Qceiling_nonneg x : (0 <= x)%Q -> (0 <= Qceiling x)%Z.
Proof. intros H. change 0%Z with (Qceiling 0). by apply Qceiling_resp_le. Qed.

Lemma FormatCeil_nonneg x : (0 <= x)%Q -> FormatCeil x = dec (Z.to_N (Qceiling x)).
Proof.
  intros H. unfold FormatCeil. rewrite (proj2 (Qle_bool_iff 0 x) H), andb_false_r.
  apply Qceiling_nonneg in H. by destruct (Qceiling x).
Qed.

(** A limit that was converted: a numeral and the suffix. *)
Definition in_k (k : N) : string := dec k +:+ "k".

Lemma in_k_zero k : in_k k = "0k" <-> k = 0%N.
Proof.
  unfold in_k. split; [|by intros ->].
  intros H. change "0k" with (dec 0 +:+ "k") in H. by apply sapp_inj_r, dec_inj in H.
Qed.

(** The comparison of [validateLimits], length first, is the comparison of the numbers. *)
Lemma lenlex_in_k s h :
  (len (in_k h) <? len (in_k s))%nat
  || (len (in_k s) =? len (in_k h))%nat && str_ltb (in_k h) (in_k s) = (h <? s)%N.
Proof. apply lenlex_dec. Qed.

(** The percentage of an accepted limit. *)
Definition percent (limit : string) : option Q :=
  '(ip, fp) ← percentage limit; Some (decimal_value ip fp).

Lemma convertToK_Ret limit storage r :
  (0 <= storage)%Z -> convertToK limit storage = Ret r ->
  limit = "" /\ r = in_k 0 \/
  exists v, percent limit = Some v /\ (0 <= v)%Q /\
    r = in_k (Z.to_N (kilobytes (rnd v) storage)).
Proof.
  intros Hs. rewrite convertToK_eq. destruct (String.eqb_spec limit "") as [->|Hne].
  - intros [= <-]. by left.
  - unfold percent. destruct (percentage limit) as [[ip fp]|] eqn:E; [|done].
    destruct (_ || _); [done|]. intros <-%Ret_inj. right. exists (decimal_value ip fp).
    pose proof (decimal_value_nonneg ip fp) as Hd.
    split; [reflexivity|]. split; [exact Hd|]. unfold in_k, kilobytes.
    rewrite FormatCeil_nonneg; [reflexivity|]. apply limit_in_k_nonneg; [done|]. by apply rnd_nonneg.
Qed.

(** ** The limits of a pod *)

(** C14: limits of requests of up to 64 TiB, where the rounding of float64 is not visible at the
    ends of the range.  An empty limit is converted to zero.  Any other limit that is converted is
    a percentage, and becomes a number of kilobytes between the request and twice the request, both
    rounded up: the request itself for a percentage of zero, and twice the request for every
    percentage of 100 or more, which are all taken as 100. *)
Theorem convertToK_bounds limit storage r :
  (0 <= storage <= 2 ^ 46)%Z -> convertToK limit storage = Ret r ->
  limit = "" /\ r = "0k" \/
  exists v k, percent limit = Some v /\ r = in_k k /\
    (ceil_k storage <= Z.of_N k <= ceil_k (2 * storage))%Z /\
    (v == 0 -> Z.of_N k = ceil_k storage)%Q /\
    (100 <= v -> Z.of_N k = ceil_k (2 * storage))%Q.
Proof.
  intros Hs H. apply convertToK_Ret in H as [[-> ->]|(v & Hp & Hv & ->)]; [by left| |lia].
  right. exists v. eexists. split; [exact Hp|]. split; [reflexivity|].
  pose proof (limit_in_k_bounds (rnd v) storage Hs (rnd_nonneg _ Hv)) as [L U].
  apply Qceiling_resp_le in L, U. rewrite Qceiling_1024 in L, U. unfold kilobytes.
  rewrite Z2N.id; [|apply Qceiling_nonneg, limit_in_k_nonneg; [lia|by apply rnd_nonneg]].
  split; [done|]. rewrite <- !Qceiling_1024. split; intros Hz; apply Qceiling_comp.
  - apply limit_in_k_0; [done|]. by rewrite Hz.
  - apply limit_in_k_100; [done|]. rewrite <- (rnd_int 100) by lia. by apply rnd_mono.
Qed.

(** C15: a larger percentage never gives a smaller limit. *)
Theorem convertToK_monotone l1 l2 storage v1 v2 r1 r2 :
  (0 <= storage)%Z -> percent l1 = Some v1 -> percent l2 = Some v2 -> (v1 <= v2)%Q ->
  convertToK l1 storage = Ret r1 -> convertToK l2 storage = Ret r2 ->
  exists k1 k2, r1 = in_k k1 /\ r2 = in_k k2 /\ (k1 <= k2)%N.
Proof.
  intros Hs P1 P2 Hv H1 H2.
  apply convertToK_Ret in H1 as [[-> _]|(w1 & Q1 & _ & ->)]; [by cbn in P1| |done].
  apply convertToK_Ret in H2 as [[-> _]|(w2 & Q2 & N2 & ->)]; [by cbn in P2| |done].
  rewrite P1 in Q1. rewrite P2 in Q2. injection Q1 as <-. injection Q2 as <-.
  do 2 eexists. split; [reflexivity|]. split; [reflexivity|].
  unfold kilobytes. pose proof (limit_in_k_mono _ _ storage Hs (rnd_mono _ _ Hv)) as Hm.
  apply Qceiling_resp_le in Hm. lia.
Qed.

Lemma validateLimits_in_k s h (o : HelperPodOptions) :
  softLimitGrace o = in_k s -> hardLimitGrace o = in_k h -> (0 <= pvcStorage o)%Z ->
  validateLimits o =
    if (s =? 0)%N && (h =? 0)%N then
      let r := in_k (Z.to_N (Qceiling (fdiv (of_int (pvcStorage o)) 1024%Q))) in
      (o <| softLimitGrace := r |> <| hardLimitGrace := r |>, Ret tt)
    else if (s =? 0)%N || (h =? 0)%N then (o, Ret tt)
    else if (h <? s)%N then
      (o, Fail (Errorf "hard limit cannot be smaller than soft limit" []))
    else (o, Ret tt).
Proof.
  intros Hs Hh Ho. unfold validateLimits. rewrite Hs, Hh.
  assert (forall k, String.eqb (in_k k) "0k" = (k =? 0)%N) as Hz.
  { intros k. apply eq_true_iff_eq. rewrite String.eqb_eq, N.eqb_eq. apply in_k_zero. }
  rewrite !Hz, lenlex_in_k.
  rewrite FormatCeil_nonneg; [done|]. apply rnd_nonneg. pose proof (of_int_nonneg _ Ho).
  unfold Qdiv. apply Qmult_le_0_compat; [done|]. by apply Qinv_le_0_compat.
Qed.

(** The kilobytes of an empty limit are zero. *)
Definition limit_k (limit : string) (storage : Z) : option N :=
  if String.eqb limit "" then Some 0%N
  else v ← percent limit; Some (Z.to_N (kilobytes (rnd v) storage)).

(** C13: [createQuotaPod] resolves the two limits of a volume as follows.  Both are converted to
    kilobytes; when both are zero, both become the request itself; and a soft limit above a hard
    limit that is not zero is refused.  So of the limits that reach the script, the soft one is
    at most the hard one, or one of them is zero. *)
Theorem resolve_limits_spec (o : HelperPodOptions) :
  (0 <= pvcStorage o)%Z ->
  is_Ret (convertToK (softLimitGrace o) (pvcStorage o)) = true ->
  is_Ret (convertToK (hardLimitGrace o) (pvcStorage o)) = true ->
  exists s h,
    limit_k (softLimitGrace o) (pvcStorage o) = Some s /\
    limit_k (hardLimitGrace o) (pvcStorage o) = Some h /\
    resolve_limits o = if (s =? 0)%N && (h =? 0)%N then
          let k := in_k (Z.to_N (Qceiling (fdiv (of_int (pvcStorage o)) 1024%Q))) in
          Ret (o <| softLimitGrace := k |> <| hardLimitGrace := k |>)
        else if negb (s =? 0)%N && negb (h =? 0)%N && (h <? s)%N then
          Fail (Errorf "hard limit cannot be smaller than soft limit" [])
        else Ret (o <| softLimitGrace := in_k s |> <| hardLimitGrace := in_k h |>).
Proof.
  intros Ho Hs Hh.
  assert (forall l r, convertToK l (pvcStorage o) = Ret r ->
    exists k, limit_k l (pvcStorage o) = Some k /\ r = in_k k) as Hk.
  { intros l r H. unfold limit_k. apply convertToK_Ret in H as [[-> ->]|(v & P & _ & ->)]; [|
      |done]; [by exists 0%N|]. destruct (String.eqb_spec l "") as [->|_]; [done|].
    rewrite P. cbn. eauto. }
  destruct (convertToK (softLimitGrace o) _) as [sr| |] eqn:Es; [|done..].
  destruct (convertToK (hardLimitGrace o) _) as [hr| |] eqn:Eh; [|done..].
  destruct (Hk _ _ Es) as (s & Ls & ->). destruct (Hk _ _ Eh) as (h & Lh & ->).
  exists s, h. split_and!; [done|done|].
  assert (resolve_limits o = let '(o', r) := validateLimits
      (o <| softLimitGrace := in_k s |> <| hardLimitGrace := in_k h |>) in r ≫= fun _ => Ret o')
    as ->.
  { unfold resolve_limits. rewrite Es. unfold mbind at 1, outcome_bind at 1.
    cbn -[convertToK validateLimits in_k]. by rewrite Eh. }
  rewrite (validateLimits_in_k s h) by done.
  destruct (s =? 0)%N, (h =? 0)%N, (h <? s)%N; reflexivity.
Qed.
