(* ===== verification/StorageClass.v ===== *)
(** * The builder of storage classes

    [src/pkg/kubernetes/api/storage/v1/storageclass]: [build.go], the options of a StorageClass
    for local volumes, and [utils.go], the checks the options make before they write.  The
    options write the [cas.openebs.io/config] annotation as text, which [VolumeConfig] reads
    back; [ClassConfig] has the theorems about both ends. *)

From S2P Require Import Prelude GoStrings GoRegexp GoPath KubeApi Maya.
Open Scope string_scope. Open Scope list_scope.

(* Source: src/pkg/kubernetes/api/storage/v1/storageclass/build.go *)

(* go: 27-42 localPVcasTypeValue *)
Definition localPVcasTypeValue := "local".
(* go: 31-31 localPVprovisionerName *)
Definition localPVprovisionerName := "openebs.io/local".
(* go: 39-39 KeyQuotaSoftLimit *)
Definition KeyQuotaSoftLimit := "softLimitGrace".
(* go: 40-40 KeyQuotaHardLimit *)
Definition KeyQuotaHardLimit := "hardLimitGrace".

(** [switch name { case ...: ... default: ... }]. *)
Definition switch {T} (name : string) (cases : list (string * T)) (dflt : T) : T :=
  default dflt (snd <$> find (fun c => String.eqb name c.1) cases).

(* Source: src/pkg/kubernetes/api/storage/v1/storageclass/utils.go *)

Definition isValidPath (hostpath : string) : bool :=
  if negb (IsAbs hostpath) then false
  else
    let path := TrimSuffix hostpath "/" in
    let '(parentDir, subDir) := Split path in
    let parentDir := TrimSuffix parentDir "/" in
    let subDir := TrimSuffix subDir "/" in
    negb (String.eqb parentDir "" || String.eqb subDir "").

(** The expression of [isValidQuotaData], the same for both limits:
    at most three digits with an optional fraction, or a fraction alone, and a percent sign; or
    nothing. *)
(* go: 110-110 isValidQuotaData *)
Definition quota_regexp : re :=
  let digit := Chars is_digit in
  Alt Eps
    (Cat (Alt (Cat (UpTo3 digit) (Opt (Cat (Lit ".") (Star digit))))
              (Cat (Lit ".") (Plus digit)))
         (Lit "%")).

Definition isValidQuotaData (data : gomap string) : bool :=
  match data with
  | None => true
  | Some data =>
    match data !! KeyQuotaSoftLimit with
    | Some softLimit => MatchString quota_regexp softLimit
    | None => true
    end &&
    match data !! KeyQuotaHardLimit with
    | Some hardLimit => MatchString quota_regexp hardLimit
    | None => true
    end
  end.

Definition isValidFilesystem (filesystem : string) : bool :=
  switch filesystem [("xfs", true); ("ext4", true)] false.

Section StorageClasses.
Context {A : ApiTypes} {Y : Maya}.
Implicit Types s : StorageClass.

Definition isCompatibleWithLocalPVcasType s : bool :=
  match mget (Annotations (sc_Meta s)) CASTypeKey with
  | Some scCASTypeStr =>
    negb (negb (String.eqb scCASTypeStr localPVcasTypeValue) && negb (String.eqb scCASTypeStr ""))
  | None => true
  end.

(** The common frame of the checks: the type annotation, every entry of the configuration, and
    the name of the provisioner.  (The parser does not panic, see [MayaLaws].) *)
(* go: 61-102 isCompatibleWithHostpath *)
Definition compatible (entry_ok : Config -> bool) s : bool :=
  if negb (isCompatibleWithLocalPVcasType s) then false
  else
    match mget (Annotations (sc_Meta s)) CASConfigKey with
    | Some scCASConfigStr =>
      match UnMarshallToConfig scCASConfigStr with
      | Ret scCASConfig => forallb entry_ok scCASConfig
      | _ => false
      end
    | None => true
    end &&
    negb ((0 <? len (sc_Provisioner s))%nat &&
          negb (String.eqb (sc_Provisioner s) localPVprovisionerName)).

(* go: 143-143 isCompatibleWithQuota *)
Definition is_type (stgType : string) (config : Config) : bool :=
  String.eqb (cfg_Value config) (dq +:+ stgType +:+ dq) || String.eqb (cfg_Value config) stgType.

(* go: func isCompatibleWithHostpath( *)
Definition isCompatibleWithHostpath : StorageClass -> bool := compatible (fun config =>
  switch (TrimSpace (cfg_Name config))
    [("NodeAffinityLabel", true);
     ("XFSQuota", isValidQuotaData (cfg_Data config));
     ("EXT4Quota", isValidQuotaData (cfg_Data config))] false).

(* go: func isCompatibleWithQuota( *)
Definition isCompatibleWithQuota : StorageClass -> bool := compatible (fun config =>
  switch (TrimSpace (cfg_Name config))
    [("StorageType", is_type "hostpath" config);
     ("BasePath", isValidPath (cfg_Value config));
     ("NodeAffinityLabel", true)] false).

(* go: func isCompatibleWithNodeAffinityLabel( *)
Definition isCompatibleWithNodeAffinityLabel : StorageClass -> bool := compatible (fun config =>
  switch (TrimSpace (cfg_Name config))
    [("StorageType", is_type "hostpath" config || is_type "device" config);
     ("BasePath", isValidPath (cfg_Value config));
     ("XFSQuota", isValidQuotaData (cfg_Data config));
     ("EXT4Quota", isValidQuotaData (cfg_Data config))] false).

(* go: func isCompatibleWithDevice( *)
Definition isCompatibleWithDevice : StorageClass -> bool := compatible (fun config =>
  switch (TrimSpace (cfg_Name config)) [("BlockDeviceSelectors", true); ("FSType", true)] false).

(* go: func isCompatibleWithFSType( *)
Definition isCompatibleWithFSType : StorageClass -> bool := compatible (fun config =>
  switch (TrimSpace (cfg_Name config))
    [("StorageType", is_type "device" config); ("BlockDeviceSelectors", true)] false).

(* go: func isCompatibleWithBlockDeviceTag( *)
Definition isCompatibleWithBlockDeviceTag : StorageClass -> bool := compatible (fun config =>
  switch (TrimSpace (cfg_Name config))
    [("StorageType", is_type "device" config); ("FSType", true)] false).

(** The writers assign to the class they are given; they are functions of the class here. *)
(* go: func writeOrAppendCASConfig( *)
Definition writeOrAppendCASConfig s (config : string) : StorageClass * bool :=
  let annotations :=
    match Annotations (sc_Meta s) with
    | None => {[ CASConfigKey := config ]}
    | Some m =>
      match m !! CASConfigKey with
      | Some scCASConfig => <[CASConfigKey := scCASConfig +:+ config]> m
      | None => <[CASConfigKey := config]> m
      end
    end in
  (s <| sc_Meta ::= fun m => m <| Annotations := Some annotations |> |>, true).

(* go: func appendAllowedTopologies( *)
Definition appendAllowedTopologies (Ord : MapOrder) s
    (allowedTopologies : gmap string (list string)) : StorageClass :=
  let selectorTerm := {| MatchLabelExpressions :=
    map (fun '(key, values) => {| tslr_Key := key; tslr_Values := values |})
      (map_range allowedTopologies) |} in
  s <| sc_AllowedTopologies ::= fun ts => ts ++ [selectorTerm] |>.

(* Source: src/pkg/kubernetes/api/storage/v1/storageclass/build.go *)

(** An option changes the class or returns an error. *)
Definition StorageClassOption := M StorageClass error unit.

(** [config] is appended, [failure] is the error when that is not possible. *)
(* go: 156-166 WithHostpath *)
Definition write_config (config failure : string) : StorageClassOption := fun s =>
  let '(s, ok) := writeOrAppendCASConfig s config in
  (s, if negb ok then Fail (ErrNew failure) else Ret tt).

Definition check (b : bool) (failure : string) : StorageClassOption :=
  if b then mret tt else throw (ErrNew failure).

(** A test of the class. *)
Definition check_class (f : StorageClass -> bool) (failure : string) : StorageClassOption :=
  fun s => check (f s) failure s.

Definition modify (f : StorageClass -> StorageClass) : StorageClassOption := fun s => (f s, Ret tt).

(* go: func NewStorageClass( *)
Fixpoint apply_options (opts : list StorageClassOption) (s : StorageClass) :
    outcome error StorageClass :=
  match opts with
  | [] => Ret s
  | opt :: opts =>
    match opt s with
    | (s, Ret _) => apply_options opts s
    | (_, Fail err) => Fail (Wrapf err "Failed to build StorageClass." [])
    | (_, Panic) => Panic
    end
  end.

Definition NewStorageClass (opts : list StorageClassOption) : outcome error StorageClass :=
  apply_options opts StorageClass_zero.

Definition WithName (name : string) : StorageClassOption :=
  if (len name =? 0)%nat then throw (ErrNew "Failed to set Name. Name is an empty string.")
  else modify (fun s => s <| sc_Meta ::= fun m => m <| Name := name |> |>).

Definition WithGenerateName (generateName : string) : StorageClassOption :=
  if (len generateName =? 0)%nat then
    throw (ErrNew "Failed to set GenerateName. Name prefix is an empty string.")
  else modify (fun s => s <| sc_Meta ::= fun m => m <| GenerateName := generateName +:+ "-" |> |>).

Definition WithLabels (Ord : MapOrder) (labels : gomap string) : StorageClassOption :=
  if (mlen labels =? 0)%nat then throw (ErrNew "Failed to set Labels. Input is invalid.")
  else modify (fun s => s <| sc_Meta ::= fun m =>
    m <| Labels ::= fun old => Some (copy_into (default ∅ labels) (default ∅ old)) |> |>).

Definition WithParameters (Ord : MapOrder) (parameters : gomap string) : StorageClassOption :=
  if (mlen parameters =? 0)%nat then throw (ErrNew "Failed to set Parameters. Input is invalid.")
  else modify (fun s => s <| sc_Parameters ::= fun old =>
    Some (copy_into (default ∅ parameters) (default ∅ old)) |>).

Definition WithLocalPV : StorageClassOption :=
  _ ← check_class (fun s => match mget (Annotations (sc_Meta s)) CASTypeKey with
                             | Some _ => false | None => true end)
        ("Annotation '" +:+ CASTypeKey +:+ "' is already set.");
  _ ← check_class (fun s => negb (0 <? len (sc_Provisioner s))%nat)
        "Provisioner name is already set.";
  modify (fun s => s
    <| sc_Meta ::= fun m => m <| Annotations ::= fun old =>
         Some (<[CASTypeKey := localPVcasTypeValue]> (default ∅ old)) |> |>
    <| sc_Provisioner := localPVprovisionerName |>).

Definition WithHostpath (hostpathDir : string) : StorageClassOption :=
  _ ← check (isValidPath hostpathDir)
    "Invalid hostpath directory. Path must be an absolute path and must be a directory which is not directly under '/'.";
  _ ← check_class isCompatibleWithHostpath
    ("Failed to set StorageType and BasePath for Hostpath. Invalid existing '" +:+ CASConfigKey
     +:+ "' annotation parameters or Provisioner name.");
  let config :=
    "- name: StorageType" +:+ nl +:+
    "  value: " +:+ dq +:+ "hostpath" +:+ dq +:+ nl +:+
    "- name: BasePath" +:+ nl +:+
    "  value: " +:+ dq +:+ hostpathDir +:+ dq +:+ nl in
  write_config config "Failed to set StorageType and BasePath parameters for Hostpath.".

Definition WithDevice : StorageClassOption :=
  _ ← check_class isCompatibleWithDevice
    ("Failed to set StorageType for Device. Invalid existing '" +:+ CASConfigKey
     +:+ "' annotaion parameters or Provisioner name.");
  let config :=
    "- name: StorageType" +:+ nl +:+
    "  value: " +:+ dq +:+ "device" +:+ dq +:+ nl in
  write_config config "Failed to set StorageType parameter for Device.".

(** [WithXfsQuota] and [WithExt4Quota] differ in the name of the entry. *)
(* go: func WithXfsQuota( *)
Definition with_quota (quota softLimit hardLimit : string) : StorageClassOption :=
  _ ← check_class isCompatibleWithQuota
    ("Failed to set " +:+ quota +:+ " parameters. Invalid existing '" +:+ CASConfigKey
     +:+ "' annotation parameters or Provisioner name.");
  let config := "- name: " +:+ quota +:+ nl +:+ "  enabled: " +:+ dq +:+ "true" +:+ dq +:+ nl in
  let limited := (0 <? len softLimit)%nat || (0 <? len hardLimit)%nat in
  _ ← check (negb limited || isValidQuotaData
      (Some (<[KeyQuotaSoftLimit := softLimit]> {[KeyQuotaHardLimit := hardLimit]})))
    ("Failed to set " +:+ quota +:+ " parameters. Invalid " +:+ KeyQuotaSoftLimit +:+ " and "
     +:+ KeyQuotaHardLimit +:+ " values");
  let config := if limited then
      config +:+ "  data:" +:+ nl +:+
      "    " +:+ KeyQuotaSoftLimit +:+ ": " +:+ dq +:+ softLimit +:+ dq +:+ nl +:+
      "    " +:+ KeyQuotaHardLimit +:+ ": " +:+ dq +:+ hardLimit +:+ dq +:+ nl
    else config in
  write_config config ("Failed to set " +:+ quota +:+ " parameters").

Definition WithXfsQuota : string -> string -> StorageClassOption := with_quota "XFSQuota".
Definition WithExt4Quota : string -> string -> StorageClassOption := with_quota "EXT4Quota".

Definition WithVolumeBindingMode (volBindingMode : string) : StorageClassOption :=
  let volBindingMode :=
    if (len volBindingMode =? 0)%nat then "WaitForFirstConsumer" else volBindingMode in
  modify (fun s => s <| sc_VolumeBindingMode := Some volBindingMode |>).

Definition WithReclaimPolicy (reclaimPolicy : string) : StorageClassOption :=
  let reclaimPolicy := if (len reclaimPolicy =? 0)%nat then "Delete" else reclaimPolicy in
  modify (fun s => s <| sc_ReclaimPolicy := Some reclaimPolicy |>).

Definition WithAllowedTopologies (Ord : MapOrder) (allowedTopologies : gomap (list string)) :
    StorageClassOption :=
  if (mlen allowedTopologies =? 0)%nat then
    throw (ErrNew "Failed to set AllowedTopologies. Input is invalid.")
  else modify (fun s => appendAllowedTopologies Ord s (default ∅ allowedTopologies)).

(** The list of the keys that are not empty, as lines of the entry. *)
(* go: 317-324 WithNodeAffinityLabels *)
Definition label_keys (nodeLabelKeys : list string) : string :=
  foldl (fun labelKeys nodeLabelKey =>
    if negb (len nodeLabelKey =? 0)%nat
    then labelKeys +:+ "    - " +:+ dq +:+ nodeLabelKey +:+ dq +:+ nl else labelKeys) "" nodeLabelKeys.

Definition WithNodeAffinityLabels (nodeLabelKeys : list string) : StorageClassOption :=
  _ ← check (negb (length nodeLabelKeys =? 0)%nat)
    "Failed to set NodeLabelKey. Input is invalid.";
  _ ← check_class isCompatibleWithNodeAffinityLabel
    ("Failed to set NodeAffinityLabel. Invalid existing '" +:+ CASConfigKey
     +:+ "' annotaion parameters or Provisioner name.");
  let labelKeys := label_keys nodeLabelKeys in
  _ ← check (negb (String.eqb labelKeys "")) "Failed to set NodeLabelKey. Input is invalid.";
  let config := "- name: NodeAffinityLabels" +:+ nl +:+ "  list:" +:+ nl +:+ labelKeys in
  write_config config "Failed to set NodeAffinityLabel parameter for Hostpath.".

Definition WithFSType (filesystem : string) : StorageClassOption :=
  _ ← check (isValidFilesystem filesystem)
    ("Filesystem is invalid. Accepted values are " +:+ dq +:+ "ext4" +:+ dq +:+ " and "
     +:+ dq +:+ "xfs" +:+ dq +:+ ".");
  _ ← check_class isCompatibleWithFSType
    ("Failed to set FSType. Invalid existing '" +:+ CASConfigKey
     +:+ "' annotation parameters or Provisioner name");
  let config := "- name: FSType" +:+ nl +:+ "  value: " +:+ dq +:+ filesystem +:+ dq +:+ nl in
  write_config config "Failed to set FSType parameter for Device.".

(** The selectors whose value is not empty, as lines of the entry. *)
(* go: 390-397 WithBlockDeviceSelectors *)
Definition selector_lines (bdSelectors : list (string * string)) : string :=
  foldl (fun bdSelectorMap kv =>
    if negb (len kv.2 =? 0)%nat
    then bdSelectorMap +:+ "    " +:+ dq +:+ kv.1 +:+ dq +:+ ": " +:+ dq +:+ kv.2 +:+ dq +:+ nl
    else bdSelectorMap) "" bdSelectors.

Definition WithBlockDeviceSelectors (Ord : MapOrder) (bdSelectors : gomap string) :
    StorageClassOption :=
  _ ← check (negb (mlen bdSelectors =? 0)%nat)
    "Failed to set BlockDeviceSelectors. Input is invalid.";
  _ ← check_class isCompatibleWithBlockDeviceTag
    ("Failed to set BlockDeviceTag. Invalid existing '" +:+ CASConfigKey
     +:+ "' annotaion parameters or Provisioner name.");
  let bdSelectorMap := selector_lines (map_range (default ∅ bdSelectors)) in
  _ ← check (negb (String.eqb bdSelectorMap ""))
    "Failed to set BlockDeviceSelectors. Input is invalid.";
  let config := "- name: BlockDeviceSelectors" +:+ nl +:+ "  data:" +:+ nl +:+ bdSelectorMap in
  write_config config "Failed to set BlockDeviceTag parameter for Device.".

End StorageClasses.
