(* ===== verification/ClassLimits.v ===== *)
(** * The quota limits of a storage class

    The expression with which [StorageClass.isValidQuotaData] checks a limit, as a statement about
    percentages, and [accepted_limits_convert]: what that check accepts, [convertToK] of
    [HelperHostpath] converts. *)

From Stdlib Require Import QArith.
From S2P Require Import Prelude GoStrings GoRegexp GoFloat GoPath KubeApi Maya StorageClass.
From S2P Require Import HelperHostpath Quota.
Close Scope Q_scope.
Open Scope string_scope. Open Scope list_scope.

(** ** The limits of a quota *)

Lemma lang_star_digits s : lang (Star (Chars is_digit)) s <-> all_digits s = true.
Proof.
  split.
  - remember (Star (Chars is_digit)) as r eqn:Hr. induction 1 as [| | | | | |r u v Hu _ Hv IHv]; try done.
    injection Hr as ->. inversion Hu as [|? a Ha| | | | |]; subst. cbn. by rewrite Ha, IHv.
  - induction s as [|a s IH]; cbn; [constructor|]. intros [Ha Hs]%andb_true_iff.
    apply (lang_Star_app _ (String a "")); [by constructor|by apply IH].
Qed.

Lemma lang_Chars_iff p s : lang (Chars p) s <-> exists a, s = String a "" /\ p a = true.
Proof. split; [inversion 1; eauto|intros (a & -> & H); by constructor]. Qed.

Lemma lang_Eps_iff s : lang Eps s <-> s = "".
Proof. split; [by inversion 1|intros ->; constructor]. Qed.

Lemma lang_Cat_iff r q s : lang (Cat r q) s <-> exists u v, s = u +:+ v /\ lang r u /\ lang q v.
Proof. split; [apply lang_Cat_inv|intros (u & v & -> & ? & ?); by constructor]. Qed.

Lemma lang_Lit a s : lang (Lit a) s <-> s = String a "".
Proof.
  unfold Lit. rewrite lang_Chars_iff. split.
  - intros (b & -> & Hb). apply Ascii.eqb_eq in Hb. by subst b.
  - intros ->. exists a. by rewrite Ascii.eqb_refl.
Qed.

(** One to three digits. *)
Lemma lang_UpTo3_digits s :
  lang (UpTo3 (Chars is_digit)) s <-> all_digits s = true /\ 1 <= len s <= 3.
Proof.
  unfold UpTo3, Opt. rewrite lang_Cat_iff. setoid_rewrite lang_Alt_iff.
  setoid_rewrite lang_Cat_iff. setoid_rewrite lang_Alt_iff. setoid_rewrite lang_Eps_iff.
  setoid_rewrite lang_Chars_iff. split.
  - intros (u & v & -> & (a & -> & Ha) & [->|(u' & v' & -> & (b & -> & Hb) & [->|(c & -> & Hc)])]);
      cbn; rewrite ?Ha, ?Hb, ?Hc; (split; [done|lia]).
  - destruct s as [|a [|b [|c [|d s]]]]; cbn; intros [H Hlen]; try lia;
      rewrite ?andb_true_iff in H; destruct_and?.
    + exists (String a ""), "". eauto 10.
    + exists (String a ""), (String b ""). split; [done|]. split; [eauto|]. right.
      exists (String b ""), "". eauto 10.
    + exists (String a ""), (String b (String c "")). split; [done|]. split; [eauto|]. right.
      exists (String b ""), (String c ""). eauto 10.
Qed.

Lemma percentage_app ip dot ds :
  all_digits ip = true -> all_digits ds = true -> dot = "." \/ dot = "" /\ ds = "" ->
  percentage (ip +:+ dot +:+ ds +:+ "%") = Some (ip, ds).
Proof.
  intros Hip Hds Hdot. unfold percentage.
  rewrite (proj2 (take_digits_spec _ ip (dot +:+ ds +:+ "%"))) by
    (split_and!; [done|done|by destruct Hdot as [->|[-> ->]]]).
  assert (take_dot (dot +:+ ds +:+ "%") = (dot, ds +:+ "%")) as -> by (by destruct Hdot as [->|[-> ->]]).
  by rewrite (proj2 (take_digits_spec _ ds "%")).
Qed.

(** The limits that the builder of classes accepts, as percentages. *)
Lemma quota_regexp_spec s :
  MatchString quota_regexp s = true <->
  s = "" \/ exists ip fp, percentage s = Some (ip, fp) /\ len ip <= 3 /\ 1 <= len ip + len fp.
Proof.
  rewrite MatchString_lang. unfold quota_regexp, Opt, Plus. rewrite lang_Alt_iff, lang_Eps_iff.
  apply or_iff_compat_l. split.
  - intros (w & p & -> & Hw & ->%lang_Lit)%lang_Cat_iff.
    apply lang_Alt_iff in Hw as [(ip & r & -> & [Hip Hl]%lang_UpTo3_digits & Hr)%lang_Cat_iff
      |(u & v & -> & ->%lang_Lit & Hv)%lang_Cat_iff].
    + exists ip. apply lang_Alt_iff in Hr as [->%lang_Eps_iff
        |(u & ds & -> & ->%lang_Lit & Hds%lang_star_digits)%lang_Cat_iff].
      * exists "". split; [|cbn; lia]. rewrite <- sapp_assoc. apply (percentage_app ip "" ""); auto.
      * exists ds. split; [|lia]. rewrite <- !sapp_assoc. apply (percentage_app ip "." ds); auto.
    + apply lang_Cat_iff in Hv as (u & ds & -> & (a & -> & Ha)%lang_Chars_iff & Hds%lang_star_digits).
      exists "", (String a ds). split; [|cbn; lia].
      apply (percentage_app "" "." (String a ds)); cbn; rewrite ?Ha; auto.
  - intros (ip & fp & Hp & Hip & Hl). unfold percentage in Hp.
    destruct (take_digits s) as [ip' r1] eqn:E1. destruct (take_dot r1) as [dot r2] eqn:E2.
    destruct (take_digits r2) as [fp' r3] eqn:E3.
    destruct (String.eqb_spec r3 "%") as [->|]; [|done]. injection Hp as -> ->.
    apply take_digits_spec in E1 as (-> & Hdi & Hh1), E3 as (-> & Hdf & Hh3).
    apply take_dot_spec in E2 as [-> Hdot]. rewrite !sapp_assoc. constructor; [|by apply lang_Lit].
    rewrite <- sapp_assoc. destruct (decide (ip = "")) as [->|Hne].
    + apply lang_Alt_r. destruct Hdot as [->|[-> _]]; [|destruct fp; [cbn in Hl; lia|]; cbn in Hh1].
      * apply (lang_Cat _ _ "." fp); [by apply lang_Lit|]. destruct fp as [|a fp]; [cbn in Hl; lia|].
        cbn in Hdf. apply andb_true_iff in Hdf as [Ha Hdf].
        apply (lang_Cat _ _ (String a "") fp); [by constructor|by apply lang_star_digits].
      * cbn in Hdf. rewrite Hh1 in Hdf. done.
    + apply lang_Alt_l. constructor.
      { apply lang_UpTo3_digits. split; [done|]. destruct ip; [done|]. cbn in *. lia. }
      destruct Hdot as [->|[-> _]].
      * apply lang_Alt_r. constructor; [by apply lang_Lit|by apply lang_star_digits].
      * apply lang_Alt_l. destruct fp as [|a fp]; [constructor|]. cbn in Hh1, Hdf.
        rewrite Hh1 in Hdf. done.
Qed.

(** ** Accepted limits can be converted *)

Lemma digits_value_bound s acc :
  all_digits s = true -> (digits_value acc s < (acc + 1) * 10 ^ N.of_nat (len s))%N.
Proof.
  revert acc. induction s as [|a s IH]; intros acc; cbn [all_digits digits_value String.length].
  - intros _. cbn. lia.
  - intros [Ha Hs]%andb_true_iff. specialize (IH (acc * 10 + (code a - 48))%N Hs).
    unfold is_digit in Ha. apply andb_true_iff in Ha as [H1 H2].
    apply N.leb_le in H1, H2. rewrite Nat2N.inj_succ, N.pow_succ_r'.
    eapply N.lt_le_trans; [exact IH|].
    rewrite N.mul_assoc. apply N.mul_le_mono_r. lia.
Qed.

Lemma pow10_spec n : Zpos (pow10 n) = (10 ^ Z.of_nat n)%Z.
Proof.
  induction n as [|n IH]; [done|].
  change (pow10 (S n)) with (10 * pow10 n)%positive. rewrite Pos2Z.inj_mul, IH, Nat2Z.inj_succ, Z.pow_succ_r; lia.
Qed.

Lemma decimal_value_bound ip fp :
  all_digits ip = true -> all_digits fp = true -> len ip <= 3 -> (decimal_value ip fp <= 1000)%Q.
Proof.
  intros Hi Hf Hl. unfold decimal_value, Qle. cbn [Qnum Qden].
  assert (all_digits (ip +:+ fp) = true) as Hd
    by (clear Hl; induction ip as [|a ip IH]; [done|]; cbn in *; apply andb_true_iff in Hi as [-> Hi]; auto).
  pose proof (digits_value_bound _ 0 Hd) as H. rewrite len_app in H.
  rewrite Z.mul_1_r, pow10_spec.
  assert (10 ^ N.of_nat (len ip + len fp) <= 1000 * 10 ^ N.of_nat (len fp))%N as H3.
  { rewrite Nat2N.inj_add, N.pow_add_r. apply N.mul_le_mono_r.
    change 1000%N with (10 ^ 3)%N. apply N.pow_le_mono_r; lia. }
  assert (10 ^ Z.of_nat (len fp) = Z.of_N (10 ^ N.of_nat (len fp)))%Z as -> by
    (rewrite N2Z.inj_pow, nat_N_Z; done).
  lia.
Qed.

Lemma quota_limit_converts limit storage :
  MatchString quota_regexp limit = true -> (0 <= storage)%Z ->
  exists k, convertToK limit storage = Ret (in_k k).
Proof.
  intros Hm Hs. assert (exists r, convertToK limit storage = Ret r) as [r Hr].
  { rewrite convertToK_eq. apply quota_regexp_spec in Hm as [->|(ip & fp & Hp & Hi & Hl)]; [eauto|].
    rewrite Hp. destruct (String.eqb limit ""); [eauto|].
    assert ((len ip + len fp =? 0)%nat = false) as -> by (apply Nat.eqb_neq; lia).
    assert (all_digits ip = true /\ all_digits fp = true) as [Hdi Hdf].
    { unfold percentage in Hp. destruct (take_digits limit) as [ip' r1] eqn:E1.
      destruct (take_dot r1) as [dot r2]. destruct (take_digits r2) as [fp' r3] eqn:E3.
      destruct (String.eqb r3 "%"); [|done]. injection Hp as -> ->.
      apply take_digits_spec in E1, E3. tauto. }
    assert (Qle_bool overflow_bound (rnd (decimal_value ip fp)) = false) as ->; [|cbn; eauto].
    apply not_true_iff_false. intros H. apply Qle_bool_iff in H.
    pose proof (rnd_mono _ _ (decimal_value_bound ip fp Hdi Hdf Hi)) as Hr.
    pose proof (Qle_trans _ _ _ H Hr) as Hbad. vm_compute in Hbad. by apply Hbad. }
  apply convertToK_Ret in Hr as Hk; [|done]. rewrite Hr.
  destruct Hk as [[_ ->]|(v & _ & _ & ->)]; eauto.
Qed.

(** C30: the limits that the builder of classes accepts are limits that the provisioner can convert:
    no volume of such a class fails on the format of its limits. *)
Theorem accepted_limits_convert softLimit hardLimit storage :
  (0 <= storage)%Z ->
  isValidQuotaData (Some (<[StorageClass.KeyQuotaSoftLimit := softLimit]>
    {[StorageClass.KeyQuotaHardLimit := hardLimit]})) = true ->
  exists k1 k2, convertToK softLimit storage = Ret (in_k k1) /\
    convertToK hardLimit storage = Ret (in_k k2).
Proof.
  intros Hs. cbn [isValidQuotaData]. rewrite lookup_insert_eq, lookup_insert_ne, lookup_singleton_eq by done.
  intros [H1 H2]%andb_true_iff.
  destruct (quota_limit_converts _ storage H1 Hs) as [k1 ?].
  destruct (quota_limit_converts _ storage H2 Hs) as [k2 ?]. eauto.
Qed.
