(* ===== verification/ClassConfig.v ===== *)
(** * Storage classes, from the builder to the provisioner

    The contract of the builder of [StorageClass]: which options may follow which, and the class
    they give ([class_build], a refinement of an abstract class that keeps the configuration as a
    list of entries); [ClassVolume] proves that the provisioner reads from such a class what was
    asked for.  The configuration travels as YAML text; that the parser reads this
    text as the entries it was written from is the law [ConfigText]. *)

From S2P Require Import Prelude GoStrings GoRegexp GoPath KubeApi Maya Cluster.
From S2P Require Import StorageClass ClassLimits.
Open Scope string_scope. Open Scope list_scope.

(** ** The entries of a configuration, and their text *)

Inductive entry :=
| EStorageType (v : string)
| EBasePath (v : string)
| EQuota (xfs : bool) (limits : option (string * string))
| ENodeAffinityLabels (keys : list string)
| EFSType (v : string)
| EBlockDeviceSelectors (kvs : list (string * string)).

Definition entry_name (e : entry) : string :=
  match e with
  | EStorageType _ => "StorageType"
  | EBasePath _ => "BasePath"
  | EQuota true _ => "XFSQuota"
  | EQuota false _ => "EXT4Quota"
  | ENodeAffinityLabels _ => "NodeAffinityLabels"
  | EFSType _ => "FSType"
  | EBlockDeviceSelectors _ => "BlockDeviceSelectors"
  end.

(** The entry as the parser should return it. *)
Definition entry_config (e : entry) : Config :=
  {| cfg_Name := entry_name e;
     cfg_Enabled := match e with EQuota _ _ => "true" | _ => "" end;
     cfg_Value := match e with EStorageType v | EBasePath v | EFSType v => v | _ => "" end;
     cfg_Data := match e with
       | EQuota _ (Some (s, h)) => Some (<[KeyQuotaSoftLimit := s]> {[KeyQuotaHardLimit := h]})
       | EBlockDeviceSelectors kvs => Some (list_to_map kvs)
       | _ => None
       end;
     cfg_List := match e with ENodeAffinityLabels keys => keys | _ => [] end |}.

Definition quoted (s : string) : string := dq +:+ s +:+ dq.
Definition line (s : string) : string := s +:+ nl.
Definition concat_lines (ls : list string) : string := foldr (fun l acc => line l +:+ acc) "" ls.

Definition entry_lines (e : entry) : list string :=
  ("- name: " +:+ entry_name e) ::
  match e with
  | EStorageType v | EBasePath v | EFSType v => ["  value: " +:+ quoted v]
  | EQuota _ limits => ("  enabled: " +:+ quoted "true") ::
    match limits with
    | Some (s, h) => ["  data:"; "    " +:+ KeyQuotaSoftLimit +:+ ": " +:+ quoted s;
                      "    " +:+ KeyQuotaHardLimit +:+ ": " +:+ quoted h]
    | None => []
    end
  | ENodeAffinityLabels keys => "  list:" :: map (fun k => "    - " +:+ quoted k) keys
  | EBlockDeviceSelectors kvs =>
    "  data:" :: map (fun kv => "    " +:+ quoted kv.1 +:+ ": " +:+ quoted kv.2) kvs
  end.

Definition config_text (es : list entry) : string := concat_lines (es ≫= entry_lines).

(** Text that YAML reads literally between double quotes. *)
Definition plain_char (a : ascii) : bool :=
  (32 <=? code a)%N && (code a <=? 126)%N && negb (code a =? 34)%N && negb (code a =? 92)%N.
Fixpoint plain (s : string) : bool :=
  match s with "" => true | String a s => plain_char a && plain s end.

Definition plain_entry (e : entry) : Prop :=
  match e with
  | EStorageType v | EBasePath v | EFSType v => plain v = true
  | EQuota _ None => True
  | EQuota _ (Some (s, h)) => plain s = true /\ plain h = true
  | ENodeAffinityLabels keys => keys <> [] /\ Forall (fun k => plain k = true) keys
  | EBlockDeviceSelectors kvs => kvs <> [] /\ NoDup kvs.*1 /\
      Forall (fun kv => plain kv.1 = true /\ plain kv.2 = true) kvs
  end.

(** The documented behaviour of the parser on such text: it reads the entries. *)
Class ConfigText (Y : Maya) := config_text_reads : forall es,
  es <> [] -> Forall plain_entry es ->
  UnMarshallToConfig (config_text es) = Ret (map entry_config es).

Lemma concat_lines_app l1 l2 : concat_lines (l1 ++ l2) = concat_lines l1 +:+ concat_lines l2.
Proof.
  induction l1 as [|l l1 IH]; [done|]. cbn [app concat_lines foldr].
  fold (concat_lines (l1 ++ l2)). fold (concat_lines l1). by rewrite IH, sapp_assoc.
Qed.

Lemma config_text_app es1 es2 : config_text (es1 ++ es2) = config_text es1 +:+ config_text es2.
Proof. unfold config_text. by rewrite bind_app, concat_lines_app. Qed.

Lemma config_text_nonempty e es : config_text (e :: es) <> "".
Proof. unfold config_text. cbn. by destruct e. Qed.

(** ** The abstract class *)

Section Classes.
Context {A : ApiTypes} {Y : Maya}.

(** The calls of the options, with their arguments. *)
Inductive Op :=
| OpName (name : string)
| OpGenerateName (generateName : string)
| OpLabels (Ord : MapOrder) (labels : gomap string)
| OpParameters (Ord : MapOrder) (parameters : gomap string)
| OpLocalPV
| OpHostpath (hostpathDir : string)
| OpDevice
| OpQuota (xfs : bool) (softLimit hardLimit : string)
| OpVolumeBindingMode (mode : string)
| OpReclaimPolicy (policy : string)
| OpAllowedTopologies (Ord : MapOrder) (topologies : gomap (list string))
| OpNodeAffinityLabels (keys : list string)
| OpFSType (filesystem : string)
| OpBlockDeviceSelectors (Ord : MapOrder) (selectors : gomap string).

Definition apply (op : Op) : StorageClassOption :=
  match op with
  | OpName n => WithName n
  | OpGenerateName n => WithGenerateName n
  | OpLabels Ord m => WithLabels Ord m
  | OpParameters Ord m => WithParameters Ord m
  | OpLocalPV => WithLocalPV
  | OpHostpath d => WithHostpath d
  | OpDevice => WithDevice
  | OpQuota true s h => WithXfsQuota s h
  | OpQuota false s h => WithExt4Quota s h
  | OpVolumeBindingMode m => WithVolumeBindingMode m
  | OpReclaimPolicy p => WithReclaimPolicy p
  | OpAllowedTopologies Ord m => WithAllowedTopologies Ord m
  | OpNodeAffinityLabels keys => WithNodeAffinityLabels keys
  | OpFSType f => WithFSType f
  | OpBlockDeviceSelectors Ord m => WithBlockDeviceSelectors Ord m
  end.

(** The configuration as a list, whether the class is marked as local, and the other fields. *)
Record spec := { sp_class : StorageClass; sp_local : bool; sp_entries : list entry }.

Definition annotations (local : bool) (es : list entry) : gomap string :=
  match local, es with
  | false, [] => None
  | true, [] => Some {[ CASTypeKey := localPVcasTypeValue ]}
  | false, _ => Some {[ CASConfigKey := config_text es ]}
  | true, _ => Some (<[CASTypeKey := localPVcasTypeValue]> {[ CASConfigKey := config_text es ]})
  end.

Definition concretize (sp : spec) : StorageClass :=
  (sp_class sp)
    <| sc_Provisioner := if sp_local sp then localPVprovisionerName else "" |>
    <| sc_Meta ::= fun m => m <| Annotations := annotations (sp_local sp) (sp_entries sp) |> |>.

Definition limits_of (softLimit hardLimit : string) : option (string * string) :=
  if String.eqb softLimit "" && String.eqb hardLimit "" then None else Some (softLimit, hardLimit).

Definition some_keys (keys : list string) : list string := filter (fun k => k <> "") keys.
Definition some_selectors (Ord : MapOrder) (m : gomap string) : list (string * string) :=
  filter (fun kv => kv.2 <> "") (map_range (default ∅ m)).

(** The entries an option adds. *)
Definition new_entries (op : Op) : list entry :=
  match op with
  | OpHostpath d => [EStorageType "hostpath"; EBasePath d]
  | OpDevice => [EStorageType "device"]
  | OpQuota xfs s h => [EQuota xfs (limits_of s h)]
  | OpNodeAffinityLabels keys => [ENodeAffinityLabels (some_keys keys)]
  | OpFSType f => [EFSType f]
  | OpBlockDeviceSelectors Ord m => [EBlockDeviceSelectors (some_selectors Ord m)]
  | _ => []
  end.

(** The arguments an option accepts. *)
Definition valid_args (op : Op) : bool :=
  match op with
  | OpName n | OpGenerateName n => negb (String.eqb n "")
  | OpLabels _ m | OpParameters _ m => negb (no_entries m)
  | OpAllowedTopologies _ m => negb (no_entries m)
  | OpHostpath d => isValidPath d
  | OpQuota _ s h => MatchString quota_regexp s && MatchString quota_regexp h
  | OpNodeAffinityLabels keys => bool_decide (some_keys keys <> [])
  | OpFSType f => String.eqb f "xfs" || String.eqb f "ext4"
  | OpBlockDeviceSelectors Ord m => bool_decide (some_selectors Ord m <> [])
  | _ => true
  end.

(** The entries an option may follow.  No option that writes an entry may follow node labels. *)
Definition may_follow (op : Op) (e : entry) : bool :=
  match op, e with
  | OpHostpath _, EQuota _ _ => true
  | OpQuota _ _ _, (EStorageType "hostpath" | EBasePath _) => true
  | OpNodeAffinityLabels _, (EStorageType _ | EBasePath _ | EQuota _ _) => true
  | OpDevice, (EBlockDeviceSelectors _ | EFSType _) => true
  | OpFSType _, (EStorageType "device" | EBlockDeviceSelectors _) => true
  | OpBlockDeviceSelectors _ _, (EStorageType "device" | EFSType _) => true
  | (OpHostpath _ | OpQuota _ _ _ | OpNodeAffinityLabels _ | OpDevice | OpFSType _
     | OpBlockDeviceSelectors _ _), _ => false
  | _, _ => true
  end.

(** The effect on the other fields. *)
Definition op_class (op : Op) (s : StorageClass) : StorageClass :=
  match op with
  | OpName n => s <| sc_Meta ::= fun m => m <| Name := n |> |>
  | OpGenerateName n => s <| sc_Meta ::= fun m => m <| GenerateName := n +:+ "-" |> |>
  | OpLabels _ l => s <| sc_Meta ::= fun m => m <| Labels ::= fun old =>
      Some (default ∅ l ∪ default ∅ old) |> |>
  | OpParameters _ l => s <| sc_Parameters ::= fun old => Some (default ∅ l ∪ default ∅ old) |>
  | OpVolumeBindingMode m =>
      s <| sc_VolumeBindingMode := Some (if String.eqb m "" then "WaitForFirstConsumer" else m) |>
  | OpReclaimPolicy r => s <| sc_ReclaimPolicy := Some (if String.eqb r "" then "Delete" else r) |>
  | OpAllowedTopologies Ord m => appendAllowedTopologies Ord s (default ∅ m)
  | _ => s
  end.

Definition spec_op (op : Op) (sp : spec) : option spec :=
  if valid_args op && forallb (may_follow op) (sp_entries sp)
     && match op with OpLocalPV => negb (sp_local sp) | _ => true end then
    Some {| sp_class := op_class op (sp_class sp);
            sp_local := match op with OpLocalPV => true | _ => sp_local sp end;
            sp_entries := sp_entries sp ++ new_entries op |}
  else None.

Definition spec_run (ops : list Op) (sp : spec) : option spec :=
  foldl (fun acc op => acc ≫= spec_op op) (Some sp) ops.

Definition spec_zero : spec :=
  {| sp_class := StorageClass_zero; sp_local := false; sp_entries := [] |}.

(** The text arguments are read back literally. *)
Definition plain_op (op : Op) : Prop :=
  match op with
  | OpHostpath d => plain d = true
  | OpQuota _ s h => plain s = true /\ plain h = true
  | OpNodeAffinityLabels keys => Forall (fun k => plain k = true) keys
  | OpBlockDeviceSelectors _ m => map_Forall (fun k v => plain k = true /\ plain v = true) (default ∅ m)
  | _ => True
  end.

(** ** The simulation *)

(** What the entries written by the options satisfy. *)
Definition entry_ok (e : entry) : Prop :=
  plain_entry e /\
  match e with
  | EStorageType v => v = "hostpath" \/ v = "device"
  | EBasePath p => isValidPath p = true
  | EQuota _ limits => isValidQuotaData (cfg_Data (entry_config e)) = true
  | _ => True
  end.

Lemma limits_of_ok xfs s h :
  MatchString quota_regexp s && MatchString quota_regexp h = true ->
  plain s = true /\ plain h = true -> entry_ok (EQuota xfs (limits_of s h)).
Proof.
  intros Hv Hp. unfold limits_of.
  destruct (String.eqb s "" && String.eqb h ""); [repeat split|]. split; [done|].
  cbn [entry_config cfg_Data isValidQuotaData].
  by rewrite lookup_insert_eq, lookup_insert_ne, lookup_singleton_eq by done.
Qed.

Lemma some_selectors_ok Ord m :
  some_selectors Ord m <> [] ->
  map_Forall (fun k v => plain k = true /\ plain v = true) (default ∅ m) ->
  plain_entry (EBlockDeviceSelectors (some_selectors Ord m)).
Proof.
  intros Hne Hp. split_and!; [done| |].
  - eapply sublist_NoDup; [exact (map_range_NoDup (default ∅ m))|]. apply fmap_sublist, sublist_filter.
  - apply Forall_forall. intros [k v] [_ Hk]%list_elem_of_filter.
    apply map_range_elem in Hk. apply (Hp k v Hk).
Qed.

Lemma new_entries_ok op :
  valid_args op = true -> plain_op op -> Forall entry_ok (new_entries op).
Proof.
  destruct op as [| | | | |d| |xfs s h| | | |keys|f|Ord m]; cbn [valid_args plain_op new_entries];
    intros Hv Hp; repeat (apply Forall_cons; split); try apply Forall_nil; try done.
  - split; [done|by left].
  - split; [done|by right].
  - by apply limits_of_ok.
  - apply bool_decide_eq_true in Hv. split; [|done]. split; [done|].
    apply Forall_forall. intros k [_ Hk]%list_elem_of_filter. rewrite Forall_forall in Hp. auto.
  - apply orb_true_iff in Hv as [->%String.eqb_eq| ->%String.eqb_eq]; repeat split.
  - apply bool_decide_eq_true in Hv. split; [by apply some_selectors_ok|done].
Qed.

Context {T : ConfigText Y}.

Lemma annotations_type local es :
  mget (annotations local es) CASTypeKey = if local then Some localPVcasTypeValue else None.
Proof.
  destruct local, es; unfold annotations, mget; cbn [mbind option_bind]; [|..].
  - apply lookup_singleton_eq.
  - apply lookup_insert_eq.
  - done.
  - by apply lookup_singleton_ne.
Qed.

Lemma annotations_config local es :
  mget (annotations local es) CASConfigKey
  = match es with [] => None | _ => Some (config_text es) end.
Proof.
  destruct local, es; unfold annotations, mget; cbn [mbind option_bind]; [|..].
  - by apply lookup_singleton_ne.
  - rewrite lookup_insert_ne by done. apply lookup_singleton_eq.
  - done.
  - apply lookup_singleton_eq.
Qed.

Lemma concretize_annotations sp :
  Annotations (sc_Meta (concretize sp)) = annotations (sp_local sp) (sp_entries sp).
Proof. done. Qed.

Lemma compatible_spec ok sp :
  Forall entry_ok (sp_entries sp) ->
  compatible ok (concretize sp) = forallb (fun e => ok (entry_config e)) (sp_entries sp).
Proof.
  intros He. unfold compatible, isCompatibleWithLocalPVcasType.
  rewrite concretize_annotations, annotations_type, annotations_config.
  assert (forall es, forallb ok (map entry_config es) = forallb (fun e => ok (entry_config e)) es)
    as Hm by (intros es; induction es as [|e es IH]; [done|]; cbn; by rewrite IH).
  assert (negb ((0 <? len (sc_Provisioner (concretize sp)))%nat &&
    negb (String.eqb (sc_Provisioner (concretize sp)) localPVprovisionerName)) = true) as ->
    by (cbn; by destruct (sp_local sp)).
  rewrite andb_true_r. set (es := sp_entries sp) in *.
  assert (match match es with [] => None | _ => Some (config_text es) end with
    | Some t => match UnMarshallToConfig t with Ret cs => forallb ok cs | _ => false end
    | None => true end = forallb (fun e => ok (entry_config e)) es) as Hr.
  { destruct es as [|e es'] eqn:E; [done|]. rewrite config_text_reads, Hm; [done|done|].
    eapply Forall_impl; [exact He|]. by intros ? []. }
  rewrite Hr. by destruct (sp_local sp).
Qed.

Lemma write_config_spec text new failure sp :
  text = config_text new -> new <> [] ->
  write_config text failure (concretize sp)
  = (concretize {| sp_class := sp_class sp; sp_local := sp_local sp;
                   sp_entries := sp_entries sp ++ new |}, Ret tt).
Proof.
  intros -> Hne. unfold write_config, writeOrAppendCASConfig.
  assert (annotations (sp_local sp) (sp_entries sp ++ new)
    = Some (match annotations (sp_local sp) (sp_entries sp) with
            | None => {[ CASConfigKey := config_text new ]}
            | Some m => match m !! CASConfigKey with
              | Some t => <[CASConfigKey := t +:+ config_text new]> m
              | None => <[CASConfigKey := config_text new]> m end end)) as Ha.
  { pose proof (annotations_config (sp_local sp) (sp_entries sp)) as Hc. unfold mget in Hc.
    pose proof (config_text_app (sp_entries sp) new) as Ht.
    destruct new as [|n new]; [done|]. destruct (sp_local sp), (sp_entries sp) as [|e es];
      unfold annotations in *; cbn [app mbind option_bind] in *; rewrite ?Hc; f_equal; rewrite ?Ht.
    - rewrite insert_insert_ne by done. by rewrite insert_singleton_eq.
    - by rewrite insert_singleton_eq. }
  rewrite concretize_annotations. unfold concretize. cbn [sp_local sp_entries sp_class].
  rewrite Ha. reflexivity.
Qed.

Lemma config_name e : TrimSpace (cfg_Name (entry_config e)) = entry_name e.
Proof. by destruct e as [| |[]| | |]. Qed.

(** A check of the code and the entries an option may follow. *)
Ltac solve_compat :=
  intros He; etransitivity; [by apply compatible_spec|];
  induction He as [|e es [_ Hk] _ IH]; [done|]; cbn [forallb]; rewrite IH; f_equal;
  rewrite config_name; destruct e as [v|v|[] limits| | |];
  cbn -[isValidPath isValidQuotaData lookup] in *;
  first [done | by destruct Hk as [-> | ->]].

Lemma hostpath_compatible sp d : Forall entry_ok (sp_entries sp) ->
  isCompatibleWithHostpath (concretize sp) = forallb (may_follow (OpHostpath d)) (sp_entries sp).
Proof. solve_compat. Qed.

Lemma quota_compatible sp xfs s h : Forall entry_ok (sp_entries sp) ->
  isCompatibleWithQuota (concretize sp) = forallb (may_follow (OpQuota xfs s h)) (sp_entries sp).
Proof. solve_compat. Qed.

Lemma labels_compatible sp keys : Forall entry_ok (sp_entries sp) ->
  isCompatibleWithNodeAffinityLabel (concretize sp)
  = forallb (may_follow (OpNodeAffinityLabels keys)) (sp_entries sp).
Proof. solve_compat. Qed.

Lemma device_compatible sp : Forall entry_ok (sp_entries sp) ->
  isCompatibleWithDevice (concretize sp) = forallb (may_follow OpDevice) (sp_entries sp).
Proof. solve_compat. Qed.

Lemma fstype_compatible sp f : Forall entry_ok (sp_entries sp) ->
  isCompatibleWithFSType (concretize sp) = forallb (may_follow (OpFSType f)) (sp_entries sp).
Proof. solve_compat. Qed.

Lemma selectors_compatible sp Ord m : Forall entry_ok (sp_entries sp) ->
  isCompatibleWithBlockDeviceTag (concretize sp)
  = forallb (may_follow (OpBlockDeviceSelectors Ord m)) (sp_entries sp).
Proof. solve_compat. Qed.

(** ** The text of each option *)

Lemma concat_lines_cons l ls : concat_lines (l :: ls) = l +:+ nl +:+ concat_lines ls.
Proof. cbn. unfold line. by rewrite <- sapp_assoc. Qed.

Lemma config_text_single e : config_text [e] = concat_lines (entry_lines e).
Proof. unfold config_text. cbn [mbind list_bind]. by rewrite app_nil_r. Qed.

Ltac solve_text :=
  unfold config_text, line, quoted; cbn [app mbind list_bind entry_lines map concat_lines foldr];
  unfold line, quoted; rewrite ?sapp_nil_r, <- ?sapp_assoc; reflexivity.

Lemma hostpath_text d :
  "- name: StorageType" +:+ nl +:+ "  value: " +:+ dq +:+ "hostpath" +:+ dq +:+ nl +:+
  "- name: BasePath" +:+ nl +:+ "  value: " +:+ dq +:+ d +:+ dq +:+ nl
  = config_text [EStorageType "hostpath"; EBasePath d].
Proof. solve_text. Qed.

Lemma fstype_text f :
  "- name: FSType" +:+ nl +:+ "  value: " +:+ dq +:+ f +:+ dq +:+ nl = config_text [EFSType f].
Proof. solve_text. Qed.

Definition quota_text (xfs : bool) (softLimit hardLimit : string) : string :=
  let config := "- name: " +:+ (if xfs then "XFSQuota" else "EXT4Quota") +:+ nl
    +:+ "  enabled: " +:+ dq +:+ "true" +:+ dq +:+ nl in
  if (0 <? len softLimit)%nat || (0 <? len hardLimit)%nat then
    config +:+ "  data:" +:+ nl +:+
    "    " +:+ KeyQuotaSoftLimit +:+ ": " +:+ dq +:+ softLimit +:+ dq +:+ nl +:+
    "    " +:+ KeyQuotaHardLimit +:+ ": " +:+ dq +:+ hardLimit +:+ dq +:+ nl
  else config.

Lemma quota_limited s h :
  (0 <? len s)%nat || (0 <? len h)%nat = negb (String.eqb s "" && String.eqb h "").
Proof. by destruct s, h. Qed.

Lemma quota_text_eq xfs s h : quota_text xfs s h = config_text [EQuota xfs (limits_of s h)].
Proof.
  unfold quota_text, limits_of. rewrite quota_limited.
  destruct (String.eqb s "" && String.eqb h ""), xfs; cbn [negb]; solve_text.
Qed.

Lemma label_keys_text keys :
  label_keys keys = concat_lines (map (fun k => "    - " +:+ quoted k) (some_keys keys)).
Proof.
  unfold label_keys, some_keys.
  assert (forall acc, foldl (fun labelKeys nodeLabelKey => if negb (len nodeLabelKey =? 0)%nat
      then labelKeys +:+ "    - " +:+ dq +:+ nodeLabelKey +:+ dq +:+ nl else labelKeys) acc keys
    = acc +:+ concat_lines (map (fun k => "    - " +:+ quoted k) (filter (fun k => k <> "") keys))) as H.
  { induction keys as [|k keys IH]; intros acc; [cbn; by rewrite sapp_nil_r|].
    cbn [foldl]. rewrite IH, filter_cons. destruct k as [|a k].
    - rewrite decide_False by (intros Hn; by apply Hn). done.
    - rewrite decide_True by done. cbn [String.length Nat.eqb negb map concat_lines foldr].
      fold concat_lines. unfold line, quoted. by rewrite <- !sapp_assoc. }
  apply (H "").
Qed.

Lemma selector_lines_text kvs :
  selector_lines kvs
  = concat_lines (map (fun kv => "    " +:+ quoted kv.1 +:+ ": " +:+ quoted kv.2)
      (filter (fun kv => kv.2 <> "") kvs)).
Proof.
  unfold selector_lines.
  assert (forall acc, foldl (fun bdSelectorMap kv => if negb (len kv.2 =? 0)%nat
      then bdSelectorMap +:+ "    " +:+ dq +:+ kv.1 +:+ dq +:+ ": " +:+ dq +:+ kv.2 +:+ dq +:+ nl
      else bdSelectorMap) acc kvs
    = acc +:+ concat_lines (map (fun kv => "    " +:+ quoted kv.1 +:+ ": " +:+ quoted kv.2)
        (filter (fun kv => kv.2 <> "") kvs))) as H.
  { induction kvs as [|[k v] kvs IH]; intros acc; [cbn; by rewrite sapp_nil_r|].
    cbn [foldl fst snd]. rewrite IH, filter_cons. cbn [snd]. destruct v as [|a v].
    - rewrite decide_False by (intros Hn; by apply Hn). done.
    - rewrite decide_True by done. cbn [String.length Nat.eqb negb map concat_lines foldr fst snd].
      fold concat_lines. unfold line, quoted. by rewrite <- !sapp_assoc. }
  apply (H "").
Qed.

Lemma concat_lines_nil {X} (f : X -> string) (xs : list X) :
  (forall x, f x <> "") -> concat_lines (map f xs) = "" <-> xs = [].
Proof.
  intros Hf. destruct xs as [|x xs]; [done|]. split; [|done]. cbn. unfold line.
  specialize (Hf x). by destruct (f x).
Qed.

Lemma labels_text keys :
  "- name: NodeAffinityLabels" +:+ nl +:+ "  list:" +:+ nl +:+ label_keys keys
  = config_text [ENodeAffinityLabels (some_keys keys)].
Proof.
  rewrite label_keys_text, config_text_single. unfold entry_lines.
  by rewrite !concat_lines_cons.
Qed.

Lemma selectors_text Ord m :
  "- name: BlockDeviceSelectors" +:+ nl +:+ "  data:" +:+ nl
    +:+ selector_lines (map_range (default ∅ m))
  = config_text [EBlockDeviceSelectors (some_selectors Ord m)].
Proof.
  rewrite selector_lines_text, config_text_single. unfold entry_lines.
  by rewrite !concat_lines_cons.
Qed.

(** ** Each option refines its specification *)

Definition refines (op : Op) (sp : spec) : Prop :=
  match spec_op op sp with
  | Some sp' => apply op (concretize sp) = (concretize sp', Ret tt)
  | None => exists s e, apply op (concretize sp) = (s, Fail e)
  end.

Lemma check_bind (b : bool) msg (k : unit -> StorageClassOption) s :
  (check b msg ≫= k) s = if b then k tt s else (s, Fail (ErrNew msg)).
Proof. by destruct b. Qed.

Lemma check_class_bind f msg (k : unit -> StorageClassOption) s :
  (check_class f msg ≫= k) s = if f s then k tt s else (s, Fail (ErrNew msg)).
Proof. unfold check_class, mbind, M_bind. by destruct (f s). Qed.

Lemma len_eqb (s : string) : (len s =? 0)%nat = String.eqb s "".
Proof. by destruct s. Qed.

Lemma forallb_may_follow_true op es :
  (forall e, may_follow op e = true) -> forallb (may_follow op) es = true.
Proof. intros H. induction es as [|e es IH]; [done|]. cbn. by rewrite H. Qed.

(** Options that write no entry: a test of the arguments and an update of other fields. *)
Lemma refines_update op sp f e :
  apply op = (if valid_args op then modify f else throw e) ->
  (forall e', may_follow op e' = true) -> new_entries op = [] -> op <> OpLocalPV ->
  (forall c, f (concretize {| sp_class := c; sp_local := sp_local sp; sp_entries := sp_entries sp |})
    = concretize {| sp_class := op_class op c; sp_local := sp_local sp;
                    sp_entries := sp_entries sp |}) ->
  refines op sp.
Proof.
  intros Ha Hm Hn Hl Hf. unfold refines, spec_op. rewrite Ha, Hn, app_nil_r, forallb_may_follow_true by done.
  destruct sp as [c local es]. cbn [sp_class sp_local sp_entries] in *. specialize (Hf c).
  destruct (valid_args op); [|by eexists _, _].
  destruct op; try done; cbn [andb]; unfold modify; by rewrite Hf.
Qed.

Lemma refines_plain op sp : new_entries op = [] -> op <> OpLocalPV -> refines op sp.
Proof.
  intros Hn Hl. destruct op; try discriminate Hn; try done; eapply refines_update; try done;
    cbn [apply valid_args]; unfold WithName, WithGenerateName, WithLabels, WithParameters,
      WithVolumeBindingMode, WithReclaimPolicy, WithAllowedTopologies;
    rewrite ?len_eqb, ?mlen_empty; try (by case_match); try reflexivity.
  all: intros c; unfold concretize, op_class; cbn; by rewrite ?copy_into_union.
  Unshelve. all: exact (ErrNew "").
Qed.

Lemma refines_local sp : refines OpLocalPV sp.
Proof.
  unfold refines, spec_op. rewrite forallb_may_follow_true by done. cbn [valid_args andb apply].
  unfold WithLocalPV. rewrite check_class_bind, concretize_annotations, annotations_type.
  destruct sp as [c [] es]; cbn [sp_local sp_entries negb]; [by eexists _, _|].
  rewrite check_class_bind, app_nil_r. cbn [concretize sc_Provisioner set String.length negb].
  assert (annotations true es
    = Some (<[CASTypeKey := localPVcasTypeValue]> (default ∅ (annotations false es)))) as Ha
    by (by destruct es).
  unfold modify, concretize. cbn [sp_class sp_local sp_entries]. rewrite Ha. reflexivity.
Qed.

(** Options that write entries: a test of the arguments, the check, and the text. *)
Lemma refines_write op sp config failure :
  match op with OpLocalPV => False | _ => True end ->
  (forall c, op_class op c = c) -> Forall entry_ok (sp_entries sp) ->
  config = config_text (new_entries op) -> new_entries op <> [] ->
  (exists s e, apply op (concretize sp)
    = if valid_args op && forallb (may_follow op) (sp_entries sp)
      then write_config config failure (concretize sp) else (s, Fail e)) ->
  refines op sp.
Proof.
  intros Hl Hc He Ht Hne (s & e & Ha). unfold refines, spec_op. rewrite Ha.
  destruct (valid_args op && forallb (may_follow op) (sp_entries sp)) eqn:E; cbn [andb];
    [|destruct op; eauto].
  rewrite (write_config_spec _ _ _ _ Ht Hne), Hc. by destruct op.
Qed.

Lemma refines_hostpath d sp : Forall entry_ok (sp_entries sp) -> refines (OpHostpath d) sp.
Proof.
  intros He. eapply (refines_write (OpHostpath d) _ _ _ I (fun _ => eq_refl) He (hostpath_text d));
    [done|]. cbn [apply valid_args]. unfold WithHostpath. rewrite check_bind.
  destruct (isValidPath d); cbn [andb]; [|by eexists _, _].
  rewrite check_class_bind, (hostpath_compatible _ d) by done. destruct (forallb _ _); by eexists _, _.
  Unshelve. all: exact (concretize sp) || exact (ErrNew "").
Qed.

Lemma refines_device sp : Forall entry_ok (sp_entries sp) -> refines OpDevice sp.
Proof.
  intros He. eapply (refines_write OpDevice _ _ _ I (fun _ => eq_refl) He eq_refl);
    [done|]. cbn [apply valid_args andb]. unfold WithDevice.
  rewrite check_class_bind, device_compatible by done. destruct (forallb _ _); by eexists _, _.
  Unshelve. all: exact (concretize sp) || exact (ErrNew "").
Qed.

Lemma refines_fstype f sp : Forall entry_ok (sp_entries sp) -> refines (OpFSType f) sp.
Proof.
  intros He. eapply (refines_write (OpFSType f) _ _ _ I (fun _ => eq_refl) He (fstype_text f));
    [done|]. cbn [apply valid_args]. unfold WithFSType. rewrite check_bind.
  assert (isValidFilesystem f = String.eqb f "xfs" || String.eqb f "ext4") as ->
    by (unfold isValidFilesystem, switch; cbn;
        by destruct (String.eqb f "xfs"), (String.eqb f "ext4")).
  destruct (_ || _); cbn [andb]; [|by eexists _, _].
  rewrite check_class_bind, (fstype_compatible _ f) by done. destruct (forallb _ _); by eexists _, _.
  Unshelve. all: exact (concretize sp) || exact (ErrNew "").
Qed.

Lemma refines_labels keys sp :
  Forall entry_ok (sp_entries sp) -> refines (OpNodeAffinityLabels keys) sp.
Proof.
  intros He. eapply (refines_write (OpNodeAffinityLabels keys) _ _ _ I (fun _ => eq_refl) He
    (labels_text keys)); [done|]. cbn [apply valid_args]. unfold WithNodeAffinityLabels.
  rewrite check_bind, check_class_bind, (labels_compatible _ keys), check_bind by done.
  assert (negb (String.eqb (label_keys keys) "") = bool_decide (some_keys keys <> [])) as ->.
  { rewrite label_keys_text. apply eq_true_iff_eq. rewrite negb_true_iff, bool_decide_eq_true, String.eqb_neq.
    by rewrite concat_lines_nil. }
  destruct keys as [|k keys]; [by eexists _, _|]. cbn [length Nat.eqb negb].
  destruct (bool_decide _), (forallb _ _); cbn [andb]; by eexists _, _.
  Unshelve. all: exact (concretize sp) || exact (ErrNew "").
Qed.

Lemma refines_selectors Ord m sp :
  Forall entry_ok (sp_entries sp) -> refines (OpBlockDeviceSelectors Ord m) sp.
Proof.
  intros He. eapply (refines_write (OpBlockDeviceSelectors Ord m) _ _ _ I (fun _ => eq_refl) He
    (selectors_text Ord m)); [done|]. cbn [apply valid_args]. unfold WithBlockDeviceSelectors.
  rewrite check_bind, check_class_bind, (selectors_compatible _ Ord m), check_bind by done.
  assert (negb (String.eqb (selector_lines (map_range (default ∅ m))) "")
    = bool_decide (some_selectors Ord m <> [])) as ->.
  { rewrite selector_lines_text. apply eq_true_iff_eq.
    rewrite negb_true_iff, bool_decide_eq_true, String.eqb_neq. by rewrite concat_lines_nil. }
  rewrite mlen_empty. destruct (no_entries m) eqn:Hm; cbn [negb].
  - apply no_entries_true, (map_range_nil (default ∅ m)) in Hm. unfold some_selectors. rewrite Hm.
    by eexists _, _.
  - destruct (bool_decide _), (forallb _ _); cbn [andb]; by eexists _, _.
  Unshelve. all: exact (concretize sp) || exact (ErrNew "").
Qed.

Lemma refines_quota xfs soft hard sp :
  Forall entry_ok (sp_entries sp) -> refines (OpQuota xfs soft hard) sp.
Proof.
  intros He. eapply (refines_write (OpQuota xfs soft hard) _ _ _ I (fun _ => eq_refl) He
    (quota_text_eq xfs soft hard)); [done|]. cbn [valid_args].
  assert (apply (OpQuota xfs soft hard) = with_quota (if xfs then "XFSQuota" else "EXT4Quota") soft hard)
    as -> by (by destruct xfs).
  unfold with_quota. rewrite check_class_bind, (quota_compatible _ xfs soft hard) by done.
  rewrite check_bind, quota_limited, negb_involutive. cbn [isValidQuotaData].
  rewrite lookup_insert_eq, lookup_insert_ne, lookup_singleton_eq by done.
  unfold quota_text. rewrite quota_limited.
  destruct (forallb _ _); [|rewrite andb_false_r; by eexists _, _]. rewrite andb_true_r.
  destruct (String.eqb_spec soft ""), (String.eqb_spec hard ""); subst; cbn [andb negb orb];
    try (by eexists _, _); destruct (_ && _); by eexists _, _.
  Unshelve. all: exact (concretize sp) || exact (ErrNew "").
Qed.

Lemma apply_refines op sp : Forall entry_ok (sp_entries sp) -> refines op sp.
Proof.
  intros He. destruct op; try (by apply refines_plain);
    [apply refines_local|by apply refines_hostpath|by apply refines_device|by apply refines_quota
    |by apply refines_labels|by apply refines_fstype|by apply refines_selectors].
Qed.

(** ** The class that the builder gives *)

Lemma spec_op_ok op sp sp' :
  Forall entry_ok (sp_entries sp) -> plain_op op -> spec_op op sp = Some sp' ->
  Forall entry_ok (sp_entries sp').
Proof.
  intros He Hp. unfold spec_op.
  destruct (valid_args op) eqn:Hv; [|done]. case_match; [|done]. intros [= <-]. cbn [sp_entries].
  apply Forall_app. split; [done|]. by apply new_entries_ok.
Qed.

Lemma spec_run_cons op ops sp :
  spec_run (op :: ops) sp = spec_op op sp ≫= spec_run ops.
Proof.
  unfold spec_run. cbn [foldl mbind option_bind]. destruct (spec_op op sp) as [sp'|]; [done|].
  cbn. by induction ops.
Qed.

Lemma apply_options_refines ops sp :
  Forall plain_op ops -> Forall entry_ok (sp_entries sp) ->
  match spec_run ops sp with
  | Some sp' => apply_options (map apply ops) (concretize sp) = Ret (concretize sp') /\
      Forall entry_ok (sp_entries sp')
  | None => exists e, apply_options (map apply ops) (concretize sp)
      = Fail (Wrapf e "Failed to build StorageClass." [])
  end.
Proof.
  intros Hp. revert sp. induction Hp as [|op ops Hop _ IH]; intros sp He; [done|].
  rewrite spec_run_cons. pose proof (apply_refines op sp He) as Hr. unfold refines in Hr.
  cbn [map apply_options]. destruct (spec_op op sp) as [sp'|] eqn:E; cbn [mbind option_bind].
  - rewrite Hr. apply IH. by eapply spec_op_ok.
  - destruct Hr as (s & e & ->). eauto.
Qed.

(** C29: the builder of storage classes refines the abstract class.  A chain of options whose text
    arguments are [plain] succeeds exactly when the arguments of each are valid and each may follow the entries written before
    it; the class then has the text of the entries in its annotation, in order, and the other
    fields as the options set them.  Otherwise the first option that is refused is the error. *)
Theorem class_build ops :
  Forall plain_op ops ->
  match spec_run ops spec_zero with
  | Some sp => NewStorageClass (map apply ops) = Ret (concretize sp)
  | None => exists e, NewStorageClass (map apply ops)
      = Fail (Wrapf e "Failed to build StorageClass." [])
  end.
Proof.
  intros Hp. pose proof (apply_options_refines ops spec_zero Hp (Forall_nil_2 _)) as H.
  unfold NewStorageClass. change StorageClass_zero with (concretize spec_zero).
  destruct (spec_run ops spec_zero); [by destruct H|done].
Qed.

(** ** What the entries of a class are *)

Lemma may_follow_name op e e' :
  may_follow op e = true -> e' ∈ new_entries op -> entry_name e <> entry_name e'.
Proof.
  destruct op as [| | | | | | |[]| | | | | |], e as [| |[]| | |]; cbn; try done;
    rewrite ?elem_of_cons, ?elem_of_nil; intros _ He'; destruct_or?; by subst e'.
Qed.

Definition distinct (es : list entry) : Prop := NoDup (entry_name <$> es).

Lemma new_entries_distinct op : distinct (new_entries op).
Proof.
  unfold distinct. destruct op as [| | | | | | |[]| | | | | |]; cbn;
    repeat constructor; rewrite ?elem_of_cons, ?elem_of_nil; intros Hn; by destruct_or? Hn.
Qed.

Lemma spec_op_distinct op sp sp' :
  distinct (sp_entries sp) -> spec_op op sp = Some sp' -> distinct (sp_entries sp').
Proof.
  unfold spec_op. destruct (valid_args op), (forallb (may_follow op) (sp_entries sp)) eqn:Hf;
    cbn [andb]; try done. intros Hd H. assert (sp_entries sp' = sp_entries sp ++ new_entries op) as ->
    by (case_match; [by injection H as <-|done]).
  unfold distinct. rewrite fmap_app. apply NoDup_app. split_and!; [done| |apply new_entries_distinct].
  intros n [e [-> He]]%list_elem_of_fmap [e' [Hn He']]%list_elem_of_fmap.
  rewrite forallb_forall in Hf. apply (may_follow_name op e e'); [|done|done].
  apply Hf. by apply list_elem_of_In.
Qed.

(** Every accepted option leaves its entries in the class. *)
Lemma spec_run_entries ops sp sp' :
  spec_run ops sp = Some sp' -> distinct (sp_entries sp) ->
  distinct (sp_entries sp') /\ sp_entries sp ⊆ sp_entries sp' /\
  forall op, op ∈ ops -> new_entries op ⊆ sp_entries sp' /\ valid_args op = true.
Proof.
  revert sp. induction ops as [|op ops IH]; intros sp.
  - intros [= <-] Hd. split_and!; [done|done|by intros op ?%elem_of_nil].
  - rewrite spec_run_cons. destruct (spec_op op sp) as [sp1|] eqn:E; [|done]. cbn. intros Hr Hd.
    destruct (IH sp1 Hr) as (Hd' & Hsub & Hops); [by eapply spec_op_distinct|].
    assert (sp_entries sp1 = sp_entries sp ++ new_entries op /\ valid_args op = true) as [H1 Hv].
    { unfold spec_op in E. destruct (valid_args op); [|done]. case_match; [|done]. by injection E as <-. }
    rewrite H1 in Hsub. split_and!; [done| |].
    + intros e He. apply Hsub, elem_of_app. by left.
    + intros op' [->|Hin]%elem_of_cons; [|auto]. split; [|done].
      intros e He. apply Hsub, elem_of_app. by right.
Qed.

(** C31: among options whose text arguments are [plain], none that writes an entry can follow the
    node labels: the checks of the other options know the entry by a name that the builder does not write. *)
Theorem nothing_follows_node_labels ops1 keys ops2 op ops3 :
  Forall plain_op (ops1 ++ OpNodeAffinityLabels keys :: ops2 ++ op :: ops3) ->
  new_entries op <> [] ->
  exists e, NewStorageClass (map apply (ops1 ++ OpNodeAffinityLabels keys :: ops2 ++ op :: ops3)) = Fail e.
Proof.
  set (ops := ops1 ++ _). intros Hp Hne.
  pose proof (apply_options_refines ops spec_zero Hp (Forall_nil_2 _)) as H.
  unfold NewStorageClass. change StorageClass_zero with (concretize spec_zero).
  destruct (spec_run ops spec_zero) as [sp|] eqn:E; [exfalso|destruct H as (e & ->); eauto].
  assert (forall l1 l2 s, spec_run (l1 ++ l2) s = spec_run l1 s ≫= spec_run l2) as Happ.
  { clear. induction l1 as [|o l1 IH]; intros l2 s; [done|]. cbn [app]. rewrite !spec_run_cons.
    destruct (spec_op o s); [apply IH|done]. }
  unfold ops in E. rewrite Happ in E. destruct (spec_run ops1 spec_zero) as [s1|] eqn:E1; [|done].
  cbn [mbind option_bind] in E. change (OpNodeAffinityLabels keys :: ops2 ++ op :: ops3)
    with ((OpNodeAffinityLabels keys :: ops2) ++ op :: ops3) in E. rewrite Happ in E.
  destruct (spec_run (_ :: ops2) s1) as [s2|] eqn:E2; [|done].
  cbn [mbind option_bind] in E. rewrite spec_run_cons in E.
  destruct (spec_run_entries _ _ _ E1) as (Hd1 & _); [constructor|].
  destruct (spec_run_entries _ _ _ E2 Hd1) as (_ & _ & H2).
  destruct (H2 (OpNodeAffinityLabels keys)) as [Hin _]; [by left|].
  assert (spec_op op s2 = None) as Hn; [|by rewrite Hn in E].
  unfold spec_op. replace (forallb (may_follow op) (sp_entries s2)) with false;
    [by rewrite andb_false_r|]. symmetry. apply not_true_iff_false. intros Hf.
  rewrite forallb_forall in Hf. specialize (Hf (ENodeAffinityLabels (some_keys keys))).
  assert (may_follow op (ENodeAffinityLabels (some_keys keys)) = true) as Hm.
  { apply Hf. apply list_elem_of_In, Hin. by left. }
  by destruct op.
Qed.

End Classes.
