(* ===== verification/ClassVolume.v ===== *)
(** * What the provisioner reads from a class of the builder

    A StorageClass made by the options of [StorageClass] and the configuration that
    [GetVolumeConfig] of [VolumeConfig] makes of it: the accessors return the arguments of the
    options. *)

From S2P Require Import Prelude GoStrings GoRegexp GoPath KubeApi Maya Cluster.
From S2P Require Import StorageClass ClassLimits ClassConfig.
From S2P Require VolumeConfig.
Open Scope string_scope. Open Scope list_scope.

Section ClassVolume.
Context {A : ApiTypes} {Y : Maya} {L : MayaLaws Y} {T : ConfigText Y}.
Context {W : Type} {K : Cluster W}.

Lemma config_text_not_blank e es : (len (TrimSpace (config_text (e :: es))) =? 0)%nat = false.
Proof.
  destruct (config_text (e :: es)) as [|a s] eqn:E; [by apply config_text_nonempty in E|].
  assert (a = "-"%char) as ->.
  { unfold config_text in E. cbn [mbind list_bind] in E. unfold entry_lines in E. cbn [app] in E.
    rewrite concat_lines_cons in E. by injection E as <- _. }
  pose proof (TrimSpace_not_blank "-"%char s eq_refl). by destruct (TrimSpace _).
Qed.

Lemma config_key_entry e : config_key (entry_config e) = entry_name e.
Proof. apply config_name. Qed.

(** The entries of a list with distinct names, filed under the name of one of them. *)
Lemma entries_named es e :
  distinct es -> e ∈ es ->
  filter (fun c => config_key c = entry_name e) (map entry_config es) = [entry_config e].
Proof.
  unfold distinct. induction es as [|e' es IH]; [by intros _ ?%elem_of_nil|].
  rewrite fmap_cons, NoDup_cons. intros [Hn Hd] He. cbn [map]. rewrite filter_cons, config_key_entry.
  apply elem_of_cons in He as [->|He].
  - rewrite decide_True by done. f_equal. apply filter_none, Forall_forall.
    intros c (e & <- & He)%list_elem_of_In%in_map_iff Heq. apply Hn. rewrite config_key_entry in Heq.
    rewrite <- Heq. apply list_elem_of_fmap. exists e. split; [done|]. by apply list_elem_of_In.
  - rewrite decide_False; [by apply IH|]. intros Heq. apply Hn. rewrite Heq.
    apply list_elem_of_fmap. by exists e.
Qed.

(** The merged configuration of a class of the builder. *)
Lemma merged_named es e defaults cs :
  Forall entry_ok es -> distinct es -> e ∈ es ->
  VolumeConfig.merged_config (config_text es) defaults = Ret cs ->
  filter (fun c => config_key c = entry_name e) cs = [entry_config e].
Proof.
  intros Hok Hd He. unfold VolumeConfig.merged_config.
  destruct es as [|e0 es'] eqn:E; [by apply elem_of_nil in He|]. rewrite <- E in *.
  assert ((len (TrimSpace (config_text es)) =? 0)%nat = false) as ->
    by (rewrite E; apply config_text_not_blank).
  rewrite config_text_reads; [|by rewrite E|eapply Forall_impl; [exact Hok|]; by intros ? []].
  intros <-%Ret_inj. rewrite MergeConfig_named, entries_named by done. done.
Qed.

(** What is shown of an entry. *)
Definition entry_shown (c : VolumeConfig.VolumeConfig) (e : entry) : Prop :=
  VolumeConfig.getValue c (entry_name e) = cfg_Value (entry_config e) /\
  VolumeConfig.getEnabled c (entry_name e) = cfg_Enabled (entry_config e) /\
  VolumeConfig.getData c (entry_name e) = cfg_Data (entry_config e) /\
  (forall f, VolumeConfig.getDataField c (entry_name e) f
    = mget_str (cfg_Data (entry_config e)) f) /\
  VolumeConfig.getList c (entry_name e)
    = match cfg_List (entry_config e) with [] => None | l => Some l end.

Lemma shows_entry c cs e :
  VolumeConfig.shows c cs -> filter (fun c => config_key c = entry_name e) cs = [entry_config e] ->
  entry_shown c e.
Proof.
  intros Hs Hf. unfold entry_shown. set (ce := entry_config e) in *. clearbody ce. split_and!; [| | |intros f|].
  - rewrite (VolumeConfig.shows_value _ _ Hs). unfold last_config. by rewrite Hf.
  - rewrite (VolumeConfig.shows_enabled _ _ Hs). unfold last_config. by rewrite Hf.
  - rewrite (VolumeConfig.shows_data _ _ Hs). unfold VolumeConfig.last_data. rewrite Hf.
    cbn. rewrite app_nil_r. by destruct (cfg_Data ce).
  - rewrite (VolumeConfig.shows_field _ _ Hs). unfold VolumeConfig.last_data. rewrite Hf.
    cbn. rewrite app_nil_r. by destruct (cfg_Data ce).
  - rewrite (VolumeConfig.shows_list _ _ Hs). unfold VolumeConfig.last_list. rewrite Hf.
    cbn. rewrite app_nil_r. by destruct (cfg_List ce).
Qed.

(** The limits of a quota entry. *)
Lemma quota_fields xfs s h :
  mget_str (cfg_Data (entry_config (EQuota xfs (limits_of s h)))) KeyQuotaSoftLimit = s /\
  mget_str (cfg_Data (entry_config (EQuota xfs (limits_of s h)))) KeyQuotaHardLimit = h.
Proof.
  unfold limits_of. destruct (String.eqb_spec s ""), (String.eqb_spec h ""); subst; cbn [andb];
    (split; [done|]); done.
Qed.

(** The selectors as a map, whatever the order they were written in. *)
Lemma some_selectors_map Ord m :
  list_to_map (some_selectors Ord m) = filter (fun kv : string * string => kv.2 <> "") (default ∅ m).
Proof.
  apply map_eq. intros k. apply option_eq. intros v. unfold some_selectors.
  rewrite map_lookup_filter_Some, <- elem_of_list_to_map.
  - rewrite list_elem_of_filter, map_range_elem. tauto.
  - eapply sublist_NoDup; [exact (map_range_NoDup (default ∅ m))|]. apply fmap_sublist, sublist_filter.
Qed.

(** The configuration of a volume shows every entry that the options of its class wrote. *)
Lemma class_entries_shown ops sc defaults pv pvc w w' c :
  Forall plain_op ops -> NewStorageClass (map apply ops) = Ret sc ->
  VolumeConfig.GetVolumeConfig (W := W) defaults pv pvc w = (w', Ret c) ->
  trace w' = trace w ++ [(StorageClassGet (VolumeConfig.scName c), AStorageClass sc)] ->
  forall op, op ∈ ops -> valid_args op = true /\
    forall e, e ∈ new_entries op -> entry_shown c e.
Proof.
  intros Hp Hsc Hrun Ht op Hop.
  pose proof (apply_options_refines ops spec_zero Hp (Forall_nil_2 _)) as H.
  unfold NewStorageClass in Hsc. change StorageClass_zero with (concretize spec_zero) in Hsc.
  destruct (spec_run ops spec_zero) as [sp|] eqn:E; [|by destruct H as (e & H); rewrite H in Hsc].
  destruct H as [H Hok]. rewrite H in Hsc. injection Hsc as <-.
  destruct (spec_run_entries _ _ _ E) as (Hd & _ & Hin); [constructor|].
  destruct (VolumeConfig.GetVolumeConfig_emits defaults pv pvc w) as (l & Hl & Ho).
  rewrite Hrun in Hl, Ho. destruct Ho as (sc & cs & -> & _ & _ & _ & Hm & _ & Hs).
  cbn [fst] in Hl. rewrite Hl in Ht. apply app_inv_head in Ht. injection Ht as ->.
  split; [by apply (Hin op Hop)|]. intros e He. apply (shows_entry c cs e Hs).
  apply (merged_named (sp_entries sp) e defaults); [done|done| |].
  - by apply (Hin op Hop).
  - revert Hm. rewrite concretize_annotations. unfold mget_str. rewrite annotations_config.
    pose proof (proj1 (Hin op Hop) e He) as Hne. by destruct (sp_entries sp); [apply elem_of_nil in Hne|].
Qed.

(** C28: for options whose text arguments are [plain], the provisioner reads from a class of the
    builder what they were given: the base path, the quotas with their limits, the node labels, the file system and the device selectors;
    and a class with a hostpath option is for host directories. *)
Theorem class_configures ops sc defaults pv pvc w w' c :
  Forall plain_op ops -> NewStorageClass (map apply ops) = Ret sc ->
  VolumeConfig.GetVolumeConfig (W := W) defaults pv pvc w = (w', Ret c) ->
  trace w' = trace w ++ [(StorageClassGet (VolumeConfig.scName c), AStorageClass sc)] ->
  (forall d, OpHostpath d ∈ ops ->
    VolumeConfig.GetStorageType c = "hostpath" /\
    VolumeConfig.getValue c VolumeConfig.KeyPVBasePath = d) /\
  (forall s h, OpQuota true s h ∈ ops ->
    VolumeConfig.IsXfsQuotaEnabled c = true /\
    VolumeConfig.getDataField c VolumeConfig.KeyXFSQuota VolumeConfig.KeyQuotaSoftLimit = s /\
    VolumeConfig.getDataField c VolumeConfig.KeyXFSQuota VolumeConfig.KeyQuotaHardLimit = h) /\
  (forall s h, OpQuota false s h ∈ ops ->
    VolumeConfig.IsExt4QuotaEnabled c = true /\
    VolumeConfig.getDataField c VolumeConfig.KeyEXT4Quota VolumeConfig.KeyQuotaSoftLimit = s /\
    VolumeConfig.getDataField c VolumeConfig.KeyEXT4Quota VolumeConfig.KeyQuotaHardLimit = h) /\
  (forall keys, OpNodeAffinityLabels keys ∈ ops ->
    VolumeConfig.GetNodeAffinityLabelKeys c = Some (filter (fun k => k <> "") keys)) /\
  (forall f, OpFSType f ∈ ops -> VolumeConfig.GetFSType c = f) /\
  (forall Ord m, OpBlockDeviceSelectors Ord m ∈ ops ->
    VolumeConfig.GetBlockDeviceSelectors c = Some (filter (fun kv => kv.2 <> "") (default ∅ m))).
Proof.
  intros Hp Hsc Hrun Ht.
  pose proof (class_entries_shown ops sc defaults pv pvc w w' c Hp Hsc Hrun Ht) as H.
  assert (forall op, op ∈ ops -> valid_args op = true) as Hvalid by (intros op Hop; apply (H op Hop)).
  assert (forall op e, op ∈ ops -> e ∈ new_entries op -> entry_shown c e) as Hshow
    by (intros op e Hop; apply (H op Hop)).
  split_and!.
  - intros d Hop. split.
    + destruct (Hshow _ (EStorageType "hostpath") Hop) as [Hv _]; [by left|].
      unfold VolumeConfig.GetStorageType. cbn in Hv. change VolumeConfig.KeyPVStorageType with "StorageType".
      by rewrite Hv.
    + by destruct (Hshow _ (EBasePath d) Hop) as [Hv _]; [right; left|].
  - intros s h Hop. destruct (Hshow _ _ Hop ltac:(by left)) as (_ & He & _ & Hf & _).
    cbn [entry_name] in *. unfold VolumeConfig.IsXfsQuotaEnabled.
    change VolumeConfig.KeyXFSQuota with "XFSQuota". rewrite He, !Hf.
    split; [done|]. apply quota_fields.
  - intros s h Hop. destruct (Hshow _ _ Hop ltac:(by left)) as (_ & He & _ & Hf & _).
    cbn [entry_name] in *. unfold VolumeConfig.IsExt4QuotaEnabled.
    change VolumeConfig.KeyEXT4Quota with "EXT4Quota". rewrite He, !Hf.
    split; [done|]. apply quota_fields.
  - intros keys Hop. destruct (Hshow _ _ Hop ltac:(by left)) as (_ & _ & _ & _ & Hkeys).
    cbn [entry_name entry_config cfg_List] in *. unfold VolumeConfig.GetNodeAffinityLabelKeys.
    change VolumeConfig.KeyNodeAffinityLabels with "NodeAffinityLabels". rewrite Hkeys.
    specialize (Hvalid _ Hop). cbn in Hvalid. apply bool_decide_eq_true in Hvalid.
    unfold some_keys in *. by destruct (filter _ keys).
  - intros f Hop. destruct (Hshow _ _ Hop ltac:(by left)) as (Hv & _).
    cbn [entry_name entry_config cfg_Value] in *. unfold VolumeConfig.GetFSType.
    change VolumeConfig.KeyPVFSType with "FSType". rewrite Hv. specialize (Hvalid _ Hop).
    cbn in Hvalid. apply orb_true_iff in Hvalid as [->%String.eqb_eq| ->%String.eqb_eq]; done.
  - intros Ord m Hop. destruct (Hshow _ _ Hop ltac:(by left)) as (_ & _ & Hd' & _).
    cbn [entry_name entry_config cfg_Data] in *. unfold VolumeConfig.GetBlockDeviceSelectors.
    change VolumeConfig.KeyBlockDeviceSelectors with "BlockDeviceSelectors". rewrite Hd'. f_equal.
    apply some_selectors_map.
Qed.

End ClassVolume.
