(* ===== verification/ConfigParser.v ===== *)
(** * A parser of configuration text

    A reader of the text that the builder of classes writes, line by line.  It is one function
    with the behaviour that [ClassConfig.ConfigText] asks of the YAML parser of the program
    ([parse_config_text]), used by [Reference]. *)

From S2P Require Import Prelude GoStrings KubeApi Maya StorageClass ClassConfig.
Open Scope string_scope. Open Scope list_scope.

Definition newline : ascii := ascii_of_nat 10.

Definition strip (p l : string) : option string :=
  if HasPrefix l p then Some (sdrop (len p) l) else None.

(** The text up to the next double quote, and what follows it. *)
Fixpoint until_quote (s : string) : string * string :=
  match s with
  | "" => ("", "")
  | String a s =>
    if Ascii.eqb a (ascii_of_nat 34) then ("", s)
    else let '(u, r) := until_quote s in (String a u, r)
  end.

Definition unquote (s : string) : string := (until_quote s).1.

#[global] Instance Eta_Config : Eta Config := fun r =>
  {| cfg_Name := cfg_Name r; cfg_Enabled := cfg_Enabled r; cfg_Value := cfg_Value r;
     cfg_Data := cfg_Data r; cfg_List := cfg_List r |}.

Definition Config_zero : Config :=
  {| cfg_Name := ""; cfg_Enabled := ""; cfg_Value := ""; cfg_Data := None; cfg_List := [] |}.

Definition add_data (k v : string) (c : Config) : Config :=
  c <| cfg_Data ::= fun d => Some (<[k := v]> (default ∅ d)) |>.

(** The meaning of a line that belongs to an entry. *)
Definition field_line (l : string) (c : Config) : Config :=
  match strip ("  value: " +:+ dq) l with Some t => c <| cfg_Value := unquote t |> | None =>
  match strip ("  enabled: " +:+ dq) l with Some t => c <| cfg_Enabled := unquote t |> | None =>
  match strip ("    - " +:+ dq) l with Some t => c <| cfg_List ::= cons (unquote t) |> | None =>
  match strip ("    " +:+ dq) l with
  | Some t => let '(k, r) := until_quote t in add_data k (unquote (sdrop 3 r)) c
  | None =>
  match strip ("    " +:+ KeyQuotaSoftLimit +:+ ": " +:+ dq) l with
  | Some t => add_data KeyQuotaSoftLimit (unquote t) c
  | None =>
  match strip ("    " +:+ KeyQuotaHardLimit +:+ ": " +:+ dq) l with
  | Some t => add_data KeyQuotaHardLimit (unquote t) c
  | None => c
  end end end end end end.

(** The lines are read from the last to the first: the fields of an entry, then its name. *)
Definition read_line (l : string) (st : Config * list Config) : Config * list Config :=
  let '(cur, out) := st in
  match strip "- name: " l with
  | Some n => (Config_zero, cur <| cfg_Name := n |> :: out)
  | None => (field_line l cur, out)
  end.

Definition parse_config (s : string) : list Config :=
  (foldr read_line (Config_zero, []) (SplitChar newline s)).2.

(** ** The text of the builder is read back *)

Fixpoint lacks (a : ascii) (s : string) : bool :=
  match s with "" => true | String b s => negb (Ascii.eqb b a) && lacks a s end.

Lemma lacks_app a s t : lacks a (s +:+ t) = lacks a s && lacks a t.
Proof. induction s as [|b s IH]; [done|]. cbn [String.append lacks]. by rewrite IH, andb_assoc. Qed.

Lemma SplitChar_line a w t : lacks a w = true -> SplitChar a (w +:+ String a t) = w :: SplitChar a t.
Proof.
  induction w as [|b w IH]; cbn [String.append lacks SplitChar].
  - by rewrite Ascii.eqb_refl.
  - intros [Hb Hw]%andb_true_iff. apply negb_true_iff in Hb. by rewrite Hb, IH.
Qed.

Lemma SplitChar_lines ls :
  Forall (fun l => lacks newline l = true) ls -> SplitChar newline (concat_lines ls) = ls ++ [""].
Proof.
  induction 1 as [|l ls Hl _ IH]; [done|]. rewrite concat_lines_cons.
  change (nl +:+ concat_lines ls) with (String newline (concat_lines ls)).
  by rewrite SplitChar_line, IH.
Qed.

Lemma plain_lacks s : plain s = true -> lacks newline s = true.
Proof.
  induction s as [|a s IH]; [done|]. cbn. intros [Ha Hs]%andb_true_iff. rewrite IH by done.
  destruct (Ascii.eqb_spec a newline) as [->|]; [done|done].
Qed.

Lemma until_quote_plain v t : plain v = true -> until_quote (v +:+ dq +:+ t) = (v, t).
Proof.
  induction v as [|a v IH]; [done|]. cbn [plain String.append until_quote].
  intros [Ha Hv]%andb_true_iff. rewrite IH by done.
  destruct (Ascii.eqb_spec a (ascii_of_nat 34)) as [->|]; [done|done].
Qed.

Lemma unquote_plain v : plain v = true -> unquote (v +:+ dq) = v.
Proof.
  intros H. unfold unquote. rewrite <- (sapp_nil_r dq). by rewrite until_quote_plain.
Qed.

Lemma strip_app p t : strip p (p +:+ t) = Some t.
Proof. unfold strip. by rewrite HasPrefix_app, sdrop_app. Qed.

Lemma read_value v cur out : plain v = true ->
  read_line ("  value: " +:+ quoted v) (cur, out) = (cur <| cfg_Value := v |>, out).
Proof.
  intros Hv. unfold read_line, field_line, quoted.
  replace (strip "- name: " _) with (@None string) by reflexivity.
  rewrite sapp_assoc, strip_app. by rewrite unquote_plain.
Qed.

Lemma read_enabled cur out :
  read_line ("  enabled: " +:+ quoted "true") (cur, out) = (cur <| cfg_Enabled := "true" |>, out).
Proof. reflexivity. Qed.

Lemma read_heading l cur out : l = "  data:" \/ l = "  list:" -> read_line l (cur, out) = (cur, out).
Proof. by intros [-> | ->]. Qed.

Lemma read_item v cur out : plain v = true ->
  read_line ("    - " +:+ quoted v) (cur, out) = (cur <| cfg_List ::= cons v |>, out).
Proof.
  intros Hv. unfold read_line, field_line, quoted.
  replace (strip "- name: " _) with (@None string) by reflexivity.
  replace (strip ("  value: " +:+ dq) _) with (@None string) by reflexivity.
  replace (strip ("  enabled: " +:+ dq) _) with (@None string) by reflexivity.
  rewrite sapp_assoc, strip_app. by rewrite unquote_plain.
Qed.

Lemma read_pair k v cur out : plain k = true -> plain v = true ->
  read_line ("    " +:+ quoted k +:+ ": " +:+ quoted v) (cur, out) = (add_data k v cur, out).
Proof.
  intros Hk Hv.
  assert ("    " +:+ quoted k +:+ ": " +:+ quoted v
    = ("    " +:+ dq) +:+ (k +:+ dq +:+ (": " +:+ dq +:+ v +:+ dq))) as ->
    by (unfold quoted; by rewrite <- !sapp_assoc).
  unfold read_line, field_line.
  replace (strip "- name: " _) with (@None string) by reflexivity.
  replace (strip ("  value: " +:+ dq) _) with (@None string) by reflexivity.
  replace (strip ("  enabled: " +:+ dq) _) with (@None string) by reflexivity.
  replace (strip ("    - " +:+ dq) _) with (@None string) by reflexivity.
  rewrite strip_app, until_quote_plain by done.
  change (sdrop 3 (": " +:+ dq +:+ v +:+ dq)) with (v +:+ dq). by rewrite unquote_plain.
Qed.

Lemma read_limit key v cur out : plain v = true -> key = KeyQuotaSoftLimit \/ key = KeyQuotaHardLimit ->
  read_line ("    " +:+ key +:+ ": " +:+ quoted v) (cur, out) = (add_data key v cur, out).
Proof.
  intros Hv Hkey.
  assert ("    " +:+ key +:+ ": " +:+ quoted v = ("    " +:+ key +:+ ": " +:+ dq) +:+ (v +:+ dq)) as ->
    by (unfold quoted; by rewrite <- !sapp_assoc).
  unfold read_line, field_line.
  destruct Hkey as [-> | ->];
    (replace (strip "- name: " _) with (@None string) by reflexivity);
    (replace (strip ("  value: " +:+ dq) _) with (@None string) by reflexivity);
    (replace (strip ("  enabled: " +:+ dq) _) with (@None string) by reflexivity);
    (replace (strip ("    - " +:+ dq) _) with (@None string) by reflexivity);
    (replace (strip ("    " +:+ dq) _) with (@None string) by reflexivity).
  - by rewrite strip_app, unquote_plain.
  - replace (strip ("    " +:+ KeyQuotaSoftLimit +:+ ": " +:+ dq) _) with (@None string) by reflexivity.
    by rewrite strip_app, unquote_plain.
Qed.

Lemma read_items keys cur out : Forall (fun k => plain k = true) keys ->
  foldr read_line (cur, out) (map (fun k => "    - " +:+ quoted k) keys)
  = (cur <| cfg_List ::= app keys |>, out).
Proof.
  induction 1 as [|k keys Hk _ IH]; [by destruct cur|]. cbn [map foldr]. by rewrite IH, read_item.
Qed.

Lemma read_pairs kvs out : Forall (fun kv => plain kv.1 = true /\ plain kv.2 = true) kvs ->
  kvs <> [] ->
  foldr read_line (Config_zero, out)
    (map (fun kv => "    " +:+ quoted kv.1 +:+ ": " +:+ quoted kv.2) kvs)
  = (Config_zero <| cfg_Data := Some (list_to_map kvs) |>, out).
Proof.
  induction 1 as [|[k v] kvs [Hk Hv] Hkvs IH]; [done|]. intros _. cbn [map foldr fst snd].
  destruct kvs as [|kv kvs].
  - by apply read_pair.
  - rewrite IH by done. by rewrite read_pair.
Qed.

(** One entry is read back, whatever follows it. *)
Lemma read_entry e out : plain_entry e ->
  foldr read_line (Config_zero, out) (entry_lines e) = (Config_zero, entry_config e :: out).
Proof.
  assert (forall n c, read_line ("- name: " +:+ n) (c, out) = (Config_zero, c <| cfg_Name := n |> :: out))
    as Hn by (intros n c; unfold read_line; by rewrite strip_app).
  destruct e as [v|v|xfs [[s h]|]|keys|v|kvs]; cbn [plain_entry]; unfold entry_lines; intros Hp;
    cbn [foldr]; rewrite ?read_value, ?read_enabled by done; try (by rewrite Hn); try (by destruct xfs).
  - destruct Hp as [Hs Hh]. rewrite (read_limit KeyQuotaHardLimit), (read_limit KeyQuotaSoftLimit) by auto.
    rewrite (read_heading "  data:") by auto. rewrite read_enabled, Hn. by destruct xfs.
  - destruct Hp as [Hne Hk]. rewrite read_items, (read_heading "  list:") by auto. rewrite (Hn "NodeAffinityLabels").
    cbn. by rewrite app_nil_r.
  - destruct Hp as (Hne & _ & Hk). rewrite read_pairs, (read_heading "  data:") by auto. by rewrite (Hn "BlockDeviceSelectors").
Qed.

Lemma entry_lines_lack e : plain_entry e -> Forall (fun l => lacks newline l = true) (entry_lines e).
Proof.
  assert (forall p v, lacks newline p = true -> plain v = true -> lacks newline (p +:+ quoted v) = true)
    as Hq.
  { intros p v Hp Hv. unfold quoted. rewrite !lacks_app, Hp, (plain_lacks v) by done. done. }
  destruct e as [v|v|xfs [[s h]|]|keys|v|kvs]; cbn [plain_entry]; unfold entry_lines; intros Hp;
    repeat (apply Forall_cons; split); try apply Forall_nil; try done; try (by apply Hq);
    try (by destruct xfs).
  - apply (Hq ("    " +:+ KeyQuotaSoftLimit +:+ ": ")); [done|apply Hp].
  - apply (Hq ("    " +:+ KeyQuotaHardLimit +:+ ": ")); [done|apply Hp].
  - apply Forall_map. eapply Forall_impl; [exact (proj2 Hp)|]. intros k Hk. by apply (Hq "    - ").
  - apply Forall_map. eapply Forall_impl; [exact (proj2 (proj2 Hp))|]. intros [k v] [Hk Hv]. cbn [fst snd] in *.
    rewrite lacks_app, (lacks_app newline (quoted k)). apply andb_true_iff. split; [done|].
    apply andb_true_iff. split; [by apply (Hq "")|by apply (Hq ": ")].
Qed.

Lemma parse_config_text es :
  Forall plain_entry es -> parse_config (config_text es) = map entry_config es.
Proof.
  intros Hes. unfold parse_config, config_text. rewrite SplitChar_lines.
  - rewrite foldr_app. change (foldr read_line (Config_zero, []) [""]) with (Config_zero, @nil Config).
    enough (foldr read_line (Config_zero, []) (es ≫= entry_lines) = (Config_zero, map entry_config es)) as ->
      by done.
    induction Hes as [|e es He _ IH]; [done|]. rewrite bind_cons, foldr_app, IH. by apply read_entry.
  - induction Hes as [|e es He _ IH]; [constructor|]. rewrite bind_cons. apply Forall_app.
    split; [by apply entry_lines_lack|done].
Qed.
