(* ===== verification/HelperBlockdevice.v ===== *)
(** * Block device claims

    [src/cmd/provisioner-localpv/app/helper_blockdevice.go]: a volume on a device asks NDM for a
    block device with a claim (BDC), waits until NDM has bound one, reads its path, and deletes
    the claim with its finalizer removed first.  The options are a pointer in the code: the
    functions that assign [bdcName] return the new options. *)

From S2P Require Import Prelude GoStrings KubeApi Maya Cluster VolumeConfig.
Open Scope string_scope. Open Scope list_scope.

(* Source: src/cmd/provisioner-localpv/app/helper_blockdevice.go *)

(* go: 35-39 constants *)
Definition bdcStorageClassAnnotation := "local.openebs.io/blockdeviceclaim".
(* go: 38-38 LocalPVFinalizer *)
Definition LocalPVFinalizer := "local.openebs.io/finalizer".

(** The variable is never assigned: it keeps the zero value. *)
(* go: 41-43 WaitForBDTimeoutCounts *)
Definition WaitForBDTimeoutCounts : nat := 0.

Record HelperBlockDeviceOptions := {
  nodeHostname : string;
  name : string;
  nodeAffinityLabels : gomap string;
  capacity : string;
  bdcName : string;
  volumeMode : string;
  bdSelectors : gomap string }.
#[global] Instance Eta_HelperBlockDeviceOptions : Eta HelperBlockDeviceOptions := fun r =>
  {| nodeHostname := nodeHostname r; name := name r; nodeAffinityLabels := nodeAffinityLabels r;
     capacity := capacity r; bdcName := bdcName r; volumeMode := volumeMode r;
     bdSelectors := bdSelectors r |}.

Definition validate (o : HelperBlockDeviceOptions) : outcome error unit :=
  if String.eqb (name o) "" || String.eqb (nodeHostname o) "" then
    Fail (Errorf "invalid empty name or node hostname" [])
  else Ret tt.

Definition hasBDC (o : HelperBlockDeviceOptions) : bool := negb (String.eqb (bdcName o) "").

Section Claims.
Context {A : ApiTypes} {Y : Maya} {W : Type} {K : Cluster W}.

Definition setBlockDeviceClaimFromPV (pv : PersistentVolume) (o : HelperBlockDeviceOptions) :
    HelperBlockDeviceOptions :=
  match mget (Annotations (pv_Meta pv)) bdcStorageClassAnnotation with
  | Some bdc => o <| bdcName := bdc |>
  | None => o
  end.

Section Methods.
Variable p : Provisioner (W := W).

Definition createBlockDeviceClaim (o : HelperBlockDeviceOptions) :
    Prog (W := W) error HelperBlockDeviceOptions :=
  _ ← lift (validate o);
  let bdcName' := "bdc-" +:+ name o in
  found ← attempt (Bdcs_Get (namespace p) bdcName');
  match found with
  | inl _ => mret (o <| bdcName := bdcName' |>)
  | inr _ =>
    let bdcObjBuilder :=
      bdc_WithBlockVolumeMode (volumeMode o) (bdc_WithFinalizer LocalPVFinalizer
        (bdc_WithCapacity (capacity o) (bdc_WithSelector (nodeAffinityLabels o)
          (bdc_WithName bdcName' (bdc_WithNamespace (namespace p) bdc_NewBuilder))))) in
    let bdcObjBuilder :=
      match bdSelectors o with
      | Some _ => bdc_WithSelector (bdSelectors o) bdcObjBuilder
      | None => bdcObjBuilder
      end in
    bdcObj ← on_err (lift (bdc_Build bdcObjBuilder)) (fun err =>
      throw (Wrapf err "unable to build BDC" []));
    _ ← on_err (Bdcs_Create (namespace p) bdcObj) (fun err =>
      throw (Wrapf err "failed to create BDC{%v}" [AStr bdcName']));
    mret (o <| bdcName := bdcName' |>)
  end.

Definition removeFinalizer (o : HelperBlockDeviceOptions) : Prog (W := W) error unit :=
  bdc ← on_err (Bdcs_Get (namespace p) (bdcName o)) (fun _ =>
    throw (Errorf "unable to get BDC %s for removing finalizer" [AStr (bdcName o)]));
  let bdc := bdc <| bdc_Finalizers ::= fun fs => RemoveString fs LocalPVFinalizer |> in
  Bdcs_Update (namespace p) bdc.

Definition deleteBlockDeviceClaim (o : HelperBlockDeviceOptions) : Prog (W := W) error unit :=
  if negb (hasBDC o) then mret tt
  else
    _ ← on_err (removeFinalizer o) (fun err =>
      throw (Errorf "unable to remove finalizer on BDC %v : %v" [AStr (name o); AErr err]));
    on_err (Bdcs_Delete (namespace p) (bdcName o)) (fun _ =>
      throw (Errorf "unable to delete BDC %v associated with PV:%v"
        [AStr (bdcName o); AStr (name o)])).

(** The polling loop; the result is the name of the device, or the empty name at the end. *)
(* go: 172-192 getBlockDevicePath *)
Fixpoint wait_for_device (o : HelperBlockDeviceOptions) (n : nat) : Prog (W := W) error string :=
  match n with
  | 0 => mret ""
  | S n =>
    bdc ← on_err (Bdcs_Get (namespace p) (bdcName o)) (fun err =>
      throw (Errorf "unable to get BDC %v associated with PV:%v %v"
        [AStr (bdcName o); AStr (name o); AErr err]));
    let bdName := bdc_BlockDeviceName bdc in
    if String.eqb bdName "" then
      _ ← sleep 5; wait_for_device o n
    else mret bdName
  end.

(** [links[0]]: out of range on an empty list. *)
(* go: 219-224 getBlockDevicePath *)
Definition first_link (d : DevLink) : outcome error string :=
  match dl_Links d with l :: _ => Ret l | [] => Panic end.

(** The path of a device: its first link, overridden by each link of kind [by-id] in turn. *)
(* go: 216-227 getBlockDevicePath *)
Definition device_path (bd : BlockDevice) : outcome error string :=
  match bd_DevLinks bd with
  | [] => Ret (bd_Path bd)
  | d :: _ =>
    blkPath ← first_link d;
    foldl (fun acc v => blkPath ← acc;
      if String.eqb (dl_Kind v) "by-id" then first_link v else Ret blkPath)
      (Ret blkPath) (bd_DevLinks bd)
  end.

(** The result also has the options, in which the name of the claim is set. *)
Definition getBlockDevicePath (waitCounts : nat) (o : HelperBlockDeviceOptions) :
    Prog (W := W) error (string * string * HelperBlockDeviceOptions) :=
  o ← (if negb (hasBDC o) then createBlockDeviceClaim o else mret o);
  bdName ← wait_for_device o waitCounts;
  if String.eqb bdName "" then
    let err := Errorf "unable to find BD for BDC:%v associated with PV:%v and try to delete BDC"
      [AStr (bdcName o); AStr (name o)] in
    _ ← deleteBlockDeviceClaim o;
    throw err
  else
    bd ← on_err (Bds_Get (namespace p) bdName) (fun _ =>
      throw (Errorf "unable to find BD:%v for BDC:%v associated with PV:%v"
        [AStr bdName; AStr (bdcName o); AStr (name o)]));
    blkPath ← lift (device_path bd);
    mret (bd_Mountpoint bd, blkPath, o).

End Methods.
End Claims.
