(* ===== verification/Provisioner.v ===== *)
(** * The provisioner

    [provisioner.go], [provisioner_hostpath.go], [provisioner_blockdevice.go] and [env.go], all in [src/cmd/provisioner-localpv/app].
    [Provision] checks a claim, reads the configuration of its StorageClass and builds the
    volume; [Delete] removes the directory of a volume unless the volume is retained. *)

From S2P Require Import Prelude GoStrings GoPath KubeApi Builder NodeAffinity Maya Cluster.
From S2P Require Import VolumeConfig.
From S2P Require HelperHostpath HelperBlockdevice PersistentVolume.
Open Scope string_scope. Open Scope list_scope.

(* Source: src/cmd/provisioner-localpv/app/types.go *)
(* go: 29-29 SnapshotKind *)
Definition SnapshotKind := "VolumeSnapshot".
(* go: 30-30 PVCKind *)
Definition PVCKind := "PersistentVolumeClaim".
(* go: 31-31 SnapshotAPIGroup *)
Definition SnapshotAPIGroup := "snapshot.storage.k8s.io".

(* Source: src/cmd/provisioner-localpv/app/provisioner.go *)

(* go: 56-56 DefaultUnknownReplicaCount *)
Definition DefaultUnknownReplicaCount := "replica:1".

(** [pvController.ProvisioningState], the values the code returns. *)
Inductive ProvisioningState := ProvisioningFinished | ProvisioningReschedule.

(* Source: src/cmd/provisioner-localpv/app/env.go *)

(* go: 36-36 ProvisionerHelperImage *)
Definition ProvisionerHelperImage := "OPENEBS_IO_HELPER_IMAGE".
(* go: 40-40 ProvisionerBasePath *)
Definition ProvisionerBasePath := "OPENEBS_IO_BASE_PATH".
(* go: 44-44 ProvisionerImagePullSecrets *)
Definition ProvisionerImagePullSecrets := "OPENEBS_IO_IMAGE_PULL_SECRETS".
(* go: 48-48 defaultHelperImage *)
Definition defaultHelperImage := "openebs/linux-utils:latest".
(* go: 49-49 defaultBasePath *)
Definition defaultBasePath := "/var/openebs/local".

Section Env.
Context {Y : Maya}.
Definition getOpenEBSNamespace : string := menv_Get OpenEBSNamespace.
Definition getDefaultHelperImage : string :=
  menv_GetOrDefault ProvisionerHelperImage defaultHelperImage.
Definition getDefaultBasePath : string := menv_GetOrDefault ProvisionerBasePath defaultBasePath.
Definition getOpenEBSServiceAccountName : string := menv_Get OpenEBSServiceAccount.
Definition getOpenEBSImagePullSecrets : string := menv_Get ProvisionerImagePullSecrets.
End Env.

Section Provisioner.
Context {A : ApiTypes} {Y : Maya} {W : Type} {K : Cluster W}.

(** [pvController.ProvisionOptions]; the claim is never nil. *)
Record ProvisionOptions := {
  opt_StorageClass : option StorageClass;
  opt_PVName : string;
  opt_PVC : PersistentVolumeClaim;
  opt_SelectedNode : option Node }.

(** The results of [Provision]: the volume and the state, or the state and the error. *)
Abbreviation Provisioning := (Prog (W := W) (ProvisioningState * error)
  (PersistentVolume * ProvisioningState)).

(* Source: src/cmd/provisioner-localpv/app/provisioner.go *)

Definition NewProvisioner : outcome error (VolumeConfig.Provisioner (W := W)) :=
  let namespace := getOpenEBSNamespace in
  if (len (TrimSpace namespace) =? 0)%nat then
    Fail (Errorf "Cannot start Provisioner: failed to get namespace" [])
  else
    let defaultConfig :=
      [{| cfg_Name := KeyPVBasePath; cfg_Enabled := ""; cfg_Value := getDefaultBasePath;
          cfg_Data := None; cfg_List := [] |}] in
    Ret {| namespace := namespace; helperImage := getDefaultHelperImage;
           defaultConfig := defaultConfig; getVolumeConfig := GetVolumeConfig defaultConfig |}.

Definition SupportsBlock : bool := true.

Definition sendEventOrIgnore {E} (pvcName pvName capacity stgType method : string) :
    Prog (W := W) E unit :=
  let stgType := "local-" +:+ stgType in
  tell (SendEvent
    [("build", stgType); ("volume", pvName); ("claim", pvcName); ("label", EventLabelCapacity);
     ("action", DefaultUnknownReplicaCount); ("category", method); ("capacity", capacity)]).

Definition validateVolumeSource (pvc : PersistentVolumeClaim) : outcome error unit :=
  match pvc_DataSource pvc with
  | None => Ret tt
  | Some ds =>
    if String.eqb (ds_Name ds) "" then
      Fail (Errorf "dataSource name not found for PVC `%s`" [AStr (Name (pvc_Meta pvc))])
    else if String.eqb (ds_Kind ds) SnapshotKind then
      group ← deref (ds_APIGroup ds);
      if negb (String.eqb group SnapshotAPIGroup) then
        Fail (Errorf "snapshot feature not supported by this provisioner" [])
      else
        Fail (Errorf "datasource `%s` of group `%s` is not handled by the provisioner"
          [AStr (ds_Kind ds); AStr group])
    else if String.eqb (ds_Kind ds) PVCKind then
      Fail (Errorf "clone feature not supported by this provisioner" [])
    else
      group ← deref (ds_APIGroup ds);
      Fail (Errorf "datasource `%s` of group `%s` is not handled by the provisioner"
        [AStr (ds_Kind ds); AStr group])
  end.

(* Source: src/cmd/provisioner-localpv/app/provisioner_hostpath.go *)

(** The alerts of a volume, and the error a failed step ends with. *)
(* go: 64-71 ProvisionHostPath *)
Definition failure_alert (pv reason stgType : string) : Call :=
  Alert true
    [("eventcode", "local.pv.provision.failure"); ("msg", "Failed to provision Local PV");
     ("rname", pv); ("reason", reason); ("storagetype", stgType)].

(* go: 64-72 ProvisionHostPath *)
Definition provision_failure {T} (pv reason stgType : string) (err : error) :
    Prog (W := W) (ProvisioningState * error) T :=
  _ ← tell (failure_alert pv reason stgType);
  throw (ProvisioningFinished, err).

(* go: 215-220 ProvisionHostPath *)
Definition success_alert (pv stgType : string) : Call :=
  Alert false
    [("eventcode", "local.pv.provision.success"); ("msg", "Successfully provisioned Local PV");
     ("rname", pv); ("storagetype", stgType)].

(** The labels of the node that pin the volume to it. *)
(* go: 52-61 ProvisionHostPath *)
Definition node_affinity_labels (volumeConfig : VolumeConfig) (node : Node) :
    gmap string string :=
  match GetNodeAffinityLabelKeys volumeConfig with
  | None => <[k8sNodeLabelKeyHostname := GetNodeLabelValue node k8sNodeLabelKeyHostname]> ∅
  | Some nodeAffinityKeys =>
    foldl (fun labels key => <[key := GetNodeLabelValue node key]> labels) ∅ nodeAffinityKeys
  end.

(** The storage requested by a claim; an absent request is the zero quantity. *)
(* go: 106-106 ProvisionHostPath *)
Definition storage_request (pvc : PersistentVolumeClaim) : Quantity :=
  default Quantity_zero (mget (pvc_Requests pvc) ResourceStorage).

(** The options of a quota pod, for the file system whose settings are under [key]. *)
(* go: 104-118 ProvisionHostPath *)
Definition quota_pod_options (opts : ProvisionOptions) (volumeConfig : VolumeConfig)
    (podOpts : HelperHostpath.HelperPodOptions) (key : string) :
    HelperHostpath.HelperPodOptions :=
  podOpts
    <| HelperHostpath.cmdsForPath := [] |>
    <| HelperHostpath.softLimitGrace := getDataField volumeConfig key KeyQuotaSoftLimit |>
    <| HelperHostpath.hardLimitGrace := getDataField volumeConfig key KeyQuotaHardLimit |>
    <| HelperHostpath.pvcStorage := Quantity_Value (storage_request (opt_PVC opts)) |>.

(* go: 131-136 ProvisionHostPath *)
Definition quota_success (pv stgType : string) : Call :=
  Alert false
    [("eventcode", "local.pv.quota.success"); ("msg", "Successfully applied quota");
     ("rname", pv); ("storagetype", stgType)].

(** The quota step. *)
(* go: 103-137 ProvisionHostPath *)
Definition apply_quota (p : VolumeConfig.Provisioner (W := W)) (opts : ProvisionOptions)
    (volumeConfig : VolumeConfig) (podOpts : HelperHostpath.HelperPodOptions) (key : string) :
    Prog (W := W) (ProvisioningState * error) unit :=
  let podOpts := quota_pod_options opts volumeConfig podOpts key in
  let stgType := GetStorageType volumeConfig in
  _ ← on_err (HelperHostpath.createQuotaPod p podOpts)
        (provision_failure (opt_PVName opts) "Quota enforcement failed" stgType);
  tell (quota_success (opt_PVName opts) stgType).

(** The options of the pod that creates the directory. *)
(* go: 80-89 ProvisionHostPath *)
Definition init_pod_options (pvName path : string) (labels : gmap string string) (node : Node) :
    HelperHostpath.HelperPodOptions :=
  {| HelperHostpath.cmdsForPath := ["mkdir"; "-m"; "0777"; "-p"];
     HelperHostpath.name := pvName;
     HelperHostpath.path := path;
     HelperHostpath.nodeAffinityLabels := Some labels;
     HelperHostpath.serviceAccountName := getOpenEBSServiceAccountName;
     HelperHostpath.selectedNodeTaints := GetTaints node;
     HelperHostpath.imagePullSecrets := GetImagePullSecrets getOpenEBSImagePullSecrets;
     HelperHostpath.softLimitGrace := ""; HelperHostpath.hardLimitGrace := "";
     HelperHostpath.pvcStorage := 0 |}.

(** The calls on the builder of the volume. *)
(* go: 187-203 ProvisionHostPath *)
Definition hostpath_volume_calls (Ord : MapOrder) (opts : ProvisionOptions)
    (stgType reclaimPolicy path : string) (labels : gmap string string) :
    list PersistentVolume.Op :=
  [PersistentVolume.OpName (opt_PVName opts);
   PersistentVolume.OpLabels (Some {[ CASTypeKey := "local-" +:+ stgType ]});
   PersistentVolume.OpReclaimPolicy reclaimPolicy;
   PersistentVolume.OpAccessModes (pvc_AccessModes (opt_PVC opts));
   PersistentVolume.OpVolumeMode PersistentVolumeFilesystem;
   PersistentVolume.OpCapacityQty (storage_request (opt_PVC opts));
   PersistentVolume.OpLocalHostDirectory path;
   PersistentVolume.OpNodeAffinity Ord (Some labels)].

Definition ProvisionHostPath (p : VolumeConfig.Provisioner (W := W)) (opts : ProvisionOptions)
    (volumeConfig : VolumeConfig) : Provisioning :=
  node ← lift (deref (opt_SelectedNode opts));
  let name := opt_PVName opts in
  let stgType := GetStorageType volumeConfig in
  let labels := node_affinity_labels volumeConfig node in
  path ← on_err (lift (GetPath volumeConfig))
    (provision_failure name "Unable to get volume config" stgType);
  let podOpts := init_pod_options name path labels node in
  _ ← on_err (HelperHostpath.createInitPod p podOpts)
    (provision_failure name "Volume initialization failed" stgType);
  _ ← (if IsXfsQuotaEnabled volumeConfig
       then apply_quota p opts volumeConfig podOpts KeyXFSQuota else mret tt);
  _ ← (if IsExt4QuotaEnabled volumeConfig
       then apply_quota p opts volumeConfig podOpts KeyEXT4Quota else mret tt);
  sc ← lift (deref (opt_StorageClass opts));
  reclaimPolicy ← lift (deref (sc_ReclaimPolicy sc));
  Ord ← map_order;
  pvObj ← on_err (lift (PersistentVolume.Build (run PersistentVolume.apply
      (hostpath_volume_calls Ord opts stgType reclaimPolicy path labels)
      PersistentVolume.NewBuilder)))
    (provision_failure name "failed to build persistent volume" stgType);
  _ ← tell (success_alert name stgType);
  mret (pvObj, ProvisioningFinished).

Definition GetNodeObjectFromLabels (nodeLabels : gomap string) : Prog (W := W) error Node :=
  let missing := Errorf "Unable to get the Node with the Node Labels {%v}"
    [AMap (default ∅ nodeLabels)] in
  nodeList ← on_err (Nodes_List (labels_Set_String (default ∅ nodeLabels)))
    (fun _ => throw missing);
  match nodeList with
  | [] => throw missing
  | [node] => mret node
  | _ => throw (Errorf
      "Unable to determine the Node. Found multiple nodes matching the labels {%v}"
      [AMap (default ∅ nodeLabels)])
  end.

(** [defer func() { err = errors.Wrapf(err, "failed to delete volume %v", pv.Name) }()]. *)
(* go: 254-256 DeleteHostPath *)
Definition wrap_delete {T} (pv : PersistentVolume) (m : Prog (W := W) error T) :
    Prog (W := W) error T :=
  on_err m (fun err =>
    throw (Wrapf err "failed to delete volume %v" [AStr (Name (pv_Meta pv))])).

(** The options of the pod that deletes the directory. *)
(* go: 283-292 DeleteHostPath *)
Definition cleanup_pod_options (pvName path : string) (labels : gomap string) (node : Node) :
    HelperHostpath.HelperPodOptions :=
  {| HelperHostpath.cmdsForPath := ["rm"; "-rf"];
     HelperHostpath.name := pvName;
     HelperHostpath.path := path;
     HelperHostpath.nodeAffinityLabels := labels;
     HelperHostpath.serviceAccountName := getOpenEBSServiceAccountName;
     HelperHostpath.selectedNodeTaints := GetTaints node;
     HelperHostpath.imagePullSecrets := GetImagePullSecrets getOpenEBSImagePullSecrets;
     HelperHostpath.softLimitGrace := ""; HelperHostpath.hardLimitGrace := "";
     HelperHostpath.pvcStorage := 0 |}.

Definition DeleteHostPath (p : VolumeConfig.Provisioner (W := W)) (pv : PersistentVolume) :
    Prog (W := W) error unit :=
  wrap_delete pv (
    let pvObj := PersistentVolume.NewForAPIObject (Some pv) [] in
    path ← lift (PersistentVolume.GetPath pvObj);
    if String.eqb path "" then throw (Errorf "no HostPath set" [])
    else
      labels ← lift (PersistentVolume.GetAffinitedNodeLabels pvObj);
      if (mlen labels =? 0)%nat then throw (Errorf "cannot find affinited node details" [])
      else
        _ ← tell (Alert false [("format", "Get the Node Object with label {%v}")]);
        node ← GetNodeObjectFromLabels labels;
        on_err (HelperHostpath.createCleanupPod p
            (cleanup_pod_options (Name (pv_Meta pv)) path labels node))
          (fun err => throw (Wrapf err "clean up volume %v failed" [AStr (Name (pv_Meta pv))]))).

(* Source: src/cmd/provisioner-localpv/app/provisioner_blockdevice.go *)

(** The calls on the builder of a device volume. *)
(* go: 113-134 ProvisionBlockDevice *)
Definition device_volume_calls (Ord : MapOrder) (opts : ProvisionOptions)
    (stgType fsType reclaimPolicy volumeMode path bdcName : string)
    (labels : gmap string string) : list PersistentVolume.Op :=
  [PersistentVolume.OpName (opt_PVName opts);
   PersistentVolume.OpLabels (Some {[ CASTypeKey := "local-" +:+ stgType ]});
   PersistentVolume.OpAnnotations
     (Some {[ HelperBlockdevice.bdcStorageClassAnnotation := bdcName ]});
   PersistentVolume.OpReclaimPolicy reclaimPolicy;
   PersistentVolume.OpAccessModes (pvc_AccessModes (opt_PVC opts));
   PersistentVolume.OpCapacityQty (storage_request (opt_PVC opts));
   PersistentVolume.OpLocalHostPathFormat path fsType;
   PersistentVolume.OpNodeAffinity Ord (Some labels)]
  ++ (if String.eqb volumeMode PersistentVolumeBlock
      then [PersistentVolume.OpVolumeMode PersistentVolumeBlock] else []).

Definition ProvisionBlockDevice (waitCounts : nat) (p : VolumeConfig.Provisioner (W := W))
    (opts : ProvisionOptions) (volumeConfig : VolumeConfig) : Provisioning :=
  node ← lift (deref (opt_SelectedNode opts));
  let nodeHostname := GetNodeHostname node in
  let name := opt_PVName opts in
  let capacity := storage_request (opt_PVC opts) in
  let stgType := GetStorageType volumeConfig in
  let fsType := GetFSType volumeConfig in
  if (0 <? len (GetBDTagValue volumeConfig))%nat then
    throw (ProvisioningFinished, Errorf
      ("Cannot use deprecated " +:+ dq +:+ "BlockDeviceTag" +:+ dq +:+ " config option") [])
  else if negb (len (GetNodeAffinityLabelKey volumeConfig) =? 0)%nat then
    throw (ProvisioningFinished, Errorf
      ("Cannot use deprecated " +:+ dq +:+ "NodeAffinityLabel" +:+ dq +:+ " config option") [])
  else
    let labels := node_affinity_labels volumeConfig node in
    volumeMode ← lift (deref (pvc_VolumeMode (opt_PVC opts)));
    let blkDevOpts :=
      {| HelperBlockdevice.nodeHostname := nodeHostname; HelperBlockdevice.name := name;
         HelperBlockdevice.nodeAffinityLabels := Some labels;
         HelperBlockdevice.capacity := Quantity_String capacity;
         HelperBlockdevice.bdcName := ""; HelperBlockdevice.volumeMode := volumeMode;
         HelperBlockdevice.bdSelectors := GetBlockDeviceSelectors volumeConfig |} in
    '(path, blkPath, blkDevOpts) ←
      on_err (HelperBlockdevice.getBlockDevicePath p waitCounts blkDevOpts)
        (provision_failure name "Block device initialization failed" stgType);
    let path := if String.eqb path "" then blkPath else path in
    sc ← lift (deref (opt_StorageClass opts));
    reclaimPolicy ← lift (deref (sc_ReclaimPolicy sc));
    Ord ← map_order;
    pvObj ← on_err (lift (PersistentVolume.Build (run PersistentVolume.apply
        (device_volume_calls Ord opts stgType fsType reclaimPolicy volumeMode path
          (HelperBlockdevice.bdcName blkDevOpts) labels)
        PersistentVolume.NewBuilder)))
      (provision_failure name "Building volume failed" stgType);
    _ ← tell (success_alert name stgType);
    mret (pvObj, ProvisioningFinished).

Definition DeleteBlockDevice (p : VolumeConfig.Provisioner (W := W)) (pv : PersistentVolume) :
    Prog (W := W) error unit :=
  wrap_delete pv (
    let blkDevOpts :=
      {| HelperBlockdevice.nodeHostname := ""; HelperBlockdevice.name := Name (pv_Meta pv);
         HelperBlockdevice.nodeAffinityLabels := None; HelperBlockdevice.capacity := "";
         HelperBlockdevice.bdcName := ""; HelperBlockdevice.volumeMode := "";
         HelperBlockdevice.bdSelectors := None |} in
    HelperBlockdevice.deleteBlockDeviceClaim p
      (HelperBlockdevice.setBlockDeviceClaimFromPV pv blkDevOpts)).

(* Source: src/cmd/provisioner-localpv/app/provisioner.go *)

(** The checks of [Provision] before any call: the node and its state and error. *)
(* go: 96-119 Provision *)
Definition check_claim (opts : ProvisionOptions) :
    outcome (ProvisioningState * error) Node :=
  let pvc := opt_PVC opts in
  match validateVolumeSource pvc with
  | Panic => Panic
  | Fail err => Fail (ProvisioningFinished, err)
  | Ret _ =>
    if match pvc_Selector pvc with Some _ => true | None => false end then
      Fail (ProvisioningFinished, Errorf "claim.Spec.Selector is not supported" [])
    else if existsb (fun accessMode => negb (String.eqb accessMode ReadWriteOnce))
              (pvc_AccessModes pvc) then
      Fail (ProvisioningFinished, Errorf "Only support ReadWriteOnce access mode" [])
    else
      match opt_SelectedNode opts with
      | None => Fail (ProvisioningReschedule,
          Errorf "configuration error, no node was specified" [])
      | Some node =>
        if String.eqb (GetNodeHostname node) "" then
          Fail (ProvisioningFinished, Errorf
            "configuration error, node{%v} hostname is empty" [AStr (Name (node_Meta node))])
        else Ret node
      end
  end.

Definition Provision (p : VolumeConfig.Provisioner (W := W)) (opts : ProvisionOptions) :
    Provisioning :=
  let pvc := opt_PVC opts in
  _ ← lift (check_claim opts);
  let name := opt_PVName opts in
  pvCASConfig ← on_err (getVolumeConfig p name pvc) (fun err =>
    throw (ProvisioningFinished, err));
  let stgType := GetStorageType pvCASConfig in
  let size := storage_request pvc in
  _ ← sendEventOrIgnore (Name (pvc_Meta pvc)) name (Quantity_String size) stgType VolumeProvision;
  volumeMode ← lift (deref (pvc_VolumeMode pvc));
  if String.eqb volumeMode PersistentVolumeBlock && negb (String.eqb stgType "device") then
    throw (ProvisioningFinished,
      Errorf "PV with BlockMode is not supported with StorageType %v" [AStr stgType])
  else if String.eqb stgType "hostpath" then ProvisionHostPath p opts pvCASConfig
  else
    provision_failure name "StorageType not supported" stgType
      (Errorf "PV with StorageType %v is not supported" [AStr stgType]).

Definition Delete (p : VolumeConfig.Provisioner (W := W)) (pv : PersistentVolume) :
    Prog (W := W) error unit :=
  wrap_delete pv (
    if negb (String.eqb (pv_ReclaimPolicy pv) PersistentVolumeReclaimRetain) then
      let pvType := GetLocalPVType pv in
      let size := default Quantity_zero (mget (pv_Capacity pv) ResourceStorage) in
      let pvcName := default "" (pv_ClaimRef pv) in
      _ ← sendEventOrIgnore pvcName (Name (pv_Meta pv)) (Quantity_String size) pvType
            VolumeDeprovision;
      on_err (DeleteHostPath p pv) (fun err =>
        _ ← tell (Alert true
          [("eventcode", "local.pv.delete.failure"); ("msg", "Failed to delete Local PV");
           ("rname", Name (pv_Meta pv)); ("reason", "failed to delete host path");
           ("storagetype", pvType)]);
        throw err)
    else
      tell (Alert false
        [("eventcode", "local.pv.delete.success"); ("msg", "Successfully deleted Local PV");
         ("rname", Name (pv_Meta pv))])).

End Provisioner.
