(* ===== verification/Startup.v ===== *)
(** * Starting the provisioner

    [start.go] and [backward_compatability.go] of [src/cmd/provisioner-localpv/app]: before the
    controller runs, the claims of the volumes on devices get the finalizer of the provisioner.
    The controller itself is a parameter, a program that is run with the provisioner and the
    choice of leader election. *)

From S2P Require Import Prelude GoStrings KubeApi Maya Cluster VolumeConfig Provisioner.
From S2P Require HelperBlockdevice.
Open Scope string_scope. Open Scope list_scope.

(* Source: src/cmd/provisioner-localpv/app/start.go *)

(* go: 35-42 LeaderElectionKey *)
Definition LeaderElectionKey := "LEADER_ELECTION_ENABLED".

(** [getenv] is [os.Getenv]. *)
Definition isLeaderElectionEnabled (getenv : string -> string) : bool :=
  let leaderElection := ToLower (getenv LeaderElectionKey) in
  if bool_decide (leaderElection ∈ ["y"; "yes"; "true"]) then true
  else if bool_decide (leaderElection ∈ ["n"; "no"; "false"]) then false
  else true.

Section Startup.
Context {A : ApiTypes} {Y : Maya} {W : Type} {K : Cluster W}.

(* Source: src/cmd/provisioner-localpv/app/backward_compatability.go *)

(** The loop over the volumes of device based local provisioning. *)
(* go: 47-72 addLocalPVFinalizerOnAssociatedBDCs *)
Fixpoint add_finalizers (ns : string) (pvs : list PersistentVolume) : Prog (W := W) error unit :=
  match pvs with
  | [] => mret tt
  | pvObj :: rest =>
    let bdcName := "bdc-" +:+ Name (pv_Meta pvObj) in
    found ← attempt (Bdcs_Get ns bdcName);
    match found with
    | inr _ => add_finalizers ns rest
    | inl bdcObj =>
      if bdc_Deleting bdcObj then add_finalizers ns rest
      else
        _ ← on_err (Bdcs_AddFinalizer bdcObj HelperBlockdevice.LocalPVFinalizer) (fun err =>
          throw (Wrapf err "failed to add localpv finalizer on BDC %v" [AStr (bdc_Name bdcObj)]));
        add_finalizers ns rest
    end
  end.

Definition addLocalPVFinalizerOnAssociatedBDCs : Prog (W := W) error unit :=
  pvList ← on_err (PVs_List (CASTypeKey +:+ "=local-device")) (fun err =>
    throw (Wrapf err "failed to list localpv based pv(s)" []));
  add_finalizers getOpenEBSNamespace pvList.

Definition performPreupgradeTasks : Prog (W := W) error unit :=
  addLocalPVFinalizerOnAssociatedBDCs.

(* Source: src/cmd/provisioner-localpv/app/start.go *)

(* go: 37-37 provisionerName *)
Definition provisionerName := "openebs.io/local".

(* go: 36-36 cmdName *)
Definition cmdName := "provisioner".

(* go: 41-41 usage *)
Definition usage := cmdName.

(* Source: src/cmd/provisioner-localpv/app/provisioner.go *)

(* go: 52-52 Ping *)
Definition Ping := "ping".
(* go: 54-54 DefaultCASType *)
Definition DefaultCASType := "localpv".

(* Source: src/cmd/provisioner-localpv/app/start.go *)

(** The event of an installation, and the goroutine that sends one now and then. *)
(* go: 102-106 Start *)
Definition send_install_events : Prog (W := W) error unit :=
  _ ← tell (Outside "analytics.RegisterVersionGetter" []);
  _ ← tell (SendEvent [("build", DefaultCASType); ("install", "true")]);
  tell (Outside "go analytics.PingCheck" [DefaultCASType; Ping]).

(** [clientset] is the result of the Kubernetes client, [getenv] is [os.Getenv], [analytics_on] is
    [menv.Truthy(menv.OpenEBSEnableAnalytics)], and [run_controller] the controller with its
    name, its handlers and the choice of leader election; it returns no error. *)
Definition Start (clientset : outcome error unit) (getenv : string -> string) (analytics_on : bool)
    (run_controller : string -> VolumeConfig.Provisioner (W := W) -> bool ->
      Prog (W := W) Empty_set unit) : Prog (W := W) error unit :=
  _ ← on_err (lift clientset) (fun err => throw (Wrapf err "unable to get k8s client" []));
  _ ← on_err performPreupgradeTasks (fun err =>
    throw (Wrapf err "failure in preupgrade tasks" []));
  provisioner ← lift NewProvisioner;
  let leaderElection := isLeaderElectionEnabled getenv in
  _ ← (if analytics_on then send_install_events else mret tt);
  on_err (run_controller provisionerName provisioner leaderElection)
    (fun none => match none with end).

(** ** The finalizers *)

(** What the loop does with one volume, when it goes on to the next. *)
Definition upgraded (ns : string) (pv : PersistentVolume) (l : Trace) : Prop :=
  let get a := (BdcGet ns ("bdc-" +:+ Name (pv_Meta pv)), a) in
  (exists e, l = [get (Refused e)]) \/
  (exists b, bdc_Deleting b = true /\ l = [get (ABdc b)]) \/
  (exists b, bdc_Deleting b = false /\
    l = [get (ABdc b); (BdcAddFinalizer b HelperBlockdevice.LocalPVFinalizer, Done)]).

Lemma add_finalizers_emits ns pvs :
  emits (W := W) (add_finalizers ns pvs) (fun l o =>
    match o with
    | Ret _ => exists ls, l = concat ls /\ Forall2 (upgraded ns) pvs ls
    | Fail e => exists b e', bdc_Deleting b = false /\
        e = Wrapf e' "failed to add localpv finalizer on BDC %v" [AStr (bdc_Name b)]
    | Panic => Exists (fun c => c.2 = Crashed) l
    end).
Proof.
  induction pvs as [|pv pvs IH]; cbn [add_finalizers].
  { apply emits_ret. by exists []. }
  assert (forall l0, upgraded ns pv l0 ->
    emits (W := W) (add_finalizers ns pvs) (fun l o =>
      match o with
      | Ret _ => exists ls, l0 ++ l = concat ls /\ Forall2 (upgraded ns) (pv :: pvs) ls
      | Fail e => exists b e', bdc_Deleting b = false /\
          e = Wrapf e' "failed to add localpv finalizer on BDC %v" [AStr (bdc_Name b)]
      | Panic => Exists (fun c => c.2 = Crashed) (l0 ++ l)
      end)) as Hgo.
  { intros l0 Hl0. eapply emits_weaken; [exact IH|]. intros l [[]|e|] Ho; [|done|].
    - destruct Ho as (ls & -> & Hf). exists (l0 :: ls). split; [done|]. by constructor.
    - apply Exists_app. by right. }
  apply emits_bind, emits_attempt, emits_call. intros [b|e|]; cbn [answer].
  - destruct (bdc_Deleting b) eqn:Hd.
    + apply Hgo. right. left. eauto.
    + apply emits_bind, emits_on_err, emits_call. intros [[]|e|]; cbn [answer].
      * eapply emits_weaken; [apply (Hgo [(BdcGet ns ("bdc-" +:+ Name (pv_Meta pv)), ABdc b);
          (BdcAddFinalizer b HelperBlockdevice.LocalPVFinalizer, Done)])|].
        { right. right. exists b. by split. }
        intros l o Ho. by destruct o.
      * apply emits_throw. eauto.
      * cbn. apply Exists_cons_tl. by constructor.
  - apply Hgo. left. eauto.
  - by constructor.
Qed.

Lemma performPreupgradeTasks_emits :
  emits (W := W) performPreupgradeTasks (fun l o =>
    match o with
    | Ret _ => exists pvs ls,
        l = (PVList "openebs.io/cas-type=local-device", APVs pvs) :: concat ls /\
        Forall2 (upgraded getOpenEBSNamespace) pvs ls
    | Fail e => exists e', e = Wrapf e' "failed to list localpv based pv(s)" [] \/
        exists b, bdc_Deleting b = false /\
          e = Wrapf e' "failed to add localpv finalizer on BDC %v" [AStr (bdc_Name b)]
    | Panic => Exists (fun c => c.2 = Crashed) l
    end).
Proof.
  unfold performPreupgradeTasks, addLocalPVFinalizerOnAssociatedBDCs.
  apply emits_bind, emits_on_err, emits_call. intros [pvs|e|]; cbn [answer].
  - eapply emits_weaken; [apply add_finalizers_emits|]. intros l [[]|e|] Ho.
    + destruct Ho as (ls & -> & Hf). by exists pvs, ls.
    + destruct Ho as (b & e' & Hb & ->). exists e'. right. by exists b.
    + by apply Exists_cons_tl.
  - apply emits_throw. eauto.
  - by constructor.
Qed.

(** C25: when the tasks before an upgrade succeed, the volumes on devices were listed once and then
    each was handled in turn: its claim was read, and the finalizer of the provisioner was added
    to it unless the claim was missing or already being deleted.  The first finalizer that cannot
    be added stops the tasks with an error. *)
Theorem preupgrade_adds_finalizers w w' o :
  performPreupgradeTasks w = (w', o) ->
  exists l, trace w' = trace w ++ l /\
  match o with
  | Ret _ => exists pvs ls,
      l = (PVList "openebs.io/cas-type=local-device", APVs pvs) :: concat ls /\
      Forall2 (upgraded getOpenEBSNamespace) pvs ls
  | Fail e => exists e', e = Wrapf e' "failed to list localpv based pv(s)" [] \/
      exists b, bdc_Deleting b = false /\
        e = Wrapf e' "failed to add localpv finalizer on BDC %v" [AStr (bdc_Name b)]
  | Panic => Exists (fun c => c.2 = Crashed) l
  end.
Proof.
  intros Hrun. destruct (performPreupgradeTasks_emits w) as (l & Hl & Ho). rewrite Hrun in Hl, Ho.
  by exists l.
Qed.

(** ** The controller *)

(** The calls of the tasks before the controller runs. *)
Definition upgrade_call (c : Call * Answer) : Prop :=
  match c.1 with PVList _ | BdcGet _ _ | BdcAddFinalizer _ _ => True | _ => False end.

Lemma performPreupgradeTasks_stays : stays (W := W) performPreupgradeTasks (Forall upgrade_call).
Proof.
  assert (forall c a, upgrade_call (c, a) -> Forall upgrade_call [(c, a)]) as Hone
    by (by repeat constructor).
  unfold performPreupgradeTasks, addLocalPVFinalizerOnAssociatedBDCs, PVs_List.
  apply stays_bind; [apply _|stay; by apply Hone|]. intros pvs.
  induction pvs as [|pv pvs IH]; cbn [add_finalizers]; [apply stays_ret, _|].
  apply stays_bind; [apply _| |].
  { apply emits_attempt. eapply emits_weaken; [|by intros l o Hl; exact Hl].
    apply stays_call. intros a. by apply Hone. }
  unfold Bdcs_AddFinalizer. stay; by apply Hone.
Qed.

(** The events of an installation. *)
Definition install_trace : Trace :=
  [(Outside "analytics.RegisterVersionGetter" [], Done);
   (SendEvent [("build", "localpv"); ("install", "true")], Done);
   (Outside "go analytics.PingCheck" ["localpv"; "ping"], Done)].

(** C26: the controller starts last.  Either it runs, and then the client could be made, the tasks
    before an upgrade were done, the namespace is known, the events of an installation were sent
    if they are wanted, and what [Start] returns is how the controller ends; or [Start] fails,
    with no call but those of the tasks. *)
Theorem controller_starts_last clientset getenv on run w w' o :
  Start clientset getenv on run w = (w', o) ->
  (exists p pvs ls w1,
    clientset = Ret tt /\ NewProvisioner = Ret p /\
    trace w1 = trace w ++ (PVList "openebs.io/cas-type=local-device", APVs pvs) :: concat ls
                 ++ (if on then install_trace else []) /\
    Forall2 (upgraded getOpenEBSNamespace) pvs ls /\
    (run "openebs.io/local" p (isLeaderElectionEnabled getenv) w1).1 = w' /\
    o = match (run "openebs.io/local" p (isLeaderElectionEnabled getenv) w1).2 with
        | Ret u => Ret u
        | _ => Panic
        end) \/
  (o <> Ret tt /\ exists l, trace w' = trace w ++ l /\ Forall upgrade_call l).
Proof.
  unfold Start. destruct clientset as [[]|e|].
  2, 3: intros [= <- <-]; right; split; [done|]; exists []; by rewrite app_nil_r.
  destruct (performPreupgradeTasks_emits w) as (l & Hl & Ho).
  destruct (performPreupgradeTasks_stays w) as (l' & Hl' & Hu).
  unfold mbind, M_bind, on_err, lift, throw, mret, M_ret.
  destruct (performPreupgradeTasks w) as [w1 [[]|e|]]; cbn [fst snd] in *.
  2, 3: intros [= <- <-]; right; eauto.
  destruct NewProvisioner as [p|e|]; [|intros [= <- <-]; right; eauto..].
  destruct Ho as (pvs & ls & -> & Hf).
  set (w2 := if on then (send_install_events w1).1 else w1).
  intros Hrun. left. exists p, pvs, ls, w2. split; [done|]. split; [done|]. split.
  { unfold w2, send_install_events, install_trace, mbind, M_bind.
    destruct on; cbn; rewrite Hl, ?app_nil_r; [by rewrite <- !app_assoc|done]. }
  split; [done|]. change provisionerName with "openebs.io/local" in Hrun.
  destruct (run "openebs.io/local" p (isLeaderElectionEnabled getenv) w2) as [w3 r] eqn:E.
  unfold w2, send_install_events, mbind, M_bind in E, Hrun.
  destruct on; cbn in E, Hrun; rewrite E in Hrun; destruct r as [u|[]|]; by injection Hrun as <- <-.
Qed.

End Startup.

(** Leader election is on unless the environment says [n], [no] or [false], in any case. *)
Theorem leader_election_default getenv :
  isLeaderElectionEnabled getenv = false <->
  ToLower (getenv LeaderElectionKey) ∈ ["n"; "no"; "false"].
Proof.
  unfold isLeaderElectionEnabled. set (s := ToLower _).
  destruct (bool_decide_reflect (s ∈ ["y"; "yes"; "true"])) as [Hy|_];
    destruct (bool_decide_reflect (s ∈ ["n"; "no"; "false"])) as [Hn|Hn]; try done.
  all: split; [done|]; intros H; clearbody s; try done; exfalso.
  apply (bool_decide_eq_true_2 (s ∈ _)) in H.
  repeat (apply elem_of_cons in Hy as [->|Hy]; [by vm_compute in H|]). by apply elem_of_nil in Hy.
Qed.
