(* ===== verification/Process.v ===== *)
(** * The process

    src/cmd/provisioner-localpv/main.go, the command of src/cmd/provisioner-localpv/app/start.go
    and src/pkg/logger/logger.go: the flags are gathered and parsed, logging is set up, the cobra
    command runs the provisioner, and the process exits with a code.  The packages flag, pflag,
    klog and cobra are the class [Runtime]; the state of the process is what they and the logger
    package keep in global variables, with a record of what was done in which order. *)

From S2P Require Import Prelude GoStrings KubeApi Maya Cluster VolumeConfig Startup.
From S2P Require Provisioner.
Open Scope string_scope. Open Scope list_scope.

(** What the process does to its own global state, in order. *)
Inductive event :=
| FlagsParsed
| LogOutputSet
| LogFlagsSet (flags : Z)
| FlusherStarted (freq : Z)
| KillSwitchClosed
| Flushed.
#[export] Instance event_eq_dec : EqDecision event.
Proof. solve_decision. Defined.

(** The global variables: the flag sets of the packages flag and pflag by name and value, the
    variables of the logger package, and [W], what is outside the process. *)
Record Process {A : ApiTypes} (W : Type) := MkProcess {
  flag_CommandLine : gmap string string;
  pflag_CommandLine : gmap string string;
  defaultFlushInterval : Z;
  logFlushFreq : Z;
  loggerKillSwitch_closed : bool;
  events : list event;
  world : World W }.
Arguments MkProcess {A W}.
Arguments flag_CommandLine {A W} p.
Arguments pflag_CommandLine {A W} p.
Arguments defaultFlushInterval {A W} p.
Arguments logFlushFreq {A W} p.
Arguments loggerKillSwitch_closed {A W} p.
Arguments events {A W} p.
Arguments world {A W} p.
#[export] Instance Eta_Process {A : ApiTypes} W : Eta (Process W) := fun r =>
  {| flag_CommandLine := flag_CommandLine r; pflag_CommandLine := pflag_CommandLine r;
     defaultFlushInterval := defaultFlushInterval r; logFlushFreq := logFlushFreq r;
     loggerKillSwitch_closed := loggerKillSwitch_closed r; events := events r; world := world r |}.

(** [os.Exit]: the process ends at once, and deferred calls do not run. *)
Inductive exit := Exit (code : Z).

Section Process.
Context {A : ApiTypes} {Y : Maya} {W : Type} {K : Cluster W}.

(** A program of the process. *)
Definition IO (T : Type) : Type := M (Process W) exit T.

Definition modify (f : Process W -> Process W) : IO unit := fun s => (f s, Ret tt).
Definition get : IO (Process W) := fun s => (s, Ret s).
Definition os_Exit {T} (code : Z) : IO T := fun s => (s, Fail (Exit code)).

Definition happened (e : event) : IO unit := modify (fun s => s <| events ::= fun l => l ++ [e] |>).

(** A deferred call: it runs when the function returns or panics, not when the process exits; a
    panic of the deferred call is a panic. *)
Definition defer_call {T} (fin : IO unit) (m : IO T) : IO T := fun s =>
  match m s with
  | (s', Fail e) => (s', Fail e)
  | (s', o) =>
    match fin s' with
    | (s2, Ret _) => (s2, o)
    | (s2, Fail e) => (s2, Fail e)
    | (s2, Panic) => (s2, Panic)
    end
  end.

(** A cobra command: its texts and what it runs. *)
Record Command := { Use : string; Short : string; Long : string; Run : IO unit }.

(** The packages that main.go and the command use.  [pflag_Parse] gives the values of the flags, or
    the code with which it ends the process. *)
Class Runtime := {
  klog_InitFlags : gmap string string -> gmap string string;
  flag_Set : string -> string -> gmap string string -> option (gmap string string);
  AddGoFlagSet : gmap string string -> gmap string string -> gmap string string;
  AddFlagSet : gmap string string -> gmap string string -> gmap string string;
  Flags : Command -> gmap string string;
  pflag_Parse : gmap string string -> gmap string string + Z;
  duration_flag : string -> gmap string string -> Z;
  Execute : Command -> IO (option error);
  CheckErr_Fatal : option error -> IO unit;
  fatal_code : error -> Z;
  (** the client of the cluster, the environment, and the controller *)
  mKube_Clientset : outcome error unit;
  os_Getenv : string -> string;
  Truthy_OpenEBSEnableAnalytics : bool;
  ProvisionController : string -> VolumeConfig.Provisioner (W := W) -> bool ->
    Prog (W := W) Empty_set unit }.
Context {R : Runtime}.

(* Source: src/pkg/logger/logger.go *)

(** Nanoseconds. *)
(* go: 28-30 KLOG_FLUSH_INTERVAL *)
Definition KLOG_FLUSH_INTERVAL : Z := 5000000000.

(* go: (k KlogWriter) Write *)
Definition Write (klog_Info : string -> IO unit) (data : string) : IO (nat * option error) :=
  _ ← klog_Info data; mret (String.length data, None).

Definition SetDefaultFlushInterval (freq : Z) : IO unit :=
  modify (fun s => s <| defaultFlushInterval := freq |>).

Definition InitLogging : IO unit :=
  _ ← happened LogOutputSet;
  _ ← happened (LogFlagsSet 0);
  s ← get;
  if negb (logFlushFreq s =? defaultFlushInterval s)%Z then happened (FlusherStarted (logFlushFreq s))
  else mret tt.

Definition FinishLogging : IO unit :=
  s ← get;
  if loggerKillSwitch_closed s then panic
  else
    _ ← modify (fun s => s <| loggerKillSwitch_closed := true |>);
    _ ← happened KillSwitchClosed;
    happened Flushed.

(* Source: src/cmd/provisioner-localpv/app/start.go *)

(** [Start], run on what is outside the process. *)
(* go: none *)
Definition tabs : string := let tab := String (Ascii.ascii_of_nat 9) "" in tab +:+ tab +:+ tab.

(* go: none *)
Definition Start_io : IO (option error) := fun s =>
  let '(w, o) := Startup.Start mKube_Clientset os_Getenv Truthy_OpenEBSEnableAnalytics
    ProvisionController (world s) in
  (s <| world := w |>, match o with Ret _ => Ret None | Fail e => Ret (Some e) | Panic => Panic end).

Definition StartProvisioner : outcome error Command :=
  Ret {| Use := usage;
         Short := "Dynamic Host Path PV Provisioner";
         Long := "Manage the Host Path PVs that includes: validating, creating," +:+ nl +:+ tabs
           +:+ "deleting and cleanup tasks. Host Path PVs are setup with" +:+ nl +:+ tabs
           +:+ "node affinity";
         Run := err ← Start_io; CheckErr_Fatal err |}.

(* Source: src/cmd/provisioner-localpv/main.go *)

(** The error of [Set] is dropped: a flag that is not known is left. *)
(* go: 42-43 init *)
Definition set_flag (name value : string) : IO unit :=
  modify (fun s => s <| flag_CommandLine ::= fun fs => default fs (flag_Set name value fs) |>).

Definition init : IO unit :=
  _ ← modify (fun s => s <| flag_CommandLine ::= klog_InitFlags |>);
  _ ← set_flag "logtostderr" "false";
  _ ← set_flag "alsologtostderr" "true";
  modify (fun s => s <| pflag_CommandLine ::= AddGoFlagSet (flag_CommandLine s) |>).

(** [pflag.Parse], which also sets the variables that are bound to flags. *)
(* go: none *)
Definition Parse : IO unit :=
  s ← get;
  match pflag_Parse (pflag_CommandLine s) with
  | inl fs =>
    _ ← modify (fun s => s <| pflag_CommandLine := fs |>
      <| logFlushFreq := duration_flag "log-flush-frequency" fs |>);
    happened FlagsParsed
  | inr code => os_Exit code
  end.

Definition run : IO (option error) :=
  match StartProvisioner with
  | Panic => panic
  | Fail err => mret (Some err)
  | Ret cmd =>
    _ ← modify (fun s => s <| pflag_CommandLine ::= AddFlagSet (Flags cmd) |>);
    _ ← Parse;
    _ ← InitLogging;
    defer_call FinishLogging (Execute cmd)
  end.

Definition main : IO unit :=
  err ← run;
  match err with
  | Some _ => os_Exit 1
  | None => os_Exit 0
  end.

(** The process: the variables are initialised, [init] runs, and then [main]. *)
(* go: none *)
Definition process : IO unit := _ ← init; main.

(** The variables of the packages before [init]; [loggerKillSwitch] has just been made. *)
(* go: 32-36 defaultFlushInterval *)
Definition initialised (s : Process W) : Prop :=
  defaultFlushInterval s = KLOG_FLUSH_INTERVAL /\ loggerKillSwitch_closed s = false /\ events s = [].

(** Documented behaviour of cobra, for a command without subcommands whose arguments are accepted,
    and of the error check of maya with its fatal handler, which ends the process. *)
Class RuntimeLaws : Prop := {
  Execute_runs cmd : Execute cmd = (_ ← Run cmd; mret None);
  CheckErr_None : CheckErr_Fatal None = mret tt;
  CheckErr_Some e : CheckErr_Fatal (Some e) = os_Exit (fatal_code e);
  fatal_code_nonzero e : fatal_code e <> 0%Z }.

(** Runs the primitive steps. *)
Ltac io := unfold mbind, M_bind, happened, modify, get, mret, M_ret; cbn.

Lemma bind_eq {T U} (m : IO T) (f : T -> IO U) s :
  (m ≫= f) s = match m s with
               | (s', Ret a) => f a s' | (s', Fail e) => (s', Fail e) | (s', Panic) => (s', Panic)
               end.
Proof. done. Qed.

(** The command runs [Start], and ends the process when it fails. *)
Lemma command_spec {RL : RuntimeLaws} cmd s :
  StartProvisioner = Ret cmd ->
  Execute cmd s =
    let '(w, r) := Startup.Start mKube_Clientset os_Getenv Truthy_OpenEBSEnableAnalytics
      ProvisionController (world s) in
    (s <| world := w |>,
     match r with Ret _ => Ret None | Fail e => Fail (Exit (fatal_code e)) | Panic => Panic end).
Proof.
  intros Hcmd. injection Hcmd as <-. rewrite Execute_runs. cbn [Run].
  rewrite !bind_eq. unfold Start_io. destruct (Startup.Start _ _ _ _ _) as [w [[]|e|]].
  - by rewrite CheckErr_None.
  - by rewrite CheckErr_Some.
  - done.
Qed.

(** Logging around a program that leaves the logger alone. *)
Lemma logging_spec {T} (m : IO T) s :
  loggerKillSwitch_closed s = false ->
  (forall s1, (m s1).1 = s1 <| world := world (m s1).1 |>) ->
  let started := (if (logFlushFreq s =? defaultFlushInterval s)%Z then []
    else [FlusherStarted (logFlushFreq s)]) in
  let s1 := s <| events ::= fun l => l ++ [LogOutputSet; LogFlagsSet 0] ++ started |> in
  (_ ← InitLogging; defer_call FinishLogging m) s =
    let '(s2, o) := m s1 in
    (match o with
     | Fail _ => s2
     | _ => s2 <| loggerKillSwitch_closed := true |>
               <| events ::= fun l => l ++ [KillSwitchClosed; Flushed] |>
     end, o).
Proof.
  intros Hk Hm started s1. rewrite bind_eq.
  assert (InitLogging s = (s1, Ret tt)) as ->.
  { unfold InitLogging, s1, started. io.
    destruct (logFlushFreq s =? defaultFlushInterval s)%Z; cbn; by rewrite <- ?app_assoc. }
  unfold defer_call. pose proof (Hm s1) as E. destruct (m s1) as [s2 o]. cbn [fst] in E.
  assert (loggerKillSwitch_closed s2 = false) as Hk2 by by rewrite E.
  unfold FinishLogging. io. rewrite Hk2. destruct o; [|done|]; cbn; by rewrite <- app_assoc.
Qed.

(** The flags of the package flag after [init]. *)
Definition go_flags (s : Process W) : gmap string string :=
  let set name value fs := default fs (flag_Set name value fs) in
  set "alsologtostderr" "true" (set "logtostderr" "false" (klog_InitFlags (flag_CommandLine s))).

Lemma init_spec s :
  init s = (s <| flag_CommandLine := go_flags s |>
              <| pflag_CommandLine ::= AddGoFlagSet (go_flags s) |>, Ret tt).
Proof. done. Qed.

(** The flags that are parsed. *)
Definition all_flags (s : Process W) : gmap string string :=
  match StartProvisioner with
  | Ret cmd => AddFlagSet (Flags cmd) (AddGoFlagSet (go_flags s) (pflag_CommandLine s))
  | _ => ∅
  end.

(** The flags are gathered and parsed, and then the command runs. *)
Lemma run_command_spec cmd s :
  StartProvisioner = Ret cmd ->
  let all := AddFlagSet (Flags cmd) (pflag_CommandLine s) in
  run s = match pflag_Parse all with
  | inl fs => (_ ← InitLogging; defer_call FinishLogging (Execute cmd))
      (s <| pflag_CommandLine := fs |> <| logFlushFreq := duration_flag "log-flush-frequency" fs |>
         <| events ::= fun l => l ++ [FlagsParsed] |>)
  | inr code => (s <| pflag_CommandLine := all |>, Fail (Exit code))
  end.
Proof.
  intros Hcmd all. unfold run. rewrite Hcmd. unfold Parse, modify. rewrite !bind_eq.
  cbn [pflag_CommandLine]. io. by destruct (pflag_Parse _).
Qed.

(** C27: the process.  Flags that cannot be parsed end it before anything is done.  Otherwise logging
    is set up once, after the flags are parsed and before the provisioner starts, with a goroutine
    that flushes when the interval asked for is not the default one; the provisioner runs; and
    the exit code is 0 when it returns without an error and another one when it fails.  The logs are flushed
    by [FinishLogging] when it returns or panics, but not when it fails: the check of the error
    ends the process inside the command, and the deferred call of [run] does not run. *)
Theorem process_runs {RL : RuntimeLaws} s s' o :
  initialised s -> process s = (s', o) ->
  match pflag_Parse (all_flags s) with
  | inr code => o = Fail (Exit code) /\ events s' = [] /\ world s' = world s
  | inl fs =>
    let freq := duration_flag "log-flush-frequency" fs in
    let '(w, r) := Startup.Start mKube_Clientset os_Getenv Truthy_OpenEBSEnableAnalytics
      ProvisionController (world s) in
    world s' = w /\
    events s' = [FlagsParsed; LogOutputSet; LogFlagsSet 0]
      ++ (if (freq =? KLOG_FLUSH_INTERVAL)%Z then [] else [FlusherStarted freq])
      ++ (match r with Fail _ => [] | _ => [KillSwitchClosed; Flushed] end) /\
    match r with
    | Ret _ => o = Fail (Exit 0)
    | Fail _ => exists code, code <> 0%Z /\ o = Fail (Exit code)
    | Panic => o = Panic
    end
  end.
Proof.
  intros (Hd & Hk & He). unfold process, main, all_flags.
  destruct StartProvisioner as [cmd| |] eqn:Hcmd; [|done..].
  rewrite bind_eq, init_spec, bind_eq, (run_command_spec cmd) by done.
  cbn [set pflag_CommandLine]. destruct (pflag_Parse _) as [fs|code].
  2: { intros [= <- <-]. cbn. by rewrite He. }
  rewrite (logging_spec (Execute cmd)); [|exact Hk|].
  2: { intros s1. rewrite (command_spec cmd) by done. by destruct (Startup.Start _ _ _ _ _). }
  rewrite (command_spec cmd) by done. cbn [set world logFlushFreq defaultFlushInterval].
  destruct (Startup.Start _ _ _ _ _) as [w r]. rewrite Hd.
  destruct r as [[]|e|]; cbn; intros [= <- <-]; cbn; rewrite He, ?app_nil_r; cbn; (split; [done|]);
    split; try done. exists (fatal_code e). split; [apply fatal_code_nonzero|done].
Qed.

End Process.
