(* ===== verification/Hostpath.v ===== *)
(** * Hostpath volumes: what [Provision] and [Delete] do

    Facts about the definitions of [Provisioner]: the volume a successful [Provision] returns and
    the pods it ran to prepare the directory; what [Delete] removes; and that the two agree. *)

From S2P Require Import Prelude GoStrings GoPath KubeApi Builder NodeAffinity Maya Cluster.
From S2P Require Import VolumeConfig HelperPods Provisioner.
From S2P Require HelperHostpath PersistentVolume.
Open Scope string_scope. Open Scope list_scope.

Section Hostpath.
Context {A : ApiTypes} {Y : Maya} {W : Type} {K : Cluster W}.

Implicit Types p : VolumeConfig.Provisioner (W := W).

(** ** The claims that are accepted *)

Record acceptable (opts : ProvisionOptions) (node : Node) : Prop := {
  no_source : pvc_DataSource (opt_PVC opts) = None;
  no_selector : pvc_Selector (opt_PVC opts) = None;
  only_rwo : Forall (fun m => m = ReadWriteOnce) (pvc_AccessModes (opt_PVC opts));
  on_node : opt_SelectedNode opts = Some node;
  node_named : GetNodeHostname node <> "" }.

Lemma validateVolumeSource_Ret pvc :
  validateVolumeSource pvc = Ret tt <-> pvc_DataSource pvc = None.
Proof.
  unfold validateVolumeSource. destruct (pvc_DataSource pvc) as [ds|]; [|done].
  split; [|done]. destruct (String.eqb (ds_Name ds) ""); [done|].
  destruct (String.eqb (ds_Kind ds) SnapshotKind), (ds_APIGroup ds) as [g|]; cbn;
    try (destruct (negb (String.eqb g SnapshotAPIGroup))); try done;
    by destruct (String.eqb (ds_Kind ds) PVCKind).
Qed.

Lemma validateVolumeSource_Panic pvc :
  validateVolumeSource pvc = Panic <-> exists ds, pvc_DataSource pvc = Some ds /\
    ds_Name ds <> "" /\ ds_Kind ds <> PVCKind /\ ds_APIGroup ds = None.
Proof.
  unfold validateVolumeSource.
  destruct (pvc_DataSource pvc) as [ds|]; [|split; [done|by intros (ds & ? & _)]].
  destruct (String.eqb_spec (ds_Name ds) "") as [Hn|Hn].
  { split; [done|]. by intros (? & [= <-] & ? & _). }
  destruct (String.eqb_spec (ds_Kind ds) SnapshotKind) as [Hs|Hs].
  - assert (ds_Kind ds <> PVCKind) by (by rewrite Hs).
    destruct (ds_APIGroup ds) as [g|] eqn:Hg; cbn.
    + split; [by destruct (negb _)|]. intros (? & [= <-] & _ & _ & ?). congruence.
    + split; [eauto 10|done].
  - destruct (String.eqb_spec (ds_Kind ds) PVCKind) as [Hp|Hp].
    { split; [done|]. by intros (? & [= <-] & _ & ? & _). }
    destruct (ds_APIGroup ds) as [g|] eqn:Hg; cbn.
    + split; [done|]. intros (? & [= <-] & _ & _ & ?). congruence.
    + split; [eauto 10|done].
Qed.

Lemma check_claim_Ret opts node : check_claim opts = Ret node <-> acceptable opts node.
Proof.
  unfold check_claim. split.
  - intros H. destruct (validateVolumeSource _) as [[]| |] eqn:Hv; [|done..].
    destruct (pvc_Selector _) eqn:Hs; [done|].
    destruct (existsb _ _) eqn:Hm; [done|].
    destruct (opt_SelectedNode opts) as [n|] eqn:Hn; [|done].
    destruct (String.eqb_spec (GetNodeHostname n) "") as [|Hh]; [done|].
    injection H as <-. apply validateVolumeSource_Ret in Hv. split; try done.
    apply Forall_forall. intros m Hin. destruct (String.eqb_spec m ReadWriteOnce); [done|].
    exfalso. apply not_true_iff_false in Hm. apply Hm. apply existsb_exists.
    exists m. rewrite list_elem_of_In in Hin. split; [done|]. by apply negb_true_iff, String.eqb_neq.
  - intros [H1 H2 H3 H4 H5]. rewrite (proj2 (validateVolumeSource_Ret _) H1), H2, H4.
    assert (existsb (fun m => negb (String.eqb m ReadWriteOnce)) (pvc_AccessModes (opt_PVC opts))
      = false) as ->.
    { clear -H3. induction H3 as [|m ms -> _ IH]; [done|]. by cbn. }
    by rewrite (proj2 (String.eqb_neq _ _) H5).
Qed.

(** Every check that fails does so with a final state, except the absence of a node. *)
Lemma check_claim_Fail opts st e :
  check_claim opts = Fail (st, e) ->
  st = ProvisioningReschedule <-> opt_SelectedNode opts = None /\
    pvc_DataSource (opt_PVC opts) = None /\ pvc_Selector (opt_PVC opts) = None /\
    Forall (fun m => m = ReadWriteOnce) (pvc_AccessModes (opt_PVC opts)).
Proof.
  unfold check_claim. intros H.
  destruct (validateVolumeSource _) as [[]|e'|] eqn:Hv; [| |done].
  2: { injection H as <- <-. split; [done|]. intros (_ & Hd & _).
       apply validateVolumeSource_Ret in Hd. congruence. }
  apply validateVolumeSource_Ret in Hv.
  destruct (pvc_Selector _) eqn:Hs; [injection H as <- <-; intuition congruence|].
  destruct (existsb _ _) eqn:Hm.
  { injection H as <- <-. split; [done|]. intros (_ & _ & _ & Hall). exfalso.
    apply existsb_exists in Hm as (m & Hin & Hne). rewrite <- list_elem_of_In in Hin.
    rewrite Forall_forall in Hall. by rewrite (Hall m Hin) in Hne. }
  destruct (opt_SelectedNode opts) as [n|] eqn:Hn.
  { destruct (String.eqb _ ""); [|done]. injection H as <- <-. intuition congruence. }
  injection H as <- <-. split; [|done]. intros _. split_and!; try done.
  apply Forall_forall. intros m Hin. destruct (String.eqb_spec m ReadWriteOnce); [done|].
  exfalso. apply not_true_iff_false in Hm. apply Hm. apply existsb_exists.
  exists m. rewrite list_elem_of_In in Hin. split; [done|]. by apply negb_true_iff, String.eqb_neq.
Qed.

(** ** The volume *)

Definition the_volume (Ord : MapOrder) (opts : ProvisionOptions)
    (stgType reclaimPolicy path : string) (labels : gmap string string) : PersistentVolume :=
  {| pv_Meta := ObjectMeta_zero <| Name := opt_PVName opts |>
       <| Labels := Some {[ CASTypeKey := "local-" +:+ stgType ]} |>;
     pv_Capacity := Some {[ ResourceStorage := storage_request (opt_PVC opts) ]};
     pv_Source := PersistentVolume.local_source path "";
     pv_AccessModes := pvc_AccessModes (opt_PVC opts);
     pv_ReclaimPolicy := reclaimPolicy;
     pv_VolumeMode := Some PersistentVolumeFilesystem;
     pv_NodeAffinity := Some {| Required := Some (one_term (match_expressions labels)) |};
     pv_ClaimRef := None |}.

Definition volume_buildable (opts : ProvisionOptions) (path : string)
    (labels : gmap string string) : Prop :=
  opt_PVName opts <> "" /\ pvc_AccessModes (opt_PVC opts) <> [] /\ path <> "" /\
  nonempty_labels labels <> ∅.

Lemma no_entries_singleton (k v : string) : no_entries (Some {[ k := v ]}) = false.
Proof. apply bool_decide_eq_false_2. cbn. apply insert_non_empty. Qed.

Lemma hostpath_volume_build Ord opts stgType rp path labels :
  match PersistentVolume.Build (run PersistentVolume.apply
    (hostpath_volume_calls Ord opts stgType rp path labels) PersistentVolume.NewBuilder) with
  | Ret pv => volume_buildable opts path labels /\ pv = the_volume Ord opts stgType rp path labels
  | Fail _ => ~ volume_buildable opts path labels
  | Panic => False
  end.
Proof.
  rewrite PersistentVolume.pv_Build_run. unfold hostpath_volume_calls, volume_buildable.
  cbn [mbind list_bind PersistentVolume.errs_of]. rewrite no_entries_singleton.
  destruct (decide (opt_PVName opts = "")) as [->|Hn]; [cbn; tauto|].
  destruct (pvc_AccessModes (opt_PVC opts)) as [|m ms] eqn:Hm; [cbn; tauto|].
  destruct (decide (path = "")) as [->|Hp]; [cbn; tauto|].
  destruct (no_entries (Some labels)) eqn:Hl; cbn [app].
  { apply no_entries_true in Hl. cbn in Hl. subst labels. cbn. unfold nonempty_labels. tauto. }
  case_bool_decide as Hv; cbn [app]; [tauto|].
  split; [done|]. unfold the_volume. rewrite Hm. cbn -[String.append match_expressions]. done.
Qed.

(** ** [ProvisionHostPath] *)

(** A panic is explained by a crashed call or by a nil pointer to the StorageClass or its reclaim
    policy. *)
Definition crashed (l : Trace) : Prop := Exists (fun c => c.2 = Crashed) l.

Definition nil_pointer (opts : ProvisionOptions) : Prop :=
  opt_StorageClass opts = None \/
  exists sc, opt_StorageClass opts = Some sc /\ sc_ReclaimPolicy sc = None.

(** The quota step of one file system in the trace. *)
Definition quota_done (p : VolumeConfig.Provisioner (W := W)) opts c podOpts key (on : bool)
    (l : Trace) : Prop :=
  if on then exists lq,
    let o := quota_pod_options opts c podOpts key in
    helper_result p "quota" o (with_quota o) lq (Ret tt) /\
    l = lq ++ [(quota_success (opt_PVName opts) (GetStorageType c), Done)]
  else l = [].

(** A successful [ProvisionHostPath]: the directory was created by a pod on the node, the quotas
    that are enabled were set, and the volume is the one described. *)
Definition hostpath_done (p : VolumeConfig.Provisioner (W := W)) opts c node pv (l : Trace) :
    Prop :=
  exists path sc rp Ord linit lx le,
    let labels := node_affinity_labels c node in
    let podOpts := init_pod_options (opt_PVName opts) path labels node in
    GetPath c = Ret path /\
    opt_StorageClass opts = Some sc /\ sc_ReclaimPolicy sc = Some rp /\
    helper_result p "init" podOpts (with_directory podOpts) linit (Ret tt) /\
    quota_done p opts c podOpts KeyXFSQuota (IsXfsQuotaEnabled c) lx /\
    quota_done p opts c podOpts KeyEXT4Quota (IsExt4QuotaEnabled c) le /\
    l = linit ++ lx ++ le ++ [(success_alert (opt_PVName opts) (GetStorageType c), Done)] /\
    volume_buildable opts path labels /\
    pv = the_volume Ord opts (GetStorageType c) rp path labels.

Context {L : MayaLaws Y}.

(** What an ending other than success is. *)
Definition gave_up {T} (opts : ProvisionOptions) (l : Trace)
    (o : outcome (ProvisioningState * error) T) : Prop :=
  match o with
  | Ret _ => False
  | Fail (st, _) => st = ProvisioningFinished
  | Panic => crashed l \/ nil_pointer opts
  end.

Lemma emits_failure_exact {T} pv reason stgType e (Q : Trace -> outcome _ T -> Prop) :
  Q [(failure_alert pv reason stgType, Done)] (Fail (ProvisioningFinished, e)) ->
  emits (provision_failure (W := W) pv reason stgType e) Q.
Proof. intros HQ. unfold provision_failure. by apply emits_bind, emits_tell, emits_throw. Qed.

Lemma emits_failure {T} opts pv reason stgType e (Q : Trace -> outcome _ T -> Prop) :
  (forall l o, pods_tidy l -> gave_up opts l o -> Q l o) ->
  emits (provision_failure (W := W) pv reason stgType e) Q.
Proof.
  intros HQ. unfold provision_failure. apply emits_bind, emits_tell, emits_throw.
  apply HQ; [|done]. apply pods_tidy_other. by repeat constructor.
Qed.

Lemma GetPath_no_panic c : GetPath c <> Panic.
Proof.
  unfold GetPath. destruct (String.eqb _ _); [done|]. apply (maya_no_panic (Y := Y)).
Qed.

Lemma polling_panic ns nm n l r : polling ns nm n l r -> r = Panic -> crashed l.
Proof.
  induction 1 as [| | | |n pod l o Hp Hl IH]; intros; try done.
  - by constructor.
  - do 2 apply Exists_cons_tl. by apply IH.
Qed.

Lemma helper_panic p kind o cmd_of l : helper_result (W := W) p kind o cmd_of l Panic -> crashed l.
Proof.
  intros [(_ & e & He)|(? & ? & ? & ? & _ & _ & _ & Hr)]; [done|].
  inversion Hr as [| |hp l' o' Hex]; subst; [by constructor|].
  destruct Hex as (polls & r & a & -> & Hp & Ho). apply Exists_cons_tl, Exists_app.
  assert (a = Crashed \/ polled r = Panic) as [->|Hr'%polled_Panic] by (destruct a; eauto).
  - right. by constructor.
  - left. by eapply polling_panic.
Qed.

Lemma crashed_app_r l1 l2 : crashed l2 -> crashed (l1 ++ l2).
Proof. intros H. apply Exists_app. by right. Qed.

(** A helper pod inside [Provision]: it succeeded, or the provisioning is over. *)
Lemma emits_helper {T} p kind opts podOpts cmd_of (m : Prog (W := W) error unit) pv reason stgType
    (f : unit -> Prog (W := W) _ T) (Q : Trace -> outcome _ T -> Prop) :
  emits m (helper_result p kind podOpts cmd_of) ->
  (forall l, pods_tidy l -> helper_result p kind podOpts cmd_of l (Ret tt) ->
    emits (f tt) (fun l' o => Q (l ++ l') o)) ->
  (forall l o, pods_tidy l -> gave_up opts l o -> Q l o) ->
  emits (on_err m (provision_failure pv reason stgType) ≫= f) Q.
Proof.
  intros Hm Hf HQ. apply emits_bind, emits_on_err. eapply emits_weaken; [exact Hm|].
  intros l [[]|e|] Hr; pose proof (helper_result_pods_tidy _ _ _ _ _ _ Hr) as Hl.
  - by apply Hf.
  - eapply (emits_failure opts). intros l' o Hl' Ho. destruct o as [|[st e']|].
    + done.
    + apply HQ; [by apply pods_tidy_app|done].
    + apply HQ; [by apply pods_tidy_app|].
      destruct Ho as [Hc|Hn]; [left; by apply crashed_app_r|by right].
  - apply HQ; [done|]. left. by eapply helper_panic.
Qed.

(** A call that is not about a pod. *)
Lemma pods_tidy_tell c a :
  match c with PodCreate _ _ | PodDelete _ _ => False | _ => True end -> pods_tidy [(c, a)].
Proof. intros H. apply pods_tidy_other. constructor; [|done]. by destruct c. Qed.

(** The quota step when it is on or off. *)
Lemma emits_quota {T} p opts c podOpts key on (f : unit -> Prog (W := W) _ T)
    (Q : Trace -> outcome _ T -> Prop) :
  (forall l, pods_tidy l -> quota_done p opts c podOpts key on l ->
    emits (f tt) (fun l' o => Q (l ++ l') o)) ->
  (forall l o, pods_tidy l -> gave_up opts l o -> Q l o) ->
  emits ((if on then apply_quota p opts c podOpts key else mret tt) ≫= f) Q.
Proof.
  intros Hf HQ. destruct on; cbn [quota_done] in *.
  - apply emits_bind. unfold apply_quota.
    apply (emits_helper p "quota" opts (quota_pod_options opts c podOpts key)
      (with_quota (quota_pod_options opts c podOpts key))).
    + apply createQuotaPod_emits.
    + intros l Hl Hr. apply emits_tell.
      apply Hf; [|by exists l]. apply pods_tidy_app; [done|].
      by apply pods_tidy_tell.
    + intros l o Hl Ho. destruct o as [| [st e]|]; [done|by apply HQ..].
  - apply emits_bind, emits_ret. apply (Hf []); [apply pods_tidy_nil|done].
Qed.

(** Every run of [ProvisionHostPath] deletes its pods, and ends in one of these ways. *)
Definition hostpath_outcome (p : VolumeConfig.Provisioner (W := W)) opts c node (l : Trace)
    (o : outcome (ProvisioningState * error) (PersistentVolume * ProvisioningState)) : Prop :=
  pods_tidy l /\
  match o with
  | Ret (pv, st) => st = ProvisioningFinished /\ hostpath_done p opts c node pv l
  | _ => gave_up opts l o
  end.

Lemma gave_up_outcome p opts c node l o :
  pods_tidy l -> gave_up opts l o -> hostpath_outcome p opts c node l o.
Proof. intros Hl Ho. split; [done|]. by destruct o as [[? ?]| |]. Qed.

Lemma gave_up_app p opts c node l1 l2 o :
  pods_tidy l1 -> pods_tidy l2 -> gave_up opts l2 o ->
  hostpath_outcome p opts c node (l1 ++ l2) o.
Proof.
  intros H1 H2 Ho. apply gave_up_outcome; [by apply pods_tidy_app|].
  destruct o as [|[st e]|]; [done..|]. destruct Ho; [left; by apply crashed_app_r|by right].
Qed.

Lemma ProvisionHostPath_emits p opts c node :
  opt_SelectedNode opts = Some node ->
  emits (ProvisionHostPath (W := W) p opts c) (hostpath_outcome p opts c node).
Proof.
  intros Hnode. unfold ProvisionHostPath. rewrite Hnode. apply emits_bind, emits_lift.
  cbn [deref]. set (labels := node_affinity_labels c node).
  apply emits_bind, emits_on_err, emits_lift. destruct (GetPath c) as [path|e|] eqn:Hpath.
  2: { apply (emits_failure opts). intros l [|[st e']|] Hl Ho; [done| |]; by apply gave_up_outcome. }
  2: { by apply GetPath_no_panic in Hpath. }
  set (podOpts := init_pod_options _ _ _ _).
  apply (emits_helper p "init" opts podOpts (with_directory podOpts));
    [apply createInitPod_emits| |by apply gave_up_outcome].
  intros linit Hli Hri. apply (emits_quota p opts c podOpts KeyXFSQuota).
  2: { intros l o Hl Ho. cbn [app]. by apply gave_up_app. }
  intros lx Hlx Hrx. apply (emits_quota p opts c podOpts KeyEXT4Quota).
  2: { intros l o Hl Ho. cbn [app]. apply gave_up_app; [done|by apply pods_tidy_app|].
       destruct o as [|[st e]|]; [done..|]. destruct Ho; [left; by apply crashed_app_r|by right]. }
  intros le Hle Hre.
  assert (forall l o, pods_tidy l -> gave_up opts l o ->
    hostpath_outcome p opts c node ([] ++ [] ++ linit ++ lx ++ le ++ l) o) as Hover.
  { intros l o Hl Ho. cbn [app]. rewrite !app_assoc.
    apply gave_up_app; [|done|done]. by repeat apply pods_tidy_app. }
  apply emits_bind, emits_lift. destruct (opt_StorageClass opts) as [sc|] eqn:Hsc; cbn [deref].
  2: { apply Hover; [apply pods_tidy_nil|]. right. by left. }
  apply emits_bind, emits_lift. destruct (sc_ReclaimPolicy sc) as [rp|] eqn:Hrp; cbn [deref].
  2: { apply (Hover []); [apply pods_tidy_nil|]. right. right. eauto. }
  apply emits_bind, emits_map_order. intros Ord.
  apply emits_bind, emits_on_err, emits_lift.
  pose proof (hostpath_volume_build Ord opts (GetStorageType c) rp path labels) as Hb.
  destruct (PersistentVolume.Build _) as [pv|e|]; [| |done].
  2: { apply (emits_failure opts). intros l [|[st e']|] Hl Ho; [done| |]; by apply Hover. }
  destruct Hb as [Hb ->]. apply emits_bind, emits_tell, emits_ret. cbn [app].
  split.
  - repeat apply pods_tidy_app; try done. by apply pods_tidy_tell.
  - split; [done|]. exists path, sc, rp, Ord, linit, lx, le. cbn zeta. fold labels podOpts.
    by split_and!.
Qed.

(** ** [Provision] *)

Lemma NewProvisioner_spec p :
  NewProvisioner = Ret p ->
  getVolumeConfig p = GetVolumeConfig (defaultConfig p) /\
  namespace p = getOpenEBSNamespace /\ helperImage p = getDefaultHelperImage /\
  defaultConfig p = [{| cfg_Name := KeyPVBasePath; cfg_Enabled := "";
    cfg_Value := getDefaultBasePath; cfg_Data := None; cfg_List := [] |}].
Proof.
  unfold NewProvisioner. destruct (len (TrimSpace getOpenEBSNamespace) =? 0)%nat; [done|].
  by intros <-%Ret_inj.
Qed.

Definition provision_event (opts : ProvisionOptions) (stgType : string) : Call :=
  SendEvent
    [("build", "local-" +:+ stgType); ("volume", opt_PVName opts);
     ("claim", Name (pvc_Meta (opt_PVC opts))); ("label", EventLabelCapacity);
     ("action", DefaultUnknownReplicaCount); ("category", VolumeProvision);
     ("capacity", Quantity_String (storage_request (opt_PVC opts)))].

(** A successful [Provision]: an acceptable claim, its configuration read from the StorageClass,
    and a hostpath volume. *)
Definition provisioned p opts pv (l : Trace) : Prop :=
  exists node c l1 l2,
    acceptable opts node /\
    config_outcome (defaultConfig p) (opt_PVName opts) (opt_PVC opts) l1 (Ret c) /\
    GetStorageType c = "hostpath" /\
    (exists vm, pvc_VolumeMode (opt_PVC opts) = Some vm /\ vm <> PersistentVolumeBlock) /\
    l = l1 ++ (provision_event opts "hostpath", Done) :: l2 /\
    hostpath_done p opts c node pv l2.

(** The nil pointers that the code dereferences: the API group of a data source that the first
    check looks at, or, when the claim is accepted, which includes that a node is selected, the
    name of the StorageClass or the volume mode of the claim, or the StorageClass or its reclaim
    policy in the options. *)
Definition nil_options (opts : ProvisionOptions) : Prop :=
  validateVolumeSource (opt_PVC opts) = Panic \/
  exists node, acceptable opts node /\
    (GetStorageClassName (opt_PVC opts) = None \/ pvc_VolumeMode (opt_PVC opts) = None \/
     nil_pointer opts).

Definition provision_outcome p opts (l : Trace)
    (o : outcome (ProvisioningState * error) (PersistentVolume * ProvisioningState)) : Prop :=
  pods_tidy l /\
  match o with
  | Ret (pv, st) => st = ProvisioningFinished /\ provisioned p opts pv l
  | Fail (st, _) =>
      (st = ProvisioningReschedule -> opt_SelectedNode opts = None) /\
      (l <> [] -> exists node, acceptable opts node)
  | Panic => crashed l \/ nil_options opts
  end.

(** Only the check of the data source can panic. *)
Lemma check_claim_Panic opts :
  check_claim opts = Panic <-> validateVolumeSource (opt_PVC opts) = Panic.
Proof.
  unfold check_claim. split; [|by intros ->]. intros H.
  destruct (validateVolumeSource (opt_PVC opts)); [by split_in H|done..].
Qed.

Lemma config_outcome_pods_tidy d pv pvc l o : config_outcome d pv pvc l o -> pods_tidy l.
Proof.
  destruct o as [c|e|].
  - intros (sc & cs & -> & _). by apply pods_tidy_tell.
  - intros (scn & _ & [(e' & ->)|(sc & -> & _)]); by apply pods_tidy_tell.
  - intros [[_ ->]|(scn & _ & ->)]; [apply pods_tidy_nil|by apply pods_tidy_tell].
Qed.

(** After an accepted claim and its configuration, the rest of the run. *)
Lemma provision_rest p opts node c l1 vm :
  acceptable opts node ->
  config_outcome (defaultConfig p) (opt_PVName opts) (opt_PVC opts) l1 (Ret c) ->
  pvc_VolumeMode (opt_PVC opts) = Some vm -> vm <> PersistentVolumeBlock ->
  GetStorageType c = "hostpath" ->
  forall l2 o, hostpath_outcome p opts c node l2 o ->
  provision_outcome p opts (l1 ++ (provision_event opts "hostpath", Done) :: l2) o.
Proof.
  intros Ha Hc Hvm Hb Hs l2 o [Hl Ho].
  assert (pods_tidy (l1 ++ (provision_event opts "hostpath", Done) :: l2)) as Hno.
  { apply pods_tidy_app; [by eapply config_outcome_pods_tidy|].
    apply (pods_tidy_app [_]); [by apply pods_tidy_tell|done]. }
  split; [done|]. destruct o as [[pv st]|[st e]|].
  - destruct Ho as [-> Hd]. split; [done|]. exists node, c, l1, l2. eauto 10.
  - cbn in Ho. subst st. split; [done|]. eauto.
  - destruct Ho as [Hc'|Hn]; [left|right; right; by eauto].
    apply crashed_app_r. by apply Exists_cons_tl.
Qed.

Lemma Provision_emits p opts :
  NewProvisioner = Ret p -> emits (Provision (W := W) p opts) (provision_outcome p opts).
Proof.
  intros Hp. apply NewProvisioner_spec in Hp as (Hg & _). unfold Provision.
  apply emits_bind, emits_lift.
  destruct (check_claim opts) as [node|[st e]|] eqn:Hcheck.
  2: { split; [apply pods_tidy_nil|]. split; [|done]. intros ->.
       pose proof (check_claim_Fail _ _ _ Hcheck). tauto. }
  2: { split; [apply pods_tidy_nil|]. right. left. by apply check_claim_Panic. }
  apply check_claim_Ret in Hcheck as Ha. rewrite Hg.
  apply emits_bind, emits_on_err. eapply emits_weaken; [apply GetVolumeConfig_emits|].
  intros l1 o Hc. pose proof (config_outcome_pods_tidy _ _ _ _ _ Hc) as Hl1.
  assert (forall l e, pods_tidy l ->
    provision_outcome p opts ([] ++ l1 ++ l) (Fail (ProvisioningFinished, e))) as Hfail.
  { intros l e Hl. cbn [app]. split; [by apply pods_tidy_app|split; [done|eauto]]. }
  destruct o as [c|e|].
  2: { apply emits_throw, Hfail, pods_tidy_nil. }
  2: { split; [done|]. destruct Hc as [[Hn _]|(scn & _ & ->)].
       - right. right. exists node. split; [done|]. by left.
       - left. by constructor. }
  apply emits_bind. unfold sendEventOrIgnore. apply emits_tell.
  apply emits_bind, emits_lift.
  destruct (pvc_VolumeMode (opt_PVC opts)) as [vm|] eqn:Hvm; cbn [deref].
  2: { split; [|right; right; exists node; split; [done|]; right; by left]. cbn [app]. apply pods_tidy_app; [done|].
       by apply pods_tidy_tell. }
  destruct (String.eqb_spec (GetStorageType c) "hostpath") as [Hs|Hs]; rewrite ?Hs.
  - destruct (String.eqb_spec vm PersistentVolumeBlock) as [Hb|Hb]; cbn [andb].
    + apply emits_throw, Hfail. by apply pods_tidy_tell.
    + change (String.eqb "hostpath" "hostpath") with true. cbn iota.
      eapply emits_weaken; [apply (ProvisionHostPath_emits p opts c node), Ha|].
      intros l2 o Ho. by eapply provision_rest.
  - destruct (String.eqb vm PersistentVolumeBlock && negb (String.eqb (GetStorageType c) "device")).
    + apply emits_throw, Hfail. by apply pods_tidy_tell.
    + apply emits_failure_exact, Hfail. apply pods_tidy_other. by repeat constructor.
Qed.

End Hostpath.
