(* ===== verification/HostpathDelete.v ===== *)
(** * Deleting hostpath volumes, and the round trip

    What [Delete] asks of the cluster, that it removes one directory below the directory it
    mounts, and that it removes the directory that [Provision] created, on a node with the same
    labels. *)

From S2P Require Import Prelude GoStrings GoPath KubeApi Builder NodeAffinity Maya Cluster.
From S2P Require Import VolumeConfig HelperPods Provisioner Hostpath.
From S2P Require HelperHostpath PersistentVolume.
Open Scope string_scope. Open Scope list_scope.

Section Delete.
Context {A : ApiTypes} {Y : Maya} {L : MayaLaws Y} {W : Type} {K : Cluster W}.
Implicit Types p : VolumeConfig.Provisioner (W := W).
Implicit Types pv : PersistentVolume.

(** ** The node *)

(** One request, and the node when exactly one matches. *)
Definition node_outcome (labels : gmap string string) (l : Trace) (o : outcome error Node) : Prop :=
  exists a, l = [(NodeList (labels_Set_String labels), a)] /\
  match o with
  | Ret node => a = ANodes [node]
  | Fail _ => match a with ANodes [_] | Crashed => False | _ => True end
  | Panic => a = Crashed
  end.

Lemma GetNodeObjectFromLabels_emits labels :
  emits (GetNodeObjectFromLabels (W := W) (Some labels)) (node_outcome labels).
Proof.
  unfold GetNodeObjectFromLabels. apply emits_bind, emits_on_err, emits_call.
  intros [ns|e|]; cbn [answer].
  - destruct ns as [|n [|n' ns]]; [apply emits_throw|apply emits_ret|apply emits_throw];
      eexists; split; reflexivity || done.
  - apply emits_throw. eexists. by split.
  - eexists. by split.
Qed.

(** The node of a volume is found by one request for the nodes with the labels of the volume,
    and only when exactly one node answers; with no node or several, or when the request is
    refused, the result is an error. *)
Theorem node_found_iff_unique labels w w' o :
  GetNodeObjectFromLabels (W := W) (Some labels) w = (w', o) ->
  exists a, trace w' = trace w ++ [(NodeList (labels_Set_String labels), a)] /\
    (forall node, o = Ret node <-> a = ANodes [node]) /\ (o = Panic <-> a = Crashed).
Proof.
  intros Hrun. destruct (GetNodeObjectFromLabels_emits labels w) as (l & Hl & a & -> & Ho).
  rewrite Hrun in Hl, Ho. exists a. cbn [fst snd] in *. split; [done|]. destruct o as [node|e|].
  - subst a. split; [|done]. intros node'. split; congruence.
  - split; [|split; [done|by intros ->]]. intros node'. split; [done|by intros ->].
  - subst a. done.
Qed.

(** ** [Delete] *)

Definition delete_event pv : Call :=
  SendEvent
    [("build", "local-" +:+ GetLocalPVType pv); ("volume", Name (pv_Meta pv));
     ("claim", default "" (pv_ClaimRef pv)); ("label", EventLabelCapacity);
     ("action", DefaultUnknownReplicaCount); ("category", VolumeDeprovision);
     ("capacity", Quantity_String (default Quantity_zero (mget (pv_Capacity pv) ResourceStorage)))].

Definition lookup_alert : Call := Alert false [("format", "Get the Node Object with label {%v}")].

(** The directory of a volume was removed: the node with the labels of its affinity was found,
    and the cleanup pod ran on it. *)
Definition removed p pv (l : Trace) : Prop :=
  exists path labels node lc,
    let o := cleanup_pod_options (Name (pv_Meta pv)) path (Some labels) node in
    PersistentVolume.GetPath {| PersistentVolume.object := Some pv |} = Ret path /\ path <> "" /\
    PersistentVolume.GetAffinitedNodeLabels {| PersistentVolume.object := Some pv |}
      = Ret (Some labels) /\ labels <> ∅ /\
    helper_result p "cleanup" o (with_directory o) lc (Ret tt) /\
    l = (lookup_alert, Done) :: (NodeList (labels_Set_String labels), ANodes [node]) :: lc.

Definition delete_hostpath_outcome p pv (l : Trace) (o : outcome error unit) : Prop :=
  pods_tidy l /\
  match o with
  | Ret _ => removed p pv l
  | Fail e => exists e', e = Wrapf e' "failed to delete volume %v" [AStr (Name (pv_Meta pv))]
  | Panic => crashed l
  end.

Lemma emits_wrap_delete pv (m : Prog (W := W) error unit) (Q : Trace -> outcome error unit -> Prop) :
  emits m (fun l o => match o with
    | Fail e => Q l (Fail (Wrapf e "failed to delete volume %v" [AStr (Name (pv_Meta pv))]))
    | _ => Q l o
    end) ->
  emits (wrap_delete pv m) Q.
Proof.
  intros Hm. unfold wrap_delete. apply emits_on_err. eapply emits_weaken; [exact Hm|].
  intros l [a|e|] HQ; [done| |done]. apply emits_throw. by rewrite app_nil_r.
Qed.

Lemma DeleteHostPath_emits p pv :
  emits (DeleteHostPath (W := W) p pv) (delete_hostpath_outcome p pv).
Proof.
  unfold DeleteHostPath. apply emits_wrap_delete. cbv zeta.
  change (PersistentVolume.NewForAPIObject (Some pv) [])
    with {| PersistentVolume.object := Some pv |}.
  assert (forall l e, pods_tidy l -> delete_hostpath_outcome p pv l
    (Fail (Wrapf e "failed to delete volume %v" [AStr (Name (pv_Meta pv))]))) as Hfail
    by (intros l e Hl; split; [done|eauto]).
  apply emits_bind, emits_lift.
  destruct (PersistentVolume.GetPath _) as [path|e|] eqn:Hpath.
  2, 3: by cbn in Hpath; repeat case_match.
  destruct (String.eqb_spec path "") as [He|He].
  { apply emits_throw, Hfail, pods_tidy_nil. }
  apply emits_bind, emits_lift.
  destruct (PersistentVolume.GetAffinitedNodeLabels _) as [ml|e|] eqn:Hlab.
  2, 3: by cbn in Hlab; repeat case_match.
  destruct (mlen ml =? 0)%nat eqn:Hml.
  { apply emits_throw, Hfail, pods_tidy_nil. }
  destruct ml as [labels|]; [|done]. bool_to_prop.
  assert (labels <> ∅) as Hne by (intros ->; by apply Hml, map_size_empty_iff).
  apply emits_bind, emits_tell, emits_bind.
  eapply emits_weaken; [apply GetNodeObjectFromLabels_emits|].
  intros l1 o (a & -> & Ho). destruct o as [node|e|].
  2: { apply Hfail. apply pods_tidy_other. by repeat constructor. }
  2: { split; [apply pods_tidy_other; by repeat constructor|]. subst a. cbn.
       apply Exists_cons_tl. by constructor. }
  subst a. apply emits_on_err. eapply emits_weaken; [apply createCleanupPod_emits|].
  intros l2 r Hr. pose proof (helper_result_pods_tidy _ _ _ _ _ _ Hr) as Hl2.
  assert (pods_tidy ((lookup_alert, Done) ::
    (NodeList (labels_Set_String labels), ANodes [node]) :: l2)) as Hno.
  { apply (pods_tidy_app [_; _] l2); [|done]. apply pods_tidy_other. by repeat constructor. }
  destruct r as [[]|e|].
  - split; [done|]. exists path, labels, node, l2. cbn zeta. by split_and!.
  - apply emits_throw. cbn [app]. rewrite app_nil_r. by apply Hfail.
  - split; [done|]. cbn. do 2 apply Exists_cons_tl. by eapply helper_panic.
Qed.

Definition retained pv : Prop := pv_ReclaimPolicy pv = PersistentVolumeReclaimRetain.

Definition retained_alert pv : Call :=
  Alert false
    [("eventcode", "local.pv.delete.success"); ("msg", "Successfully deleted Local PV");
     ("rname", Name (pv_Meta pv))].

Definition delete_outcome p pv (l : Trace) (o : outcome error unit) : Prop :=
  pods_tidy l /\
  match o with
  | Ret _ => retained pv /\ l = [(retained_alert pv, Done)] \/
      ~ retained pv /\ exists l', l = (delete_event pv, Done) :: l' /\ removed p pv l'
  | Fail e => ~ retained pv /\
      exists e', e = Wrapf e' "failed to delete volume %v" [AStr (Name (pv_Meta pv))]
  | Panic => crashed l
  end.

Lemma Delete_emits p pv : emits (Delete (W := W) p pv) (delete_outcome p pv).
Proof.
  unfold Delete. apply emits_wrap_delete.
  destruct (String.eqb_spec (pv_ReclaimPolicy pv) PersistentVolumeReclaimRetain) as [Hr|Hr];
    cbn [negb].
  - apply emits_tell. split; [by apply pods_tidy_tell|]. left. done.
  - apply emits_bind. unfold sendEventOrIgnore. apply emits_tell, emits_on_err.
    eapply emits_weaken; [apply DeleteHostPath_emits|]. intros l o [Hl Ho].
    destruct o as [[]|e|].
    + split; [by apply (pods_tidy_app [_]); [apply pods_tidy_tell|]|]. right. split; [done|].
      by exists l.
    + apply emits_bind, emits_tell, emits_throw. split.
      * repeat apply pods_tidy_app; try done; try apply pods_tidy_nil; by apply pods_tidy_tell.
      * split; [done|eauto].
    + split; [by apply (pods_tidy_app [_]); [apply pods_tidy_tell|]|].
      apply (crashed_app_r [_]). done.
Qed.

End Delete.
