(* ===== verification/HelperTrace.v ===== *)
(** * The traces of the provisioner, pod by pod

    A request for a volume makes calls that are about no pod and runs, one after the other, helper
    pods named after the volume.  This holds of every run, also of those that fail: [helper_trace]
    is that shape, and the rules for [stays] show it along the structure of the code.  What
    follows for the pods themselves is in [PodTyping], for volumes served at the same time in
    [Interleaving]. *)

From S2P Require Import Prelude GoStrings GoPath KubeApi Builder NodeAffinity Maya Cluster.
From S2P Require Import VolumeConfig HelperHostpath HelperPods Hostpath HostpathDelete.
From S2P Require Provisioner.
Open Scope string_scope. Open Scope list_scope.

(** ** Helper pods named after a volume *)

(** The kinds of helper pods. *)
Definition helper_kinds : list string := ["init"; "cleanup"; "quota"].

(** The name of a helper pod, from its kind and the name of the volume. *)
Definition helper_name (kind vol : string) : string := kind +:+ "-" +:+ vol.

Lemma helper_name_inj k k' v v' :
  k ∈ helper_kinds -> k' ∈ helper_kinds -> helper_name k v = helper_name k' v' -> v = v'.
Proof.
  intros Hk Hk'. repeat (apply elem_of_cons in Hk as [->|Hk]); try by apply elem_of_nil in Hk.
  all: repeat (apply elem_of_cons in Hk' as [->|Hk']); try by apply elem_of_nil in Hk'.
  all: unfold helper_name; cbn; congruence.
Qed.

Lemma helper_kind_nonempty k : k ∈ helper_kinds -> k <> "".
Proof. intros Hk ->. apply (bool_decide_eq_true_2 _) in Hk. by vm_compute in Hk. Qed.

(** A call that is about no pod. *)
Definition no_pod {A : ApiTypes} (c : Call * Answer) : bool :=
  match c.1 with PodCreate _ _ | PodGet _ _ | PodDelete _ _ => false | _ => true end.

Section Trace.
Context {A : ApiTypes} {W : Type} {K : Cluster W}.
Implicit Types p : VolumeConfig.Provisioner (W := W).

(** A pod that a helper of the volume may run: it has what the builders check. *)
Definition helper_pod (img vol : string) (pod : Pod) : Prop :=
  exists kind parentDir cmd Ord o,
    kind ∈ helper_kinds /\ name o = vol /\ pod_buildable img parentDir cmd o = true /\
    pod = the_pod Ord img kind parentDir cmd o.

Lemma helper_pod_name img vol pod :
  helper_pod img vol pod ->
  exists kind, kind ∈ helper_kinds /\ Name (pod_Meta pod) = helper_name kind vol.
Proof. intros (kind & parent & cmd & Ord & o & Hk & <- & _ & ->). by exists kind. Qed.

(** Calls about no pod, and whole runs of helper pods of one volume. *)
Inductive helper_trace (ns img vol : string) : Trace -> Prop :=
| trace_end : helper_trace ns img vol []
| trace_call c l : no_pod c = true -> helper_trace ns img vol l -> helper_trace ns img vol (c :: l)
| trace_pod pod lr r l :
    helper_pod img vol pod -> runs_pod ns pod lr r ->
    helper_trace ns img vol l -> helper_trace ns img vol (lr ++ l).

#[export] Instance helper_trace_appends ns img vol : Appends (helper_trace ns img vol).
Proof.
  split; [constructor|]. intros l l' H H'. induction H as [|c l Hc _ IH|pod lr r l Hp Hr _ IH].
  - done.
  - by constructor.
  - rewrite <- app_assoc. by econstructor.
Qed.

Lemma helper_trace_call ns img vol c : no_pod c = true -> helper_trace ns img vol [c].
Proof. intros H. constructor; [done|constructor]. Qed.

Lemma helper_trace_run ns img vol pod l r :
  helper_pod img vol pod -> runs_pod ns pod l r -> helper_trace ns img vol l.
Proof. intros Hp Hr. rewrite <- (app_nil_r l). by econstructor; [| |constructor]. Qed.

End Trace.

#[export] Hint Resolve helper_trace_call : go.
#[export] Hint Extern 1 (no_pod _ = true) => reflexivity : go.

(** ** The code *)

Section Code.
Context {A : ApiTypes} {Y : Maya} {L : MayaLaws Y} {W : Type} {K : Cluster W}.
Implicit Types p : VolumeConfig.Provisioner (W := W).

Abbreviation of_volume p vol := (helper_trace (namespace p) (helperImage p) vol).

(** A pod that is launched and waited for. *)
Lemma launch_exit_stays p config :
  podName config ∈ helper_kinds ->
  taints config = selectedNodeTaints (pOpts config) ->
  stays (pod ← launchPod (W := W) p config; exitPod p pod) (of_volume p (name (pOpts config))).
Proof.
  intros Hk Ht. pose proof (helper_kind_nonempty _ Hk) as Hname.
  apply emits_bind. eapply emits_weaken; [by apply launchPod_emits|].
  intros l o [(_ & -> & e & ->)|(Hok & Ord & ->)]; [constructor|].
  set (pod := the_pod _ _ _ _ _ _).
  assert (helper_pod (helperImage p) (name (pOpts config)) pod) as Hpod
    by (do 5 eexists; split_and!; [exact Hk| |exact Hok|]; reflexivity).
  destruct o as [hp|e|]; cbn [answer].
  - eapply emits_weaken; [apply exitPod_exits|]. intros l' o' Hex.
    eapply helper_trace_run; [exact Hpod|]. by constructor.
  - eapply helper_trace_run; [exact Hpod|constructor].
  - eapply helper_trace_run; [exact Hpod|constructor].
Qed.

(** The checks before a helper pod is launched. *)
Ltac checked x := apply stays_lift_bind; [apply _|intros x ?].

Lemma createInitPod_stays p o vol :
  name o = vol -> stays (createInitPod (W := W) p o) (of_volume p vol).
Proof.
  intros <-. unfold createInitPod. checked u. checked d. destruct d as [parentDir volumeDir].
  apply launch_exit_stays; [by repeat constructor|done].
Qed.

Lemma createCleanupPod_stays p o vol :
  name o = vol -> stays (createCleanupPod (W := W) p o) (of_volume p vol).
Proof.
  intros <-. unfold createCleanupPod. checked u. checked d. destruct d as [parentDir volumeDir].
  apply launch_exit_stays; [by repeat constructor|done].
Qed.

Lemma createQuotaPod_stays p o vol :
  name o = vol -> stays (createQuotaPod (W := W) p o) (of_volume p vol).
Proof.
  intros <-. unfold createQuotaPod. checked u. checked d. destruct d as [parentDir volumeDir].
  apply stays_lift_bind; [apply _|intros o' Ho'].
  rewrite (resolve_limits_frame _ _ Ho'). apply launch_exit_stays; [by repeat constructor|done].
Qed.

Lemma GetVolumeConfig_stays p d pv pvc vol : stays (GetVolumeConfig (W := W) d pv pvc) (of_volume p vol).
Proof. unfold GetVolumeConfig, StorageClasses_Get. stay. Qed.

#[local] Hint Resolve createInitPod_stays createCleanupPod_stays createQuotaPod_stays
  GetVolumeConfig_stays : go.

Lemma ProvisionHostPath_stays p opts c :
  stays (Provisioner.ProvisionHostPath (W := W) p opts c) (of_volume p (Provisioner.opt_PVName opts)).
Proof.
  unfold Provisioner.ProvisionHostPath, Provisioner.apply_quota, Provisioner.provision_failure. stay.
Qed.

(** Every run of [Provision] and [Delete] has the shape. *)
Lemma Provision_stays p opts :
  Provisioner.NewProvisioner = Ret p ->
  stays (Provisioner.Provision (W := W) p opts) (of_volume p (Provisioner.opt_PVName opts)).
Proof.
  intros Hp. apply NewProvisioner_spec in Hp as (Hg & _).
  unfold Provisioner.Provision, Provisioner.sendEventOrIgnore, Provisioner.provision_failure.
  rewrite Hg. pose proof (ProvisionHostPath_stays p opts). stay.
Qed.

Lemma Delete_stays p pv :
  stays (Provisioner.Delete (W := W) p pv) (of_volume p (Name (pv_Meta pv))).
Proof.
  unfold Provisioner.Delete, Provisioner.DeleteHostPath, Provisioner.wrap_delete,
    Provisioner.sendEventOrIgnore, Provisioner.GetNodeObjectFromLabels, Nodes_List.
  stay.
Qed.

End Code.
