(* ===== verification/ProvisionerSpec.v ===== *)
(** * The contract of the provisioner

    The theorems about [Provision] and [Delete] as the external controller sees them, from the
    runs described in [Hostpath] and [HostpathDelete]: each is stated of a run from one world to
    the next, for every cluster, every order of map iteration and every configuration. *)

From S2P Require Import Prelude GoStrings GoPath KubeApi Builder NodeAffinity Maya Cluster.
From S2P Require Import VolumeConfig HelperPods Provisioner Hostpath HostpathDelete.
From S2P Require HelperHostpath PersistentVolume PodBuilder.
Open Scope string_scope. Open Scope list_scope.

Section Contract.
Context {A : ApiTypes} {Y : Maya} {L : MayaLaws Y} {W : Type} {K : Cluster W}.
Implicit Types p : VolumeConfig.Provisioner (W := W).
Implicit Types pv : PersistentVolume.

(** ** The entries of the configuration that decide the volume *)

(** The keys of the labels that pin a volume to its node. *)
Definition affinity_keys (cs : list Config) : list string :=
  default [k8sNodeLabelKeyHostname] (last_list KeyNodeAffinityLabels cs).

Lemma node_affinity_labels_lookup c cs node k :
  shows c cs ->
  node_affinity_labels c node !! k
  = if decide (k ∈ affinity_keys cs) then Some (GetNodeLabelValue node k) else None.
Proof.
  intros Hc. unfold node_affinity_labels, GetNodeAffinityLabelKeys, affinity_keys.
  rewrite (shows_list _ _ Hc). destruct (last_list KeyNodeAffinityLabels cs) as [keys|]; cbn [default].
  - enough (forall m : gmap string string,
      foldl (fun labels key => <[key := GetNodeLabelValue node key]> labels) m keys !! k
      = if decide (k ∈ keys) then Some (GetNodeLabelValue node k) else m !! k) as H
      by (rewrite H, lookup_empty; done).
    induction keys as [|key keys IH]; intros m; cbn [foldl].
    + by rewrite decide_False by apply not_elem_of_nil.
    + rewrite IH. destruct (decide (k = key)) as [->|Hne].
      * rewrite lookup_insert_eq. rewrite (decide_True (P := key ∈ key :: keys)) by (by left).
        by destruct (decide (key ∈ keys)).
      * rewrite lookup_insert_ne by done.
        destruct (decide (k ∈ keys)), (decide (k ∈ key :: keys)) as [H|H]; try done;
          rewrite elem_of_cons in H; tauto.
  - destruct (decide (k ∈ [k8sNodeLabelKeyHostname])) as [->%list_elem_of_singleton|Hne].
    + by rewrite lookup_insert_eq.
    + rewrite lookup_insert_ne by (intros <-; apply Hne; by left). done.
Qed.

(** C1: the volume that a successful [Provision] returns.  The claim was acceptable; the
    configuration is that of its StorageClass merged over the defaults; the volume has the name
    and the label it should, the reclaim policy of the class, the access modes and the requested
    storage of the claim, file system mode, the directory named after the volume under the base
    path, and an affinity for the labels of the selected node that are not empty. *)
Theorem Provision_volume p opts w w' pv st :
  NewProvisioner = Ret p ->
  Provision p opts w = (w', Ret (pv, st)) ->
  st = ProvisioningFinished /\
  exists node sc sclass cs rp (Ord : MapOrder) labels,
    acceptable opts node /\
    (exists scn, GetStorageClassName (opt_PVC opts) = Some scn /\
      exists l, trace w' = trace w ++ (StorageClassGet scn, AStorageClass sc) :: l) /\
    merged_config (mget_str (Annotations (sc_Meta sc)) CASConfigKey) (defaultConfig p) = Ret cs /\
    opt_StorageClass opts = Some sclass /\ sc_ReclaimPolicy sclass = Some rp /\
    (forall k, labels !! k =
      if decide (k ∈ affinity_keys cs) then Some (GetNodeLabelValue node k) else None) /\
    nonempty_labels labels <> ∅ /\
    pv = {| pv_Meta := ObjectMeta_zero <| Name := opt_PVName opts |>
              <| Labels := Some {[ CASTypeKey := "local-hostpath" ]} |>;
            pv_Capacity := Some {[ ResourceStorage := storage_request (opt_PVC opts) ]};
            pv_Source := {| src_Local := Some
                {| local_Path := Join2 (default "" (cfg_Value <$> last_config KeyPVBasePath cs))
                     (opt_PVName opts);
                   local_FSType := Some "" |};
              src_HostPath := None; src_NFS := None |};
            pv_AccessModes := pvc_AccessModes (opt_PVC opts);
            pv_ReclaimPolicy := rp;
            pv_VolumeMode := Some PersistentVolumeFilesystem;
            pv_NodeAffinity := Some {| Required := Some (one_term (match_expressions labels)) |};
            pv_ClaimRef := None |}.
Proof.
  intros Hp Hrun. destruct (Provision_emits p opts Hp w) as (l & Hl & _ & Ho).
  rewrite Hrun in Hl, Ho. cbn [fst snd] in Hl, Ho. destruct Ho as [-> Ho]. split; [done|].
  destruct Ho as (node & c & l1 & l2 & Ha & Hc & Hs & _ & -> & Hd).
  destruct Hc as (sc & cs & -> & Hscn & Hname & _ & Hm & _ & Hsh).
  destruct Hd as (path & sclass & rp & Ord & li & lx & le & Hpath & Hsc & Hrp & _ & _ & _ & _ & Hb & ->).
  exists node, sc, sclass, cs, rp, Ord, (node_affinity_labels c node).
  split; [done|]. split; [exists (scName c); split; [done|]; eexists; exact Hl|].
  split; [done|]. split; [done|]. split; [done|].
  split; [intros k; by apply node_affinity_labels_lookup|]. split; [apply Hb|].
  unfold the_volume. rewrite Hs. unfold PersistentVolume.local_source.
  unfold GetPath in Hpath. destruct (String.eqb _ _); [done|].
  apply BuildNonRootPath_spec in Hpath as [-> _]. by rewrite (shows_value _ _ Hsh), Hname.
Qed.

(** C10: [Provision] looks at the claim first.  When the claim has a data source, a selector or an
    access mode other than ReadWriteOnce, or when no node with a hostname is selected, it ends
    without a volume and without any call to the cluster; and it asks for a new schedule only
    when no node was selected. *)
Theorem Provision_rejects p opts w :
  NewProvisioner = Ret p ->
  (~ exists node, acceptable opts node) ->
  exists o, Provision p opts w = (w, o) /\
    match o with
    | Ret _ => False
    | Fail (st, _) => st = ProvisioningReschedule <->
        opt_SelectedNode opts = None /\ pvc_DataSource (opt_PVC opts) = None /\
        pvc_Selector (opt_PVC opts) = None /\
        Forall (fun m => m = ReadWriteOnce) (pvc_AccessModes (opt_PVC opts))
    | Panic => exists ds, pvc_DataSource (opt_PVC opts) = Some ds /\ ds_APIGroup ds = None
    end.
Proof.
  intros _ Hn. unfold Provision, mbind, M_bind, lift.
  destruct (check_claim opts) as [node|[st e]|] eqn:Hc.
  - exfalso. apply Hn. exists node. by apply check_claim_Ret.
  - eexists. split; [reflexivity|]. cbn beta iota. by eapply check_claim_Fail.
  - eexists. split; [reflexivity|].
    apply check_claim_Panic, validateVolumeSource_Panic in Hc as (ds & ? & _ & _ & ?). by exists ds.
Qed.

(** C18: a claim with any data source is refused, and the code dereferences the API group of a named
    source that is not a claim: without a group the check panics. *)
Theorem validateVolumeSource_spec pvc :
  (validateVolumeSource pvc = Ret tt <-> pvc_DataSource pvc = None) /\
  (validateVolumeSource pvc = Panic <-> exists ds, pvc_DataSource pvc = Some ds /\
     ds_Name ds <> "" /\ ds_Kind ds <> PVCKind /\ ds_APIGroup ds = None).
Proof.
  split; [apply validateVolumeSource_Ret|apply validateVolumeSource_Panic].
Qed.

(** C17: where a panic comes from.  [Provision] panics only when the client panicked in a request
    that was made, or at one of these nil pointers: the API group of a data source that has a name
    and is not a claim; or, of a claim that is accepted, the name of its StorageClass, its volume
    mode, or, in the options, the StorageClass or its reclaim policy.  So no node being selected is
    an error and not a panic.  [Delete] panics only when the client did, and every error that the
    cluster returns is returned. *)
Theorem provisioner_panics p opts pv w w' :
  NewProvisioner = Ret p ->
  (Provision p opts w = (w', Panic) ->
    (exists l, trace w' = trace w ++ l /\ crashed l) \/
    (exists ds, pvc_DataSource (opt_PVC opts) = Some ds /\ ds_Name ds <> "" /\
       ds_Kind ds <> PVCKind /\ ds_APIGroup ds = None) \/
    (exists node, acceptable opts node /\
      (GetStorageClassName (opt_PVC opts) = None \/ pvc_VolumeMode (opt_PVC opts) = None \/
       opt_StorageClass opts = None \/
       exists sc, opt_StorageClass opts = Some sc /\ sc_ReclaimPolicy sc = None))) /\
  (Delete p pv w = (w', Panic) -> exists l, trace w' = trace w ++ l /\ crashed l).
Proof.
  intros Hp. split; intros Hrun.
  - destruct (Provision_emits p opts Hp w) as (l & Hl & _ & Ho). rewrite Hrun in Hl, Ho.
    destruct Ho as [Hc|[Hv|Ha]]; [left; eauto|right; left|right; right; exact Ha].
    by apply validateVolumeSource_Panic.
  - destruct (Delete_emits p pv w) as (l & Hl & _ & Ho). rewrite Hrun in Hl, Ho. eauto.
Qed.

(** C5: what [Delete] does.  A retained volume is left alone, with no request to the cluster.
    Otherwise a success means that one node with the labels of the volume was found and that the
    cleanup pod ran to completion on the directory of the volume; every error is wrapped with
    the name of the volume. *)
Theorem Delete_result p pv w w' o :
  Delete p pv w = (w', o) ->
  exists l, trace w' = trace w ++ l /\
  match o with
  | Ret _ =>
      retained pv /\ l = [(retained_alert pv, Done)] \/
      ~ retained pv /\ exists l', l = (delete_event pv, Done) :: l' /\ removed p pv l'
  | Fail e => ~ retained pv /\
      exists e', e = Wrapf e' "failed to delete volume %v" [AStr (Name (pv_Meta pv))]
  | Panic => crashed l
  end.
Proof.
  intros Hrun. destruct (Delete_emits p pv w) as (l & Hl & _ & Ho).
  rewrite Hrun in Hl, Ho. by exists l.
Qed.

(** ** The round trip *)

(** A volume as the controller hands it back: the fields that matter are those of the volume
    that was returned, and the volume is not retained. *)
Definition same_volume pv pv' : Prop :=
  pv_Source pv' = pv_Source pv /\ pv_NodeAffinity pv' = pv_NodeAffinity pv /\ ~ retained pv'.

(** The pod of a helper in a trace: it was created, and it succeeded. *)
Definition ran_pod (ns : string) (pod : Pod) (l : Trace) : Prop :=
  exists pre lr post, l = pre ++ lr ++ post /\ runs_pod ns pod lr (Ret tt).

(** The helper that ran, and its pod. *)
Lemma helper_ran p kind o l path q :
  helper_result p kind o (with_directory o) l (Ret tt) ->
  path = Clean q -> IsAbs path = true -> HelperHostpath.path o = path ->
  exists parentDir volumeDir Ord,
    path = parentDir +:+ "/" +:+ volumeDir /\ plain_name volumeDir = true /\
    runs_pod (namespace p) (the_pod Ord (helperImage p) kind parentDir
      (HelperHostpath.cmdsForPath o ++ ["/data/" +:+ volumeDir]) o) l (Ret tt).
Proof.
  intros [(_ & e & He)|(parentDir & volumeDir & cmd & Ord & _ & Hex & Hcmd & Hr)] Hq Hp Ho; [done|].
  rewrite Ho in Hex. apply ExtractNonRootSubPath_spec in Hex as (_ & Hv & Hs & Hpath).
  unfold IsAbs in Hp. subst path. apply Clean_rooted_inv in Hp.
  destruct (Clean_last _ _ _ Hp Hv Hs Hpath) as [Hpl Heq].
  exists parentDir, volumeDir, Ord. split; [done|]. split; [done|].
  apply Ret_inj in Hcmd. subst cmd. by rewrite Join2_data in Hr.
Qed.

Lemma same_dir parent vol parent' vol' :
  has_slash vol = false -> has_slash vol' = false ->
  parent +:+ "/" +:+ vol = parent' +:+ "/" +:+ vol' -> parent = parent' /\ vol = vol'.
Proof.
  intros H H' Heq. apply (f_equal Split) in Heq. rewrite !Split_dir in Heq by done.
  injection Heq as Hp ->. split; [|done]. by apply sapp_inj_r in Hp.
Qed.

(** C2: [Delete] undoes [Provision].  If [Provision] returned a volume with an absolute path and
    later [Delete] of that volume succeeds, then there is one directory [parentDir/volumeDir],
    the path of the volume, with [volumeDir] a plain name, such that [Provision] ran a pod that
    created it and [Delete] ran a pod that removed it: both pods mount [parentDir] at [/data],
    the first runs [mkdir] and the second [rm -rf] on [/data/volumeDir], and both are bound to
    nodes with the same labels. *)
Theorem provision_delete_roundtrip p opts w1 w2 pv st w3 w4 pv' path :
  NewProvisioner = Ret p ->
  Provision p opts w1 = (w2, Ret (pv, st)) ->
  PersistentVolume.GetPath {| PersistentVolume.object := Some pv |} = Ret path ->
  IsAbs path = true ->
  same_volume pv pv' ->
  Delete p pv' w3 = (w4, Ret tt) ->
  exists parentDir volumeDir pod1 pod2 labels l1 l2,
    trace w2 = trace w1 ++ l1 /\ trace w4 = trace w3 ++ l2 /\
    ran_pod (namespace p) pod1 l1 /\ ran_pod (namespace p) pod2 l2 /\
    path = parentDir +:+ "/" +:+ volumeDir /\ plain_name volumeDir = true /\
    c_Command <$> ps_Containers (pod_Spec pod1)
      = [Some ["mkdir"; "-m"; "0777"; "-p"; "/data/" +:+ volumeDir]] /\
    c_Command <$> ps_Containers (pod_Spec pod2) = [Some ["rm"; "-rf"; "/data/" +:+ volumeDir]] /\
    (forall pod, pod = pod1 \/ pod = pod2 ->
      ps_Volumes (pod_Spec pod) = [host_directory "data" parentDir; host_directory "dev" "/dev/"] /\
      exists Ord ls, nonempty_labels ls = labels /\ ps_Affinity (pod_Spec pod)
        = Some {| RequiredDuringScheduling := Some (one_term (@match_expressions Ord ls)) |}).
Proof.
  intros Hp H1 Hpath Habs (Hsrc & Haff & Hret) H2.
  destruct (Provision_emits p opts Hp w1) as (l1 & Hl1 & _ & Ho1). rewrite H1 in Hl1, Ho1.
  destruct Ho1 as [_ (node & c & la & lb & _ & _ & _ & _ & -> & Hd)].
  destruct Hd as (path1 & sc & rp & Ord & li & lx & le & Hget & _ & _ & Hinit & _ & _ & -> & _ & ->).
  destruct (Delete_emits p pv' w3) as (l2 & Hl2 & _ & Ho2). rewrite H2 in Hl2, Ho2.
  destruct Ho2 as [[Hr _]|(_ & l2' & -> & Hrem)]; [done|].
  destruct Hrem as (path2 & labels2 & node2 & lc & Hpath2 & _ & Hlab2 & _ & Hclean & ->).
  assert (path1 = path) as -> by (cbn in Hpath; by injection Hpath).
  assert (path2 = path) as ->.
  { unfold PersistentVolume.GetPath in Hpath2. cbn in Hpath2. rewrite Hsrc in Hpath2.
    cbn in Hpath2. by injection Hpath2. }
  rewrite (PersistentVolume.GetAffinitedNodeLabels_written (Ord := Ord)
    (node_affinity_labels c node)) in Hlab2 by by rewrite Haff.
  injection Hlab2 as <-.
  assert (exists q, path = Clean q) as [q Hq].
  { unfold GetPath in Hget. destruct (String.eqb_spec (TrimSpace (getValue c KeyPVBasePath)) "")
      as [|Hb]; [done|]. apply BuildNonRootPath_spec in Hget as [-> _]. unfold Join2.
    destruct (String.eqb_spec (getValue c KeyPVBasePath) "") as [E|_]; [|eauto].
    rewrite E in Hb. by destruct Hb. }
  destruct (helper_ran p _ _ _ path q Hinit Hq Habs eq_refl) as (parent & vol & O1 & Hpv & Hpl & R1).
  destruct (helper_ran p _ _ _ path q Hclean Hq Habs eq_refl)
    as (parent' & vol' & O2 & Hpv' & Hpl' & R2).
  assert (parent' = parent /\ vol' = vol) as [-> ->].
  { apply same_dir; [by apply plain_name_noslash..|by rewrite <- Hpv, <- Hpv']. }
  eexists parent, vol, _, _, (nonempty_labels (node_affinity_labels c node)), _, _.
  split; [exact Hl1|]. split; [exact Hl2|].
  split; [eexists (la ++ [_]), li, _; split; [|exact R1]; by rewrite <- app_assoc|].
  split; [eexists [_; _; _], lc, []; split; [|exact R2]; by rewrite app_nil_r|].
  split; [exact Hpv|]. split; [done|]. split; [done|]. split; [done|].
  intros pod Hpod. split; [by destruct Hpod as [->| ->]|]. destruct Hpod as [->| ->].
  - exists O1, (node_affinity_labels c node). by split.
  - exists O2, (nonempty_labels (node_affinity_labels c node)). split; [|done].
    unfold nonempty_labels. apply map_filter_id. intros k v Hk.
    by apply map_lookup_filter_Some in Hk as [_ ?].
Qed.

End Contract.
