(* ===== verification/BlockdeviceSpec.v ===== *)
(** * Block device claims: the contract

    What the functions of [HelperBlockdevice] ask of NDM: a claim is created at most once per
    volume, a claim is deleted only after its finalizer was removed, a claim that is never bound
    is given back, and which link of a device is used. *)

From S2P Require Import Prelude GoStrings KubeApi Maya Cluster VolumeConfig HelperBlockdevice.
From S2P Require Provisioner.
Open Scope string_scope. Open Scope list_scope.

(** ** The link of a device *)

(** The first link of a list of links; out of range when there is none. *)
Definition links_of (d : DevLink) : option string := head (dl_Links d).

Lemma by_id_links (ds : list DevLink) (acc : string) :
  Forall (fun d => dl_Links d <> []) ds ->
  foldl (fun acc v => blkPath ← acc;
    if String.eqb (dl_Kind v) "by-id" then first_link v else Ret blkPath) (Ret acc) ds
  = Ret (default acc (last (filter (fun d => dl_Kind d = "by-id") ds) ≫= links_of)).
Proof.
  revert acc. induction ds as [|d ds IH]; intros acc Hne; [done|].
  inversion Hne as [|? ? Hd Hds]; subst. cbn [foldl]. rewrite filter_cons.
  cbn [mbind outcome_bind]. destruct (String.eqb_spec (dl_Kind d) "by-id") as [Hk|Hk].
  - rewrite decide_True by done. destruct (dl_Links d) as [|l ls] eqn:El; [done|].
    assert (first_link d = Ret l) as -> by (unfold first_link; by rewrite El).
    rewrite IH by done. rewrite last_cons. f_equal.
    destruct (last (filter _ ds)) as [d'|] eqn:Elast.
    + assert (d' ∈ ds) as Hin.
      { apply last_Some_elem_of in Elast. by apply list_elem_of_filter in Elast as [_ ?]. }
      rewrite Forall_forall in Hds. specialize (Hds d' Hin). cbn. unfold links_of.
      by destruct (dl_Links d').
    + cbn. unfold links_of. by rewrite El.
  - rewrite decide_False by done. by apply IH.
Qed.

(** The path of a device whose link lists are not empty: the first link of the last entry of
    kind [by-id], or else of the first entry, or else the path of the device. *)
Theorem device_path_spec (bd : BlockDevice) :
  Forall (fun d => dl_Links d <> []) (bd_DevLinks bd) ->
  device_path bd
  = Ret (default (default (bd_Path bd) (head (bd_DevLinks bd) ≫= links_of))
      (last (filter (fun d => dl_Kind d = "by-id") (bd_DevLinks bd)) ≫= links_of)).
Proof.
  intros Hne. unfold device_path. destruct (bd_DevLinks bd) as [|d ds] eqn:E; [done|].
  inversion Hne as [|? ? Hd _]; subst. destruct (dl_Links d) as [|l ls] eqn:El; [done|].
  assert (first_link d = Ret l) as -> by (unfold first_link; by rewrite El).
  cbn [mbind outcome_bind]. rewrite by_id_links by done. cbn [head mbind option_bind].
  unfold links_of at 2. by rewrite El.
Qed.

Section Claims.
Context {A : ApiTypes} {Y : Maya} {W : Type} {K : Cluster W}.
Implicit Types p : Provisioner (W := W).

(** ** Deleting a claim *)

Definition without_finalizer {Y : Maya} (b : BlockDeviceClaim) : BlockDeviceClaim :=
  b <| bdc_Finalizers ::= fun fs => RemoveString fs LocalPVFinalizer |>.

(** The three calls of a deletion, each made only when the one before it succeeded. *)
Inductive deleting (ns name : string) : Trace -> bool -> Prop :=
| claim_unread a : (forall b, a <> ABdc b) -> deleting ns name [(BdcGet ns name, a)] false
| finalizer_kept b a :
    a <> Done ->
    deleting ns name [(BdcGet ns name, ABdc b); (BdcUpdate ns (without_finalizer b), a)] false
| claim_deleted b a :
    deleting ns name [(BdcGet ns name, ABdc b); (BdcUpdate ns (without_finalizer b), Done);
      (BdcDelete ns name, a)] (match a with Done => true | _ => false end).

Lemma deleteBlockDeviceClaim_emits p o :
  emits (deleteBlockDeviceClaim p o) (fun l r =>
    if hasBDC o then deleting (namespace p) (bdcName o) l (is_Ret r) else l = [] /\ r = Ret tt).
Proof.
  unfold deleteBlockDeviceClaim. destruct (hasBDC o); cbn [negb]; [|by apply emits_ret].
  apply emits_bind, emits_on_err. unfold removeFinalizer.
  apply emits_bind, emits_on_err, emits_call. intros [b|e|]; cbn [answer].
  2: { apply emits_throw, emits_throw. by constructor. }
  2: by constructor.
  apply emits_call. intros [[]|e|]; cbn [answer app].
  2: { apply emits_throw. cbn. by constructor. }
  2: by constructor.
  apply emits_on_err, emits_call. intros [[]|e|]; cbn [answer app].
  - apply (claim_deleted _ _ b Done).
  - apply emits_throw. cbn. apply (claim_deleted _ _ b (Refused e)).
  - apply (claim_deleted _ _ b Crashed).
Qed.

(** C21: a claim is deleted only after it was read and updated without the finalizer of the
    provisioner; when either of these is refused, no deletion is requested and an error is
    returned; without a claim nothing is done. *)
Theorem claim_deleted_after_finalizer p o w w' r :
  deleteBlockDeviceClaim p o w = (w', r) ->
  exists l, trace w' = trace w ++ l /\
    (hasBDC o = false -> l = [] /\ r = Ret tt) /\
    (r = Ret tt -> hasBDC o = true -> exists b,
      l = [(BdcGet (namespace p) (bdcName o), ABdc b);
           (BdcUpdate (namespace p) (without_finalizer b), Done);
           (BdcDelete (namespace p) (bdcName o), Done)]) /\
    (forall ns n a, (BdcDelete ns n, a) ∈ l ->
      exists b, l = [(BdcGet ns n, ABdc b); (BdcUpdate ns (without_finalizer b), Done);
                     (BdcDelete ns n, a)]).
Proof.
  intros Hrun. destruct (deleteBlockDeviceClaim_emits p o w) as (l & Hl & Ho).
  rewrite Hrun in Hl, Ho. exists l. cbn [fst snd] in *. split; [done|].
  destruct (hasBDC o).
  - split; [done|]. split.
    + intros -> _. inversion Ho as [| |b a]; subst. exists b. by destruct a.
    + intros ns n a Hin. inversion Ho; subst;
        repeat (apply elem_of_cons in Hin as [Hin|Hin]; [try discriminate|]);
        try by apply elem_of_nil in Hin.
      injection Hin as -> -> ->. eauto.
  - destruct Ho as [-> ->]. split; [done|]. split; [done|]. by intros ? ? ? ?%elem_of_nil.
Qed.

(** ** Creating a claim *)

(** The claim that is asked for: a selector for the node, and one for the device when it is
    given. *)
Definition claim_request p o : outcome error BlockDeviceClaim :=
  let b := bdc_WithBlockVolumeMode (volumeMode o) (bdc_WithFinalizer LocalPVFinalizer
    (bdc_WithCapacity (capacity o) (bdc_WithSelector (nodeAffinityLabels o)
      (bdc_WithName ("bdc-" +:+ name o) (bdc_WithNamespace (namespace p) bdc_NewBuilder))))) in
  bdc_Build (match bdSelectors o with Some _ => bdc_WithSelector (bdSelectors o) b | None => b end).

Definition with_claim o : HelperBlockDeviceOptions := o <| bdcName := "bdc-" +:+ name o |>.

(** The calls of a creation, each made only when the one before it had the answer for it: the claim
    exists already, or it is created; and what they make the function return. *)
Inductive claiming p o : Trace -> outcome error HelperBlockDeviceOptions -> Prop :=
| claim_invalid e : name o = "" \/ nodeHostname o = "" -> claiming p o [] (Fail e)
| claim_found b : name o <> "" -> nodeHostname o <> "" ->
    claiming p o [(BdcGet (namespace p) ("bdc-" +:+ name o), ABdc b)] (Ret (with_claim o))
| claim_get_crashed : claiming p o [(BdcGet (namespace p) ("bdc-" +:+ name o), Crashed)] Panic
| claim_unbuilt e r : is_Ret (claim_request p o) = false -> is_Ret r = false ->
    claiming p o [(BdcGet (namespace p) ("bdc-" +:+ name o), Refused e)] r
| claim_requested e b a r : name o <> "" -> nodeHostname o <> "" ->
    claim_request p o = Ret b ->
    match a with
    | Done => r = Ret (with_claim o)
    | Refused e' => r = Fail (Wrapf e' "failed to create BDC{%v}" [AStr ("bdc-" +:+ name o)])
    | _ => r = Panic
    end ->
    claiming p o [(BdcGet (namespace p) ("bdc-" +:+ name o), Refused e);
                  (BdcCreate (namespace p) b, a)] r.

Lemma createBlockDeviceClaim_emits p o : emits (createBlockDeviceClaim p o) (claiming p o).
Proof.
  unfold createBlockDeviceClaim. apply emits_bind, emits_lift. unfold validate.
  destruct (String.eqb_spec (name o) "") as [|Hn]; [constructor; by left|].
  destruct (String.eqb_spec (nodeHostname o) "") as [|Hh]; [constructor; by right|]. cbn [orb].
  apply emits_bind, emits_attempt, emits_call. intros [b|e|]; cbn [answer app].
  - apply emits_ret. by constructor.
  - apply emits_bind, emits_on_err, emits_lift.
    change (bdc_Build _) with (claim_request p o).
    destruct (claim_request p o) as [b|e'|] eqn:Hb.
    + apply emits_bind, emits_on_err, emits_call. intros [[]|e'|]; cbn [answer app].
      * apply emits_ret. cbn. by eapply claim_requested.
      * apply emits_throw. cbn. by eapply claim_requested.
      * cbn. by eapply claim_requested.
    + apply emits_throw. apply claim_unbuilt; [by rewrite Hb|done].
    + apply claim_unbuilt; [by rewrite Hb|done].
  - constructor.
Qed.

(** What is returned is the options with the name of the claim. *)
Lemma claiming_Ret p o l o' :
  claiming p o l (Ret o') ->
  o' = with_claim o /\
  ((exists b, l = [(BdcGet (namespace p) ("bdc-" +:+ name o), ABdc b)]) \/
   exists e b, claim_request p o = Ret b /\
     l = [(BdcGet (namespace p) ("bdc-" +:+ name o), Refused e);
          (BdcCreate (namespace p) b, Done)]).
Proof.
  inversion 1 as [|b| |e r Hb Hr|e b a r Hn Hh Hb Ha]; subst; [eauto|done|].
  destruct a; try discriminate Ha. injection Ha as ->. eauto 10.
Qed.

(** C23: asking for the claim of a volume that has one already creates nothing, so a repeated
    provisioning uses the same claim; when the claim is missing, one is created, for the node
    labels, the capacity and the selectors of the options. *)
Theorem claim_created_once p o w w' o' :
  createBlockDeviceClaim p o w = (w', Ret o') ->
  o' = o <| bdcName := "bdc-" +:+ name o |> /\
  exists l, trace w' = trace w ++ l /\
    ((exists b, l = [(BdcGet (namespace p) ("bdc-" +:+ name o), ABdc b)]) \/
     exists e b, claim_request p o = Ret b /\
       l = [(BdcGet (namespace p) ("bdc-" +:+ name o), Refused e);
            (BdcCreate (namespace p) b, Done)]).
Proof.
  intros Hrun. destruct (createBlockDeviceClaim_emits p o w) as (l & Hl & Ho).
  rewrite Hrun in Hl, Ho. cbn [fst snd] in *. apply claiming_Ret in Ho as [-> Ho]. eauto.
Qed.

(** ** Waiting for a device *)

Inductive waiting (ns name : string) : nat -> Trace -> outcome error string -> Prop :=
| wait_over : waiting ns name 0 [] (Ret "")
| wait_bound n b : bdc_BlockDeviceName b <> "" ->
    waiting ns name (S n) [(BdcGet ns name, ABdc b)] (Ret (bdc_BlockDeviceName b))
| wait_refused n e e' : waiting ns name (S n) [(BdcGet ns name, Refused e)] (Fail e')
| wait_crashed n : waiting ns name (S n) [(BdcGet ns name, Crashed)] Panic
| wait_again n b l r : bdc_BlockDeviceName b = "" -> waiting ns name n l r ->
    waiting ns name (S n) ((BdcGet ns name, ABdc b) :: (Sleep 5, Done) :: l) r.

Lemma wait_for_device_emits p o n :
  emits (wait_for_device p o n) (waiting (namespace p) (bdcName o) n).
Proof.
  induction n as [|n IH]; cbn [wait_for_device].
  - apply emits_ret. constructor.
  - apply emits_bind, emits_on_err, emits_call. intros [b|e|]; cbn [answer app].
    + destruct (String.eqb_spec (bdc_BlockDeviceName b) "") as [H|H].
      * apply emits_bind, emits_sleep. eapply emits_weaken; [exact IH|].
        intros l r Hl. by constructor.
      * apply emits_ret. by constructor.
    + apply emits_throw. cbn. constructor.
    + constructor.
Qed.

Lemma waiting_over ns nm n l : waiting ns nm n l (Ret "") ->
  l = concat (List.map (fun b => [(BdcGet ns nm, ABdc b); (Sleep 5, Done)])
    (omap (fun c => match c.2 with ABdc b => Some b | _ => None end) l)) /\
  length l = 2 * n.
Proof.
  remember (Ret "") as r eqn:Hr. induction 1 as [|n b H|n e e'|n|n b l r H Hl IH]; try discriminate.
  - done.
  - injection Hr as Hr. by destruct H.
  - destruct (IH Hr) as [Hl' Hn]. cbn. split; [by rewrite <- Hl'|lia].
Qed.

Definition the_claim o : string := if hasBDC o then bdcName o else "bdc-" +:+ name o.

(** After the polls: [found] is what they gave, [rest] the calls that follow. *)
Definition after_waiting p o (found : outcome error string) (rest : Trace)
    (r : outcome error (string * string * HelperBlockDeviceOptions)) : Prop :=
  match found with
  | Ret "" => is_Ret r = false /\ exists b, deleting (namespace p) (the_claim o) rest b
  | Ret device => exists a, rest = [(BdGet (namespace p) device, a)] /\
      match r with
      | Ret (mount, blk, o') => exists bd, a = ABd bd /\ mount = bd_Mountpoint bd /\
          device_path bd = Ret blk /\ bdcName o' = the_claim o
      | _ => True
      end
  | _ => is_Ret r = false /\ rest = []
  end.

Lemma the_claim_nonempty o : the_claim o <> "".
Proof.
  unfold the_claim, hasBDC. by destruct (String.eqb_spec (bdcName o) "").
Qed.

Lemma after_claim_emits p n o o' :
  bdcName o' = the_claim o ->
  emits (bdName ← wait_for_device p o' n;
    if String.eqb bdName "" then
      let err := Errorf "unable to find BD for BDC:%v associated with PV:%v and try to delete BDC"
        [AStr (bdcName o'); AStr (name o')] in
      _ ← deleteBlockDeviceClaim p o'; throw err
    else
      bd ← on_err (Bds_Get (namespace p) bdName) (fun _ =>
        throw (Errorf "unable to find BD:%v for BDC:%v associated with PV:%v"
          [AStr bdName; AStr (bdcName o'); AStr (name o')]));
      blkPath ← lift (device_path bd);
      mret (bd_Mountpoint bd, blkPath, o'))
    (fun l r => exists lw found rest, waiting (namespace p) (the_claim o) n lw found /\
       l = lw ++ rest /\ after_waiting p o found rest r).
Proof.
  intros Ho'. apply emits_bind. eapply emits_weaken; [apply wait_for_device_emits|].
  rewrite Ho'. intros lw [d|e|] Hw.
  2: { exists lw, (Fail e), []. by rewrite app_nil_r. }
  2: { exists lw, Panic, []. by rewrite app_nil_r. }
  destruct (String.eqb_spec d "") as [->|Hd].
  - assert (hasBDC o' = true) as Hh.
    { unfold hasBDC. rewrite Ho'. by rewrite (proj2 (String.eqb_neq _ _) (the_claim_nonempty o)). }
    apply emits_bind. eapply emits_weaken; [apply deleteBlockDeviceClaim_emits|].
    intros ld r. rewrite Hh, Ho'. intros Hdel. destruct r as [[]|e|].
    + apply emits_throw. rewrite app_nil_r. exists lw, (Ret ""), ld. split_and!; eauto.
      by split; [|eauto].
    + exists lw, (Ret ""), ld. split_and!; eauto. by split; [|eauto].
    + exists lw, (Ret ""), ld. split_and!; eauto. by split; [|eauto].
  - assert (forall rest r, (exists a, rest = [(BdGet (namespace p) d, a)] /\
      match r with
      | Ret (mount, blk, o') => exists bd, a = ABd bd /\ mount = bd_Mountpoint bd /\
          device_path bd = Ret blk /\ bdcName o' = the_claim o
      | _ => True
      end) -> exists lw0 found rest0, waiting (namespace p) (the_claim o) n lw0 found /\
        lw ++ rest = lw0 ++ rest0 /\ after_waiting p o found rest0 r) as HQ.
    { intros rest r Hr. exists lw, (Ret d), rest. split_and!; [done|done|]. by destruct d. }
    apply emits_bind, emits_on_err, emits_call. intros [bd|e|]; cbn [answer].
    + apply emits_bind, emits_lift. destruct (device_path bd) as [blk|e|] eqn:Hp.
      * apply emits_ret. apply HQ. eexists. split; [reflexivity|]. eauto.
      * apply HQ. eexists. by split.
      * apply HQ. eexists. by split.
    + apply emits_throw. apply HQ. eexists. by split.
    + apply HQ. eexists. by split.
Qed.

Lemma getBlockDevicePath_emits p n o :
  emits (getBlockDevicePath p n o) (fun l r =>
    (hasBDC o = false /\ exists rc, is_Ret rc = false /\ claiming p o l rc /\ is_Ret r = false) \/
    exists lc lw found rest,
      (hasBDC o = true /\ lc = [] \/ hasBDC o = false /\ claiming p o lc (Ret (with_claim o))) /\
      waiting (namespace p) (the_claim o) n lw found /\
      l = lc ++ lw ++ rest /\ after_waiting p o found rest r).
Proof.
  unfold getBlockDevicePath. apply emits_bind. destruct (hasBDC o) eqn:Hh; cbn [negb].
  - apply emits_ret. eapply emits_weaken; [apply (after_claim_emits p n o o)|].
    + unfold the_claim. by rewrite Hh.
    + intros l r (lw & found & rest & Hw & -> & Hr). right. exists [], lw, found, rest.
      split_and!; [by left|done|done|done].
  - eapply emits_weaken; [apply createBlockDeviceClaim_emits|]. intros lc rc Hc.
    destruct rc as [o'|e|].
    + assert (o' = with_claim o) as -> by (by eapply claiming_Ret).
      eapply emits_weaken; [apply (after_claim_emits p n o (with_claim o))|].
      * unfold the_claim. by rewrite Hh.
      * intros l r (lw & found & rest & Hw & -> & Hr). right. exists lc, lw, found, rest.
        split_and!; [by right|done|done|done].
    + left. split; [done|]. exists (Fail e). eauto.
    + left. split; [done|]. exists Panic. eauto.
Qed.

(** The polls are requests for one claim and pauses of five seconds, at most [n] of each. *)
Lemma waiting_bound ns nm n l r :
  waiting ns nm n l r ->
  (length l <= 2 * n)%nat /\ Forall (fun c => c.1 = BdcGet ns nm \/ c.1 = Sleep 5) l.
Proof.
  induction 1 as [| | | |? ? ? ? ? ? [IH ?]]; (split; [cbn; lia|]);
    repeat (apply Forall_cons; split; [cbn; tauto|]); by try constructor.
Qed.

(** C22: the path of a volume on a device.  The claim of the volume is the one of the options, or it
    is looked for and created when it is missing; when that fails these are the only calls.  Then
    the claim is polled, at most [n] times, with five seconds between two polls.  A success reads
    the device that the claim was bound to.  When no poll sees a device, which takes all the [n]
    polls, the result is an error, and the claim is given back, whether it was found or created:
    the calls that follow are those of its deletion, and no others. *)
Theorem device_or_claim_given_back p n o w w' r :
  getBlockDevicePath p n o w = (w', r) ->
  exists l, trace w' = trace w ++ l /\
    ((hasBDC o = false /\ is_Ret r = false /\
      exists rc, is_Ret rc = false /\ claiming p o l rc) \/
     exists lc lw found rest,
      l = lc ++ lw ++ rest /\
      (hasBDC o = true /\ lc = [] \/ hasBDC o = false /\ claiming p o lc (Ret (with_claim o))) /\
      waiting (namespace p) (the_claim o) n lw found /\
      (length lw <= 2 * n)%nat /\
      Forall (fun c => c.1 = BdcGet (namespace p) (the_claim o) \/ c.1 = Sleep 5) lw /\
      (found = Ret "" -> length lw = 2 * n)%nat /\
      after_waiting p o found rest r).
Proof.
  intros Hrun. destruct (getBlockDevicePath_emits p n o w) as (l & Hl & Ho).
  rewrite Hrun in Hl, Ho. cbn [fst snd] in *. exists l. split; [done|].
  destruct Ho as [(Hh & rc & Hrc & Hc & Hr)|(lc & lw & found & rest & Hlc & Hw & -> & Hr)].
  - left. eauto.
  - right. exists lc, lw, found, rest. pose proof (waiting_bound _ _ _ _ _ Hw) as [Hn Hf].
    split_and!; try done. intros ->. by apply (waiting_over _ _ _ _ Hw).
Qed.

(** C24: the number of polls that the package allows is zero, since the variable that holds it is
    never assigned: so no device is ever found, whatever NDM answers, and [ProvisionBlockDevice]
    never returns a volume. *)
Theorem no_device_is_found p o opts c w :
  is_Ret (getBlockDevicePath p WaitForBDTimeoutCounts o w).2 = false /\
  is_Ret (Provisioner.ProvisionBlockDevice WaitForBDTimeoutCounts p opts c w).2 = false.
Proof.
  assert (forall o w, is_Ret (getBlockDevicePath p WaitForBDTimeoutCounts o w).2 = false) as H.
  { clear o w. intros o w. destruct (getBlockDevicePath_emits p WaitForBDTimeoutCounts o w)
      as (l & _ & [(_ & _ & _ & _ & Hr)|(lc & lw & found & rest & _ & Hw & _ & Hr)]); [done|].
    inversion Hw; subst. apply Hr. }
  split; [done|]. unfold Provisioner.ProvisionBlockDevice, mbind, M_bind, lift, on_err.
  destruct (deref (Provisioner.opt_SelectedNode opts)); [|done..].
  destruct (_ <? _)%nat; [done|]. destruct (negb _); [done|].
  destruct (deref _); [|done..]. cbn beta iota.
  match goal with |- context [getBlockDevicePath p WaitForBDTimeoutCounts ?o ?w] =>
    specialize (H o w); destruct (getBlockDevicePath p WaitForBDTimeoutCounts o w) as [w' [x|e|]]
  end; done.
Qed.

End Claims.
