(* ===== verification/Session.v ===== *)
(** * The provisioner over time

    The controller calls [Provision] and [Delete] in any order and any number of times, and the
    cluster changes between the calls as it likes: the sessions of a provisioner are the runs of
    that step relation, and what is stated here are its invariants. *)

From S2P Require Import Prelude GoStrings KubeApi Maya Cluster VolumeConfig HelperPods.
From S2P Require Import Hostpath HostpathDelete ProvisionerSpec.
From S2P Require Provisioner.
Open Scope string_scope. Open Scope list_scope.

Section Session.
Context {A : ApiTypes} {Y : Maya} {L : MayaLaws Y} {W : Type} {K : Cluster W}.

(** What the controller asks for. *)
Inductive request :=
| ToProvision (opts : Provisioner.ProvisionOptions)
| ToDelete (pv : PersistentVolume).

(** The world after a request is served, however that ends. *)
Definition serve (p : VolumeConfig.Provisioner (W := W)) (r : request) (w : World W) : World W :=
  match r with
  | ToProvision opts => (Provisioner.Provision p opts w).1
  | ToDelete pv => (Provisioner.Delete p pv w).1
  end.

(** The worlds a session can reach, with the requests that were served, the last one last. *)
Inductive reaches (p : VolumeConfig.Provisioner (W := W)) (w0 : World W) :
    list request -> World W -> Prop :=
| session_start : reaches p w0 [] w0
| session_serve rs r w : reaches p w0 rs w -> reaches p w0 (rs ++ [r]) (serve p r w)
| session_change rs w s : reaches p w0 rs w -> reaches p w0 rs (MkWorld (trace w) s).

(** The trace of a session is that of its requests, one after the other. *)
Lemma reaches_trace p w0 rs w (Q : request -> Trace -> Prop) :
  (forall r w, exists l, trace (serve p r w) = trace w ++ l /\ Q r l) ->
  reaches p w0 rs w ->
  exists ls, trace w = trace w0 ++ concat ls /\ Forall2 Q rs ls.
Proof.
  intros Hserve. induction 1 as [|rs r w _ (ls & Ht & Hf)|rs w s _ (ls & Ht & Hf)].
  - exists []. cbn. rewrite app_nil_r. split; [done|constructor].
  - destruct (Hserve r w) as (l & Hl & Hq). exists (ls ++ [l]).
    rewrite Hl, Ht, concat_app. cbn. rewrite app_nil_r, app_assoc. split; [done|].
    apply Forall2_app; [done|by repeat constructor].
  - exists ls. done.
Qed.

Lemma serve_tidy p r w :
  Provisioner.NewProvisioner = Ret p ->
  exists l, trace (serve p r w) = trace w ++ l /\ pods_tidy l.
Proof.
  intros Hp. destruct r as [opts|pv].
  - destruct (Provision_emits p opts Hp w) as (l & Hl & Hno & _). by exists l.
  - destruct (Delete_emits p pv w) as (l & Hl & Hno & _). by exists l.
Qed.

(** C3: helper pods over a session.  Whatever is asked for, whatever the cluster answers and
    however each call ends: once the calls have returned, the deletion of every helper pod that was
    created has been asked for, and no pod is ever deleted that the provisioner did not create. *)
Theorem no_helper_pod_left p w0 rs w :
  Provisioner.NewProvisioner = Ret p -> reaches p w0 rs w ->
  exists l, trace w = trace w0 ++ l /\ pods_tidy l.
Proof.
  intros Hp Hr.
  destruct (reaches_trace p w0 rs w (fun _ => pods_tidy)) as (ls & Ht & Hf); [|done|].
  { intros r w'. by apply serve_tidy. }
  exists (concat ls). split; [done|]. clear Ht Hr.
  induction Hf as [|r l rs ls Hl _ IH]; [apply pods_tidy_nil|by apply pods_tidy_app].
Qed.

End Session.
