(* ===== verification/PodTyping.v ===== *)
(** * The objects that the provisioner makes are well formed

    What the API server requires of a pod and of a local volume, as boolean judgements: names and
    sources that are present, mounts that refer to volumes of the pod, mount paths and names that
    are distinct, selectors that are not empty.  Every pod that is ever submitted, by whatever
    sequence of requests, and every volume that is returned passes them. *)

From S2P Require Import Prelude GoStrings KubeApi NodeAffinity Maya Cluster VolumeConfig.
From S2P Require Import HelperPods Hostpath HostpathDelete ProvisionerSpec Session HelperTrace.
From S2P Require PodBuilder Provisioner PersistentVolume.
Open Scope string_scope. Open Scope list_scope.

Definition given (s : string) : bool := negb (String.eqb s "").

Definition distinct (l : list string) : bool := bool_decide (NoDup l).

Definition present {X} (o : option X) : bool := match o with Some _ => true | None => false end.

(** Exactly one of the alternatives is set. *)
Definition exactly_one (l : list bool) : bool := (length (List.filter id l) =? 1)%nat.

(** ** Judgements *)

Section Judgements.
Context {A : ApiTypes}.

(** A requirement [key in (values)]. *)
Definition wf_requirement (r : NodeSelectorRequirement) : bool :=
  String.eqb (nsr_Operator r) NodeSelectorOpIn && negb (bool_decide (nsr_Values r = []))
  && forallb given (nsr_Values r).

Definition wf_selector (s : NodeSelector) : bool :=
  negb (bool_decide (NodeSelectorTerms s = []))
  && forallb (fun t => negb (length (MatchExpressions t) =? 0)%nat
       && forallb wf_requirement (MatchExpressions t)
       && distinct (nsr_Key <$> MatchExpressions t)) (NodeSelectorTerms s).

(** A toleration of any value has no value. *)
Definition wf_toleration (t : Toleration) : bool :=
  String.eqb (tol_Operator t) TolerationOpExists && String.eqb (tol_Value t) ""
  || String.eqb (tol_Operator t) TolerationOpEqual && given (tol_Value t).

Definition wf_volume (v : Volume) : bool :=
  let s := vol_Source v in
  given (vol_Name v)
  && exactly_one [present (vs_HostPath s); present (vs_EmptyDir s); present (vs_Secret s);
                  present (vs_ConfigMap s); present (vs_PVC s)]
  && match vs_HostPath s with Some h => given (hp_Path h) | None => true end.

(** A mount in a pod that declares the volumes [vols]. *)
Definition wf_mount (vols : list string) (m : VolumeMount) : bool :=
  bool_decide (vm_Name m ∈ vols) && given (vm_MountPath m).

Definition wf_container (vols : list string) (c : Container) : bool :=
  let mounts := slice_list (c_VolumeMounts c) in
  given (c_Name c) && given (c_Image c) && negb (slice_len (c_Command c) =? 0)%nat
  && forallb (wf_mount vols) mounts && distinct (vm_MountPath <$> mounts).

Definition wf_pod (p : Pod) : bool :=
  let s := pod_Spec p in
  let vols := vol_Name <$> ps_Volumes s in
  given (Name (pod_Meta p))
  && bool_decide (ps_RestartPolicy s ∈ ["Always"; "OnFailure"; "Never"])
  && given (ps_ServiceAccountName s)
  && forallb wf_volume (ps_Volumes s) && distinct vols
  && negb (length (ps_Containers s) =? 0)%nat
  && forallb (wf_container vols) (ps_Containers s) && distinct (c_Name <$> ps_Containers s)
  && match ps_Affinity s with
     | Some a => match RequiredDuringScheduling a with Some n => wf_selector n | None => true end
     | None => true
     end
  && forallb wf_toleration (ps_Tolerations s).

(** A local volume: it is bound to nodes, and has one source. *)
Definition wf_persistent_volume (v : PersistentVolume) : bool :=
  let s := pv_Source v in
  given (Name (pv_Meta v))
  && present (mget (pv_Capacity v) ResourceStorage)
  && exactly_one [present (src_Local s); present (src_HostPath s); present (src_NFS s)]
  && match src_Local s with
     | Some l => given (local_Path l)
         && match pv_NodeAffinity v with
            | Some a => match Required a with Some n => wf_selector n | None => false end
            | None => false
            end
     | None => true
     end
  && negb (length (pv_AccessModes v) =? 0)%nat
  && forallb (fun m => bool_decide (m ∈ ["ReadWriteOnce"; "ReadOnlyMany"; "ReadWriteMany"]))
       (pv_AccessModes v)
  && match pv_VolumeMode v with
     | Some m => bool_decide (m ∈ ["Block"; "Filesystem"])
     | None => true
     end.

(** ** Selectors and tolerations *)

Lemma wf_one_term {O : MapOrder} labels :
  nonempty_labels labels <> ∅ -> wf_selector (one_term (match_expressions labels)) = true.
Proof.
  intros Hne. unfold wf_selector, one_term. cbn. rewrite andb_true_r.
  destruct (match_expressions labels) as [|r rs] eqn:E.
  { exfalso. by apply Hne, (match_expressions_nil (O := O)). }
  rewrite <- E. apply andb_true_iff. split.
  - rewrite E. cbn [length Nat.eqb negb andb]. rewrite <- E.
    apply forallb_Forall_true, Forall_forall. intros r' Hr.
    apply elem_match_expressions in Hr as (k & v & _ & Hv & ->). unfold wf_requirement, given. cbn.
    by rewrite (proj2 (String.eqb_neq _ _) Hv).
  - apply bool_decide_eq_true, match_expressions_keys_NoDup.
Qed.

Lemma wf_toleration_for t : wf_toleration (PodBuilder.toleration_for t) = true.
Proof. destruct t as [k v e]. by destruct v. Qed.

Lemma given_true s : s <> "" -> given s = true.
Proof. intros H. unfold given. by rewrite (proj2 (String.eqb_neq _ _) H). Qed.

(** ** Helper pods *)

Lemma wf_host_directory vname dir :
  vname <> "" -> dir <> "" -> wf_volume (host_directory vname dir) = true.
Proof. intros Hn Hd. unfold wf_volume. cbn. by rewrite !given_true. Qed.

Lemma wf_the_container img kind cmd :
  img <> "" -> cmd <> [] -> wf_container ["data"; "dev"] (the_container img kind cmd) = true.
Proof.
  intros Hi Hc. unfold wf_container. cbn -[String.append forallb].
  rewrite !given_true by done. by destruct cmd.
Qed.

Lemma wf_the_pod (Ord : MapOrder) img kind parentDir cmd o :
  pod_buildable img parentDir cmd o = true -> wf_pod (the_pod Ord img kind parentDir cmd o) = true.
Proof.
  unfold pod_buildable. intros H. bool_to_prop.
  unfold wf_pod. cbn -[wf_selector String.append PodBuilder.toleration_for wf_volume wf_container
    bool_decide].
  rewrite !wf_host_directory, wf_the_container, wf_one_term by done.
  rewrite !given_true by (done || by destruct kind).
  apply forallb_forall. intros t Ht. apply in_map_iff in Ht as (t' & <- & _).
  apply wf_toleration_for.
Qed.

(** ** Volumes *)

Lemma wf_the_volume (Ord : MapOrder) opts stgType rp path labels :
  volume_buildable opts path labels ->
  Forall (fun m => m = ReadWriteOnce) (pvc_AccessModes (Provisioner.opt_PVC opts)) ->
  wf_persistent_volume (the_volume Ord opts stgType rp path labels) = true.
Proof.
  intros (Hn & Hm & Hp & Hl) Hrwo. unfold wf_persistent_volume.
  cbn -[wf_selector bool_decide mget]. rewrite wf_one_term, !given_true by done.
  unfold mget. cbn [mbind option_bind]. rewrite lookup_insert_eq. cbn [present andb].
  destruct (pvc_AccessModes (Provisioner.opt_PVC opts)) as [|m ms]; [done|].
  cbn [length Nat.eqb negb andb]. rewrite andb_true_r.
  apply forallb_Forall_true. eapply Forall_impl; [exact Hrwo|]. by intros ? ->.
Qed.

End Judgements.

(** ** What is submitted and returned *)

Section WellFormed.
Context {A : ApiTypes} {Y : Maya} {L : MayaLaws Y} {W : Type} {K : Cluster W}.
Implicit Types p : VolumeConfig.Provisioner (W := W).

Lemma helper_pod_wf img vol pod : helper_pod img vol pod -> wf_pod pod = true.
Proof. intros (kind & parent & cmd & Ord & o & _ & _ & Hok & ->). by apply wf_the_pod. Qed.

(** The pods that a trace submits are pods of its helpers. *)
Lemma helper_trace_submits ns img vol l ns' pod a :
  helper_trace ns img vol l -> (PodCreate ns' pod, a) ∈ l -> helper_pod img vol pod.
Proof.
  induction 1 as [|c l Hc _ IH|pod' lr r l Hp Hr _ IH]; intros Hin.
  - by apply elem_of_nil in Hin.
  - apply elem_of_cons in Hin as [<-|Hin]; [done|by apply IH].
  - apply elem_of_app in Hin as [Hin|Hin]; [|by apply IH].
    by rewrite (runs_pod_create _ _ _ _ _ _ _ Hr Hin).
Qed.

(** The volume that a request is about. *)
Definition request_volume (r : request) : string :=
  match r with
  | ToProvision opts => Provisioner.opt_PVName opts
  | ToDelete pv => Name (pv_Meta pv)
  end.

Lemma serve_helper_trace p r w :
  Provisioner.NewProvisioner = Ret p ->
  exists l, trace (serve p r w) = trace w ++ l /\
    helper_trace (namespace p) (helperImage p) (request_volume r) l.
Proof.
  intros Hp. destruct r as [opts|pv].
  - destruct (Provision_stays p opts Hp w) as (l & ? & ?). by exists l.
  - destruct (Delete_stays p pv w) as (l & ? & ?). by exists l.
Qed.

(** C9: the objects are well formed.  Every pod that a session submits, on whatever requests and
    whatever the cluster answers, passes the checks of a pod: it is named, its containers have an
    image and a command, each mount refers to a declared volume with one source, the mount paths
    are distinct, and its node selector has a term with requirements on distinct keys, each with a
    value.  Every volume that [Provision] returns passes those of a local volume: one source with
    a path, a capacity, known access modes, and the node affinity that local volumes need. *)
Theorem objects_well_formed p :
  Provisioner.NewProvisioner = Ret p ->
  (forall w0 rs w, reaches p w0 rs w ->
    exists l, trace w = trace w0 ++ l /\
      forall ns pod a, (PodCreate ns pod, a) ∈ l -> wf_pod pod = true) /\
  (forall opts w w' pv st, Provisioner.Provision p opts w = (w', Ret (pv, st)) ->
    wf_persistent_volume pv = true).
Proof.
  intros Hp. split.
  - intros w0 rs w Hr.
    destruct (reaches_trace p w0 rs w (fun r => helper_trace (namespace p) (helperImage p)
      (request_volume r))) as (ls & Ht & Hf); [|done|].
    { intros r w'. by apply serve_helper_trace. }
    exists (concat ls). split; [done|]. intros ns pod a Hin. clear Ht Hr.
    induction Hf as [|r l rs ls Hl _ IH]; [by apply elem_of_nil in Hin|].
    apply elem_of_app in Hin as [Hin|Hin]; [|by apply IH].
    by eapply helper_pod_wf, helper_trace_submits.
  - intros opts w w' pv st Hrun. destruct (Provision_emits p opts Hp w) as (l & _ & _ & Ho).
    rewrite Hrun in Ho. destruct Ho as [_ (node & c & l1 & l2 & Ha & _ & _ & _ & _ & Hd)].
    destruct Hd as (path & sc & rp & Ord & li & lx & le & _ & _ & _ & _ & _ & _ & _ & Hb & ->).
    by apply wf_the_volume, Ha.
Qed.

End WellFormed.
