(* ===== verification/Interleaving.v ===== *)
(** * Volumes served at the same time

    The controller serves several volumes at once: each worker runs its own requests, one after
    the other, and the calls of all workers reach the cluster in some interleaving.  What a worker
    does between two of its calls is no business of the others, and what they do to the cluster
    meanwhile is a change of its state, so the calls of each worker are those of a session in some
    cluster; which one may differ from worker to worker.  The theorem is about every interleaving
    of the calls of such sessions. *)

From S2P Require Import Prelude GoStrings KubeApi Maya Cluster VolumeConfig HelperPods.
From S2P Require Import HelperTrace Session PodTyping.
From S2P Require Provisioner.
Open Scope string_scope. Open Scope list_scope.

(** ** Interleavings of lists *)

Section Interleavings.
Context {X : Type}.
Implicit Types (x : X) (l k : list X) (ls : list (list X)).

(** [l] is an interleaving of the lists [ls]: each step takes the head of one of them. *)
Inductive interleaved : list (list X) -> list X -> Prop :=
| interleaved_done ls : Forall (fun k => k = []) ls -> interleaved ls []
| interleaved_step ls i x k l :
    ls !! i = Some (x :: k) -> interleaved (<[i := k]> ls) l -> interleaved ls (x :: l).

Context (f : X -> Prop) {Hf : forall x, Decision (f x)}.

Lemma interleaved_filter ls l :
  interleaved ls l -> interleaved (filter f <$> ls) (filter f l).
Proof.
  induction 1 as [ls Hls|ls i x k l Hi _ IH].
  - constructor. apply Forall_fmap. eapply Forall_impl; [exact Hls|]. by intros ? ->.
  - rewrite list_fmap_insert in IH. rewrite filter_cons. case_decide as Hx.
    + apply (interleaved_step _ i x (filter f k)); [|done].
      rewrite list_lookup_fmap, Hi. cbn [fmap option_fmap option_map].
      by rewrite filter_cons, decide_True.
    + rewrite list_insert_id in IH; [done|]. rewrite list_lookup_fmap, Hi.
      cbn [fmap option_fmap option_map]. by rewrite filter_cons, decide_False.
Qed.

Lemma interleaved_elem ls l i k x :
  interleaved ls l -> ls !! i = Some k -> x ∈ k -> x ∈ l.
Proof.
  intros H. revert k. induction H as [ls Hls|ls j y k' l Hj _ IH]; intros k Hi Hx.
  - rewrite Forall_lookup in Hls. rewrite (Hls _ _ Hi) in Hx. by apply elem_of_nil in Hx.
  - destruct (decide (i = j)) as [->|Hne].
    + rewrite Hi in Hj. injection Hj as ->. apply elem_of_cons in Hx as [->|Hx]; [by left|right].
      apply (IH k'); [|done]. apply list_lookup_insert_eq. by eapply lookup_lt_Some.
    + right. apply (IH k); [|done]. by rewrite list_lookup_insert_ne.
Qed.

(** When all the lists but one are empty, the interleaving is that one. *)
Lemma interleaved_alone ls l i k :
  interleaved ls l -> ls !! i = Some k ->
  (forall j k', ls !! j = Some k' -> j <> i -> k' = []) -> l = k.
Proof.
  intros H. revert k. induction H as [ls Hls|ls j x k' l Hj _ IH]; intros k Hi Hne.
  - rewrite Forall_lookup in Hls. symmetry. by eapply Hls.
  - destruct (decide (j = i)) as [->|Hji].
    + rewrite Hi in Hj. injection Hj as ->. f_equal. apply IH.
      * apply list_lookup_insert_eq. by eapply lookup_lt_Some.
      * intros j k Hk Hj. rewrite list_lookup_insert_ne in Hk by done. by eapply Hne.
    + by specialize (Hne _ _ Hj Hji).
Qed.

Lemma interleaved_nothing ls l : interleaved ls l -> Forall (fun k => k = []) ls -> l = [].
Proof.
  intros [ls' _|ls' i x k l' Hi _] Hls; [done|].
  rewrite Forall_lookup in Hls. by specialize (Hls _ _ Hi).
Qed.

End Interleavings.

(** ** The life of a pod *)

Section Lives.
Context {A : ApiTypes}.

(** A call about the pod of a name. *)
Definition about (ns nm : string) (c : Call * Answer) : Prop :=
  match c.1 with
  | PodCreate ns' pod => ns' = ns /\ Name (pod_Meta pod) = nm
  | PodGet ns' nm' | PodDelete ns' nm' => ns' = ns /\ nm' = nm
  | _ => False
  end.
#[global] Instance about_dec ns nm c : Decision (about ns nm c).
Proof. destruct c as [[] ?]; cbn; apply _. Defined.

Definition calls_about (ns nm : string) (l : list (Call * Answer)) : list (Call * Answer) :=
  filter (about ns nm) l.

(** A pod that is not created is left at that; one that is created is polled, at most
    [CmdTimeoutCounts] times, and deleted. *)
Inductive pod_life (ns nm : string) : Trace -> Prop :=
| life_refused pod a :
    Name (pod_Meta pod) = nm -> (forall hp, a <> APod hp) -> pod_life ns nm [(PodCreate ns pod, a)]
| life_whole pod hp polls a :
    Name (pod_Meta pod) = nm -> (length polls <= HelperHostpath.CmdTimeoutCounts)%nat ->
    Forall (fun c => c.1 = PodGet ns nm) polls ->
    pod_life ns nm ((PodCreate ns pod, APod hp) :: polls ++ [(PodDelete ns nm, a)]).

(** The API server creates a pod under the name that it is asked for. *)
Definition names_kept (l : Trace) : Prop :=
  forall ns pod hp, (PodCreate ns pod, APod hp) ∈ l -> Name (pod_Meta hp) = Name (pod_Meta pod).

Lemma calls_about_in ns nm c l :
  about ns nm c -> calls_about ns nm (c :: l) = c :: calls_about ns nm l.
Proof. intros H. unfold calls_about. by rewrite filter_cons, decide_True. Qed.

Lemma calls_about_out ns nm c l :
  ~ about ns nm c -> calls_about ns nm (c :: l) = calls_about ns nm l.
Proof. intros H. unfold calls_about. by rewrite filter_cons, decide_False. Qed.

Lemma calls_about_app ns nm l l' :
  calls_about ns nm (l ++ l') = calls_about ns nm l ++ calls_about ns nm l'.
Proof. apply filter_app. Qed.

Lemma calls_about_polls ns nm polls (n : nat) r :
  polling ns nm n polls r ->
  (length (calls_about ns nm polls) <= n)%nat /\
  Forall (fun c => c.1 = PodGet ns nm) (calls_about ns nm polls).
Proof.
  induction 1 as [|n pod H|n e|n|n pod l o Hp Hl [IH1 IH2]]; rewrite ?calls_about_in by by split.
  1-4: split; cbn; [lia|by repeat constructor].
  rewrite calls_about_out by by intros [].
  split; [by apply le_n_S|by constructor].
Qed.

Lemma calls_about_run_other ns ns' nm pod l r :
  (forall hp, (PodCreate ns pod, APod hp) ∈ l -> Name (pod_Meta hp) = Name (pod_Meta pod)) ->
  runs_pod ns pod l r -> ~ (ns = ns' /\ Name (pod_Meta pod) = nm) -> calls_about ns' nm l = [].
Proof.
  intros Hk Hr Hne. apply filter_none.
  inversion Hr as [e| |hp l' o (polls & r' & a & -> & Hp & _)]; subst; constructor; try done;
    try by constructor.
  assert (Name (pod_Meta hp) = Name (pod_Meta pod)) as Hn by (apply Hk; by left).
  apply Forall_app. rewrite Hn in *. split; [|by repeat constructor].
  eapply Forall_impl; [by eapply polling_calls|].
  intros [c a'] [Hc|Hc]; cbn in Hc; subst c; [done|by intros ?].
Qed.

Lemma calls_about_run_own ns nm pod l r :
  (forall hp, (PodCreate ns pod, APod hp) ∈ l -> Name (pod_Meta hp) = Name (pod_Meta pod)) ->
  runs_pod ns pod l r -> Name (pod_Meta pod) = nm -> pod_life ns nm (calls_about ns nm l).
Proof.
  intros Hk Hr Hn. inversion Hr as [e| |hp l' o (polls & r' & a & -> & Hp & _)]; subst.
  1-2: rewrite calls_about_in by (by split); by constructor.
  rewrite (Hk hp) in * by (by left).
  rewrite calls_about_in, calls_about_app by (by split).
  destruct (calls_about_polls _ _ _ _ _ Hp) as [Hlen Hget].
  rewrite (calls_about_in _ _ (PodDelete _ _, a)) by by split. by constructor.
Qed.

End Lives.

(** ** Workers *)

Section Workers.
Context {A : ApiTypes} {Y : Maya} {L : MayaLaws Y}.

(** The calls about one pod in the trace of a volume: nothing, or lives of a pod of that volume. *)
Lemma helper_trace_lives {W : Type} {K : Cluster W} ns img vol l ns' nm :
  helper_trace ns img vol l -> names_kept l ->
  exists lives, calls_about ns' nm l = concat lives /\ Forall (pod_life ns' nm) lives /\
    (lives <> [] -> exists kind, kind ∈ helper_kinds /\ nm = helper_name kind vol).
Proof.
  induction 1 as [|c l Hc _ IH|pod lr r l Hp Hr _ IH]; intros Hk.
  - by exists [].
  - destruct IH as (lives & Heq & Hf & Hn); [intros ns0 pod hp Hin; apply (Hk ns0); by right|].
    exists lives. rewrite calls_about_out; [done|].
    destruct c as [[] ?]; first [discriminate Hc|by intros []].
  - destruct IH as (lives & Heq & Hf & Hn);
      [intros ns0 pod' hp Hin; apply (Hk ns0), elem_of_app; by right|].
    assert (forall hp, (PodCreate ns pod, APod hp) ∈ lr ->
      Name (pod_Meta hp) = Name (pod_Meta pod)) as Hk'
      by (intros hp Hin; apply (Hk ns), elem_of_app; by left).
    rewrite calls_about_app, Heq.
    destruct (decide (ns = ns' /\ Name (pod_Meta pod) = nm)) as [[<- Hnm]|Hne].
    + exists (calls_about ns nm lr :: lives). split; [done|]. split.
      * constructor; [by eapply calls_about_run_own|done].
      * intros _. destruct (helper_pod_name _ _ _ Hp) as (kind & Hkind & Hname).
        exists kind. by rewrite <- Hname.
    + exists lives. by rewrite (calls_about_run_other ns ns' nm pod lr r).
Qed.

(** The calls of a worker: those of a session on the volumes [vols], in some cluster. *)
Definition worker (vols : list string) (l : Trace) : Prop :=
  exists (W : Type) (K : Cluster W) (p : VolumeConfig.Provisioner (W := W)) w0 rs w,
    Provisioner.NewProvisioner = Ret p /\ reaches p w0 rs w /\ trace w = trace w0 ++ l /\
    Forall (fun r => request_volume r ∈ vols) rs.

(** The namespace of the helper pods. *)
Lemma provisioner_namespace {W : Type} {K : Cluster W} (p : VolumeConfig.Provisioner (W := W)) :
  Provisioner.NewProvisioner = Ret p -> namespace p = Provisioner.getOpenEBSNamespace.
Proof. by intros (_ & -> & _)%Hostpath.NewProvisioner_spec. Qed.

Lemma worker_lives vols l ns nm :
  worker vols l -> names_kept l ->
  exists lives, calls_about ns nm l = concat lives /\ Forall (pod_life ns nm) lives /\
    (lives <> [] -> exists kind vol, kind ∈ helper_kinds /\ vol ∈ vols /\ nm = helper_name kind vol).
Proof.
  intros (W & K & p & w0 & rs & w & Hp & Hr & Hl & Hv) Hk.
  destruct (reaches_trace p w0 rs w (fun r => helper_trace (namespace p) (helperImage p)
    (request_volume r))) as (ls & Ht & Hf); [|done|].
  { intros r w'. by apply serve_helper_trace. }
  rewrite Hl in Ht. apply app_inv_head in Ht. subst l. clear Hr Hl.
  induction Hf as [|r l rs ls Hl _ IH]; [by exists []|].
  apply Forall_cons in Hv as [Hrv Hv]. cbn [concat] in *.
  destruct IH as (lives & Heq & Hlf & Hn);
    [done|intros ns0 pod hp Hin; apply (Hk ns0), elem_of_app; by right|].
  destruct (helper_trace_lives _ _ _ _ ns nm Hl) as (lives' & Heq' & Hlf' & Hn');
    [intros ns0 pod hp Hin; apply (Hk ns0), elem_of_app; by left|].
  exists (lives' ++ lives). rewrite calls_about_app, Heq, Heq', concat_app.
  split; [done|]. split; [by apply Forall_app|]. intros Hne.
  destruct lives' as [|x lives']; [by apply Hn|].
  destruct Hn' as (kind & ? & ?); [done|]. eauto 10.
Qed.

(** C4: workers do not meet on a pod.  Let workers serve disjoint sets of volumes at the same time,
    and let their calls be interleaved in any way.  Then all the calls about any one pod name,
    taken from the whole interleaving, are a sequence of whole lives of a pod, one after the
    other: a creation that fails, or a creation, at most [CmdTimeoutCounts] polls, and the
    deletion.  So no worker creates, polls or deletes a pod while another one of that name is in
    use, whoever created it. *)
Theorem workers_do_not_meet (ws : list (list string * list (Call * Answer))) l ns nm :
  Forall (fun w => worker w.1 w.2) ws ->
  (forall i j wi wj vol, ws !! i = Some wi -> ws !! j = Some wj ->
    vol ∈ wi.1 -> vol ∈ wj.1 -> i = j) ->
  interleaved ws.*2 l -> names_kept l ->
  exists lives, calls_about ns nm l = concat lives /\ Forall (pod_life ns nm) lives.
Proof.
  intros Hw Hdis Hil Hk.
  assert (forall i w, ws !! i = Some w -> exists lives,
    calls_about ns nm w.2 = concat lives /\ Forall (pod_life ns nm) lives /\
    (lives <> [] -> exists kind vol, kind ∈ helper_kinds /\ vol ∈ w.1 /\ nm = helper_name kind vol))
    as Hlives.
  { intros i w Hi. rewrite Forall_lookup in Hw. apply worker_lives; [by eapply Hw|].
    intros ns0 pod hp Hin. apply (Hk ns0). eapply (interleaved_elem _ _ i w.2); [exact Hil| |done].
    by rewrite list_lookup_fmap, Hi. }
  apply (interleaved_filter (about ns nm)) in Hil.
  destruct (decide (Forall (fun k => k = []) (filter (about ns nm) <$> ws.*2))) as [Hall|Hall].
  { exists []. split; [exact (interleaved_nothing _ _ Hil Hall)|done]. }
  apply not_Forall_Exists, Exists_exists in Hall as (k & Hin & Hne); [|apply _].
  apply list_elem_of_lookup in Hin as (i & Hi). pose proof Hi as Hi'.
  rewrite !list_lookup_fmap in Hi'. destruct (ws !! i) as [w|] eqn:Ew; [|done].
  cbn in Hi'. injection Hi' as <-.
  destruct (Hlives i w Ew) as (lives & Heq & Hf & Hn). exists lives. rewrite <- Heq.
  split; [|done]. eapply interleaved_alone; [exact Hil|exact Hi|].
  intros j k' Hj Hji. rewrite !list_lookup_fmap in Hj.
  destruct (ws !! j) as [w'|] eqn:Ew'; [|done]. cbn in Hj. injection Hj as <-.
  destruct (Hlives j w' Ew') as (lives' & Heq' & _ & Hn').
  change (calls_about ns nm w'.2 = []). rewrite Heq'.
  destruct lives' as [|x lives']; [done|]. exfalso. apply Hji.
  destruct Hn' as (kind' & vol' & Hk' & Hv' & Hnm'); [done|].
  destruct Hn as (kind & vol & Hkk & Hv & Hnm); [by intros ->|].
  rewrite Hnm in Hnm'. apply helper_name_inj in Hnm'; [|done..]. subst vol'. by eapply Hdis.
Qed.

End Workers.
