(* ===== verification/Progress.v ===== *)
(** * Requests complete

    The other theorems say what holds when a request returns; here it is that requests return, with
    a success, when nothing stands against them: the input is in order, and the cluster is live,
    which means that it answers and that a helper pod succeeds within [d] seconds of its
    creation.  Both assumptions are stated in full, the second as a class. *)

From S2P Require Import Prelude GoStrings GoPath KubeApi Builder NodeAffinity Maya Cluster.
From S2P Require Import VolumeConfig HelperHostpath HelperPods Hostpath HostpathDelete.
From S2P Require Import ProvisionerSpec.
From S2P Require Provisioner PodBuilder PersistentVolume.
Open Scope string_scope. Open Scope list_scope.

(** A cluster that answers without panics, and on which helper pods succeed within [d] seconds.  [healthy] are
    the states in which it does, [needs] the seconds after which a pod will have succeeded,
    [class_at] the StorageClasses and [node_at] the node that alone has some labels. *)
Class Live {A : ApiTypes} (W : Type) {K : Cluster W} (d : nat) := {
  healthy : W -> Prop;
  needs : W -> string -> string -> option nat;
  class_at : string -> option StorageClass;
  node_at : string -> option Node;
  live_create ns pod s : healthy s ->
    exists s' hp n, pods_create ns pod s = (s', Ret hp) /\ healthy s' /\
      needs s' ns (Name (pod_Meta hp)) = Some n /\ (n <= d)%nat;
  live_get ns nm n s : healthy s -> needs s ns nm = Some n ->
    exists s' pod, pods_get ns nm s = (s', Ret pod) /\ healthy s' /\ needs s' ns nm = Some n /\
      (n = 0 -> pod_Phase pod = PodSucceeded);
  live_second ns nm n s : healthy s -> needs s ns nm = Some (S n) ->
    exists m, healthy (time_passes 1 s) /\ needs (time_passes 1 s) ns nm = Some m /\ (m <= n)%nat;
  live_delete ns nm s : healthy s ->
    healthy (pods_delete ns nm s).1 /\ (pods_delete ns nm s).2 <> Panic;
  live_order s : healthy s -> healthy (next_order s).1;
  live_class nm sc s : healthy s -> class_at nm = Some sc ->
    exists s', storageclasses_get nm s = (s', Ret sc) /\ healthy s';
  live_node sel node s : healthy s -> node_at sel = Some node ->
    exists s', nodes_list sel s = (s', Ret [node]) /\ healthy s' }.

Section Progress.
Context {A : ApiTypes} {Y : Maya} {L : MayaLaws Y} {W : Type} {K : Cluster W}.
Context {d : nat} {V : Live W d}.
Implicit Types p : VolumeConfig.Provisioner (W := W).
Implicit Types w : World W.

(** ** Programs that complete *)

Definition is_sleep (c : Call * Answer) : bool := match c.1 with Sleep _ => true | _ => false end.

(** The seconds slept in a trace: the code sleeps one second at a time. *)
Definition slept (l : Trace) : nat := count is_sleep l.

Lemma slept_app l l' : slept (l ++ l') = (slept l + slept l')%nat.
Proof. unfold slept. induction l as [|c l IH]; [done|]. cbn. rewrite IH. lia. Qed.

(** From a healthy cluster, [m] returns, after at most [n] seconds of sleep, a value in [Q], and
    leaves the cluster healthy. *)
Definition completes {E T} (m : Prog (W := W) E T) (n : nat) (Q : T -> Prop) : Prop :=
  forall w, healthy (ext w) ->
  exists w' a l, m w = (w', Ret a) /\ healthy (ext w') /\ trace w' = trace w ++ l /\
    (slept l <= n)%nat /\ Q a.

Lemma completes_weaken {E T} (m : Prog (W := W) E T) n n' (Q Q' : T -> Prop) :
  completes m n Q -> (n <= n')%nat -> (forall a, Q a -> Q' a) -> completes m n' Q'.
Proof.
  intros Hm Hn HQ w Hw. destruct (Hm w Hw) as (w' & a & l & ? & ? & ? & ? & ?).
  exists w', a, l. split_and!; auto. lia.
Qed.

Lemma completes_ret {E T} (a : T) (Q : T -> Prop) : Q a -> completes (E := E) (mret a) 0 Q.
Proof. intros HQ w Hw. exists w, a, []. rewrite app_nil_r. by split_and!. Qed.

Lemma completes_lift {E T} (a : T) (Q : T -> Prop) : Q a -> completes (E := E) (lift (Ret a)) 0 Q.
Proof. apply completes_ret. Qed.

Lemma completes_tell {E} c :
  is_sleep (c, Done) = false -> completes (E := E) (tell c) 0 (fun _ => True).
Proof.
  intros Hc w Hw. exists (MkWorld (trace w ++ [(c, Done)]) (ext w)), tt, [(c, Done)].
  split_and!; try done. unfold slept. cbn [count]. by rewrite Hc.
Qed.

Lemma completes_call {T} c f (op : M W error T) (Q : T -> Prop) :
  is_sleep (c, Done) = false ->
  (forall s, healthy s -> exists s' a, op s = (s', Ret a) /\ healthy s' /\ Q a) ->
  completes (call c f op) 0 Q.
Proof.
  intros Hc Hop w Hw. destruct (Hop _ Hw) as (s' & a & He & Hs & HQ).
  exists (MkWorld (trace w ++ [(c, f a)]) s'), a, [(c, f a)]. unfold call. rewrite He.
  split_and!; try done. unfold slept, is_sleep in *. cbn [count fst] in *. by rewrite Hc.
Qed.

Lemma completes_map_order {E} : completes (E := E) map_order 0 (fun _ => True).
Proof.
  intros w Hw. unfold map_order. pose proof (live_order (d := d) _ Hw) as Ho.
  destruct (next_order (ext w)) as [s o]. exists (MkWorld (trace w) s), o, [].
  rewrite app_nil_r. by split_and!.
Qed.

Lemma completes_bind {E T U} (m : Prog (W := W) E T) (f : T -> Prog (W := W) E U) n n' P Q :
  completes m n P -> (forall a, P a -> completes (f a) n' Q) -> completes (m ≫= f) (n + n') Q.
Proof.
  intros Hm Hf w Hw. destruct (Hm w Hw) as (w1 & a & l & He & Hw1 & Hl & Hn & HP).
  destruct (Hf a HP w1 Hw1) as (w2 & b & l' & He' & Hw2 & Hl' & Hn' & HQ).
  exists w2, b, (l ++ l'). unfold mbind, M_bind. rewrite He, He', Hl', Hl, app_assoc, slept_app.
  split_and!; try done. lia.
Qed.

Lemma completes_on_err {E F T} (m : Prog (W := W) E T) (h : E -> Prog (W := W) F T) n Q :
  completes m n Q -> completes (on_err m h) n Q.
Proof.
  intros Hm w Hw. destruct (Hm w Hw) as (w' & a & l & He & Hr). exists w', a, l.
  unfold on_err. by rewrite He.
Qed.

Lemma completes_assoc {E T U V'} (m : Prog (W := W) E T) (f : T -> Prog (W := W) E U)
    (g : U -> Prog (W := W) E V') n Q :
  completes (a ← m; b ← f a; g b) n Q -> completes ((m ≫= f) ≫= g) n Q.
Proof.
  intros H w Hw. destruct (H w Hw) as (w' & a & l & He & Hr). exists w', a, l.
  split; [|done]. rewrite <- He. unfold mbind, M_bind. by destruct (m w) as [? []].
Qed.

(** A check that passes. *)
Lemma completes_check {E T U} (o : outcome E T) (f : T -> Prog (W := W) E U) a n Q :
  o = Ret a -> completes (f a) n Q -> completes (lift o ≫= f) n Q.
Proof. intros ->. done. Qed.

Lemma completes_check_err {E F T U} (o : outcome E T) (h : E -> Prog (W := W) F T)
    (f : T -> Prog (W := W) F U) a n Q :
  o = Ret a -> completes (f a) n Q -> completes (on_err (lift o) h ≫= f) n Q.
Proof. intros ->. done. Qed.

Lemma completes_tell_then {E U} c (f : unit -> Prog (W := W) E U) n Q :
  is_sleep (c, Done) = false -> completes (f tt) n Q -> completes (tell c ≫= f) n Q.
Proof.
  intros Hc Hf. apply (completes_bind _ _ 0 n (fun _ => True)); [by apply completes_tell|].
  by intros [] _.
Qed.

(** ** Helper pods *)

(** Polling a pod that still needs [n] seconds, with polls left. *)
Lemma wait_for_pod_completes ns nm fuel n w :
  (n < fuel)%nat -> healthy (ext w) -> needs (d := d) (ext w) ns nm = Some n ->
  exists w' l, wait_for_pod ns nm fuel w = (w', Ret true) /\ healthy (ext w') /\
    trace w' = trace w ++ l /\ (slept l <= n)%nat.
Proof.
  revert n w. induction fuel as [|fuel IH]; intros n w Hn Hw Hp; [lia|]. cbn [wait_for_pod].
  destruct (live_get _ _ _ _ Hw Hp) as (s1 & pod & He & Hs1 & Hp1 & Hz).
  unfold Pods_Get, call, mbind, M_bind. rewrite He.
  destruct (String.eqb_spec (pod_Phase pod) PodSucceeded) as [Hs|Hs].
  { eexists _, [_]. split; [reflexivity|]. split_and!; [exact Hs1|reflexivity|cbn; lia]. }
  destruct n as [|n]; [by destruct Hs, Hz|].
  destruct (live_second _ _ _ _ Hs1 Hp1) as (m & Hs2 & Hp2 & Hm). unfold sleep.
  edestruct (IH m (MkWorld ((trace w ++ [(PodGet ns nm, APod pod)]) ++ [(Sleep 1, Done)])
    (time_passes 1 s1))) as (w' & l & Hr & Hw' & Hl & Hsl);
    [lia|exact Hs2|exact Hp2|].
  eexists w', (_ :: (Sleep 1, Done) :: l). split; [exact Hr|]. split; [done|]. split.
  - rewrite Hl. cbn [trace answer]. by rewrite <- !app_assoc.
  - unfold slept in *. cbn. lia.
Qed.

Context (Hd : (d < CmdTimeoutCounts)%nat).

(** A pod that is created succeeds and is deleted. *)
Lemma pod_completes p pod :
  completes (hp ← Pods_Create (namespace p) pod; exitPod p hp) d (fun _ => True).
Proof.
  intros w Hw. unfold Pods_Create, exitPod, deferred.
  destruct (live_create (namespace p) pod _ Hw) as (s1 & hp & n & He & Hs1 & Hp & Hn).
  unfold call at 1, mbind at 1, M_bind at 1. rewrite He. cbn beta iota.
  edestruct (wait_for_pod_completes (namespace p) (Name (pod_Meta hp)) CmdTimeoutCounts n
    (MkWorld (trace w ++ [(PodCreate (namespace p) pod, APod hp)]) s1))
    as (w2 & l & Hr & Hw2 & Hl & Hsl); [lia|exact Hs1|exact Hp|].
  cbn [answer]. unfold mbind, M_bind. rewrite Hr. cbn beta iota.
  pose proof (live_delete (d := d) (namespace p) (Name (pod_Meta hp)) _ Hw2) as [Hdel Hnp].
  unfold Pods_Delete, call. cbn [negb]. unfold mret, M_ret. cbn beta iota.
  destruct (pods_delete _ _ (ext w2)) as [s3 o]. cbn [fst snd] in Hdel, Hnp.
  exists (MkWorld (trace w2 ++ [(PodDelete (namespace p) (Name (pod_Meta hp)),
    answer (fun _ => Done) o)]) s3), tt, ([(PodCreate (namespace p) pod, APod hp)] ++ l ++
    [(PodDelete (namespace p) (Name (pod_Meta hp)), answer (fun _ => Done) o)]).
  split; [by destruct o|]. split; [exact Hdel|]. split.
  - cbn [trace fst]. rewrite Hl. cbn [trace]. by rewrite <- !app_assoc.
  - split; [|done]. rewrite !slept_app. unfold slept in *. cbn. lia.
Qed.

Lemma launch_exit_completes p config :
  podName config <> "" -> taints config = selectedNodeTaints (pOpts config) ->
  pod_buildable (helperImage p) (parentDir config) (cmdsForPath (pOpts config)) (pOpts config)
    = true ->
  completes (pod ← launchPod p config; exitPod p pod) d (fun _ => True).
Proof.
  intros Hname Ht Hok. apply completes_assoc.
  apply (completes_bind _ _ 0 d (fun _ => True)); [apply completes_map_order|intros Ord _].
  apply completes_assoc. eapply completes_check; [|apply pod_completes].
  rewrite PodBuilder.pod_Build_run.
  by rewrite (proj2 (helper_pod_errs Ord (helperImage p) config Hname) Hok).
Qed.

(** A path that has a parent and a last element is not empty. *)
Lemma extract_nonempty q dirs : extract_volume_dir q = Ret dirs -> q <> "".
Proof.
  destruct dirs as [parent vol]. intros (_ & _ & _ & Hp)%ExtractNonRootSubPath_spec ->.
  destruct Hp as [Hp|Hp], parent; discriminate Hp.
Qed.

(** What a helper pod needs of its options. *)
Record helper_ready p (o : HelperPodOptions) : Prop := {
  hr_name : name o <> "";
  hr_path : exists dirs, extract_volume_dir (path o) = Ret dirs;
  hr_labels : nonempty_labels (default ∅ (nodeAffinityLabels o)) <> ∅;
  hr_account : serviceAccountName o <> "";
  hr_image : helperImage p <> "" }.

Lemma helper_ready_validate p o : helper_ready p o -> validate o = Ret tt.
Proof.
  intros [Hn (dirs & Hx) Hl Hs _]. unfold validate. apply extract_nonempty in Hx.
  rewrite !(proj2 (String.eqb_neq _ _)) by done. rewrite mlen_empty.
  destruct (nodeAffinityLabels o) as [labels|]; [|by destruct Hl].
  unfold no_entries. rewrite bool_decide_eq_false_2; [done|].
  intros E. cbn in E. subst labels. by destruct Hl.
Qed.

Lemma helper_ready_buildable p o parent vol cmd :
  helper_ready p o -> extract_volume_dir (path o) = Ret (parent, vol) -> cmd <> [] ->
  pod_buildable (helperImage p) parent cmd o = true.
Proof.
  intros [_ _ Hl Hs Hi] Hx Hc. apply ExtractNonRootSubPath_spec in Hx as (Hp & _).
  unfold pod_buildable. rewrite !(proj2 (String.eqb_neq _ _)) by done.
  by rewrite !bool_decide_eq_false_2.
Qed.

Lemma createInitPod_completes p o :
  helper_ready p o -> completes (createInitPod (W := W) p o) d (fun _ => True).
Proof.
  intros Hr. pose proof (hr_path _ _ Hr) as [[parent vol] Hx]. unfold createInitPod.
  eapply completes_check; [by eapply helper_ready_validate|].
  eapply completes_check; [exact Hx|]. apply launch_exit_completes; [done..|].
  apply (helper_ready_buildable p o parent vol); [done..|]. cbn. by destruct (cmdsForPath o).
Qed.

Lemma createCleanupPod_completes p o :
  helper_ready p o -> completes (createCleanupPod (W := W) p o) d (fun _ => True).
Proof.
  intros Hr. pose proof (hr_path _ _ Hr) as [[parent vol] Hx]. unfold createCleanupPod.
  eapply completes_check; [by eapply helper_ready_validate|].
  eapply completes_check; [exact Hx|]. apply launch_exit_completes; [done..|].
  apply (helper_ready_buildable p o parent vol); [done..|]. cbn. by destruct (cmdsForPath o).
Qed.

Lemma createQuotaPod_completes p o o' :
  helper_ready p o -> resolve_limits o = Ret o' ->
  completes (createQuotaPod (W := W) p o) d (fun _ => True).
Proof.
  intros Hr Hlim. pose proof (hr_path _ _ Hr) as [[parent vol] Hx]. unfold createQuotaPod.
  eapply completes_check; [by eapply helper_ready_validate|].
  eapply completes_check; [exact Hx|]. eapply completes_check; [exact Hlim|].
  rewrite (resolve_limits_frame _ _ Hlim). apply launch_exit_completes; [done..|].
  by apply (helper_ready_buildable p o parent vol).
Qed.

(** ** The configuration *)

Lemma GetVolumeConfig_completes defaults pv pvc scn sc cs :
  GetStorageClassName pvc = Some scn -> class_at (d := d) scn = Some sc ->
  merged_config (mget_str (Annotations (sc_Meta sc)) CASConfigKey) defaults = Ret cs ->
  Forall (fun e => config_key e <> "") cs ->
  completes (GetVolumeConfig (W := W) defaults pv pvc) 0 (fun c => shows c cs /\ pvName c = pv).
Proof.
  intros Hscn Hsc Hm Hne. unfold GetVolumeConfig. rewrite Hscn.
  eapply completes_check; [reflexivity|].
  apply (completes_bind _ _ 0 0 (fun x => x = sc)).
  { apply completes_on_err, completes_call; [done|]. intros s Hs.
    destruct (live_class _ _ _ Hs Hsc) as (s' & He & Hs'). by exists s', sc. }
  intros ? ->. apply (completes_bind _ _ 0 0 (fun x => x = cs)).
  { unfold merged_config in Hm. destruct (len (TrimSpace _) =? 0)%nat; cbn [negb].
    - apply Ret_inj in Hm as ->. by apply completes_ret.
    - unfold mbind, outcome_bind in Hm. destruct (UnMarshallToConfig _) as [es| |]; [|done..].
      apply Ret_inj in Hm as <-. eapply completes_check_err; [reflexivity|].
      by apply completes_ret. }
  intros ? ->. destruct (ConfigToMap_spec cs Hne) as (mo & -> & Ho).
  destruct (dataConfigToMap_spec cs) as (md & -> & Hdm).
  destruct (listConfigToMap_spec cs) as (ml & -> & Hl).
  do 3 (eapply completes_check_err; [reflexivity|]).
  apply completes_ret. split; [by apply maps_show|done].
Qed.

(** ** Requests in order *)

(** The text of an entry, and whether it is switched on. *)
Definition entry_value (cs : list Config) (key : string) : string :=
  default "" (cfg_Value <$> last_config key cs).

Definition entry_on (cs : list Config) (key : string) : Prop :=
  ParseBool (TrimSpace (default "" (cfg_Enabled <$> last_config key cs))) = Some true.

(** The limits of a quota can be resolved for the storage that is requested. *)
Definition limits_fit (cs : list Config) (key : string) (storage : Z) : Prop :=
  forall o, softLimitGrace o = mget_str (last_data key cs) KeyQuotaSoftLimit ->
    hardLimitGrace o = mget_str (last_data key cs) KeyQuotaHardLimit ->
    pvcStorage o = storage -> is_Ret (resolve_limits o) = true.

(** A request that nothing stands against: the claim is acceptable and complete, the entries [cs]
    of its configuration ask for a host directory [path] that is not directly under the root, the
    node has one of the labels that are to pin the volume, and the limits of the quotas that are
    switched on make sense. *)
Record in_order p (opts : Provisioner.ProvisionOptions) (node : Node) (cs : list Config)
    (path : string) : Prop := {
  io_claim : acceptable opts node;
  io_mode : exists m, pvc_VolumeMode (Provisioner.opt_PVC opts) = Some m /\
    m <> PersistentVolumeBlock;
  io_class : exists sc rp, Provisioner.opt_StorageClass opts = Some sc /\
    sc_ReclaimPolicy sc = Some rp;
  io_name : Provisioner.opt_PVName opts <> "";
  io_modes : pvc_AccessModes (Provisioner.opt_PVC opts) <> [];
  io_type : TrimSpace (entry_value cs KeyPVStorageType) = "" \/
    entry_value cs KeyPVStorageType = "hostpath";
  io_base : TrimSpace (entry_value cs KeyPVBasePath) <> "";
  io_path : forall fmt args, BuildNonRootPath (entry_value cs KeyPVBasePath)
    (Provisioner.opt_PVName opts) fmt args = Ret path;
  io_node : exists key, key ∈ affinity_keys cs /\ GetNodeLabelValue node key <> "";
  io_limits : forall key, key ∈ [KeyXFSQuota; KeyEXT4Quota] -> entry_on cs key ->
    limits_fit cs key (Quantity_Value (Provisioner.storage_request (Provisioner.opt_PVC opts)));
  io_account : Provisioner.getOpenEBSServiceAccountName <> "";
  io_image : helperImage p <> "" }.

Section InOrder.
Context (p : VolumeConfig.Provisioner (W := W)) (opts : Provisioner.ProvisionOptions) (node : Node).
Context (cs : list Config) (path : string) (c : VolumeConfig).
Context (Hio : in_order p opts node cs path) (Hsh : shows c cs).
Context (Hname : pvName c = Provisioner.opt_PVName opts).

Let podOpts : HelperPodOptions :=
  Provisioner.init_pod_options (Provisioner.opt_PVName opts) path
    (Provisioner.node_affinity_labels c node) node.

Lemma in_order_type : GetStorageType c = "hostpath".
Proof using Hio Hsh.
  unfold GetStorageType. rewrite (shows_value _ _ Hsh).
  destruct (io_type _ _ _ _ _ Hio) as [E|E]; unfold entry_value in E; rewrite E; done.
Qed.

Lemma in_order_path : GetPath c = Ret path.
Proof using Hio Hsh Hname.
  unfold GetPath. rewrite (shows_value _ _ Hsh), Hname. fold (entry_value cs KeyPVBasePath).
  rewrite (proj2 (String.eqb_neq _ _) (io_base _ _ _ _ _ Hio)). apply (io_path _ _ _ _ _ Hio).
Qed.

Lemma in_order_labels : nonempty_labels (Provisioner.node_affinity_labels c node) <> ∅.
Proof using Hio Hsh.
  destruct (io_node _ _ _ _ _ Hio) as (key & Hkey & Hv). intros E.
  assert (nonempty_labels (Provisioner.node_affinity_labels c node) !! key
    = Some (GetNodeLabelValue node key)) as Hk.
  { apply map_lookup_filter_Some. split; [|done].
    by rewrite (node_affinity_labels_lookup _ _ _ _ Hsh), decide_True. }
  by rewrite E in Hk.
Qed.

Lemma in_order_ready : helper_ready p podOpts.
Proof using Hio Hsh L.
  split; cbn.
  - apply Hio.
  - destruct (BuildNonRootPath_spec _ _ "" [] _ (io_path _ _ _ _ _ Hio "" [])) as [_ Hx]. apply Hx.
  - apply in_order_labels.
  - apply Hio.
  - apply Hio.
Qed.

Lemma quota_completes key (on : bool) :
  key ∈ [KeyXFSQuota; KeyEXT4Quota] -> (on = true -> entry_on cs key) ->
  completes (if on then Provisioner.apply_quota p opts c podOpts key else mret tt) d
    (fun _ => True).
Proof using Hio Hsh L Hd.
  intros Hkey Hon. destruct on.
  - unfold Provisioner.apply_quota. set (o := Provisioner.quota_pod_options _ _ _ _).
    assert (is_Ret (resolve_limits o) = true) as Hlim.
    { apply (io_limits _ _ _ _ _ Hio key Hkey); [by apply Hon|..|done];
        apply (shows_field _ _ Hsh). }
    destruct (resolve_limits o) as [o'| |] eqn:Ho; [|done..].
    apply (completes_weaken _ (d + 0) d (fun _ => True) _); [|lia|done].
    apply (completes_bind _ _ d 0 (fun _ => True)).
    + apply completes_on_err. apply (createQuotaPod_completes p o o'); [|done].
      by destruct in_order_ready; split.
    + intros [] _. by apply completes_tell.
  - eapply completes_weaken; [by apply (completes_ret tt (fun _ => True))|lia|done].
Qed.

Lemma quota_switch key :
  ParseBool (TrimSpace (getEnabled c key)) = Some true -> entry_on cs key.
Proof using Hsh. unfold entry_on. by rewrite (shows_enabled _ _ Hsh). Qed.

Lemma ProvisionHostPath_completes :
  completes (Provisioner.ProvisionHostPath p opts c) (d + (d + (d + 0)))
    (fun r => r.2 = Provisioner.ProvisioningFinished).
Proof using Hio Hsh Hname L Hd.
  unfold Provisioner.ProvisionHostPath.
  eapply completes_check; [by rewrite (on_node _ _ (io_claim _ _ _ _ _ Hio))|].
  eapply completes_check_err; [exact in_order_path|]. fold podOpts.
  eapply completes_bind.
  { apply completes_on_err, createInitPod_completes, in_order_ready. }
  intros [] _. eapply completes_bind.
  { apply quota_completes; [by left|]. unfold IsXfsQuotaEnabled. intros H. apply quota_switch.
    destruct (ParseBool _); [by subst|done]. }
  intros [] _. eapply completes_bind.
  { apply quota_completes; [right; by left|]. unfold IsExt4QuotaEnabled. intros H.
    apply quota_switch.
    destruct (ParseBool _); [by subst|done]. }
  intros [] _. destruct (io_class _ _ _ _ _ Hio) as (sc & rp & Hsc & Hrp).
  eapply completes_check; [by rewrite Hsc|]. eapply completes_check; [by rewrite Hrp|].
  apply (completes_bind _ _ 0 0 (fun _ => True)); [apply completes_map_order|intros Ord _].
  pose proof (hostpath_volume_build Ord opts (GetStorageType c) rp path
    (Provisioner.node_affinity_labels c node)) as Hb.
  destruct (PersistentVolume.Build _) as [pv|e|]; [| |done].
  - eapply completes_check_err; [reflexivity|]. apply completes_tell_then; [done|].
    by apply completes_ret.
  - destruct Hb. split_and!; [apply Hio|apply Hio| |apply in_order_labels].
    destruct (hr_path _ _ in_order_ready) as [dirs Hx]. by apply (extract_nonempty _ dirs).
Qed.

End InOrder.

(** C7: a request in order completes.  On a live cluster, on which helper pods succeed within [d]
    seconds, fewer than the polls of the code: when the claim is acceptable and complete, its
    StorageClass exists and its entries ask for a directory that is not directly under the root
    and for limits that make sense, and the node has a label to pin the volume by, [Provision]
    returns a volume, within [3 * d] seconds of sleep. *)
Theorem Provision_completes p opts node scn sc cs path w :
  Provisioner.NewProvisioner = Ret p ->
  GetStorageClassName (Provisioner.opt_PVC opts) = Some scn -> class_at (d := d) scn = Some sc ->
  merged_config (mget_str (Annotations (sc_Meta sc)) CASConfigKey) (defaultConfig p) = Ret cs ->
  Forall (fun e => config_key e <> "") cs ->
  in_order p opts node cs path -> healthy (ext w) ->
  exists w' pv l,
    Provisioner.Provision p opts w = (w', Ret (pv, Provisioner.ProvisioningFinished)) /\
    trace w' = trace w ++ l /\ (slept l <= 3 * d)%nat /\ healthy (ext w').
Proof.
  intros Hp Hscn Hsc Hm Hne Hio Hw.
  assert (completes (Provisioner.Provision p opts) (0 + (d + (d + (d + 0))))
    (fun r => r.2 = Provisioner.ProvisioningFinished)) as H.
  { apply NewProvisioner_spec in Hp as (Hg & _). unfold Provisioner.Provision. rewrite Hg.
    eapply completes_check; [by apply check_claim_Ret, Hio|].
    eapply completes_bind; [by apply completes_on_err; eapply GetVolumeConfig_completes|].
    intros c [Hsh Hname]. apply completes_tell_then; [done|].
    destruct (io_mode _ _ _ _ _ Hio) as (m & Hmode & Hblock).
    eapply completes_check; [by rewrite Hmode|].
    rewrite (in_order_type _ _ _ _ _ _ Hio Hsh), (proj2 (String.eqb_neq _ _) Hblock).
    by eapply ProvisionHostPath_completes. }
  destruct (H w Hw) as (w' & [pv st] & l & Hrun & Hw' & Hl & Hn & Hst). cbn in Hst. subst st.
  exists w', pv, l. split_and!; [done..| |done]. lia.
Qed.

(** A volume that can be removed: it is not retained, it is a directory [path] with a parent, and it
    is pinned by labels, of which one is not empty, that one node has. *)
Record removable p pv (path : string) (labels : gmap string string) (node : Node) : Prop := {
  rm_retained : ~ retained pv;
  rm_name : Name (pv_Meta pv) <> "";
  rm_path : PersistentVolume.GetPath {| PersistentVolume.object := Some pv |} = Ret path;
  rm_dirs : exists dirs, extract_volume_dir path = Ret dirs;
  rm_labels : PersistentVolume.GetAffinitedNodeLabels {| PersistentVolume.object := Some pv |}
    = Ret (Some labels);
  rm_nonempty : nonempty_labels labels <> ∅;
  rm_node : node_at (d := d) (labels_Set_String labels) = Some node;
  rm_account : Provisioner.getOpenEBSServiceAccountName <> "";
  rm_image : helperImage p <> "" }.

(** C8: a deletion completes.  On such a cluster, when a volume can be removed, [Delete] returns
    without an error, within [d] seconds of sleep. *)
Theorem Delete_completes p pv path labels node w :
  removable p pv path labels node -> healthy (ext w) ->
  exists w' l, Provisioner.Delete p pv w = (w', Ret tt) /\ trace w' = trace w ++ l /\
    (slept l <= d)%nat /\ healthy (ext w').
Proof using L Hd.
  intros [Hr Hn Hpath Hx Hlab Hne Hnode Hsa Him] Hw.
  assert (completes (Provisioner.Delete p pv) (0 + d) (fun _ => True)) as H.
  { unfold Provisioner.Delete. apply completes_on_err.
    rewrite (proj2 (String.eqb_neq _ _) Hr). cbn [negb].
    apply completes_tell_then; [done|]. apply completes_on_err. unfold Provisioner.DeleteHostPath.
    apply completes_on_err. eapply completes_check; [exact Hpath|].
    destruct Hx as [dirs Hx]. rewrite (proj2 (String.eqb_neq _ _) (extract_nonempty _ _ Hx)).
    eapply completes_check; [exact Hlab|].
    rewrite mlen_empty. unfold no_entries. rewrite bool_decide_eq_false_2 by (by cbn; intros ->).
    apply completes_tell_then; [done|]. apply (completes_bind _ _ 0 d (fun x => x = node)).
    { unfold Provisioner.GetNodeObjectFromLabels. apply (completes_bind _ _ 0 0 (fun x => x = [node])).
      - apply completes_on_err, completes_call; [done|]. intros s Hs.
        destruct (live_node _ _ _ Hs Hnode) as (s' & He & Hs'). by exists s', [node].
      - intros ? ->. by apply completes_ret. }
    intros ? ->. apply completes_on_err, createCleanupPod_completes. split; eauto. }
  destruct (H w Hw) as (w' & [] & l & Hrun & Hw' & Hl & Hn' & _). by exists w', l.
Qed.

End Progress.
