(* ===== verification/Reference.v ===== *)
(** * Concrete instances

    One implementation of the interfaces [ApiTypes], [Maya] and [Cluster], on which the theorems
    are applied to concrete inputs.  [reference_laws] proves that the documented behaviour asked
    for by [MayaLaws] can be met.  The cluster [demo] answers every request: it has one node, one
    StorageClass and helper pods that succeed at the first poll. *)

From S2P Require Import Prelude GoStrings GoPath KubeApi Client Maya Cluster ClassConfig ConfigParser.
From S2P Require Import Progress.
From S2P Require CachedClient.
Open Scope string_scope. Open Scope list_scope.

#[export] Instance reference_api : ApiTypes := {|
  Quantity := Z; Quantity_zero := 0%Z;
  ParseQuantity := fun s => if String.eqb s "5Gi" then Ret (5 * 2 ^ 30)%Z
                            else Fail (External "quantities must match the regular expression");
  Quantity_String := decZ; Quantity_Value := fun q => q;
  ResourceRequirements := unit; ResourceRequirements_zero := tt; ContainerPort := unit;
  EnvVar := unit; EnvFromSource := unit; Probe := unit; Lifecycle := unit; VolumeDevice := unit;
  OwnerReference := unit; EmptyDirVolumeSource := unit |}.

#[export] Existing Instance sorted_order.

(** ** The packages of maya *)

Definition ref_ConfigToMap (cs : list Config) : outcome error object_map :=
  foldl (fun acc c => m ← acc;
    if String.eqb (config_key c) "" then Fail (ErrNew "missing config name")
    else Ret (<[config_key c := IStrMap (Some (<[EnabledPTP := cfg_Enabled c]>
      {[ValuePTP := cfg_Value c]}))]> m)) (Ret ∅) cs.

(** The parent directory and the last element of a path; an optional final slash is ignored. *)
Definition ref_extract (p fmt : string) (args : list arg) : outcome error (string * string) :=
  let '(d, v) := Split (TrimSuffix p "/") in
  let parent := TrimSuffix d "/" in
  if String.eqb parent "" || String.eqb v "" then Fail (Errorf fmt args) else Ret (parent, v).

Definition ref_build (base rel fmt : string) (args : list arg) : outcome error string :=
  let p := Join2 base rel in
  _ ← ref_extract p fmt args; Ret p.

Definition ref_env (k : string) : string :=
  if String.eqb k "OPENEBS_NAMESPACE" then "openebs"
  else if String.eqb k "OPENEBS_SERVICE_ACCOUNT" then "openebs-maya-operator"
  else "".

(** The annotation of the demonstration StorageClass. *)
Definition demo_annotation : string :=
  config_text [EStorageType "hostpath"; EBasePath "/mnt/data"].

Definition config_entry (n v : string) : Config :=
  {| cfg_Name := n; cfg_Enabled := ""; cfg_Value := v; cfg_Data := None; cfg_List := [] |}.

#[export] Instance reference : Maya := {|
  UnMarshallToConfig := fun s => Ret (parse_config s);
  MergeConfig := fun high low =>
    high ++ filter (fun c => config_key c ∉ map config_key high) low;
  ConfigToMap := ref_ConfigToMap;
  GetNestedField := fun m k => default INil (m !! k);
  MergeMapOfObjects := fun dst src => (src ∪ dst, true);
  RemoveString := fun l s => filter (fun x => x <> s) l;
  BuildNonRootPath := ref_build;
  ExtractNonRootSubPath := ref_extract;
  OpenEBSNamespace := "OPENEBS_NAMESPACE"; OpenEBSServiceAccount := "OPENEBS_SERVICE_ACCOUNT";
  menv_Get := ref_env;
  menv_GetOrDefault := fun k d => if String.eqb (ref_env k) "" then d else ref_env k;
  EventLabelCapacity := "Capacity"; VolumeProvision := "volume-provision";
  VolumeDeprovision := "volume-deprovision";
  BdcBuilder := BlockDeviceClaim;
  bdc_NewBuilder := {| bdc_Name := ""; bdc_Namespace := ""; bdc_Finalizers := [];
                       bdc_BlockDeviceName := ""; bdc_Deleting := false |};
  bdc_WithNamespace := fun n b => b <| bdc_Namespace := n |>;
  bdc_WithName := fun n b => b <| bdc_Name := n |>;
  bdc_WithSelector := fun _ b => b;
  bdc_WithCapacity := fun _ b => b;
  bdc_WithFinalizer := fun f b => b <| bdc_Finalizers ::= fun fs => fs ++ [f] |>;
  bdc_WithBlockVolumeMode := fun _ b => b;
  bdc_Build := fun b => Ret b;
  labels_Set_String := fun m => join ","%char (map (fun kv => kv.1 +:+ "=" +:+ kv.2) (map_to_list m)) |}.

Lemma ref_ConfigToMap_spec cs :
  Forall (fun c => config_key c <> "") cs ->
  exists m, ref_ConfigToMap cs = Ret m /\
    forall key, m !! key =
      (fun c => IStrMap (Some (<[EnabledPTP := cfg_Enabled c]> {[ValuePTP := cfg_Value c]}))) <$>
        last_config key cs.
Proof.
  intros Hcs. unfold ref_ConfigToMap, last_config.
  enough (forall m0 : object_map, exists m, foldl (fun acc c => m ← acc;
      if String.eqb (config_key c) "" then Fail (ErrNew "missing config name")
      else Ret (<[config_key c := IStrMap (Some (<[EnabledPTP := cfg_Enabled c]>
        {[ValuePTP := cfg_Value c]}))]> m)) (Ret m0) cs = Ret m /\
    forall key, m !! key = match last (filter (fun c => config_key c = key) cs) with
      | Some c => Some (IStrMap (Some (<[EnabledPTP := cfg_Enabled c]> {[ValuePTP := cfg_Value c]})))
      | None => m0 !! key end) as H.
  { destruct (H ∅) as (m & -> & Hm). exists m. split; [done|]. intros key. rewrite Hm, lookup_empty.
    by destruct (last _). }
  induction Hcs as [|c cs Hc _ IH]; intros m0; cbn [foldl]; [by exists m0|].
  cbn [mbind outcome_bind]. rewrite (proj2 (String.eqb_neq _ _) Hc).
  destruct (IH (<[config_key c := IStrMap (Some (<[EnabledPTP := cfg_Enabled c]>
    {[ValuePTP := cfg_Value c]}))]> m0)) as (m & -> & Hm).
  exists m. split; [done|]. intros key. rewrite Hm, filter_cons. case_decide as Hk.
  - rewrite last_cons. destruct (last (filter _ cs)); [done|]. subst key. by rewrite lookup_insert_eq.
  - destruct (last (filter _ cs)); [done|]. by rewrite lookup_insert_ne.
Qed.

Lemma ref_ConfigToMap_Fail (e : error) cs :
  foldl (fun acc c => m ← acc;
    if String.eqb (config_key c) "" then Fail (ErrNew "missing config name")
    else Ret (<[config_key c := IStrMap (Some (<[EnabledPTP := cfg_Enabled c]>
      {[ValuePTP := cfg_Value c]}))]> (m : object_map))) (Fail e) cs = Fail e.
Proof. by induction cs. Qed.

Lemma ref_ConfigToMap_blank cs :
  Exists (fun c => config_key c = "") cs -> exists e, ref_ConfigToMap cs = Fail e.
Proof.
  unfold ref_ConfigToMap. generalize (∅ : object_map) as m. intros m Hex. revert m.
  induction Hex as [c cs Hc|c cs _ IH]; intros m; cbn [foldl]; cbn [mbind outcome_bind].
  - rewrite Hc. cbn [String.eqb]. rewrite ref_ConfigToMap_Fail. eauto.
  - destruct (String.eqb (config_key c) ""); [rewrite ref_ConfigToMap_Fail; eauto|apply IH].
Qed.

Lemma ref_extract_spec p fmt args parent vol :
  ref_extract p fmt args = Ret (parent, vol) ->
  parent <> "" /\ vol <> "" /\ has_slash vol = false /\
  (p = parent +:+ "/" +:+ vol \/ p = parent +:+ "/" +:+ vol +:+ "/").
Proof.
  unfold ref_extract. pose proof (Split_app (TrimSuffix p "/")) as Hs.
  pose proof (Split_dir_slash (TrimSuffix p "/")) as Hd.
  destruct (Split (TrimSuffix p "/")) as [d v] eqn:E. destruct Hs as [Hs Hv]. cbn [fst] in Hd.
  destruct (String.eqb_spec (TrimSuffix d "/") "") as [|Hp]; [done|].
  destruct (String.eqb_spec v "") as [|Hne]; [done|]. intros [= <- <-].
  destruct Hd as [->|[d' ->]]; [done|]. rewrite TrimSuffix_app in *.
  split_and!; [done..|]. destruct (TrimSuffix_cases p "/") as [Hc|Hc].
  - right. rewrite Hc, Hs. by rewrite <- !sapp_assoc.
  - left. rewrite <- Hc, Hs. by rewrite <- !sapp_assoc.
Qed.

Lemma ref_build_spec base rel fmt args p :
  ref_build base rel fmt args = Ret p ->
  p = Join2 base rel /\ forall fmt' args', exists e, ref_extract p fmt' args' = Ret e.
Proof.
  unfold ref_build. cbv zeta. destruct (ref_extract (Join2 base rel) fmt args) as [e| |] eqn:He; [|done..].
  intros [= <-]. split; [done|]. intros fmt' args'. exists e. unfold ref_extract in *.
  destruct (Split _) as [d v]. by destruct (_ || _).
Qed.

Lemma ref_no_panic :
  (forall base rel fmt args, ref_build base rel fmt args <> Panic) /\
  (forall p fmt args, ref_extract p fmt args <> Panic).
Proof.
  assert (forall p fmt args, ref_extract p fmt args <> Panic) as H.
  { intros p fmt args. unfold ref_extract. destruct (Split _). by destruct (_ || _). }
  split; [|done]. intros base rel fmt args. unfold ref_build. cbv zeta.
  pose proof (H (Join2 base rel) fmt args). by destruct (ref_extract _ _ _).
Qed.

#[export] Instance reference_laws : MayaLaws reference.
Proof.
  split.
  - done.
  - exact ref_ConfigToMap_spec.
  - exact ref_ConfigToMap_blank.
  - done.
  - done.
  - done.
  - exact ref_build_spec.
  - exact ref_extract_spec.
  - destruct ref_no_panic as [H1 H2]. split_and!; [exact H1|exact H2| |].
    + intros cs. destruct (decide (Forall (fun c => config_key c <> "") cs)) as [H|H].
      * destruct (ref_ConfigToMap_spec cs H) as (m & Hm & _). cbn. by rewrite Hm.
      * apply not_Forall_Exists in H; [|apply _].
        assert (Exists (fun e => config_key e = "") cs) as Hex.
        { eapply Exists_impl; [exact H|]. cbn. intros c. apply dec_stable. }
        destruct (ref_ConfigToMap_blank cs Hex) as (e & He). cbn. by rewrite He.
    + done.
  - done.
Qed.

#[export] Instance reference_text : ConfigText reference.
Proof. intros es _ Hes. cbn. by rewrite parse_config_text. Qed.

(** ** The cluster *)

Definition demo_node : Node :=
  {| node_Meta := ObjectMeta_zero <| Name := "node-1" |>
       <| Labels := Some {[ "kubernetes.io/hostname" := "node-1" ]} |>;
     node_Taints := [] |}.

Definition demo_class : StorageClass :=
  StorageClass_zero <| sc_Meta := ObjectMeta_zero <| Name := "openebs-hostpath" |>
      <| Annotations := Some {[ CASConfigKey := demo_annotation ]} |> |>
    <| sc_Provisioner := "openebs.io/local" |> <| sc_ReclaimPolicy := Some "Delete" |>.

Definition demo_bdc (name device : string) : BlockDeviceClaim :=
  {| bdc_Name := name; bdc_Namespace := "openebs"; bdc_Finalizers := ["local.openebs.io/finalizer"];
     bdc_BlockDeviceName := device; bdc_Deleting := false |}.

(** [phase] is the phase every helper pod is found in, [device] the device of every claim. *)
Definition demo (phase device : string) : Cluster unit := {|
  pods_create := fun _ p s => (s, Ret p);
  pods_get := fun _ n s => (s, Ret (Pod_zero <| pod_Meta := ObjectMeta_zero <| Name := n |> |>
    <| pod_Phase := phase |>));
  pods_delete := fun _ _ s => (s, Ret tt);
  storageclasses_get := fun _ s => (s, Ret demo_class);
  nodes_list := fun _ s => (s, Ret [demo_node]);
  pvs_list := fun _ s => (s, Ret [PersistentVolume_zero]);
  bdcs_get := fun _ n s => (s, Ret (demo_bdc n device));
  bdcs_create := fun _ _ s => (s, Ret tt);
  bdcs_update := fun _ _ s => (s, Ret tt);
  bdcs_delete := fun _ _ s => (s, Ret tt);
  bdcs_add_finalizer := fun _ _ s => (s, Ret tt);
  bds_get := fun _ _ s => (s, Ret {| bd_Mountpoint := ""; bd_Path := "/dev/sdb";
    bd_DevLinks := [{| dl_Kind := "by-id"; dl_Links := ["/dev/disk/by-id/x"] |}] |});
  time_passes := fun _ s => s;
  next_order := fun s => (s, sorted_order) |}.

(** A cluster on which a pod succeeds three seconds after it is created; the state has the seconds
    that the pods still need. *)
Definition slow : Cluster (gmap string nat) := {|
  pods_create := fun _ p s => (<[Name (pod_Meta p) := 3]> s, Ret p);
  pods_get := fun _ n s => (s, match s !! n with
    | Some m => Ret (Pod_zero <| pod_Meta := ObjectMeta_zero <| Name := n |> |>
        <| pod_Phase := if (m =? 0)%nat then PodSucceeded else "Running" |>)
    | None => Fail (External "not found")
    end);
  pods_delete := fun _ n s => (base.delete n s, Ret tt);
  storageclasses_get := fun _ s => (s, Ret demo_class);
  nodes_list := fun _ s => (s, Ret [demo_node]);
  pvs_list := fun _ s => (s, Ret []);
  bdcs_get := fun _ n s => (s, Ret (demo_bdc n ""));
  bdcs_create := fun _ _ s => (s, Ret tt);
  bdcs_update := fun _ _ s => (s, Ret tt);
  bdcs_delete := fun _ _ s => (s, Ret tt);
  bdcs_add_finalizer := fun _ _ s => (s, Ret tt);
  bds_get := fun _ _ s => (s, Fail (External "not found"));
  time_passes := fun n s => (fun m => (m - n)%nat) <$> s;
  next_order := fun s => (s, sorted_order) |}.

Definition slow_live : Live (K := slow) (gmap string nat) 3.
Proof.
  refine {| healthy := fun _ => True; needs := fun s _ nm => s !! nm;
            class_at := fun _ => Some demo_class; node_at := fun _ => Some demo_node |}.
  - intros ns pod s _. eexists _, pod, 3. split; [reflexivity|]. split; [done|].
    split; [apply lookup_insert_eq|lia].
  - intros ns nm n s _ Hn. eexists s, _. cbn. rewrite Hn. split; [reflexivity|].
    split_and!; [done..|]. by intros ->.
  - intros ns nm n s _ Hn. exists n. split; [done|]. split; [|done].
    cbn. rewrite lookup_fmap, Hn. cbn. by rewrite Nat.sub_0_r.
  - done.
  - done.
  - intros nm sc s _ [= <-]. by exists s.
  - intros sel node s _ [= <-]. by exists s.
Defined.

Definition demo_start : World unit := MkWorld [] tt.

(** ** The client of the API *)

#[export] Instance reference_client : ClientGo := {|
  RestConfig := string; KubeClientset := string; DynamicInterface := unit;
  InClusterConfig := Ret "in-cluster";
  BuildConfigFromFlags := fun master path => Ret (master +:+ path);
  NewForConfig := fun c => Ret c;
  NewDynamicForConfig := fun _ => Ret tt;
  env_Get := fun _ => "" |}.

#[export] Instance reference_options : CachedClient.CallOptions := {|
  CachedClient.ListOptions := unit; CachedClient.GetOptions := unit;
  CachedClient.GetOptions_zero := tt; CachedClient.DeleteOptions := unit |}.
