(* ===== verification/Witnesses.v ===== *)
(** * The theorems at concrete inputs

    Each theorem with hypotheses is applied here to one run of the code on the instances of
    [Reference], with its hypotheses evaluated. *)

From Stdlib Require Import QArith Qround.
From S2P Require Import Prelude GoStrings GoPath KubeApi Builder NodeAffinity Maya Cluster.
From S2P Require Import VolumeConfig HelperPods Quota HelperBlockdevice Startup Hostpath.
From S2P Require Import HostpathDelete ProvisionerSpec BlockdeviceSpec ClassLimits.
From S2P Require Import ClassConfig ClassVolume Session Reference.
From S2P Require Import HelperTrace PodTyping Interleaving Progress Process.
From S2P Require Provisioner PersistentVolume HelperHostpath StorageClass.
From S2P Require Import Client.
From S2P Require PersistentVolumeClaim NdmConfig CachedClient PvcClient.
Close Scope Q_scope.
Open Scope string_scope. Open Scope list_scope.

(** A claim, the options of its provisioning, and the provisioner. *)
Definition demo_claim : PersistentVolumeClaim :=
  PersistentVolumeClaim_zero
    <| pvc_Meta := ObjectMeta_zero <| Name := "claim-1" |> |>
    <| pvc_AccessModes := ["ReadWriteOnce"] |>
    <| pvc_Requests := Some {[ "storage" := 5368709120%Z ]} |>
    <| pvc_StorageClassName := Some "openebs-hostpath" |>
    <| pvc_VolumeMode := Some "Filesystem" |>.

Definition demo_options : Provisioner.ProvisionOptions :=
  {| Provisioner.opt_StorageClass := Some demo_class; Provisioner.opt_PVName := "pvc-1";
     Provisioner.opt_PVC := demo_claim; Provisioner.opt_SelectedNode := Some demo_node |}.

Definition cluster : Cluster unit := demo PodSucceeded "".
#[local] Existing Instance cluster.

Definition demo_provisioner : VolumeConfig.Provisioner (W := unit) :=
  {| namespace := "openebs"; helperImage := "openebs/linux-utils:latest";
     defaultConfig := [config_entry KeyPVBasePath "/var/openebs/local"];
     getVolumeConfig := GetVolumeConfig [config_entry KeyPVBasePath "/var/openebs/local"] |}.

Definition demo_run := Provisioner.Provision demo_provisioner demo_options demo_start.

Definition demo_volume : PersistentVolume :=
  match demo_run.2 with Ret (pv, _) => pv | _ => PersistentVolume_zero end.

Definition demo_state := Provisioner.ProvisioningFinished.

Lemma demo_new : Provisioner.NewProvisioner = Ret demo_provisioner.
Proof. reflexivity. Qed.

Lemma demo_provisioned : demo_run = (demo_run.1, Ret (demo_volume, demo_state)).
Proof. vm_compute. reflexivity. Qed.

(** ** Provisioning *)

Lemma Provision_volume_witness :
  Provisioner.NewProvisioner = Ret demo_provisioner /\
  Provisioner.Provision demo_provisioner demo_options demo_start
  = (demo_run.1, Ret (demo_volume, demo_state)) /\
  demo_state = Provisioner.ProvisioningFinished /\ Name (pv_Meta demo_volume) = "pvc-1".
Proof.
  split; [exact demo_new|]. split; [exact demo_provisioned|].
  destruct (Provision_volume demo_provisioner demo_options demo_start _ _ _ demo_new
    demo_provisioned) as (Hst & node & sc & sclass & cs & rp & Ord & labels & _ & _ & _ & _ & _ & _
      & _ & Hpv).
  split; [exact Hst|]. rewrite Hpv. reflexivity.
Defined.

(** A claim for a volume that many nodes write. *)
Definition shared_options : Provisioner.ProvisionOptions :=
  {| Provisioner.opt_StorageClass := Some demo_class; Provisioner.opt_PVName := "pvc-1";
     Provisioner.opt_PVC := demo_claim <| pvc_AccessModes := ["ReadWriteMany"] |>;
     Provisioner.opt_SelectedNode := Some demo_node |}.

Lemma Provision_rejects_witness :
  (~ exists node, acceptable shared_options node) /\
  exists o, Provisioner.Provision demo_provisioner shared_options demo_start = (demo_start, o) /\
    is_Ret o = false.
Proof.
  assert (~ exists node, acceptable shared_options node) as H.
  { intros (node & [_ _ Ha _ _]). cbn in Ha. inversion Ha as [|? ? Hm _]. discriminate Hm. }
  split; [exact H|].
  destruct (Provision_rejects demo_provisioner shared_options demo_start demo_new H)
    as (o & Hrun & Ho).
  exists o. split; [exact Hrun|]. destruct o; [destruct Ho|reflexivity..].
Defined.

(** A session: the volume is provisioned, the cluster changes, and the volume is deleted. *)
Definition demo_session : World unit :=
  serve demo_provisioner (ToDelete demo_volume)
    (MkWorld (trace (serve demo_provisioner (ToProvision demo_options) demo_start)) tt).

Lemma no_helper_pod_left_witness :
  reaches demo_provisioner demo_start [ToProvision demo_options; ToDelete demo_volume] demo_session /\
  (exists l, trace demo_session = trace demo_start ++ l /\ pods_tidy l).
Proof.
  assert (reaches demo_provisioner demo_start [ToProvision demo_options; ToDelete demo_volume]
    demo_session) as H.
  { apply (session_serve _ _ [ToProvision demo_options]), session_change,
      (session_serve _ _ []), session_start. }
  split; [exact H|]. exact (no_helper_pod_left demo_provisioner demo_start _ _ demo_new H).
Defined.

(** Options without a volume mode. *)
Definition modeless_options : Provisioner.ProvisionOptions :=
  {| Provisioner.opt_StorageClass := Some demo_class; Provisioner.opt_PVName := "pvc-1";
     Provisioner.opt_PVC := demo_claim <| pvc_VolumeMode := None |>;
     Provisioner.opt_SelectedNode := Some demo_node |}.

Lemma provisioner_panics_witness :
  let w := Provisioner.Provision demo_provisioner modeless_options demo_start in
  w.2 = Panic /\
  ((exists l, trace w.1 = trace demo_start ++ l /\ crashed l) \/
   exists node, acceptable modeless_options node).
Proof.
  intros w. assert (w.2 = Panic) as H by (vm_compute; reflexivity). split; [exact H|].
  destruct (provisioner_panics demo_provisioner modeless_options demo_volume demo_start w.1 demo_new)
    as [Hp _].
  destruct Hp as [Hc|[(ds & Hds & _)|(node & Ha & _)]].
  - rewrite <- H. apply surjective_pairing.
  - left. exact Hc.
  - discriminate Hds.
  - right. exists node. exact Ha.
Defined.

Definition demo_delete := Provisioner.Delete demo_provisioner demo_volume demo_start.

Lemma demo_deleted : demo_delete = (demo_delete.1, Ret tt).
Proof. vm_compute. reflexivity. Qed.

Lemma demo_not_retained : ~ retained demo_volume.
Proof. vm_compute. discriminate. Qed.

Lemma Delete_result_witness :
  demo_delete = (demo_delete.1, Ret tt) /\
  exists l, trace demo_delete.1 = (delete_event demo_volume, Done) :: l /\
    removed demo_provisioner demo_volume l.
Proof.
  split; [exact demo_deleted|].
  destruct (Delete_result demo_provisioner demo_volume demo_start _ _ demo_deleted)
    as (l & Ht & [[Hr _]|(_ & l' & -> & Hl)]).
  - destruct (demo_not_retained Hr).
  - exists l'. split; [exact Ht|exact Hl].
Defined.

Lemma provision_delete_roundtrip_witness :
  same_volume demo_volume demo_volume /\
  exists parentDir volumeDir pod, "/mnt/data/pvc-1" = parentDir +:+ "/" +:+ volumeDir /\
    c_Command <$> ps_Containers (pod_Spec pod) = [Some ["rm"; "-rf"; "/data/" +:+ volumeDir]] /\
    exists l, trace demo_delete.1 = trace demo_start ++ l /\ ran_pod "openebs" pod l.
Proof.
  assert (same_volume demo_volume demo_volume) as Hs.
  { split; [reflexivity|]. split; [reflexivity|]. exact demo_not_retained. }
  split; [exact Hs|].
  assert (PersistentVolume.GetPath {| PersistentVolume.object := Some demo_volume |}
          = Ret "/mnt/data/pvc-1") as Hp by (vm_compute; reflexivity).
  destruct (provision_delete_roundtrip demo_provisioner demo_options demo_start _ _ _ demo_start _ _ _
    demo_new demo_provisioned Hp eq_refl Hs demo_deleted)
    as (pd & vd & pod1 & pod2 & labels & l1 & l2 & _ & Ht & _ & Hr & Hpath & _ & _ & Hc & _).
  exists pd, vd, pod2. split; [exact Hpath|]. split; [exact Hc|]. exists l2. split; [exact Ht|exact Hr].
Defined.

(** ** The helper pods *)

Definition demo_pod : Pod := Pod_zero <| pod_Meta := ObjectMeta_zero <| Name := "init-pvc-1" |> |>.

Definition demo_exit := HelperHostpath.exitPod demo_provisioner demo_pod demo_start.

Lemma exitPod_lifecycle_witness :
  demo_exit.2 = Ret tt /\
  exists polls a, trace demo_exit.1 = polls ++ [(PodDelete "openebs" "init-pvc-1", a)] /\
    exists pre pod, polls = pre ++ [(PodGet "openebs" "init-pvc-1", APod pod)] /\
      pod_Phase pod = PodSucceeded.
Proof.
  split; [vm_compute; reflexivity|].
  destruct (exitPod_lifecycle demo_provisioner demo_pod demo_start _ _ (surjective_pairing demo_exit))
    as (polls & a & Ht & _ & _ & Hr).
  exists polls, a. split; [exact Ht|]. apply (proj1 Hr). vm_compute. reflexivity.
Defined.

(** The options of the helper pods of the demonstration volume. *)
Definition demo_helper (cmd : list string) (soft hard : string) : HelperHostpath.HelperPodOptions :=
  {| HelperHostpath.nodeAffinityLabels := Some {[ "kubernetes.io/hostname" := "node-1" ]};
     HelperHostpath.name := "pvc-1"; HelperHostpath.cmdsForPath := cmd;
     HelperHostpath.path := "/mnt/data/pvc-1";
     HelperHostpath.serviceAccountName := "openebs-maya-operator";
     HelperHostpath.selectedNodeTaints := []; HelperHostpath.imagePullSecrets := [];
     HelperHostpath.softLimitGrace := soft; HelperHostpath.hardLimitGrace := hard;
     HelperHostpath.pvcStorage := 5368709120 |}.

Definition demo_cleanup :=
  HelperHostpath.createCleanupPod demo_provisioner (demo_helper ["rm"; "-rf"] "" "") demo_start.

Lemma cleanup_stays_below_witness :
  demo_cleanup.2 = Ret tt /\
  exists l, trace demo_cleanup.1 = trace demo_start ++ l /\
    forall ns pod a, (PodCreate ns pod, a) ∈ l ->
    exists parentDir volumeDir, plain_name volumeDir = true /\
      c_Command <$> ps_Containers (pod_Spec pod) = [Some ["rm"; "-rf"; "/data/" +:+ volumeDir]] /\
      ps_Volumes (pod_Spec pod) = [host_directory "data" parentDir; host_directory "dev" "/dev/"].
Proof.
  split; [vm_compute; reflexivity|].
  destruct (cleanup_stays_below demo_provisioner _ _ _ _ (surjective_pairing demo_cleanup))
    as (l & Ht & Hp).
  exists l. split; [exact Ht|]. intros ns pod a Hin.
  destruct (Hp ns pod a Hin) as (pd & vd & target & Ord & _ & _ & _ & _ & -> & Hc & _).
  destruct (Hc "/mnt/data/pvc-1" eq_refl eq_refl) as [Hv ->].
  exists pd, vd. split; [exact Hv|]. split; reflexivity.
Defined.

Definition demo_quota :=
  HelperHostpath.createQuotaPod demo_provisioner (demo_helper [] "90%" "50%") demo_start.

(** A soft limit above the hard limit: no pod is asked for. *)
Lemma quota_pod_checked_witness :
  is_Ret (HelperHostpath.resolve_limits (demo_helper [] "90%" "50%")) = false /\
  trace demo_quota.1 = trace demo_start /\ is_Ret demo_quota.2 = false.
Proof.
  assert (is_Ret (HelperHostpath.resolve_limits (demo_helper [] "90%" "50%")) = false) as H
    by (vm_compute; reflexivity).
  split; [exact H|].
  destruct (quota_pod_checked demo_provisioner _ _ _ _ (surjective_pairing demo_quota))
    as (l & Ht & Hl & _).
  destruct (Hl H) as [-> Hr]. split; [exact Ht|exact Hr].
Defined.

(** ** The limits *)

Lemma convertToK_bounds_witness :
  HelperHostpath.convertToK "150%" 5368709120 = Ret "10485760k" /\
  exists k, "10485760k" = in_k k /\ Z.of_N k = ceil_k (2 * 5368709120).
Proof.
  assert (HelperHostpath.convertToK "150%" 5368709120 = Ret "10485760k") as H
    by (vm_compute; reflexivity).
  split; [exact H|].
  destruct (convertToK_bounds "150%" 5368709120 "10485760k") as [[Hn _]|(v & k & Hv & Hk & _ & _ & Hc)].
  - lia.
  - exact H.
  - discriminate Hn.
  - exists k. split; [exact Hk|]. apply Hc. injection Hv as <-. vm_compute. discriminate.
Defined.

Lemma convertToK_monotone_witness :
  exists k1 k2, "5242880k" = in_k k1 /\ "9437184k" = in_k k2 /\ (k1 <= k2)%N.
Proof.
  eapply (convertToK_monotone "0%" "80%" 5368709120).
  - lia.
  - vm_compute. reflexivity.
  - vm_compute. reflexivity.
  - vm_compute. discriminate.
  - vm_compute. reflexivity.
  - vm_compute. reflexivity.
Defined.

Lemma resolve_limits_spec_witness :
  let o := demo_helper [] "50%" "80%" in
  exists s h,
    limit_k "50%" 5368709120 = Some s /\ limit_k "80%" 5368709120 = Some h /\
    HelperHostpath.resolve_limits o = if (s =? 0)%N && (h =? 0)%N then
        let k := in_k (Z.to_N (Qceiling (GoFloat.fdiv (GoFloat.of_int 5368709120) 1024%Q))) in
        Ret (o <| HelperHostpath.softLimitGrace := k |> <| HelperHostpath.hardLimitGrace := k |>)
      else if negb (s =? 0)%N && negb (h =? 0)%N && (h <? s)%N then
        Fail (Errorf "hard limit cannot be smaller than soft limit" [])
      else Ret (o <| HelperHostpath.softLimitGrace := in_k s |>
                  <| HelperHostpath.hardLimitGrace := in_k h |>).
Proof.
  intros o. apply (resolve_limits_spec o); [discriminate|vm_compute; reflexivity..].
Defined.

(** ** Startup and lookups *)

Definition demo_upgrade := performPreupgradeTasks (W := unit) demo_start.

Lemma preupgrade_adds_finalizers_witness :
  demo_upgrade.2 = Ret tt /\
  exists l pvs ls, trace demo_upgrade.1 = trace demo_start ++ l /\
    l = (PVList "openebs.io/cas-type=local-device", APVs pvs) :: concat ls /\
    Forall2 (upgraded "openebs") pvs ls.
Proof.
  assert (demo_upgrade.2 = Ret tt) as H by (vm_compute; reflexivity). split; [exact H|].
  destruct (preupgrade_adds_finalizers _ _ _ (surjective_pairing demo_upgrade)) as (l & Ht & Ho).
  rewrite H in Ho. destruct Ho as (pvs & ls & Hl & Hf).
  exists l, pvs, ls. split; [exact Ht|]. split; [exact Hl|exact Hf].
Defined.

Definition demo_lookup :=
  Provisioner.GetNodeObjectFromLabels (W := unit)
    (Some {[ "kubernetes.io/hostname" := "node-1" ]}) demo_start.

Lemma node_found_iff_unique_witness :
  demo_lookup.2 = Ret demo_node /\
  trace demo_lookup.1 = [(NodeList "kubernetes.io/hostname=node-1", ANodes [demo_node])].
Proof.
  assert (demo_lookup.2 = Ret demo_node) as H by (vm_compute; reflexivity). split; [exact H|].
  destruct (node_found_iff_unique _ _ _ _ (surjective_pairing demo_lookup)) as (a & Ht & Hn & _).
  apply Hn in H. subst a. exact Ht.
Defined.

Lemma image_pull_secrets_roundtrip_witness :
  Forall secret_name ["regcred"; "mirror"] /\
  lor_Name <$> GetImagePullSecrets "regcred,mirror" = ["regcred"; "mirror"].
Proof.
  assert (Forall secret_name ["regcred"; "mirror"]) as H
    by (repeat (constructor; [split; [discriminate|split; reflexivity]|]); constructor).
  split; [exact H|]. exact (image_pull_secrets_roundtrip _ H).
Defined.

Definition demo_entries := [config_entry KeyPVBasePath "/var/openebs/local"].

Definition demo_config := GetVolumeConfig (W := unit) demo_entries "pvc-1" demo_claim demo_start.

(** The base path of the StorageClass wins over the default. *)
Lemma GetVolumeConfig_merges_witness :
  exists c, demo_config = (demo_config.1, Ret c) /\
    scName c = "openebs-hostpath" /\ getValue c KeyPVBasePath = "/mnt/data".
Proof.
  assert (exists c, demo_config = (demo_config.1, Ret c)) as [c H]
    by (eexists; vm_compute; reflexivity).
  exists c. split; [exact H|].
  destruct (GetVolumeConfig_merges _ _ _ _ _ _ H)
    as (sc & cs & Hn & Ht & _ & _ & Hm & Hv & _).
  injection Hn as Hn. split; [symmetry; exact Hn|].
  rewrite <- Hn in Ht. vm_compute in Ht. injection Ht as <-. vm_compute in Hm. injection Hm as <-. rewrite (proj1 (Hv _)). reflexivity.
Defined.

Lemma affinity_roundtrip_witness :
  let labels : gmap string string := {[ "kubernetes.io/hostname" := "node-1" ]} in
  nonempty_labels labels <> ∅ /\
  PersistentVolume.GetAffinitedNodeHostname
    {| PersistentVolume.object := Some (b_obj
         (PersistentVolume.WithNodeAffinity sorted_order (Some labels) PersistentVolume.NewBuilder)) |}
  = Ret "node-1".
Proof.
  intros labels. assert (nonempty_labels labels <> ∅) as H by (vm_compute; discriminate).
  split; [exact H|].
  destruct (PersistentVolume.affinity_roundtrip sorted_order labels PersistentVolume.NewBuilder H)
    as (_ & _ & Hh). exact Hh.
Defined.

(** ** Block devices *)

(** A cluster in which every claim is bound to a device. *)
Definition device_cluster : Cluster unit := demo PodSucceeded "blockdevice-1".

Definition demo_device (claim : string) : HelperBlockDeviceOptions :=
  {| nodeHostname := "node-1"; name := "pvc-1"; nodeAffinityLabels := None; capacity := "5Gi";
     bdcName := claim; volumeMode := "Filesystem"; bdSelectors := None |}.

Lemma device_path_spec_witness :
  let bd := {| bd_Mountpoint := ""; bd_Path := "/dev/sdb"; bd_DevLinks :=
    [{| dl_Kind := "by-id"; dl_Links := ["/dev/disk/by-id/a"] |};
     {| dl_Kind := "by-id"; dl_Links := ["/dev/disk/by-id/b"; "/dev/disk/by-id/c"] |}] |} in
  Forall (fun d => dl_Links d <> []) (bd_DevLinks bd) /\
  device_path bd = Ret "/dev/disk/by-id/b".
Proof.
  intros bd. assert (Forall (fun d => dl_Links d <> []) (bd_DevLinks bd)) as H
    by (repeat (constructor; [discriminate|]); constructor).
  split; [exact H|]. exact (device_path_spec bd H).
Defined.

Definition demo_unclaim := deleteBlockDeviceClaim demo_provisioner (demo_device "bdc-pvc-1") demo_start.

Lemma claim_deleted_after_finalizer_witness :
  demo_unclaim.2 = Ret tt /\
  exists b, trace demo_unclaim.1 =
    [(BdcGet "openebs" "bdc-pvc-1", ABdc b);
     (BdcUpdate "openebs" (without_finalizer b), Done);
     (BdcDelete "openebs" "bdc-pvc-1", Done)].
Proof.
  assert (demo_unclaim.2 = Ret tt) as H by (vm_compute; reflexivity). split; [exact H|].
  destruct (claim_deleted_after_finalizer _ _ _ _ _ (surjective_pairing demo_unclaim))
    as (l & Ht & _ & Hr & _).
  destruct (Hr H eq_refl) as [b Hl]. exists b. rewrite Hl in Ht. exact Ht.
Defined.

Definition demo_claimed := createBlockDeviceClaim demo_provisioner (demo_device "") demo_start.

Lemma claim_created_once_witness :
  exists o', demo_claimed = (demo_claimed.1, Ret o') /\
    o' = (demo_device "") <| bdcName := "bdc-pvc-1" |>.
Proof.
  assert (exists o', demo_claimed = (demo_claimed.1, Ret o')) as [o' H]
    by (eexists; vm_compute; reflexivity).
  exists o'. split; [exact H|]. exact (proj1 (claim_created_once _ _ _ _ _ H)).
Defined.

Definition demo_path :=
  getBlockDevicePath (K := device_cluster) demo_provisioner 3 (demo_device "bdc-pvc-1") demo_start.

Lemma device_or_claim_given_back_witness :
  (exists o, demo_path.2 = Ret ("", "/dev/disk/by-id/x", o)) /\
  exists l, trace demo_path.1 = trace demo_start ++ l /\
    exists lc lw found rest, waiting "openebs" "bdc-pvc-1" 3 lw found /\ l = lc ++ lw ++ rest.
Proof.
  assert (exists o, demo_path.2 = Ret ("", "/dev/disk/by-id/x", o)) as H
    by (eexists; vm_compute; reflexivity).
  split; [exact H|]. destruct H as [o H].
  destruct (device_or_claim_given_back (K := device_cluster) demo_provisioner 3
    (demo_device "bdc-pvc-1") demo_start _ _ (surjective_pairing demo_path))
    as (l & Ht & [[Hh _]|(lc & lw & found & rest & Hl & _ & Hw & _)]).
  - discriminate Hh.
  - exists l. split; [exact Ht|]. exists lc, lw, found, rest. split; [exact Hw|exact Hl].
Defined.

(** ** Storage classes *)

Definition demo_class_ops : list Op :=
  [OpName "openebs-hostpath"; OpLocalPV; OpHostpath "/mnt/data"; OpQuota true "50%" "80%";
   OpReclaimPolicy ""; OpNodeAffinityLabels ["kubernetes.io/hostname"]].

Lemma demo_class_plain : Forall plain_op demo_class_ops.
Proof. repeat constructor. Qed.

Definition built_class : StorageClass :=
  match StorageClass.NewStorageClass (map apply demo_class_ops) with Ret sc => sc | _ => StorageClass_zero end.

Lemma built_class_eq : StorageClass.NewStorageClass (map apply demo_class_ops) = Ret built_class.
Proof. vm_compute. reflexivity. Qed.

Lemma accepted_limits_convert_witness :
  StorageClass.isValidQuotaData (Some (<[StorageClass.KeyQuotaSoftLimit := ".5%"]>
    {[StorageClass.KeyQuotaHardLimit := "80.25%"]})) = true /\
  exists k1 k2, HelperHostpath.convertToK ".5%" 5368709120 = Ret (in_k k1) /\
    HelperHostpath.convertToK "80.25%" 5368709120 = Ret (in_k k2).
Proof.
  assert (StorageClass.isValidQuotaData (Some (<[StorageClass.KeyQuotaSoftLimit := ".5%"]>
    {[StorageClass.KeyQuotaHardLimit := "80.25%"]})) = true) as H by (vm_compute; reflexivity).
  split; [exact H|]. apply accepted_limits_convert; [lia|exact H].
Defined.

Lemma class_build_witness :
  Forall plain_op demo_class_ops /\
  exists sp, spec_run demo_class_ops spec_zero = Some sp /\
    StorageClass.NewStorageClass (map apply demo_class_ops) = Ret (concretize sp).
Proof.
  split; [exact demo_class_plain|].
  pose proof (class_build demo_class_ops demo_class_plain) as H.
  assert (exists sp, spec_run demo_class_ops spec_zero = Some sp) as [sp Hsp]
    by (eexists; vm_compute; reflexivity).
  exists sp. split; [exact Hsp|]. rewrite Hsp in H. exact H.
Defined.

(** The quota option after the node labels. *)
Lemma nothing_follows_node_labels_witness :
  exists e, StorageClass.NewStorageClass (map apply
    ([OpHostpath "/mnt/data"] ++ OpNodeAffinityLabels ["zone"] :: [] ++ OpQuota true "" "" :: [])) = Fail e.
Proof.
  apply nothing_follows_node_labels; [repeat constructor|discriminate].
Defined.

Definition built_cluster : Cluster unit := {|
  pods_create := pods_create; pods_get := pods_get; pods_delete := pods_delete;
  storageclasses_get := fun _ s => (s, Ret built_class);
  nodes_list := nodes_list; pvs_list := pvs_list; bdcs_get := bdcs_get; bdcs_create := bdcs_create;
  bdcs_update := bdcs_update; bdcs_delete := bdcs_delete; bdcs_add_finalizer := bdcs_add_finalizer;
  bds_get := bds_get; time_passes := time_passes; next_order := next_order |}.

Definition built_config :=
  GetVolumeConfig (W := unit) (K := built_cluster) demo_entries "pvc-1" demo_claim demo_start.

Lemma class_configures_witness :
  exists c, built_config = (built_config.1, Ret c) /\
    getValue c KeyPVBasePath = "/mnt/data" /\ IsXfsQuotaEnabled c = true /\
    getDataField c KeyXFSQuota KeyQuotaHardLimit = "80%" /\
    GetNodeAffinityLabelKeys c = Some ["kubernetes.io/hostname"].
Proof.
  assert (exists c, built_config = (built_config.1, Ret c) /\ trace built_config.1
    = trace demo_start ++ [(StorageClassGet (scName c), AStorageClass built_class)]) as (c & H & Ht)
    by (eexists; split; vm_compute; reflexivity).
  destruct (class_configures (K := built_cluster) demo_class_ops built_class demo_entries "pvc-1"
    demo_claim demo_start _ c demo_class_plain built_class_eq H Ht) as (Hd & Hx & _ & Hk & _).
  exists c. split; [exact H|].
  split; [apply Hd; right; right; left|].
  destruct (Hx "50%" "80%") as (H1 & _ & H3); [right; right; right; left|].
  split; [exact H1|]. split; [exact H3|].
  rewrite (Hk ["kubernetes.io/hostname"]); [reflexivity|do 5 right; left].
Defined.

(** ** Lists of claims, and the path filter *)

Lemma pvc_list_from_template_witness :
  (0 < 2)%Z /\
  PersistentVolumeClaim.APIList (PersistentVolumeClaim.WithCount 2
    (PersistentVolumeClaim.ListBuilderFromTemplate (Some 0))) {[ 0 := demo_claim ]}
  = (PersistentVolumeClaim.WithCount 2 (PersistentVolumeClaim.List (PersistentVolumeClaim.WithCount 2
      (PersistentVolumeClaim.ListBuilderFromTemplate (Some 0))) {[ 0 := demo_claim ]}).1,
     Ret [demo_claim; demo_claim]).
Proof.
  split; [lia|].
  destruct (PersistentVolumeClaim.pvc_list_from_template 0 2 {[ 0 := demo_claim ]} eq_refl) as [_ H].
  exact (H 2%Z {[ 0 := demo_claim ]} demo_claim eq_refl).
Defined.

Definition demo_filter : NdmConfig.Config := {|
  NdmConfig.ProbeConfigs := [];
  NdmConfig.FilterConfigs := [{| NdmConfig.Key := "path-filter"; NdmConfig.Name := "path filter";
    NdmConfig.State := "true"; NdmConfig.IncludeList := "";
    NdmConfig.ExcludeList := "/dev/fd0,/dev/sr0" |}];
  NdmConfig.TagConfigs := [] |}.

Lemma path_filter_roundtrip_witness :
  exists c', NdmConfig.AppendToPathFilter NdmConfig.Exclude "/dev/loop9000" (Some demo_filter) = Ret c'
    /\ map NdmConfig.ExcludeList (NdmConfig.FilterConfigs c') = ["/dev/fd0,/dev/sr0,/dev/loop9000"]
    /\ NdmConfig.RemoveFromPathFilter NdmConfig.Exclude "/dev/loop9000" (Some c') = Ret demo_filter.
Proof.
  eexists. split; [vm_compute; reflexivity|]. split; [reflexivity|].
  edestruct (NdmConfig.path_filter_roundtrip NdmConfig.Exclude "/dev/loop9000" demo_filter)
    as (i & f & Hf & Hr); [discriminate|reflexivity|vm_compute; reflexivity|].
  apply Hr. injection Hf as <- <-. reflexivity.
Defined.

(** ** The client of claims: the second of three claims is not created. *)

Definition create_claim (_ : KubeClientset) (ns : string) (pvc : PersistentVolumeClaim) :
    M (list string) error PersistentVolumeClaim := fun w =>
  if String.eqb (Name (pvc_Meta pvc)) "b" then (w, Fail (External "already exists"))
  else (w ++ [ns +:+ "/" +:+ Name (pvc_Meta pvc)], Ret pvc).

Definition named_claim (n : string) : PersistentVolumeClaim :=
  PersistentVolumeClaim_zero <| pvc_Meta := ObjectMeta_zero <| Name := n |> |>.

Definition demo_claims : list PersistentVolumeClaim := map named_claim ["a"; "b"; "c"].

Definition demo_client : PvcClient.Kubeclient (W := list string) := {|
  CachedClient.clientset := Some ("cs" : KubeClientset); CachedClient.kubeConfigPath := "";
  CachedClient.getClientset := None; CachedClient.getClientsetForPath := None;
  CachedClient.fields := {| PvcClient.namespace := "ns"; PvcClient.list_ := None;
    PvcClient.get := None; PvcClient.create := Some create_claim; PvcClient.update := None;
    PvcClient.del := None; PvcClient.delCollection := None |} |}.

Lemma claims_created_in_order_witness :
  exists n, PvcClient.CreateCollection (Some demo_claims) (CachedClient.MkState demo_client [] [])
    = (CachedClient.MkState demo_client
         (map (fun pvc => CachedClient.Called ("cs" : KubeClientset) "create" (Some "ns") (Name (pvc_Meta pvc)))
              (take n demo_claims)) ["ns/a"], Fail (External "already exists")) /\ n = 2.
Proof.
  destruct (PvcClient.claims_created_in_order demo_claims create_claim "cs" [] [] demo_client
    ltac:(discriminate) eq_refl eq_refl) as (n & H & Hn).
  exists n. split; [exact H|]. destruct Hn as (i & item & w1 & objs & -> & Hi & Ht & Hg).
  destruct i as [|[|[|i]]]; [|reflexivity| |discriminate Hi].
  - exfalso. injection Ht as <- <-. injection Hi as <-. discriminate Hg.
  - exfalso. discriminate Ht.
Defined.

(** ** The objects, the workers, and progress *)

Lemma objects_well_formed_witness :
  wf_persistent_volume demo_volume = true /\
  exists l, trace demo_session = trace demo_start ++ l /\
    forall ns pod a, (PodCreate ns pod, a) ∈ l -> wf_pod pod = true.
Proof.
  destruct (objects_well_formed demo_provisioner demo_new) as [Hs Hv]. split.
  - exact (Hv demo_options demo_start _ _ _ demo_provisioned).
  - apply (Hs _ [ToProvision demo_options; ToDelete demo_volume]).
    apply (session_serve _ _ [ToProvision demo_options]), session_change,
      (session_serve _ _ []), session_start.
Defined.

(** Two workers that take turns. *)
Fixpoint in_turns {X} (l k : list X) : list X :=
  match l, k with
  | x :: l, y :: k => x :: y :: in_turns l k
  | [], k => k
  | l, [] => l
  end.

Lemma interleaved_one {X} (l k : list X) : interleaved [l; k] (l ++ k).
Proof.
  induction l as [|x l IH]; cbn.
  - induction k as [|y k IH]; [by repeat constructor|].
    apply (interleaved_step _ 1 y k); [done|exact IH].
  - apply (interleaved_step _ 0 x l); [done|exact IH].
Qed.

Lemma interleaved_in_turns {X} (l k : list X) : interleaved [l; k] (in_turns l k).
Proof.
  revert k. induction l as [|x l IH]; intros k; [apply (interleaved_one [] k)|].
  destruct k as [|y k]; cbn [in_turns].
  - rewrite <- (app_nil_r (x :: l)) at 2. apply interleaved_one.
  - apply (interleaved_step _ 0 x l); [done|].
    apply (interleaved_step _ 1 y k); [done|exact (IH k)].
Qed.

(** The names of the pods that were created are those that were asked for. *)
Definition names_kept_b (l : Trace) : bool :=
  forallb (fun c => match c with
    | (PodCreate _ pod, APod hp) => String.eqb (Name (pod_Meta hp)) (Name (pod_Meta pod))
    | _ => true
    end) l.

Lemma names_kept_true l : names_kept_b l = true -> names_kept l.
Proof.
  intros H ns pod hp Hin. apply forallb_Forall_true in H. rewrite Forall_forall in H.
  by apply String.eqb_eq, (H _ Hin).
Qed.

Definition other_options : Provisioner.ProvisionOptions :=
  {| Provisioner.opt_StorageClass := Some demo_class; Provisioner.opt_PVName := "pvc-2";
     Provisioner.opt_PVC := demo_claim; Provisioner.opt_SelectedNode := Some demo_node |}.

Definition worker_calls (opts : Provisioner.ProvisionOptions) : list (Call * Answer) :=
  trace (serve demo_provisioner (ToProvision opts) demo_start).

Lemma demo_worker opts : worker [Provisioner.opt_PVName opts] (worker_calls opts).
Proof.
  exists unit, cluster, demo_provisioner, demo_start, [ToProvision opts],
    (serve demo_provisioner (ToProvision opts) demo_start).
  split; [exact demo_new|]. split; [apply (session_serve _ _ []), session_start|].
  split; [done|]. constructor; [|done]. by left.
Qed.

Lemma workers_do_not_meet_witness :
  exists lives, calls_about "openebs" "init-pvc-1"
      (in_turns (worker_calls demo_options) (worker_calls other_options)) = concat lives /\
    Forall (pod_life "openebs" "init-pvc-1") lives.
Proof.
  apply (workers_do_not_meet [(["pvc-1"], worker_calls demo_options);
    (["pvc-2"], worker_calls other_options)]).
  - constructor; [exact (demo_worker demo_options)|].
    constructor; [exact (demo_worker other_options)|constructor].
  - intros [|[|i]] [|[|j]] wi wj vol Hi Hj Hv Hv'; try reflexivity; try discriminate Hi;
      try discriminate Hj; injection Hi as <-; injection Hj as <-;
      apply list_elem_of_singleton in Hv; apply list_elem_of_singleton in Hv'; congruence.
  - apply interleaved_in_turns.
  - apply names_kept_true. vm_compute. reflexivity.
Defined.

(** On the cluster whose pods need three seconds. *)
Definition slow_provisioner : VolumeConfig.Provisioner (W := gmap string nat) :=
  {| namespace := "openebs"; helperImage := "openebs/linux-utils:latest";
     defaultConfig := [config_entry KeyPVBasePath "/var/openebs/local"];
     getVolumeConfig := GetVolumeConfig (K := slow)
       [config_entry KeyPVBasePath "/var/openebs/local"] |}.

Definition slow_entries : list Maya.Config :=
  match merged_config (mget_str (Annotations (sc_Meta demo_class)) CASConfigKey)
    (defaultConfig slow_provisioner) with Ret cs => cs | _ => [] end.

Lemma slow_in_order :
  in_order slow_provisioner demo_options demo_node slow_entries "/mnt/data/pvc-1".
Proof.
  split.
  - apply check_claim_Ret. vm_compute. reflexivity.
  - exists "Filesystem". split; [reflexivity|discriminate].
  - exists demo_class, "Delete". split; reflexivity.
  - discriminate.
  - discriminate.
  - right. vm_compute. reflexivity.
  - vm_compute. discriminate.
  - intros fmt args. vm_compute. reflexivity.
  - exists k8sNodeLabelKeyHostname. split; [by left|vm_compute; discriminate].
  - intros key Hkey Hon. exfalso. unfold entry_on in Hon.
    apply elem_of_cons in Hkey as [->|Hkey]; [by vm_compute in Hon|].
    apply list_elem_of_singleton in Hkey as ->. by vm_compute in Hon.
  - discriminate.
  - discriminate.
Qed.

Lemma Provision_completes_witness :
  exists w' pv l,
    Provisioner.Provision (K := slow) slow_provisioner demo_options (MkWorld [] ∅)
      = (w', Ret (pv, Provisioner.ProvisioningFinished)) /\
    trace w' = l /\ (slept l <= 9)%nat.
Proof.
  destruct (Provision_completes (K := slow) (V := slow_live) ltac:(unfold HelperHostpath.CmdTimeoutCounts; lia)
    slow_provisioner demo_options demo_node "openebs-hostpath" demo_class slow_entries
    "/mnt/data/pvc-1" (MkWorld [] ∅) eq_refl eq_refl eq_refl) as (w' & pv & l & H1 & H2 & H3 & _).
  - vm_compute. reflexivity.
  - repeat constructor; discriminate.
  - exact slow_in_order.
  - exact I.
  - exists w', pv, l. split; [exact H1|]. split; [exact H2|exact H3].
Defined.

Lemma slow_removable :
  removable (K := slow) (V := slow_live) slow_provisioner demo_volume "/mnt/data/pvc-1"
    {[ "kubernetes.io/hostname" := "node-1" ]} demo_node.
Proof.
  split.
  - exact demo_not_retained.
  - vm_compute. discriminate.
  - vm_compute. reflexivity.
  - eexists. vm_compute. reflexivity.
  - vm_compute. reflexivity.
  - vm_compute. discriminate.
  - reflexivity.
  - discriminate.
  - discriminate.
Qed.

Lemma Delete_completes_witness :
  exists w' l, Provisioner.Delete (K := slow) slow_provisioner demo_volume (MkWorld [] ∅)
      = (w', Ret tt) /\ trace w' = l /\ (slept l <= 3)%nat.
Proof.
  destruct (Delete_completes (K := slow) (V := slow_live)
    ltac:(unfold HelperHostpath.CmdTimeoutCounts; lia) slow_provisioner demo_volume _ _ _
    (MkWorld [] ∅) slow_removable I) as (w' & l & H1 & H2 & H3 & _).
  exists w', l. split; [exact H1|]. split; [exact H2|exact H3].
Defined.

(** ** The process *)

Definition set_known (name value : string) (fs : gmap string string) : option (gmap string string) :=
  match fs !! name with Some _ => Some (<[name := value]> fs) | None => None end.

(** Arguments that ask for a flush every second; the controller returns at once. *)
Definition demo_runtime : Runtime (W := unit) := {|
  klog_InitFlags := fun fs => <["logtostderr" := "true"]> (<["alsologtostderr" := "false"]> fs);
  flag_Set := set_known;
  AddGoFlagSet := fun go fs => fs ∪ go;
  AddFlagSet := fun new fs => fs ∪ new;
  Flags := fun _ => ∅;
  pflag_Parse := fun fs => inl fs;
  duration_flag := fun _ _ => 1000000000%Z;
  Execute := fun cmd => _ ← Run cmd; mret None;
  CheckErr_Fatal := fun e => match e with Some _ => os_Exit 1 | None => mret tt end;
  fatal_code := fun _ => 1%Z;
  mKube_Clientset := Ret tt;
  os_Getenv := fun _ => "";
  Truthy_OpenEBSEnableAnalytics := true;
  ProvisionController := fun _ _ _ => mret tt |}.

Lemma demo_runtime_laws : RuntimeLaws (R := demo_runtime).
Proof. split; done. Qed.

Definition demo_process : Process unit :=
  {| flag_CommandLine := ∅; pflag_CommandLine := {[ "log-flush-frequency" := "5s" ]};
     defaultFlushInterval := KLOG_FLUSH_INTERVAL; logFlushFreq := KLOG_FLUSH_INTERVAL;
     loggerKillSwitch_closed := false; events := []; world := demo_start |}.

Definition demo_start_run := Start (Ret tt) (fun _ => "") true (fun _ _ _ => mret tt) demo_start.

Lemma demo_starts : demo_start_run.2 = Ret tt.
Proof. vm_compute. reflexivity. Qed.

Lemma process_runs_witness :
  exists s', process (R := demo_runtime) demo_process = (s', Fail (Exit 0)) /\
    events s' = [FlagsParsed; LogOutputSet; LogFlagsSet 0; FlusherStarted 1000000000;
                 KillSwitchClosed; Flushed].
Proof.
  destruct (process (R := demo_runtime) demo_process) as [s' o] eqn:Hrun. exists s'.
  apply (process_runs (RL := demo_runtime_laws)) in Hrun; [|by split; [|split]].
  pose proof demo_starts as Hstart. unfold demo_start_run in Hstart. cbn [pflag_Parse demo_runtime] in Hrun. cbv zeta in Hrun.
  cbn [world demo_process mKube_Clientset os_Getenv Truthy_OpenEBSEnableAnalytics
    ProvisionController demo_runtime] in Hrun.
  destruct (Start _ _ _ _ _) as [w r]. cbn [snd] in Hstart. subst r.
  destruct Hrun as (_ & He & Ho). split; [by rewrite Ho|]. rewrite He. reflexivity.
Defined.

Lemma controller_starts_last_witness :
  demo_start_run.2 = Ret tt /\
  exists pvs ls, trace demo_start_run.1
    = (PVList "openebs.io/cas-type=local-device", APVs pvs) :: concat ls ++ install_trace.
Proof.
  pose proof demo_starts as H. split; [exact H|].
  destruct (controller_starts_last (Ret tt) (fun _ => "") true (fun _ _ _ => mret tt) demo_start _ _
    (surjective_pairing demo_start_run)) as [(p & pvs & ls & w1 & _ & _ & Ht & _ & Hw & _)|[Hn _]].
  - exists pvs, ls. rewrite <- Hw. exact Ht.
  - destruct (Hn H).
Defined.
